(* ===== verification/_CoqProject ===== *)
-Q . S2P
Prelude.v
Types.v
Sectors.v
Engine.v
Nt.v
Pipeline.v
Volume.v
Thread.v
Xts.v
Metadata.v
Codec.v
Store.v
StoreLaws.v
Interrupted.v
Filter.v
DataPath.v
Io.v
Config.v
Handover.v
Loader.v
Registry.v
Manager.v
Provider.v
Dispatch.v
Attach.v
AttachLaws.v
Durable.v
BindLaws.v
BootMount.v
AttachRun.v
DetachRun.v
Prepare.v
Fallback.v
OsVolume.v
SampleDriver.v
DriverDemo.v
SampleLaws.v
BootChain.v
Lifetime.v
