(* ===== verification/Prelude.v ===== *)
(** * volumecrypt-kit: full-volume encryption for Windows, verified

    volumecrypt-kit encrypts a volume in place under a running system. A
    background sweep moves a _boundary_ over the data region: sectors below it are
    ciphertext, sectors at or above it are plaintext, and every READ or WRITE is
    split at the boundary and transformed on the encrypted side only. The boundary,
    the sweep's direction and the sealed keys live in replicated 512-byte JVCK
    metadata blocks on the volume. A UEFI loader reads them to decrypt the OS
    volume during boot and hands the key to the driver in memory; the driver mounts
    the volume when its device starts. What the program owes its user is that the
    volume always reads as the plaintext disk it was, through any interleaving of
    requests and sweep, across reboots and interrupted updates.

    This file documents the whole development; after this header it holds the
    vocabulary shared by every part: outcomes of Rust code (a value, an error
    value, or a panic), the state-and-outcome monad [M] every stateful operation
    is written in, bytes and little-endian integers, slices and splices of buffers,
    machine-width arithmetic, and the automation the parts share.

    ** The parts, and the code they model

    Shared ([src/lib/common/src], [src/sample/common/src]):
    - [Types]: error.rs, types.rs, rng.rs, cpu.rs, ioctl.rs, jvck/options.rs and
      the control codes of lib/windrv ioctl/codes.rs.
    - [Sectors]: the traits of store.rs and types.rs ([SectorIo],
      [EncryptedOffsetStore], [VolumeCipher], [VolumeCipherSupplier]) as records of
      operations over a world, each with a class of laws, and the operations on
      buffers cut into sectors.
    - [Xts]: xts.rs, and the driver's wrapper crypto/aes_xts.rs.
    - [Metadata], [Codec]: jvck/metadata.rs and jvck/codec.rs.
    - [Store], [StoreLaws]: jvck/store.rs and its laws; [Interrupted]: the sweep's engine
      over that store when the power goes.
    - [Config]: sample/common config.rs.
    - [Handover]: handover/payload.rs, the sample's payload.rs, and the two sides
      lib/loader handover.rs and lib/windrv handover.rs.

    Driver library ([src/lib/windrv/src]):
    - [Engine]: offset/engine.rs; [Pipeline]: crypto/pipeline.rs.
    - [Nt]: nt.rs; [Io]: io.rs.
    - [Volume]: the attached volume (registry.rs, provider.rs) and the processing
      of one request (filter/volume_thread.rs); [Thread]: the rest of
      volume_thread.rs.
    - [Filter]: filter/io.rs and the device extension of filter/manager.rs;
      [DataPath]: the filter's dispatch, the volume's thread and the volume as one
      system.
    - [Registry], [Manager]: registry.rs and filter/manager.rs.
    - [Provider]: provider.rs, rng.rs and the sample's provider.rs.
    - [Dispatch], [Attach]: ioctl/types.rs, ioctl/dispatch.rs and
      filter/handover_mount.rs.

    Programs ([src/sample]):
    - [Loader]: lib/loader and sample/loader, the Block I/O hook and the boot flow.
    - [SampleDriver]: sample/windrv lib.rs and lib/windrv device.rs, the driver as
      a state machine.

    Laws of the composed driver: [AttachLaws] (frames and invariants of the
    handlers), [Durable] (what keeps a disk's metadata that of a volume), [BindLaws]
    (a store becomes a bound volume), [BootMount] and [Prepare] (the ways to bind one),
    [AttachRun] and [Fallback] (the two ways that end short of it), [DetachRun],
    [OsVolume], [SampleLaws];
    [BootChain] composes the loader and the driver, [Lifetime] one session of the machine
    with the next; [DriverDemo] is a concrete kernel for the witnesses.

    ** How the parts interact

    A trait object is a record of operations over a world [W], the type of the
    mutable state behind it; a client is proved against the class of laws and each
    implementation discharges it. The laws of a sector device say how far it reaches
    ([SectorIoUpto]), which need not be the size it was made with. The chain for the
    data path is [Io.LowerDeviceIo] => [SectorIoUpto] => [Engine] and [Volume] (with
    [Xts] => [CipherLaws] and [Store] => [OffsetStoreLaws]) => [Thread] and [Filter] =>
    [DataPath] => [BindLaws.serves], which the theorems on binding conclude and
    [BootChain] carries from the loader to the bound filter. The loader and the driver
    meet in [BootChain.Handoff]: the disk, the variables and the memory the one leaves
    are what the other finds. One session meets the next on the disk: [Engine.accesses]
    is the footprint of a volume's operations - sectors of the data region, and the
    boundary last given to its store - [Durable] turns it into metadata at that boundary,
    and [BindLaws.lasts] says of a bound volume that the disk left when the machine goes
    down can be bound again and presents what the answered requests wrote.
    A computation [M E S A] keeps its state when it fails, as the code does.

    Objects shared through [Arc] or raw pointers live in heaps ([gmap nat _]) and are
    named by address: volumes, device objects, extensions, protocol instances. In the
    composed driver the kernel is a record of functions over [W0], the part of the
    world with the devices; a volume runs over [P * W0], where [P] is what the
    provider keeps behind the stores it hands out. A request (IRP) is the record of
    the fields the driver reads and writes; the dispatch entry points return what they
    do with it, and completion routines are functions of the request that the lower
    driver completed.

    ** What is proved

    - The data path. [Volume.volume_refines_plaintext_disk]: any sequence of requests
      and sweep batches is a plaintext disk; [Engine] gives completion of the sweep in
      both directions, its confinement to the data region, and [Volume] and
      [StoreLaws] the two ways it fails (a boundary that could not be stored; a stale
      replica while decrypting). [Thread] gives that every queued request is completed
      by [stop], and that the sweep proceeds under load.
      [DataPath.filter_is_plaintext_disk] is the same for the file system's side: however
      requests at the filter, sections of the thread, control operations and
      cancellations interleave, the accepted requests are answered in order as a plain
      disk answers them at the file system's own addresses, and the thread catches up.
      [DataPath.stopped_filter_loses_nothing]: when the filter is unbound under that load
      the thread exits, the requests it did not reach are given back as cancelled and
      the volume presents what the answered ones wrote.
    - The life of a volume. [Lifetime.volume_keeps_its_data]: through any number of
      boots, each with its OS loader, its driver and its interleaving of requests, sweep
      and control operations, ended between two sections of the thread, the volume is one
      plain disk. [Lifetime.prepared_volume_keeps_its_data]: that life begins with
      PREPARE, and the plain disk is the volume as it was before.
    - Persistence. [StoreLaws]: the replica layout partitions the volume; creating
      then opening, and updating then opening, give the same store back; recovery takes
      the largest valid boundary, also after an interrupted update; vendor data reads
      back. [Interrupted.interrupted_batch_is_confined]: cut at any write, a sweep step
      leaves a boundary to find and harms no sector outside its batch. [Metadata]: blocks round-trip, and only authentic ones are accepted.
    - Cryptography. [Xts]: the batched code equals textbook XTS and inverts;
      [Pipeline]: the pipeline is the cipher applied sector by sector.
    - Interception. [Filter]: which requests are forwarded, queued or completed; the
      size queries report the data region. [Io]: the three devices meet the contract.
    - Boot. [Loader]: the hooked volume is a plaintext disk, agrees with the driver's
      view, installing is reversible, and a volume without a footer boots;
      [Handover]: the payload arrives and is wiped; [Config]: the scanner is total and
      reads back what is rendered. [BootChain.boot_chain_serves_plaintext]: from the
      loader's run through the OS loader's reads and writes to the volume the driver
      binds, it is one plain disk.
    - The driver as a whole. [BootMount] and [Prepare]: the boot mount and PREPARE on a
      filter of AddDevice end in a volume and a filter that serve the plaintext and leave
      a disk that can be bound again; PREPARE writes nothing outside its metadata.
      [Fallback] and [AttachRun]: PREPARE through lock and dismount, and ATTACH, never get
      there, because the handle they read the metadata through goes through the filter
      that hides it ([AttachRun.above_filter]); the data stays as it was.
      [DetachRun]: what DETACH leaves, granted or refused;
      [SampleLaws]: the driver's objects stay well formed over every sequence of entry
      points, unprivileged requests change nothing, and an encrypted OS volume stays
      bound, registered and loaded.

    Divergences the proofs met are theorems where they concern the data:
    [Filter.write_spills_into_footer], [StoreLaws.create_truncates_counts],
    [Prepare.prepare_layout_unchecked], [DetachRun.detach_unbinds_or_strands],
    [DataPath.threadless_filter_only_cancels],
    [AttachRun.attach_never_sees_the_metadata],
    [Fallback.prepare_fallback_cannot_complete],
    [Fallback.fallback_misplaces_header_metadata],
    [Fallback.partition_start_is_never_read], and the two of the data path.

    ** Bounds and fuel

    - Integers are [Z] at their width: [+], [-], [*] wrap ([u64_add] and the like),
      [checked] is [checked_add] and the like, casts are written out. A transfer's
      byte length is a [u32] in the kernel interface, so a device promises success only
      for transfers below 4 GiB; the sweep's theorems state it of the batch.
    - Loops over buffers that the code indexes carry fuel equal to the length of the
      buffer ([Config], [Xts]); running out is [Panic], proved not to happen.
    - A sweep takes as many batches as it needs: the completion theorems give the
      number. [DataPath.catch_up] runs five sections of the thread a request and four
      more, which the measure [path_left] shows to be enough.
    - [Manager.walk_stack] is given one step per allowed stack level of the code (12
      and the first); [Dispatch.MAX_RETRIES] is the code's 100; the thread's batch is
      the code's 2048 sectors.

    ** Not modelled

    - Third-party crates and the kernel: AES, HMAC, HKDF, CRC-32, MessagePack, the
      firmware's services and the NT routines are parameters. What is assumed of them
      is a class of laws ([AesLaws], [CryptoLaws], [MsgPackLaws], [PlatformLaws],
      [WorkingDisk], ...), each shown to hold of a concrete instance by the witnesses.
    - Which device a file handle leads to is the kernel's choice, so handles are a
      parameter. The theorems on ATTACH and on the fallback of PREPARE say that a handle
      opened at a bound volume's name goes through the volume's filter, which is what
      [AttachRun.above_filter] computes from the filter's own definitions; the geometry
      query of PREPARE below a filter comes before the filter is bound. The theorem on
      the fallback is for layouts without a header; what the filter does to header
      replicas is [Fallback.fallback_misplaces_header_metadata]. Where an OS volume boots,
      the theorems are stated for volumes without a header region, too.
    - Handlers of control requests run without interleaving with the volumes' threads;
      the interleaving of [enqueue], [stop] and the thread itself is in [Thread], that of
      the filter's dispatch, the thread, the operations of a bound volume and the stop
      that ends them in [DataPath].
    - A life with power lost inside a section of the thread. Between the write of a sweep
      batch and that of its boundary the disk has no consistent boundary, which engine.rs
      names as a known limit, so the sessions of a life end between two sections; what a
      cut inside a batch costs is [Interrupted.interrupted_batch_is_confined]. A device
      that fails is in [Volume], [StoreLaws] and [Interrupted], not in [Lifetime].
    - [Arc] counts and freeing, device flags, the pauses between dismount attempts,
      and UEFI protocol exclusivity.
    - debug.rs and executor.rs (serial output; an executor nothing calls), the ntddk
      bindings, filter/context.rs (an unused structure) and the crypto self-test
      sample.

    ** What is left

    Handlers of control requests interleaved with the volumes' threads. *)

From Stdlib Require Export ZArith Lia.
From Stdlib Require Import Strings.Byte.
From stdpp Require Export base tactics numbers list gmap strings.

Global Open Scope Z_scope.

(** ** Outcomes

    [Err] is the [Err] of a [Result]; [Panic] is a Rust panic (slice index out
    of range, [unwrap] of [None], division by zero, [todo!()]), which no caller
    catches. *)

Inductive outcome (E A : Type) : Type :=
| Ok (a : A)
| Err (e : E)
| Panic.
Arguments Ok {E A} a.
Arguments Err {E A} e.
Arguments Panic {E A}.

Global Instance outcome_ret {E} : MRet (outcome E) := fun A a => Ok a.
Global Instance outcome_bind {E} : MBind (outcome E) :=
  fun A B k m =>
    match m with
    | Ok a => k a
    | Err e => Err e
    | Panic => Panic
    end.

Definition is_ok {E A} (o : outcome E A) : bool :=
  match o with Ok _ => true | _ => false end.

Definition is_err {E A} (o : outcome E A) : bool :=
  match o with Err _ => true | _ => false end.

(** [Option::ok_or]. *)
Definition ok_or {E A} (o : option A) (e : E) : outcome E A :=
  match o with Some a => Ok a | None => Err e end.

(** [Option::unwrap]. *)
Definition unwrap {E A} (o : option A) : outcome E A :=
  match o with Some a => Ok a | None => Panic end.

Lemma obind_ok {E A B} (m : outcome E A) (k : A -> outcome E B) b :
  m ≫= k = Ok b -> exists a, m = Ok a /\ k a = Ok b.
Proof. destruct m; cbn; intros; eauto; discriminate. Qed.

Lemma obind_err {E A B} (m : outcome E A) (k : A -> outcome E B) e :
  m ≫= k = Err e -> m = Err e \/ exists a, m = Ok a /\ k a = Err e.
Proof. destruct m; cbn; intros; simplify_eq; eauto. Qed.

(** ** Stateful computations

    [M E S A] runs from a state to a state and an outcome; the state is kept
    when the outcome is an error, as it is in the code. *)

Definition M (E S A : Type) : Type := S -> S * outcome E A.

Global Instance M_ret {E S} : MRet (M E S) := fun A a s => (s, Ok a).
Global Instance M_bind {E S} : MBind (M E S) :=
  fun A B k m s =>
    match m s with
    | (s', Ok a) => k a s'
    | (s', Err e) => (s', Err e)
    | (s', Panic) => (s', Panic)
    end.

Definition mfail {E S A} (e : E) : M E S A := fun s => (s, Err e).
Definition mpanic {E S A} : M E S A := fun s => (s, Panic).
Definition mget {E S} : M E S S := fun s => (s, Ok s).
Definition mput {E S} (s : S) : M E S unit := fun _ => (s, Ok tt).
Definition mmodify {E S} (f : S -> S) : M E S unit := fun s => (f s, Ok tt).

(** A pure outcome as a computation. *)
Definition lift {E S A} (o : outcome E A) : M E S A := fun s => (s, o).

(** [match m { Ok(a) => .., Err(e) => .. }]: an error becomes a value. *)
Definition attempt {E S A} (m : M E S A) : M E S (A + E) :=
  fun s =>
    match m s with
    | (s', Ok a) => (s', Ok (inl a))
    | (s', Err e) => (s', Ok (inr e))
    | (s', Panic) => (s', Panic)
    end.

(** [let _ = m;]: an error is dropped. *)
Definition ignore {E S A} (m : M E S A) : M E S unit :=
  fun s =>
    match m s with
    | (s', Panic) => (s', Panic)
    | (s', _) => (s', Ok tt)
    end.

(** Run a computation on one part of a larger state. *)
Definition zoom {E S T A} (get : T -> S) (set : S -> T -> T) (m : M E S A) : M E T A :=
  fun t => let '(s', o) := m (get t) in (set s' t, o).

Definition on_snd {E S T A} (m : M E S A) : M E (T * S) A :=
  zoom snd (fun s t => (t.1, s)) m.

(** [for x in xs { f(x)?; }]. *)
Fixpoint miter {E S A} (f : A -> M E S unit) (xs : list A) : M E S unit :=
  match xs with
  | [] => mret tt
  | x :: xs => _ ← f x; miter f xs
  end.

Lemma mbind_run {E S A B} (m : M E S A) (k : A -> M E S B) s :
  (m ≫= k) s =
  match m s with
  | (s', Ok a) => k a s'
  | (s', Err e) => (s', Err e)
  | (s', Panic) => (s', Panic)
  end.
Proof. reflexivity. Qed.

Lemma mbind_ok {E S A B} (m : M E S A) (k : A -> M E S B) s s' b :
  (m ≫= k) s = (s', Ok b) ->
  exists s1 a, m s = (s1, Ok a) /\ k a s1 = (s', Ok b).
Proof.
  rewrite mbind_run. destruct (m s) as [s1 [a|e|]]; intros; simplify_eq; eauto.
Qed.

Lemma mbind_err {E S A B} (m : M E S A) (k : A -> M E S B) s s' e :
  (m ≫= k) s = (s', Err e) ->
  m s = (s', Err e) \/ exists s1 a, m s = (s1, Ok a) /\ k a s1 = (s', Err e).
Proof.
  rewrite mbind_run. destruct (m s) as [s1 [a|e1|]]; intros; simplify_eq; eauto.
Qed.

Lemma mbind_step {E S A B} (m : M E S A) (k : A -> M E S B) s s1 a :
  m s = (s1, Ok a) -> (m ≫= k) s = k a s1.
Proof. rewrite mbind_run. intros ->. done. Qed.

Lemma miter_app {E S A} (f : A -> M E S unit) xs ys s s1 :
  miter f xs s = (s1, Ok tt) -> miter f (xs ++ ys) s = miter f ys s1.
Proof.
  revert s. induction xs as [|x xs IH]; intros s H; cbn in *.
  - unfold mret, M_ret in H. simplify_eq. done.
  - apply mbind_ok in H as (s2 & [] & H1 & H2). rewrite (mbind_step _ _ _ _ _ H1). eauto.
Qed.

(** [minv H] inverts a successful run of binds in [H]. *)
Ltac minv H :=
  repeat match type of H with
  | (_ ≫= _) _ = (_, Ok _) =>
      let s := fresh "s" in let a := fresh "a" in
      let H1 := fresh "Hrun" in
      apply mbind_ok in H as (s & a & H1 & H); cbn beta in H
  | _ ≫= _ = Ok _ =>
      let a := fresh "a" in let H1 := fresh "Hrun" in
      apply obind_ok in H as (a & H1 & H); cbn beta in H
  end.

(** Compute a bind of a known outcome. *)
Ltac ostep := cbn [mbind outcome_bind unwrap ok_or].

(** ** Machine integers

    The driver is a release build: [+], [-] and [*] wrap at the type's width. *)

Definition wrap (w z : Z) : Z := z mod 2 ^ w.
Definition u64_add (a b : Z) : Z := wrap 64 (a + b).
Definition u64_sub (a b : Z) : Z := wrap 64 (a - b).
Definition u64_mul (a b : Z) : Z := wrap 64 (a * b).
(** The [u64 as i64] cast. *)
Definition as_i64 (z : Z) : Z := let u := wrap 64 z in if u <? 2 ^ 63 then u else u - 2 ^ 64.

Definition in_u (w z : Z) : Prop := 0 <= z < 2 ^ w.

(** [checked_add] and the like: [None] on overflow. *)
Definition checked (w z : Z) : option Z :=
  if (0 <=? z) && (z <? 2 ^ w) then Some z else None.

Lemma wrap_id w z : in_u w z -> wrap w z = z.
Proof. unfold in_u, wrap. intros. apply Z.mod_small. lia. Qed.

Lemma wrap_range w z : 0 <= w -> in_u w (wrap w z).
Proof. unfold in_u, wrap. intros. apply Z.mod_pos_bound. lia. Qed.

Lemma u64_add_id a b : 0 <= a + b < 2 ^ 64 -> u64_add a b = a + b.
Proof. intros. apply wrap_id. done. Qed.
Lemma u64_sub_id a b : 0 <= a - b < 2 ^ 64 -> u64_sub a b = a - b.
Proof. intros. apply wrap_id. done. Qed.
Lemma u64_mul_id a b : 0 <= a * b < 2 ^ 64 -> u64_mul a b = a * b.
Proof. intros. apply wrap_id. done. Qed.

Lemma checked_some w z r : checked w z = Some r <-> r = z /\ in_u w z.
Proof.
  unfold checked, in_u.
  destruct (Z.leb_spec 0 z), (Z.ltb_spec z (2 ^ w)); cbn;
    (split; [intros [=]; subst; lia | intros [-> ?]; try done; exfalso; lia]).
Qed.

Lemma checked_none w z : checked w z = None <-> ~ in_u w z.
Proof.
  unfold checked, in_u.
  destruct (Z.leb_spec 0 z), (Z.ltb_spec z (2 ^ w)); cbn;
    (split; [intros H1 H2; try discriminate; lia | intros H1; try done; exfalso; apply H1; lia]).
Qed.

(** Case analysis on the boolean comparisons of a goal. *)
Ltac zcase :=
  repeat match goal with
  | |- context [Z.eqb ?a ?b] => destruct (Z.eqb_spec a b)
  | |- context [Z.ltb ?a ?b] => destruct (Z.ltb_spec a b)
  | |- context [Z.leb ?a ?b] => destruct (Z.leb_spec a b)
  | H : context [Z.eqb ?a ?b] |- _ => destruct (Z.eqb_spec a b)
  | H : context [Z.ltb ?a ?b] |- _ => destruct (Z.ltb_spec a b)
  | H : context [Z.leb ?a ?b] |- _ => destruct (Z.leb_spec a b)
  end; cbn [andb orb negb] in *.

(** ** Bytes *)

Abbreviation byte := Byte.byte.
Abbreviation bytes := (list Byte.byte).

Global Instance byte_eq_dec : EqDecision byte := Byte.byte_eq_dec.

Definition byte_val (b : byte) : Z := Z.of_N (Byte.to_N b).
Definition byte_of (z : Z) : byte :=
  match Byte.of_N (Z.to_N (z mod 256)) with
  | Some b => b
  | None => Byte.x00
  end.

Lemma byte_val_range b : 0 <= byte_val b < 256.
Proof. unfold byte_val. pose proof (Byte.to_N_bounded b). lia. Qed.

Lemma byte_val_of z : byte_val (byte_of z) = z mod 256.
Proof.
  unfold byte_val, byte_of.
  pose proof (Z.mod_pos_bound z 256 ltac:(lia)) as Hb.
  destruct (Byte.of_N _) as [b|] eqn:E.
  - apply Byte.to_of_N in E. rewrite E. lia.
  - apply Byte.of_N_None_iff in E. lia.
Qed.

Lemma byte_of_val b : byte_of (byte_val b) = b.
Proof.
  unfold byte_of, byte_val.
  pose proof (Byte.to_N_bounded b).
  rewrite Z.mod_small by lia. rewrite N2Z.id, Byte.of_to_N. done.
Qed.

Global Instance byte_val_inj : Inj (=) (=) byte_val.
Proof. intros a b H. rewrite <- (byte_of_val a), H. apply byte_of_val. Qed.

(** The bytes of a string literal ([b"..."]). *)
Definition bytes_of_string (s : string) : bytes := String.list_byte_of_string s.

(** ** Little-endian integers *)

Fixpoint le_encode (n : nat) (z : Z) : bytes :=
  match n with
  | O => []
  | S n => byte_of z :: le_encode n (z / 256)
  end.

Fixpoint le_decode (l : bytes) : Z :=
  match l with
  | [] => 0
  | b :: l => byte_val b + 256 * le_decode l
  end.

Lemma length_le_encode n z : length (le_encode n z) = n.
Proof. revert z. induction n; intros; cbn; auto. Qed.

Lemma le_decode_range l : 0 <= le_decode l < 256 ^ Z.of_nat (length l).
Proof.
  induction l as [|b l IH]; cbn [le_decode length]; [lia|].
  rewrite Nat2Z.inj_succ, Z.pow_succ_r by lia.
  pose proof (byte_val_range b). lia.
Qed.

Lemma le_decode_encode n z :
  le_decode (le_encode n z) = z mod 256 ^ Z.of_nat n.
Proof.
  revert z. induction n as [|n IH]; intros z.
  - cbn. rewrite Z.mod_1_r. done.
  - cbn [le_encode le_decode]. rewrite IH, byte_val_of.
    rewrite Nat2Z.inj_succ, Z.pow_succ_r by lia.
    rewrite Z.rem_mul_r by lia. lia.
Qed.

Lemma le_decode_encode_id n z :
  0 <= z < 256 ^ Z.of_nat n -> le_decode (le_encode n z) = z.
Proof. intros. rewrite le_decode_encode. apply Z.mod_small. lia. Qed.

Lemma le_encode_decode l : le_encode (length l) (le_decode l) = l.
Proof.
  induction l as [|b l IH]; cbn [le_encode le_decode length]; [done|].
  pose proof (byte_val_range b) as Hb.
  f_equal.
  - unfold byte_of. replace ((byte_val b + 256 * le_decode l) mod 256) with (byte_val b mod 256).
    + apply byte_of_val.
    + rewrite Z.mul_comm, Z_mod_plus_full. done.
  - rewrite Z.mul_comm, Z_div_plus_full by lia.
    rewrite Z.div_small by lia. cbn. done.
Qed.

(** ** Slices and splices

    [slice off n l] is [l[off..off+n]] for indices known to be in range;
    [range lo hi l] is [l[lo..hi]] with Rust's panic; [splice off x l] is
    [l[off..off+x.len()].copy_from_slice(x)] for indices known to be in range. *)

Definition slice {A} (off n : nat) (l : list A) : list A := take n (drop off l).

Definition range {E A} (lo hi : Z) (l : list A) : outcome E (list A) :=
  if (0 <=? lo) && (lo <=? hi) && (hi <=? Z.of_nat (length l))
  then Ok (slice (Z.to_nat lo) (Z.to_nat (hi - lo)) l)
  else Panic.

Definition splice {A} (off : nat) (x l : list A) : list A :=
  take off l ++ x ++ drop (off + length x) l.

(** Lengths of composed buffers: [len] rewrites with them and decides the rest. *)
Create HintDb len.
#[export] Hint Rewrite @length_app @length_take @length_drop @length_fmap : len.
#[export] Hint Rewrite length_le_encode : len.
Ltac len := autorewrite with len; cbn [length]; lia.

Lemma length_slice {A} off n (l : list A) :
  (off + n <= length l)%nat -> length (slice off n l) = n.
Proof. intros. unfold slice. rewrite length_take, length_drop. lia. Qed.

Lemma length_splice {A} off (x l : list A) :
  (off + length x <= length l)%nat -> length (splice off x l) = length l.
Proof.
  intros. unfold splice. rewrite !length_app, length_take, length_drop. lia.
Qed.

Lemma slice_splice_same {A} off n (x l : list A) :
  n = length x -> (off + length x <= length l)%nat ->
  slice off n (splice off x l) = x.
Proof.
  intros -> H. unfold slice, splice.
  rewrite drop_app_length' by len.
  apply take_app_length.
Qed.

Lemma lookup_splice_old {A} off (x l : list A) i :
  (off + length x <= length l)%nat ->
  (i < off \/ off + length x <= i)%nat ->
  splice off x l !! i = l !! i.
Proof.
  intros Hl [Hi|Hi]; unfold splice.
  - rewrite lookup_app_l by len.
    apply lookup_take_lt. lia.
  - rewrite lookup_app_r by len.
    rewrite lookup_app_r by len.
    rewrite lookup_drop, length_take. f_equal. lia.
Qed.

Lemma lookup_slice {A} off n (l : list A) i :
  slice off n l !! i = if decide (i < n)%nat then l !! (off + i)%nat else None.
Proof.
  unfold slice. case_decide.
  - rewrite lookup_take_lt by lia. apply lookup_drop.
  - apply lookup_take_ge. lia.
Qed.

(** A slice that a splice does not touch. *)
Lemma slice_splice_other {A} off n off' (x l : list A) :
  (off' + length x <= length l)%nat ->
  (off + n <= off' \/ off' + length x <= off)%nat ->
  slice off n (splice off' x l) = slice off n l.
Proof.
  intros Hl Ho. apply list_eq. intros i. rewrite !lookup_slice.
  case_decide; [|done]. apply lookup_splice_old; lia.
Qed.

Lemma slice_full {A} n (l : list A) : n = length l -> slice 0 n l = l.
Proof. intros ->. unfold slice. rewrite drop_0. apply firstn_all. Qed.

Lemma slice_slice {A} o1 n1 o2 n2 (l : list A) :
  (o2 + n2 <= n1)%nat -> slice o2 n2 (slice o1 n1 l) = slice (o1 + o2) n2 l.
Proof.
  intros H. apply list_eq. intros i. rewrite !lookup_slice.
  case_decide; [|done]. rewrite decide_True by lia. f_equal. lia.
Qed.

Lemma range_ok {E A} lo hi (l : list A) :
  0 <= lo <= hi -> hi <= Z.of_nat (length l) ->
  range (E:=E) lo hi l = Ok (slice (Z.to_nat lo) (Z.to_nat (hi - lo)) l).
Proof. intros. unfold range. zcase; try lia. done. Qed.

Lemma slice_splice_inside {A} off o n (x l : list A) :
  (off + length x <= length l)%nat -> (o + n <= length x)%nat ->
  slice (off + o) n (splice off x l) = slice o n x.
Proof.
  intros Hl Ho. rewrite <- (slice_slice off (length x)) by lia.
  rewrite slice_splice_same; done.
Qed.

Lemma range_panic {E A} lo hi (l : list A) :
  0 <= lo -> Z.of_nat (length l) < hi -> range (E:=E) lo hi l = Panic.
Proof. intros. unfold range. zcase; try lia; done. Qed.

Lemma slice_app_l {A} off n (x r : list A) :
  (off + n <= length x)%nat -> slice off n (x ++ r) = slice off n x.
Proof.
  intros H. apply list_eq. intros i. rewrite !lookup_slice. case_decide; [|done].
  apply lookup_app_l. lia.
Qed.

Lemma slice_app_mid {A} off n (x b r : list A) :
  off = length x -> n = length b -> slice off n (x ++ b ++ r) = b.
Proof. intros -> ->. unfold slice. rewrite drop_app_length. apply take_app_length. Qed.

Lemma splice_app_mid {A} off (x b b' r : list A) :
  off = length x -> length b' = length b -> splice off b' (x ++ b ++ r) = x ++ b' ++ r.
Proof.
  intros -> Hl. unfold splice. rewrite take_app_length, Hl.
  rewrite <- drop_drop, drop_app_length, drop_app_length. done.
Qed.

Lemma foldl_ext_in {A B} (f g : A -> B -> A) (l : list B) a :
  (forall x b, b ∈ l -> f x b = g x b) -> foldl f a l = foldl g a l.
Proof.
  revert a. induction l as [|b l IH]; intros a H; [done|]. cbn.
  rewrite H by set_solver. apply IH. intros. apply H. set_solver.
Qed.

(** Choose a partner for every element. *)
Lemma Forall_choose {A B} (P : A -> B -> Prop) (l : list A) :
  Forall (fun x => exists y, P x y) l -> exists k, Forall2 P l k.
Proof.
  induction 1 as [|x l (y & Hy) _ (k & Hk)]; [exists []; constructor|].
  exists (y :: k). constructor; done.
Qed.

(** ** Bits *)

Lemma testbit_small x n i : 0 <= x < 2 ^ n -> n <= i -> Z.testbit x i = false.
Proof.
  intros Hx Hi. destruct (Z.eq_dec x 0) as [->|Hne]; [apply Z.bits_0|].
  apply Z.bits_above_log2; [lia|].
  assert (Z.log2 x < n) by (apply Z.log2_lt_pow2; lia). lia.
Qed.

(** A low part and a shifted high part are added by [lor]. *)
Lemma add_shift_lor x y n : 0 <= n -> 0 <= x < 2 ^ n -> x + 2 ^ n * y = Z.lor x (Z.shiftl y n).
Proof.
  intros Hn Hx. rewrite Z.mul_comm, <- Z.shiftl_mul_pow2 by done.
  assert (Z.land x (Z.shiftl y n) = 0) as Hl.
  { apply Z.bits_inj'. intros i Hi. rewrite Z.land_spec, Z.bits_0.
    destruct (Z.lt_ge_cases i n).
    - rewrite Z.shiftl_spec_low by done. apply andb_false_r.
    - rewrite (testbit_small x n) by done. done. }
  rewrite Z.add_nocarry_lxor by done. apply Z.lxor_lor. done.
Qed.

Lemma lxor_low x y c n :
  0 <= n -> 0 <= x < 2 ^ n -> 0 <= c < 2 ^ n ->
  Z.lxor (x + 2 ^ n * y) c = Z.lor (Z.lxor x c) (Z.shiftl y n).
Proof.
  intros Hn Hx Hc. rewrite add_shift_lor by done. apply Z.bits_inj'. intros i Hi.
  rewrite Z.lxor_spec, !Z.lor_spec, Z.lxor_spec.
  destruct (Z.lt_ge_cases i n).
  - rewrite Z.shiftl_spec_low by done. rewrite !orb_false_r. done.
  - rewrite (testbit_small x n), (testbit_small c n) by done. cbn.
    destruct (Z.testbit _ i); done.
Qed.

Lemma lxor_range x y n : 0 <= n -> 0 <= x < 2 ^ n -> 0 <= y < 2 ^ n -> 0 <= Z.lxor x y < 2 ^ n.
Proof.
  intros Hn Hx Hy. assert (0 <= Z.lxor x y) by (apply Z.lxor_nonneg; lia).
  split; [done|]. destruct (Z.lt_ge_cases (Z.lxor x y) (2 ^ n)) as [|Hge]; [done|].
  exfalso. pose proof (Z.log2_le_pow2 (Z.lxor x y) n ltac:(lia)) as [Hl _]. specialize (Hl Hge).
  pose proof (Z.bit_log2 (Z.lxor x y) ltac:(lia)) as Hb. rewrite Z.lxor_spec in Hb.
  rewrite (testbit_small x n), (testbit_small y n) in Hb by done. done.
Qed.

Lemma le_decode_app a b :
  le_decode (a ++ b) = le_decode a + 256 ^ Z.of_nat (length a) * le_decode b.
Proof.
  induction a as [|x a IH]; cbn [le_decode app length]; [lia|].
  rewrite IH, Nat2Z.inj_succ, Z.pow_succ_r by lia. lia.
Qed.

(** ** Records laid out in a buffer

    A sequence of fields copied into a buffer one after the other. *)

Definition puts {A} (fs : list (nat * list A)) (b : list A) : list A :=
  foldl (fun b f => splice f.1 f.2 b) b fs.

Definition fits {A} (n : nat) (f : nat * list A) : Prop := (f.1 + length f.2 <= n)%nat.
Definition apart {A} (off n : nat) (f : nat * list A) : Prop :=
  (off + n <= f.1 \/ f.1 + length f.2 <= off)%nat.

Lemma length_puts {A} (fs : list (nat * list A)) b :
  Forall (fits (length b)) fs -> length (puts fs b) = length b.
Proof.
  unfold puts. intros H. remember (length b) as n eqn:Hn. symmetry in Hn.
  revert b Hn. induction H as [|f fs Hf _ IH]; intros b Hn; [done|].
  cbn. apply IH. rewrite length_splice; [done|]. unfold fits in Hf. lia.
Qed.

Lemma puts_app {A} (fs1 fs2 : list (nat * list A)) b :
  puts (fs1 ++ fs2) b = puts fs2 (puts fs1 b).
Proof. apply foldl_app. Qed.

Lemma puts_cons {A} off x (fs : list (nat * list A)) b :
  puts ((off, x) :: fs) b = puts fs (splice off x b).
Proof. reflexivity. Qed.

(** An area no field overlaps. *)
Lemma slice_puts_apart {A} off n (fs : list (nat * list A)) b :
  Forall (fits (length b)) fs -> Forall (apart off n) fs ->
  slice off n (puts fs b) = slice off n b.
Proof.
  intros H1 H2. unfold puts. remember (length b) as m eqn:Hm. symmetry in Hm.
  revert b Hm. induction fs as [|f fs IH]; intros b Hm; [done|].
  apply Forall_cons in H1 as [Hf H1]. apply Forall_cons in H2 as [Ha H2].
  cbn. rewrite IH; [|done..|rewrite length_splice; [done|unfold fits in Hf; lia]].
  apply slice_splice_other; [unfold fits in Hf; lia|unfold apart in Ha; lia].
Qed.

(** A field the later ones do not overlap. *)
Lemma slice_puts_field {A} off n x (fs1 fs2 : list (nat * list A)) b :
  n = length x -> Forall (fits (length b)) (fs1 ++ (off, x) :: fs2) ->
  Forall (apart off n) fs2 ->
  slice off n (puts (fs1 ++ (off, x) :: fs2) b) = x.
Proof.
  intros Hn Hf Ha. apply Forall_app in Hf as [Hf1 Hf]. apply Forall_cons in Hf as [Hx Hf2].
  unfold fits in Hx. cbn in Hx.
  rewrite puts_app, puts_cons.
  assert (length (puts fs1 b) = length b) as Hl by (apply length_puts; done).
  rewrite slice_puts_apart.
  - apply slice_splice_same; [done|lia].
  - rewrite length_splice by lia. rewrite Hl. done.
  - done.
Qed.
