(* ===== verification/Types.v ===== *)
(** * Shared types: errors, sweep state, boundary, ranges, control codes

    Models [lib/common/src/error.rs], [types.rs], [rng.rs], [cpu.rs],
    [ioctl.rs], [jvck/options.rs] and [lib/windrv/src/ioctl/codes.rs]. *)

From stdpp Require Import pretty.
From S2P Require Import Prelude.

(** ** Errors ([error.rs]) *)

(* src: lib/common/src/error.rs:10-24 VckError *)
Inductive VckError : Type :=
| InvalidData (msg : string)
| ValidationFailed (msg : string)
| Unsupported (msg : string)
| NotFound (msg : string)
| PermissionDenied (msg : string)
| SizeMismatch (expected actual : Z)
| SignatureMismatch
| ChecksumMismatch
| CryptoFailed (msg : string)
| MsgpackEncode (msg : string)
| MsgpackDecode (msg : string)
| Io (msg : string).

Global Instance VckError_eq_dec : EqDecision VckError.
Proof. solve_decision. Defined.

Abbreviation VckResult := (outcome VckError).

(* src: lib/common/src/error.rs:26-45 VckError::fmt *)
Definition fmt_VckError (e : VckError) : string :=
  match e with
  | InvalidData msg => "invalid data: " +:+ msg
  | ValidationFailed msg => "validation failed: " +:+ msg
  | Unsupported msg => "unsupported: " +:+ msg
  | NotFound msg => "not found: " +:+ msg
  | PermissionDenied msg => "permission denied: " +:+ msg
  | SizeMismatch expected actual =>
      "size mismatch: expected " +:+ pretty expected +:+ ", got " +:+ pretty actual
  | SignatureMismatch => "signature mismatch"
  | ChecksumMismatch => "checksum mismatch"
  | CryptoFailed msg => "cryptography failed: " +:+ msg
  | MsgpackEncode msg => "msgpack encode failed: " +:+ msg
  | MsgpackDecode msg => "msgpack decode failed: " +:+ msg
  | Io msg => "io failed: " +:+ msg
  end%string.

(** ** Identifiers ([types.rs])

    [uuid::Uuid] is a third-party type; only its 16 bytes are observed, and its
    byte-order conversions are parameters of what uses them. *)

(* src: lib/common/src/types.rs:15-15 Guid *)
Definition Guid : Type := bytes.

(* src: lib/common/src/types.rs:27-29 guid_from_windows_bytes *)
Definition guid_from_windows_bytes (from_bytes_le : bytes -> Guid) (b : bytes) : Guid :=
  from_bytes_le b.

(* src: lib/common/src/types.rs:193-199 VolumeId *)
Record VolumeId : Type := mkVolumeId {
  vi_partition_guid : Guid;
  vi_device_path : string;
}.

(** ** Sweep direction ([types.rs]) *)

(* src: lib/common/src/types.rs:38-41 VolumeState *)
Inductive VolumeState : Type := Encrypt | Decrypt.

Global Instance VolumeState_eq_dec : EqDecision VolumeState.
Proof. solve_decision. Defined.

(* src: lib/common/src/types.rs:44-49 VolumeState::as_u16 *)
Definition as_u16 (s : VolumeState) : Z :=
  match s with Encrypt => 0 | Decrypt => 1 end.

(* src: lib/common/src/types.rs:52-57 VolumeState::from_u16 *)
Definition from_u16 (v : Z) : VolumeState :=
  if v =? 1 then Decrypt else Encrypt.

Lemma from_as_u16 s : from_u16 (as_u16 s) = s.
Proof. destruct s; reflexivity. Qed.

Lemma as_u16_range s : 0 <= as_u16 s < 2.
Proof. destruct s; cbn; lia. Qed.

(** ** Progress boundary ([types.rs]) *)

(* src: lib/common/src/types.rs:67-72 EncryptedOffset *)
Record EncryptedOffset : Type := mkEncryptedOffset {
  eo_sector : Z;
  eo_total_sectors : Z;
}.

(* src: lib/common/src/types.rs:76-78 EncryptedOffset::is_encrypted *)
Definition is_encrypted (o : EncryptedOffset) (sector : Z) : bool :=
  sector <? eo_sector o.

(* src: lib/common/src/types.rs:80-82 EncryptedOffset::is_fully_encrypted *)
Definition is_fully_encrypted (o : EncryptedOffset) : bool :=
  eo_total_sectors o <=? eo_sector o.

(* src: lib/common/src/types.rs:87-90 SectorRange *)
Record SectorRange : Type := mkSectorRange { sr_start : Z; sr_count : Z }.

(* src: lib/common/src/types.rs:93-95 SectorRange::end *)
Definition sr_end (r : SectorRange) : Z := u64_add (sr_start r) (sr_count r).

(* src: lib/common/src/types.rs:97-99 SectorRange::contains *)
Definition sr_contains (r : SectorRange) (sector : Z) : bool :=
  (sr_start r <=? sector) && (sector <? sr_end r).

(** ** Randomness source ([rng.rs])

    [RNG] is a process-wide cell written once. A source maps a requested length
    to bytes or an error. *)

(* src: lib/common/src/rng.rs:21-25 RandomSource *)
Definition RandomSource (W : Type) : Type := nat -> M VckError W bytes.

(* src: lib/common/src/rng.rs:31-33 set_random_source *)
Definition set_random_source {W} (source : RandomSource W) (RNG : option (RandomSource W)) :
    option (RandomSource W) :=
  match RNG with Some s => Some s | None => Some source end.

(* src: lib/common/src/rng.rs:40-45 fill_random *)
Definition fill_random {W} (RNG : option (RandomSource W)) (n : nat) : M VckError W bytes :=
  match RNG with
  | Some src => src n
  | None => mfail (CryptoFailed "no RandomSource installed")
  end.

(** ** CPU features ([cpu.rs])

    [ecx] is what CPUID leaf 1 returns; [None] on a machine that is not x86. *)

(* src: lib/common/src/cpu.rs:13-33 has_aes_ni *)
Definition has_aes_ni (cpuid_1_ecx : option Z) : bool :=
  match cpuid_1_ecx with
  | Some ecx => negb (Z.land ecx (wrap 32 (Z.shiftl 1 25)) =? 0)
  | None => false
  end.

(** ** Control codes ([ioctl.rs], [codes.rs]) *)

(* src: lib/common/src/ioctl.rs:22-29 METHOD_* *)
Definition METHOD_BUFFERED : Z := 0.
Definition METHOD_IN_DIRECT : Z := 1.
Definition METHOD_OUT_DIRECT : Z := 2.
Definition METHOD_NEITHER : Z := 3.
(* src: lib/common/src/ioctl.rs:31-32 FILE_ANY_ACCESS *)
Definition FILE_ANY_ACCESS : Z := 0.
(* src: lib/common/src/ioctl.rs:33-35 FILE_READ_ACCESS *)
Definition FILE_READ_ACCESS : Z := 1.
(* src: lib/common/src/ioctl.rs:36-38 FILE_WRITE_ACCESS *)
Definition FILE_WRITE_ACCESS : Z := 2.
(* src: lib/common/src/ioctl.rs:40-43 FILE_DEVICE_VCK *)
Definition FILE_DEVICE_VCK : Z := 0x22.

(* src: lib/common/src/ioctl.rs:45-56 ctl_code *)
Definition ctl_code (device_type function method access : Z) : Z :=
  Z.lor (Z.lor (Z.lor (wrap 32 (Z.shiftl device_type 16))
                      (wrap 32 (Z.shiftl access 14)))
               (wrap 32 (Z.shiftl function 2)))
        method.

(* src: lib/windrv/src/ioctl/codes.rs:21-23 IOCTL_VCK_GET_STATUS *)
Definition IOCTL_VCK_GET_STATUS : Z :=
  ctl_code FILE_DEVICE_VCK 0x800 METHOD_BUFFERED FILE_READ_ACCESS.
(* src: lib/windrv/src/ioctl/codes.rs:24-26 IOCTL_VCK_START_ENCRYPT *)
Definition IOCTL_VCK_START_ENCRYPT : Z :=
  ctl_code FILE_DEVICE_VCK 0x801 METHOD_BUFFERED FILE_WRITE_ACCESS.
(* src: lib/windrv/src/ioctl/codes.rs:27-29 IOCTL_VCK_START_DECRYPT *)
Definition IOCTL_VCK_START_DECRYPT : Z :=
  ctl_code FILE_DEVICE_VCK 0x802 METHOD_BUFFERED FILE_WRITE_ACCESS.
(* src: lib/windrv/src/ioctl/codes.rs:30-32 IOCTL_VCK_GET_PROGRESS *)
Definition IOCTL_VCK_GET_PROGRESS : Z :=
  ctl_code FILE_DEVICE_VCK 0x803 METHOD_BUFFERED FILE_READ_ACCESS.
(* src: lib/windrv/src/ioctl/codes.rs:33-35 IOCTL_VCK_PAUSE *)
Definition IOCTL_VCK_PAUSE : Z :=
  ctl_code FILE_DEVICE_VCK 0x804 METHOD_BUFFERED FILE_WRITE_ACCESS.
(* src: lib/windrv/src/ioctl/codes.rs:36-38 IOCTL_JVCK_ATTACH *)
Definition IOCTL_JVCK_ATTACH : Z :=
  ctl_code FILE_DEVICE_VCK 0x805 METHOD_BUFFERED FILE_WRITE_ACCESS.
(* src: lib/windrv/src/ioctl/codes.rs:39-41 IOCTL_VCK_DETACH *)
Definition IOCTL_VCK_DETACH : Z :=
  ctl_code FILE_DEVICE_VCK 0x806 METHOD_BUFFERED FILE_WRITE_ACCESS.
(* src: lib/windrv/src/ioctl/codes.rs:42-46 IOCTL_JVCK_PREPARE *)
Definition IOCTL_JVCK_PREPARE : Z :=
  ctl_code FILE_DEVICE_VCK 0x807 METHOD_BUFFERED FILE_WRITE_ACCESS.
(* src: lib/windrv/src/ioctl/codes.rs:47-51 IOCTL_VCK_PAUSE_OS_VOLUME *)
Definition IOCTL_VCK_PAUSE_OS_VOLUME : Z :=
  ctl_code FILE_DEVICE_VCK 0x808 METHOD_BUFFERED FILE_WRITE_ACCESS.
(* src: lib/windrv/src/ioctl/codes.rs:52-55 IOCTL_VCK_DETACH_ALL_VOLUMES *)
Definition IOCTL_VCK_DETACH_ALL_VOLUMES : Z :=
  ctl_code FILE_DEVICE_VCK 0x809 METHOD_BUFFERED FILE_WRITE_ACCESS.
(* src: lib/windrv/src/ioctl/codes.rs:56-60 IOCTL_VCK_BENCH_AES *)
Definition IOCTL_VCK_BENCH_AES : Z :=
  ctl_code FILE_DEVICE_VCK 0x80a METHOD_BUFFERED FILE_READ_ACCESS.
(* src: lib/windrv/src/ioctl/codes.rs:61-66 IOCTL_VCK_LIST_VOLUMES *)
Definition IOCTL_VCK_LIST_VOLUMES : Z :=
  ctl_code FILE_DEVICE_VCK 0x80b METHOD_BUFFERED FILE_READ_ACCESS.

(** The hexadecimal values the driver build asserts. *)
(* src: lib/windrv/src/ioctl/codes.rs:68-81 const assertions *)
Definition pinned_codes : list (Z * Z) :=
  [ (IOCTL_VCK_GET_STATUS, 0x00226000); (IOCTL_VCK_START_ENCRYPT, 0x0022a004);
    (IOCTL_VCK_START_DECRYPT, 0x0022a008); (IOCTL_VCK_GET_PROGRESS, 0x0022600c);
    (IOCTL_VCK_PAUSE, 0x0022a010); (IOCTL_JVCK_ATTACH, 0x0022a014);
    (IOCTL_VCK_DETACH, 0x0022a018); (IOCTL_JVCK_PREPARE, 0x0022a01c);
    (IOCTL_VCK_PAUSE_OS_VOLUME, 0x0022a020); (IOCTL_VCK_DETACH_ALL_VOLUMES, 0x0022a024);
    (IOCTL_VCK_BENCH_AES, 0x00226028); (IOCTL_VCK_LIST_VOLUMES, 0x0022602c) ].

Lemma pinned_codes_hold : Forall (fun p => p.1 = p.2) pinned_codes.
Proof. repeat constructor. Qed.

(** ** Replica layout options ([jvck/options.rs]) *)

(* src: lib/common/src/jvck/options.rs:7-8 MIN_METADATA_SIZE *)
Definition MIN_METADATA_SIZE : Z := 128 * 1024.

(* src: lib/common/src/jvck/options.rs:12-22 JvckMetadataOptions *)
Record JvckMetadataOptions : Type := mkOptions {
  use_header : Z;
  use_footer : Z;
  opt_metadata_size : Z;
}.

(* src: lib/common/src/jvck/options.rs:39-41 JvckMetadataOptions::replica_count *)
Definition replica_count (o : JvckMetadataOptions) : Z :=
  wrap 32 (use_header o + use_footer o).

(* src: lib/common/src/jvck/options.rs:25-37 JvckMetadataOptions::validate *)
Definition validate_options (o : JvckMetadataOptions) : VckResult unit :=
  if opt_metadata_size o <? MIN_METADATA_SIZE then
    Err (ValidationFailed "metadata_size must be at least 128 KiB")
  else if replica_count o =? 0 then
    Err (ValidationFailed "use_header + use_footer must be >= 1")
  else Ok tt.

Lemma validate_options_ok o :
  validate_options o = Ok tt <->
  MIN_METADATA_SIZE <= opt_metadata_size o /\ replica_count o <> 0.
Proof. unfold validate_options. zcase; split; intros; simplify_eq; lia || done. Qed.
