(* ===== verification/Sectors.v ===== *)
(** * Sector buffers, and the interfaces between the storage components

    Buffers as sequences of sectors, and the traits the components talk
    through: [SectorIo] and [EncryptedOffsetStore] ([lib/common/src/store.rs]),
    [VolumeCipher] and [VolumeCipherSupplier] ([lib/common/src/types.rs]). A
    trait is a record of operations over a world [W] that holds the mutable
    state behind the object; what a client relies on is a class of laws, which
    the implementations discharge. *)

From S2P Require Import Prelude Types.

(** ** Buffers cut into sectors ([chunks], [chunks_mut]) *)

Fixpoint chunks_fuel (fuel n : nat) (l : bytes) : list bytes :=
  match fuel, l with
  | S fuel, _ :: _ => take n l :: chunks_fuel fuel n (drop n l)
  | _, _ => []
  end.

Definition chunks (n : nat) (l : bytes) : list bytes := chunks_fuel (length l) n l.
Global Arguments chunks : simpl never.

Lemma chunks_fuel_enough n f1 f2 l :
  (0 < n)%nat -> (length l <= f1)%nat -> (length l <= f2)%nat ->
  chunks_fuel f1 n l = chunks_fuel f2 n l.
Proof.
  intros Hn. revert f2 l. induction f1 as [|f1 IH]; intros f2 l H1 H2.
  - destruct l; cbn in *; [destruct f2; done|lia].
  - destruct l as [|b l]; [destruct f2; done|].
    destruct f2 as [|f2]; cbn in H2; [lia|].
    cbn [chunks_fuel]. f_equal. apply IH; rewrite length_drop; cbn in *; lia.
Qed.

Lemma chunks_nil n : chunks n [] = [].
Proof. reflexivity. Qed.

Lemma chunks_step n l :
  (0 < n)%nat -> l <> [] -> chunks n l = take n l :: chunks n (drop n l).
Proof.
  intros Hn Hl. destruct l as [|b l]; [done|].
  unfold chunks. cbn [length chunks_fuel]. f_equal.
  apply chunks_fuel_enough; [lia| |lia]. rewrite length_drop. cbn. lia.
Qed.

Lemma chunks_app n c l :
  (0 < n)%nat -> length c = n -> chunks n (c ++ l) = c :: chunks n l.
Proof.
  intros Hn Hc. rewrite chunks_step by (first [lia | destruct c; cbn in *; [lia|done]]).
  rewrite take_app_length' by lia. rewrite drop_app_length' by lia. done.
Qed.

(** A list of whole sectors. *)
Definition sectors_of (n : nat) (ls : list bytes) : Prop := Forall (fun s => length s = n) ls.

Lemma length_concat_sectors n ls :
  sectors_of n ls -> length (concat ls) = (length ls * n)%nat.
Proof.
  induction 1 as [|s ls Hs _ IH]; cbn; [done|]. rewrite length_app, IH, Hs. lia.
Qed.

Lemma chunks_concat n ls :
  (0 < n)%nat -> sectors_of n ls -> chunks n (concat ls) = ls.
Proof.
  intros Hn. induction 1 as [|s ls Hs _ IH]; cbn; [done|].
  rewrite chunks_app, IH; done.
Qed.

(** A buffer of [k] sectors is the concatenation of [k] sectors. *)
Lemma concat_chunks n k l :
  (0 < n)%nat -> length l = (k * n)%nat ->
  sectors_of n (chunks n l) /\ concat (chunks n l) = l /\ length (chunks n l) = k.
Proof.
  intros Hn. revert l. induction k as [|k IH]; intros l Hl.
  - destruct l; cbn in Hl; [|lia]. rewrite chunks_nil. repeat split. constructor.
  - assert (l <> []) by (intros ->; cbn in Hl; lia).
    rewrite chunks_step by done.
    destruct (IH (drop n l)) as (H1 & H2 & H3); [rewrite length_drop; lia|].
    cbn. rewrite H2, H3. split; [|split; [apply take_drop|done]].
    constructor; [rewrite length_take; lia|done].
Qed.

Lemma concat_inj n ls ls' :
  (0 < n)%nat -> sectors_of n ls -> sectors_of n ls' -> concat ls = concat ls' -> ls = ls'.
Proof.
  intros Hn H1 H2 H. rewrite <- (chunks_concat n ls), H by done.
  apply chunks_concat; done.
Qed.

Lemma sectors_of_app n l1 l2 : sectors_of n (l1 ++ l2) <-> sectors_of n l1 /\ sectors_of n l2.
Proof. apply Forall_app. Qed.

(** Apply a function to each sector with its sector number. *)
Definition number_map (f : Z -> bytes -> bytes) (first : Z) (ls : list bytes) : list bytes :=
  imap (fun i s => f (first + Z.of_nat i) s) ls.

Lemma length_number_map f first ls : length (number_map f first ls) = length ls.
Proof. unfold number_map. rewrite length_imap. done. Qed.

Lemma lookup_number_map f first ls i :
  number_map f first ls !! i = (fun s => f (first + Z.of_nat i) s) <$> ls !! i.
Proof. unfold number_map. rewrite list_lookup_imap. done. Qed.

Lemma number_map_nil f first : number_map f first [] = [].
Proof. reflexivity. Qed.

Lemma number_map_cons f first s ls :
  number_map f first (s :: ls) = f first s :: number_map f (first + 1) ls.
Proof.
  unfold number_map. cbn. f_equal; [f_equal; lia|].
  apply imap_ext. intros. cbn. f_equal. lia.
Qed.

Lemma number_map_app f first l1 l2 :
  number_map f first (l1 ++ l2) =
  number_map f first l1 ++ number_map f (first + Z.of_nat (length l1)) l2.
Proof.
  unfold number_map. rewrite imap_app. f_equal.
  apply imap_ext. intros. cbn. f_equal. lia.
Qed.

Lemma sectors_of_number_map n f first ls :
  sectors_of n ls ->
  (forall i s, first <= i < first + Z.of_nat (length ls) -> length s = n -> length (f i s) = n) ->
  sectors_of n (number_map f first ls).
Proof.
  intros Hs Hf. apply Forall_lookup_2. intros i s Hi.
  rewrite lookup_number_map in Hi.
  apply fmap_Some in Hi as (s0 & Hi & ->).
  pose proof (lookup_lt_Some _ _ _ Hi).
  apply Hf; [lia|]. eapply (Forall_lookup_1 _ _ _ _ Hs Hi).
Qed.

(** ** Disks as functions from sector numbers *)

(** The [k] sectors from [lba] on. *)
Definition read_run (v : Z -> bytes) (lba : Z) (k : nat) : list bytes :=
  (fun i => v (lba + Z.of_nat i)) <$> seq 0 k.

(** The disk after the sectors [ls] are written from [lba] on. *)
Definition write_run (v : Z -> bytes) (lba : Z) (ls : list bytes) : Z -> bytes :=
  fun i =>
    if (lba <=? i) && (i <? lba + Z.of_nat (length ls))
    then ls !!! Z.to_nat (i - lba)
    else v i.

Lemma length_read_run v lba k : length (read_run v lba k) = k.
Proof. unfold read_run. rewrite length_fmap. apply length_seq. Qed.

Lemma lookup_read_run v lba k i :
  (i < k)%nat -> read_run v lba k !! i = Some (v (lba + Z.of_nat i)).
Proof.
  intros. unfold read_run. rewrite list_lookup_fmap, lookup_seq_lt by lia. done.
Qed.

Lemma read_run_ext v v' lba k :
  (forall i, lba <= i < lba + Z.of_nat k -> v i = v' i) ->
  read_run v lba k = read_run v' lba k.
Proof.
  intros H. apply list_fmap_ext. intros i j Hj. apply lookup_seq in Hj. apply H. lia.
Qed.

Lemma read_run_shift v d lba k :
  read_run (fun i => v (d + i)) lba k = read_run v (d + lba) k.
Proof. apply list_fmap_ext. intros. f_equal. lia. Qed.

Lemma sectors_of_read_run n v lba k :
  (forall i, lba <= i < lba + Z.of_nat k -> length (v i) = n) ->
  sectors_of n (read_run v lba k).
Proof.
  intros H. apply Forall_lookup_2. intros i s Hi.
  pose proof (lookup_lt_Some _ _ _ Hi). rewrite length_read_run in *.
  rewrite lookup_read_run in Hi by lia. simplify_eq. apply H. lia.
Qed.

Lemma write_run_in v lba ls i :
  lba <= i < lba + Z.of_nat (length ls) ->
  write_run v lba ls i = ls !!! Z.to_nat (i - lba).
Proof. intros. unfold write_run. zcase; done || lia. Qed.

Lemma write_run_out v lba ls i :
  i < lba \/ lba + Z.of_nat (length ls) <= i -> write_run v lba ls i = v i.
Proof. intros. unfold write_run. zcase; done || lia. Qed.

Lemma write_run_lookup v lba ls i s :
  ls !! i = Some s -> write_run v lba ls (lba + Z.of_nat i) = s.
Proof.
  intros H. pose proof (lookup_lt_Some _ _ _ H).
  rewrite write_run_in by lia.
  replace (Z.to_nat _) with i by lia. apply list_lookup_total_correct. done.
Qed.

Lemma read_write_run v lba ls : read_run (write_run v lba ls) lba (length ls) = ls.
Proof.
  apply list_eq. intros i. destruct (decide (i < length ls)%nat) as [Hi|Hi].
  - rewrite lookup_read_run by done.
    destruct (lookup_lt_is_Some_2 ls i Hi) as [s Hs].
    rewrite Hs. f_equal. apply write_run_lookup. done.
  - rewrite !(proj2 (lookup_ge_None _ _)); [done| |]; rewrite ?length_read_run; lia.
Qed.

Lemma write_run_length n v lba ls i :
  sectors_of n ls -> length (v i) = n -> length (write_run v lba ls i) = n.
Proof.
  intros Hs Hv. unfold write_run. zcase; try done.
  eapply (Forall_lookup_1 _ _ (Z.to_nat (i - lba)) _ Hs).
  apply list_lookup_lookup_total_lt. lia.
Qed.

(** ** [SectorIo] ([store.rs]) *)

(* src: lib/common/src/store.rs:21-27 SectorIo *)
Record SectorIo (W : Type) : Type := mkSectorIo {
  sector_size : Z;
  total_sectors : Z;
  read_sectors : Z -> nat -> M VckError W bytes;
  write_sectors : Z -> bytes -> M VckError W unit;
}.
Arguments mkSectorIo {W}.
Arguments sector_size {W}.
Arguments total_sectors {W}.
Arguments read_sectors {W}.
Arguments write_sectors {W}.

(** The impl for [Arc<T>] forwards every method. *)
(* src: lib/common/src/store.rs:29-46 impl SectorIo for Arc<T> *)
Definition Arc_SectorIo {W} (io : SectorIo W) : SectorIo W := {|
  sector_size := sector_size io;
  total_sectors := total_sectors io;
  read_sectors := read_sectors io;
  write_sectors := write_sectors io;
|}.

(** What a client of [SectorIo] relies on, for requests below sector [n]. [inv] is
    the shape invariant of the world behind the device and [view w i] the content of
    sector [i]. A failed read changes nothing; a failed write may leave the sectors it
    was writing in any state, but no others. [n] is what the device reaches, which is
    not always the size it was made with: the sweep's device is given the size of the
    data region, and reaches the region where it is. *)
Class SectorIoUpto {W} (n : Z) (io : SectorIo W) (inv : W -> Prop) (view : W -> Z -> bytes) : Prop := {
  io_ss : 0 < sector_size io < 2 ^ 32;
  io_total : 0 <= n < 2 ^ 64;
  io_len w i :
    inv w -> 0 <= i < n -> length (view w i) = Z.to_nat (sector_size io);
  io_read w lba k w' r :
    inv w -> 0 <= lba -> lba + Z.of_nat k <= n ->
    read_sectors io lba (k * Z.to_nat (sector_size io)) w = (w', r) ->
    inv w' /\ (forall i, 0 <= i < n -> view w' i = view w i) /\
    match r with
    | Ok buf => buf = concat (read_run (view w) lba k)
    | Err _ => True
    | Panic => False
    end;
  io_write w lba ls w' r :
    inv w -> 0 <= lba -> lba + Z.of_nat (length ls) <= n ->
    sectors_of (Z.to_nat (sector_size io)) ls ->
    write_sectors io lba (concat ls) w = (w', r) ->
    inv w' /\
    match r with
    | Ok _ => forall i, 0 <= i < n -> view w' i = write_run (view w) lba ls i
    | Err _ =>
        forall i, 0 <= i < n -> i < lba \/ lba + Z.of_nat (length ls) <= i ->
        view w' i = view w i
    | Panic => False
    end;
}.

Abbreviation SectorIoLaws io := (SectorIoUpto (total_sectors io) io).

(** Two views that agree on the sectors below [n] are as good. *)
Lemma upto_view_ext {W} n (io : SectorIo W) inv v v' :
  (forall w i, inv w -> 0 <= i < n -> v' w i = v w i) ->
  SectorIoUpto n io inv v -> SectorIoUpto n io inv v'.
Proof.
  intros Hv [Hss Ht Hlen Hr Hw]. constructor; [done..| | |].
  - intros w i Hi Hx. rewrite Hv by done. apply Hlen; done.
  - intros w lba k w' r Hi H0 Hk E. destruct (Hr w lba k w' r Hi H0 Hk E) as (Hi' & Hs & Hb).
    split; [done|]. split; [intros i Hx; rewrite !Hv by done; apply Hs; done|].
    destruct r; [|done..]. rewrite Hb. f_equal. apply read_run_ext. intros i Hx. symmetry.
    apply Hv; [done|lia].
  - intros w lba ls w' r Hi H0 Hl Hsec E. destruct (Hw w lba ls w' r Hi H0 Hl Hsec E) as (Hi' & Hd).
    split; [done|]. destruct r; [|intros i Hx Ho; rewrite !Hv by done; apply Hd; done|done].
    intros i Hx. rewrite Hv, Hd by done. unfold write_run. rewrite Hv by done. done.
Qed.

(** A device on which requests below sector [n] succeed; one request moves less than
    4 GiB. *)
Class SectorIoReliableUpto {W} (n : Z) (io : SectorIo W) (inv : W -> Prop) : Prop := {
  io_read_ok w lba k :
    inv w -> 0 <= lba -> lba + Z.of_nat k <= n ->
    Z.of_nat k * sector_size io < 2 ^ 32 ->
    is_ok (read_sectors io lba (k * Z.to_nat (sector_size io)) w).2 = true;
  io_write_ok w lba ls :
    inv w -> 0 <= lba -> lba + Z.of_nat (length ls) <= n ->
    Z.of_nat (length ls) * sector_size io < 2 ^ 32 ->
    sectors_of (Z.to_nat (sector_size io)) ls ->
    is_ok (write_sectors io lba (concat ls) w).2 = true;
}.

Abbreviation SectorIoReliable io := (SectorIoReliableUpto (total_sectors io) io).

(** A device on which reads inside the volume succeed. *)
Class SectorIoReads {W} (io : SectorIo W) (inv : W -> Prop) : Prop :=
  io_reads_ok w lba k :
    inv w -> 0 <= lba -> lba + Z.of_nat k <= total_sectors io ->
    Z.of_nat k * sector_size io < 2 ^ 32 ->
    is_ok (read_sectors io lba (k * Z.to_nat (sector_size io)) w).2 = true.

Global Instance reliable_reads {W} (io : SectorIo W) inv :
  SectorIoReliable io inv -> SectorIoReads io inv.
Proof. intros H w lba k. apply H. Qed.

(** *** The in-memory volume of the unit tests *)

(* src: lib/common/src/jvck/store.rs:893-896 MemVolume *)
Definition MemVolume : Type := bytes.

(* src: lib/common/src/jvck/store.rs:898-905 MemVolume::new *)
Definition MemVolume_new (ss sectors : Z) : MemVolume :=
  replicate (Z.to_nat (u64_mul sectors ss)) Byte.x00.

(** [len] is the length of the vector, which no method changes. *)
(* src: lib/common/src/jvck/store.rs:907-926 impl SectorIo for MemVolume *)
Definition MemVolume_io (ss : Z) (len : nat) : SectorIo MemVolume := {|
  sector_size := ss;
  total_sectors := Z.of_nat len / ss;
  read_sectors lba n := fun data =>
    let start := u64_mul lba ss in
    (data, range start (start + Z.of_nat n) data);
  write_sectors lba buf := fun data =>
    let start := u64_mul lba ss in
    if start + Z.of_nat (length buf) <=? Z.of_nat (length data)
    then (splice (Z.to_nat start) buf data, Ok tt)
    else (data, Panic);
|}.

Definition mem_inv (len : nat) (data : MemVolume) : Prop := length data = len.
Definition mem_view (ss : Z) (data : MemVolume) (i : Z) : bytes :=
  slice (Z.to_nat (i * ss)) (Z.to_nat ss) data.

Lemma slice_run (ss : nat) (data : bytes) (lba k : nat) :
  (0 < ss)%nat -> ((lba + k) * ss <= length data)%nat ->
  slice (lba * ss) (k * ss) data =
  concat ((fun i => slice ((lba + i) * ss) ss data) <$> seq 0 k).
Proof.
  intros Hss. revert lba. induction k as [|k IH]; intros lba Hl; [done|].
  cbn [seq fmap list_fmap concat].
  rewrite Nat.add_0_r. rewrite <- fmap_S_seq, <- list_fmap_compose.
  replace (slice (lba * ss) (S k * ss) data)
    with (slice (lba * ss) ss data ++ slice (S lba * ss) (k * ss) data).
  - f_equal. rewrite IH by lia. f_equal. apply list_fmap_ext.
    intros ? ? _. cbn. f_equal. lia.
  - unfold slice. replace (drop (S lba * ss) data) with (drop ss (drop (lba * ss) data)).
    + replace (S k * ss)%nat with (ss + k * ss)%nat by lia. rewrite take_take_drop. done.
    + rewrite drop_drop. f_equal. lia.
Qed.

Lemma slice_concat_sector n ls j s :
  sectors_of n ls -> ls !! j = Some s -> slice (j * n) n (concat ls) = s.
Proof.
  intros Hs. revert j. induction Hs as [|s0 ls H0 _ IH]; intros j Hj; [done|].
  destruct j as [|j]; cbn in Hj; simplify_eq.
  - cbn. unfold slice. rewrite drop_0. apply take_app_length.
  - rewrite <- (IH j Hj). cbn. unfold slice. f_equal.
    rewrite drop_app_ge by lia. f_equal. lia.
Qed.

Section MemVolumeLaws.
Context (ss : Z) (len : nat).
Hypothesis Hss : 0 < ss < 2 ^ 32.
Hypothesis Hlen : Z.of_nat len < 2 ^ 64.

Lemma mem_start data lba k :
  mem_inv len data -> 0 <= lba -> lba + Z.of_nat k <= Z.of_nat len / ss ->
  u64_mul lba ss = lba * ss /\ (lba + Z.of_nat k) * ss <= Z.of_nat (length data).
Proof using Hss Hlen.
  intros Hi Hl Hk. unfold mem_inv in Hi. rewrite Hi.
  assert ((lba + Z.of_nat k) * ss <= Z.of_nat len).
  { pose proof (Z.mul_div_le (Z.of_nat len) ss). nia. }
  split; [|done]. apply u64_mul_id. nia.
Qed.

Lemma mem_read data lba k :
  mem_inv len data -> 0 <= lba -> lba + Z.of_nat k <= Z.of_nat len / ss ->
  read_sectors (MemVolume_io ss len) lba (k * Z.to_nat ss) data =
  (data, Ok (concat (read_run (mem_view ss data) lba k))).
Proof using Hss Hlen.
  intros Hi Hl Hk. destruct (mem_start data lba k Hi Hl Hk) as [Hs Hb].
  cbn [read_sectors MemVolume_io]. rewrite Hs, range_ok by nia. f_equal. f_equal.
  replace (Z.to_nat (lba * ss)) with (Z.to_nat lba * Z.to_nat ss)%nat by lia.
  replace (Z.to_nat (lba * ss + _ - _)) with (k * Z.to_nat ss)%nat by lia.
  rewrite slice_run by lia. f_equal. apply list_fmap_ext. intros i j Hj.
  apply lookup_seq in Hj. unfold mem_view. f_equal. nia.
Qed.

Lemma mem_write data lba ls :
  mem_inv len data -> 0 <= lba -> lba + Z.of_nat (length ls) <= Z.of_nat len / ss ->
  sectors_of (Z.to_nat ss) ls ->
  write_sectors (MemVolume_io ss len) lba (concat ls) data =
  (splice (Z.to_nat (lba * ss)) (concat ls) data, Ok tt).
Proof using Hss Hlen.
  intros Hi Hl Hk Hsec. destruct (mem_start data lba _ Hi Hl Hk) as [Hs Hb].
  cbn [write_sectors MemVolume_io]. rewrite Hs.
  rewrite (length_concat_sectors _ _ Hsec).
  destruct (Z.leb_spec (lba * ss + Z.of_nat (length ls * Z.to_nat ss)) (Z.of_nat (length data)));
    [done|nia].
Qed.

Lemma mem_view_splice data lba ls i :
  mem_inv len data -> 0 <= lba -> lba + Z.of_nat (length ls) <= Z.of_nat len / ss ->
  sectors_of (Z.to_nat ss) ls -> 0 <= i < Z.of_nat len / ss ->
  mem_view ss (splice (Z.to_nat (lba * ss)) (concat ls) data) i =
  write_run (mem_view ss data) lba ls i.
Proof using Hss Hlen.
  intros Hi Hl Hk Hsec Hr. destruct (mem_start data lba _ Hi Hl Hk) as [Hs Hb].
  pose proof (length_concat_sectors _ _ Hsec) as Hc.
  unfold mem_view, write_run.
  destruct (Z.leb_spec lba i), (Z.ltb_spec i (lba + Z.of_nat (length ls))); cbn [andb];
    try (apply slice_splice_other; nia).
  replace (Z.to_nat (i * ss))
    with (Z.to_nat (lba * ss) + Z.to_nat (i - lba) * Z.to_nat ss)%nat by nia.
  rewrite slice_splice_inside by nia.
  apply slice_concat_sector; [done|]. apply list_lookup_lookup_total_lt. lia.
Qed.

#[export] Instance mem_laws : SectorIoLaws (MemVolume_io ss len) (mem_inv len) (mem_view ss).
Proof using Hss Hlen.
  constructor; cbn [sector_size total_sectors MemVolume_io].
  - done.
  - split; [apply Z.div_pos; lia|].
    assert (Z.of_nat len / ss <= Z.of_nat len) by (apply Z.div_le_upper_bound; nia). lia.
  - intros w i Hi Hr. unfold mem_view. apply length_slice.
    unfold mem_inv in Hi. rewrite Hi.
    pose proof (Z.mul_div_le (Z.of_nat len) ss). nia.
  - intros w lba k w' r Hi Hl Hk Hr. rewrite mem_read in Hr by done. simplify_eq. done.
  - intros w lba ls w' r Hi Hl Hk Hs Hr. rewrite mem_write in Hr by done. simplify_eq.
    pose proof (mem_start w lba _ Hi Hl Hk) as [? ?].
    pose proof (length_concat_sectors _ _ Hs).
    split.
    + unfold mem_inv in *. rewrite length_splice; [done|nia].
    + intros i Hr. apply mem_view_splice; done.
Qed.

#[export] Instance mem_reliable : SectorIoReliable (MemVolume_io ss len) (mem_inv len).
Proof using Hss Hlen.
  constructor; cbn [sector_size total_sectors MemVolume_io]; intros.
  - rewrite mem_read; done.
  - rewrite mem_write; done.
Qed.
End MemVolumeLaws.

(** ** [EncryptedOffsetStore] ([store.rs]) *)

(* src: lib/common/src/store.rs:53-69 EncryptedOffsetStore *)
Record EncryptedOffsetStore (W : Type) : Type := mkOffsetStore {
  st_load : M VckError W EncryptedOffset;
  st_store : EncryptedOffset -> M VckError W unit;
  st_flush : M VckError W unit;
  st_load_state : M VckError W VolumeState;
  st_store_state : VolumeState -> M VckError W unit;
}.
Arguments mkOffsetStore {W}.
Arguments st_load {W}.
Arguments st_store {W}.
Arguments st_flush {W}.
Arguments st_load_state {W}.
Arguments st_store_state {W}.

(** The trait's default methods, for stores that do not track the direction. *)
(* src: lib/common/src/store.rs:58-62 EncryptedOffsetStore::load_state *)
Definition default_load_state {W} : M VckError W VolumeState := mret Encrypt.
(* src: lib/common/src/store.rs:64-68 EncryptedOffsetStore::store_state *)
Definition default_store_state {W} (_state : VolumeState) : M VckError W unit := mret tt.

(** A computation that keeps the shape invariant and the sectors [lo, hi), and
    does not panic. *)
Definition keeps {W A} (inv : W -> Prop) (view : W -> Z -> bytes) (lo hi : Z)
    (m : M VckError W A) : Prop :=
  forall w w' r, inv w -> m w = (w', r) ->
    inv w' /\ (forall i, lo <= i < hi -> view w' i = view w i) /\ r <> Panic.

(** What the engine relies on: the store touches no sector of the data region
    [lo, hi), whether it succeeds or not. *)
Class OffsetStoreLaws {W} (st : EncryptedOffsetStore W) (inv : W -> Prop)
    (view : W -> Z -> bytes) (lo hi : Z) : Prop := {
  st_store_keeps o : keeps inv view lo hi (st_store st o);
  st_flush_keeps : keeps inv view lo hi (st_flush st);
  st_load_state_keeps : keeps inv view lo hi (st_load_state st);
  st_store_state_keeps s : keeps inv view lo hi (st_store_state st s);
}.

(** A store that accepts every boundary. *)
Class OffsetStoreReliable {W} (st : EncryptedOffsetStore W) (inv : W -> Prop) : Prop := {
  st_store_ok o w : inv w -> is_ok (st_store st o w).2 = true;
  st_flush_ok w : inv w -> is_ok (st_flush st w).2 = true;
}.

(** ** [VolumeCipher] and [VolumeCipherSupplier] ([types.rs])

    The in-place methods return the new buffer, [None] if they panic. [destroy] wipes key material
    the model does not expose; its default does nothing. *)

(* src: lib/common/src/types.rs:154-172 VolumeCipher *)
Record VolumeCipher : Type := mkVolumeCipher {
  encrypt_sector : Z -> bytes -> option bytes;
  decrypt_sector : Z -> bytes -> option bytes;
  encrypt_area : bytes -> Z -> Z -> option bytes;
  decrypt_area : bytes -> Z -> Z -> option bytes;
}.

(* src: lib/common/src/types.rs:182-189 VolumeCipherSupplier *)
Record VolumeCipherSupplier : Type := mkSupplier { get_cipher : option VolumeCipher }.

(** What a client relies on for sectors of [ss] bytes: [enc] and [dec] are the
    sector functions, decryption inverts encryption, lengths are kept, and the
    area methods treat each sector with its own number. *)
Class CipherLaws (c : VolumeCipher) (ss : Z) (enc dec : Z -> bytes -> bytes) : Prop := {
  cl_ss : 0 < ss < 2 ^ 32;
  cl_dec_enc r s : in_u 64 r -> length s = Z.to_nat ss -> dec r (enc r s) = s;
  cl_enc_len r s : length s = Z.to_nat ss -> length (enc r s) = Z.to_nat ss;
  cl_dec_len r s : length s = Z.to_nat ss -> length (dec r s) = Z.to_nat ss;
  cl_encrypt_sector r s :
    in_u 64 r -> length s = Z.to_nat ss -> encrypt_sector c r s = Some (enc r s);
  cl_decrypt_sector r s :
    in_u 64 r -> length s = Z.to_nat ss -> decrypt_sector c r s = Some (dec r s);
  cl_encrypt_area first ls :
    0 <= first -> first + Z.of_nat (length ls) <= 2 ^ 64 -> sectors_of (Z.to_nat ss) ls ->
    encrypt_area c (concat ls) ss first = Some (concat (number_map enc first ls));
  cl_decrypt_area first ls :
    0 <= first -> first + Z.of_nat (length ls) <= 2 ^ 64 -> sectors_of (Z.to_nat ss) ls ->
    decrypt_area c (concat ls) ss first = Some (concat (number_map dec first ls));
}.

(** ** The store and device of a provisional volume ([ioctl/dispatch.rs]) *)

(* src: lib/windrv/src/ioctl/dispatch.rs:464-481 DummyOffsetStore *)
Definition DummyOffsetStore {W} (total : Z) : EncryptedOffsetStore W := {|
  st_load := mret (mkEncryptedOffset 0 total);
  st_store _ := mret tt;
  st_flush := mret tt;
  st_load_state := default_load_state;
  st_store_state := default_store_state;
|}.

(* src: lib/windrv/src/ioctl/dispatch.rs:483-500 DummySectorIo *)
Definition DummySectorIo {W} (ss total : Z) : SectorIo W := {|
  sector_size := ss;
  total_sectors := total;
  read_sectors _ _ := mfail (Io "DummySectorIo: not ready yet");
  write_sectors _ _ := mfail (Io "DummySectorIo: not ready yet");
|}.

Lemma mret_keeps {W A} (inv : W -> Prop) view lo hi (a : A) :
  keeps inv view lo hi (mret a).
Proof. intros w w' r Hi H. unfold mret, M_ret in H. simplify_eq. done. Qed.

Global Instance DummyOffsetStore_laws {W} total (inv : W -> Prop) view lo hi :
  OffsetStoreLaws (DummyOffsetStore total) inv view lo hi.
Proof. constructor; intros; apply mret_keeps. Qed.

Global Instance DummyOffsetStore_reliable {W} total (inv : W -> Prop) :
  OffsetStoreReliable (DummyOffsetStore total) inv.
Proof. constructor; done. Qed.

(** ** A small concrete cipher, to evaluate the storage components on *)

Module ShiftCipher.
Definition enc (r : Z) (s : bytes) : bytes := (fun b => byte_of (byte_val b + (r + 1))) <$> s.
Definition dec (r : Z) (s : bytes) : bytes := (fun b => byte_of (byte_val b - (r + 1))) <$> s.

Definition cipher : VolumeCipher := {|
  encrypt_sector r s := Some (enc r s);
  decrypt_sector r s := Some (dec r s);
  encrypt_area buf ss first := Some (concat (number_map enc first (chunks (Z.to_nat ss) buf)));
  decrypt_area buf ss first := Some (concat (number_map dec first (chunks (Z.to_nat ss) buf)));
|}.

Lemma dec_enc r s : dec r (enc r s) = s.
Proof.
  unfold dec, enc. rewrite <- list_fmap_compose.
  rewrite <- (list_fmap_id s) at 2. apply list_fmap_ext. intros i b _. cbn.
  rewrite byte_val_of. rewrite <- (byte_of_val b) at 2. unfold byte_of.
  rewrite Zminus_mod_idemp_l.
  replace (byte_val b + (r + 1) - (r + 1)) with (byte_val b) by lia. done.
Qed.

#[export] Instance laws ss : 0 < ss < 2 ^ 32 -> CipherLaws cipher ss enc dec.
Proof.
  intros Hss. constructor; try done; intros.
  - apply dec_enc.
  - unfold enc. rewrite length_fmap. done.
  - unfold dec. rewrite length_fmap. done.
  - cbn. rewrite chunks_concat by (done || lia). done.
  - cbn. rewrite chunks_concat by (done || lia). done.
Qed.
End ShiftCipher.
