(* ===== verification/Engine.v ===== *)
(** * The encryption engine ([lib/windrv/src/offset/engine.rs])

    The progress boundary of a volume and the batched sweep that moves it. The
    engine is a record; the methods that take the disk and the offset store run
    over the pair of the engine and the world behind both. *)

From S2P Require Import Prelude Types Sectors.

(* src: lib/windrv/src/offset/engine.rs:14-19 EngineState *)
Inductive EngineState : Type := Idle | Encrypting | Decrypting | Paused.

Global Instance EngineState_eq_dec : EqDecision EngineState.
Proof. solve_decision. Defined.

(* src: lib/windrv/src/offset/engine.rs:23-30 EngineState::as_wire *)
Definition as_wire (s : EngineState) : Z :=
  match s with Idle => 0 | Encrypting => 1 | Decrypting => 2 | Paused => 3 end.

(* src: lib/windrv/src/offset/engine.rs:35-39 ProgressSnapshot *)
Record ProgressSnapshot : Type := mkSnapshot {
  ps_encrypted_sector : Z;
  ps_total_sectors : Z;
  ps_state : EngineState;
}.

(* src: lib/windrv/src/offset/engine.rs:41-47 EncryptionEngine *)
Record EncryptionEngine : Type := mkEngine {
  en_offset_sector : Z;
  en_encrypted_offset : EncryptedOffset;
  en_state : EngineState;
}.

(* src: lib/windrv/src/offset/engine.rs:50-56 EncryptionEngine::new *)
Definition engine_new (offset_sector : Z) (o : EncryptedOffset) : EncryptionEngine :=
  mkEngine offset_sector o Idle.

(* src: lib/windrv/src/offset/engine.rs:63-66 EncryptionEngine::relative *)
Definition relative (e : EncryptionEngine) (lba : Z) : option Z :=
  rel ← (if en_offset_sector e <=? lba then Some (lba - en_offset_sector e) else None);
  if rel <? eo_total_sectors (en_encrypted_offset e) then Some rel else None.

(* src: lib/windrv/src/offset/engine.rs:69-71 EncryptionEngine::is_encrypted *)
Definition engine_is_encrypted (e : EncryptionEngine) (rel : Z) : bool :=
  is_encrypted (en_encrypted_offset e) rel.

(* src: lib/windrv/src/offset/engine.rs:74-76 EncryptionEngine::encrypted_boundary *)
Definition encrypted_boundary (e : EncryptionEngine) : Z :=
  eo_sector (en_encrypted_offset e).

(* src: lib/windrv/src/offset/engine.rs:82-88 EncryptionEngine::snapshot *)
Definition snapshot (e : EncryptionEngine) : ProgressSnapshot :=
  mkSnapshot (eo_sector (en_encrypted_offset e)) (eo_total_sectors (en_encrypted_offset e))
    (en_state e).

Definition with_state (s : EngineState) (e : EncryptionEngine) : EncryptionEngine :=
  mkEngine (en_offset_sector e) (en_encrypted_offset e) s.

Definition with_sector (b : Z) (e : EncryptionEngine) : EncryptionEngine :=
  mkEngine (en_offset_sector e)
    (mkEncryptedOffset b (eo_total_sectors (en_encrypted_offset e))) (en_state e).

Section Engine.
Context {W : Type}.
Local Abbreviation EM := (M VckError (EncryptionEngine * W)).

Definition set_state (s : EngineState) : EM unit :=
  mmodify (fun t => (with_state s t.1, t.2)).
Definition set_sector (b : Z) : EM unit :=
  mmodify (fun t => (with_sector b t.1, t.2)).
Definition engine : EM EncryptionEngine := t ← mget; mret t.1.

(* src: lib/windrv/src/offset/engine.rs:92-99 EncryptionEngine::start_encrypt *)
Definition start_encrypt (store : EncryptedOffsetStore W) : EM unit :=
  _ ← ignore (on_snd (st_store_state store Encrypt));
  e ← engine;
  if negb (is_fully_encrypted (en_encrypted_offset e))
  then set_state Encrypting
  else set_state Idle.

(* src: lib/windrv/src/offset/engine.rs:103-110 EncryptionEngine::start_decrypt *)
Definition start_decrypt (store : EncryptedOffsetStore W) : EM unit :=
  _ ← ignore (on_snd (st_store_state store Decrypt));
  e ← engine;
  if 0 <? eo_sector (en_encrypted_offset e)
  then set_state Decrypting
  else set_state Idle.

(* src: lib/windrv/src/offset/engine.rs:115-132 EncryptionEngine::resume *)
Definition resume (store : EncryptedOffsetStore W) : EM unit :=
  r ← attempt (on_snd (st_load_state store));
  e ← engine;
  match match r with inl s => s | inr _ => Encrypt end with
  | Encrypt =>
      set_state (if is_fully_encrypted (en_encrypted_offset e) then Idle else Encrypting)
  | Decrypt =>
      set_state (if 0 <? eo_sector (en_encrypted_offset e) then Decrypting else Idle)
  end.

(* src: lib/windrv/src/offset/engine.rs:134-141 EncryptionEngine::pause *)
Definition pause (e : EncryptionEngine) : EncryptionEngine :=
  match en_state e with
  | Encrypting | Decrypting => with_state Paused e
  | _ => e
  end.

(* src: lib/windrv/src/offset/engine.rs:175-219 EncryptionEngine::encrypt_step *)
Definition encrypt_step (io : SectorIo W) (cipher : VolumeCipher)
    (store : EncryptedOffsetStore W) (batch_sectors : Z) : EM bool :=
  e ← engine;
  if is_fully_encrypted (en_encrypted_offset e) then
    _ ← set_state Idle; mret false
  else
    let ss := sector_size io in
    let start_rel := eo_sector (en_encrypted_offset e) in
    let remaining := u64_sub (eo_total_sectors (en_encrypted_offset e)) start_rel in
    let count := Z.min remaining (Z.max batch_sectors 1) in
    let abs := u64_add (en_offset_sector e) start_rel in
    buf ← on_snd (read_sectors io abs (Z.to_nat (u64_mul count ss)));
    buf ← lift (unwrap (encrypt_area cipher buf ss start_rel));
    _ ← on_snd (write_sectors io abs buf);
    _ ← set_sector (u64_add start_rel count);
    e ← engine;
    _ ← on_snd (st_store store (en_encrypted_offset e));
    _ ← on_snd (st_flush store);
    if is_fully_encrypted (en_encrypted_offset e) then
      _ ← set_state Idle; mret false
    else mret true.

(* src: lib/windrv/src/offset/engine.rs:221-252 EncryptionEngine::decrypt_step *)
Definition decrypt_step (io : SectorIo W) (cipher : VolumeCipher)
    (store : EncryptedOffsetStore W) (batch_sectors : Z) : EM bool :=
  e ← engine;
  if eo_sector (en_encrypted_offset e) =? 0 then
    _ ← set_state Idle; mret false
  else
    let ss := sector_size io in
    let count := Z.min (eo_sector (en_encrypted_offset e)) (Z.max batch_sectors 1) in
    let new_boundary := u64_sub (eo_sector (en_encrypted_offset e)) count in
    let abs := u64_add (en_offset_sector e) new_boundary in
    buf ← on_snd (read_sectors io abs (Z.to_nat (u64_mul count ss)));
    buf ← lift (unwrap (decrypt_area cipher buf ss new_boundary));
    _ ← on_snd (write_sectors io abs buf);
    _ ← set_sector new_boundary;
    e ← engine;
    _ ← on_snd (st_store store (en_encrypted_offset e));
    _ ← on_snd (st_flush store);
    if new_boundary =? 0 then
      _ ← set_state Idle; mret false
    else mret true.

(* src: lib/windrv/src/offset/engine.rs:161-173 EncryptionEngine::progress_step *)
Definition progress_step (io : SectorIo W) (cipher : VolumeCipher)
    (store : EncryptedOffsetStore W) (batch_sectors : Z) : EM bool :=
  e ← engine;
  match en_state e with
  | Encrypting => encrypt_step io cipher store batch_sectors
  | Decrypting => decrypt_step io cipher store batch_sectors
  | _ => mret false
  end.
End Engine.

(** ** The plaintext a volume presents

    Sector [rel] of the data region is ciphertext below the boundary [b] and
    plaintext from it on. *)

Definition plaintext (dec : Z -> bytes -> bytes) (v : Z -> bytes) (off b rel : Z) : bytes :=
  if rel <? b then dec rel (v (off + rel)) else v (off + rel).

Lemma plaintext_ext dec v v' off b rel :
  v (off + rel) = v' (off + rel) -> plaintext dec v off b rel = plaintext dec v' off b rel.
Proof. unfold plaintext. intros ->. done. Qed.

(** Rewriting [n] sectors from relative sector [first] on through [f]. *)
Definition rewrite_run (f : Z -> bytes -> bytes) (v : Z -> bytes) (off first : Z) (n : nat) :
    Z -> bytes :=
  write_run v (off + first) (number_map f first (read_run v (off + first) n)).

Lemma rewrite_run_at f v off first n rel :
  rewrite_run f v off first n (off + rel) =
  if (first <=? rel) && (rel <? first + Z.of_nat n)
  then f rel (v (off + rel)) else v (off + rel).
Proof.
  unfold rewrite_run.
  destruct (Z.leb_spec first rel), (Z.ltb_spec rel (first + Z.of_nat n)); cbn [andb];
    try (apply write_run_out; rewrite length_number_map, length_read_run; lia).
  replace (off + rel) with (off + first + Z.of_nat (Z.to_nat (rel - first))) by lia.
  apply write_run_lookup.
  rewrite lookup_number_map, lookup_read_run by lia. cbn. repeat f_equal; lia.
Qed.

(** ** What a volume does to its devices

    The accesses of a volume whose data region is [off, off + total): reads and
    writes of whole sectors inside it, and updates of its store. The boundary the
    store was last given goes along. *)

Section Access.
Context {W : Type} (io : SectorIo W) (store : EncryptedOffsetStore W) (off total : Z).
Abbreviation sector := (Z.to_nat (sector_size io)).

Inductive access : Z * W -> Z * W -> Prop :=
| ac_read b lba n w w' r :
    off <= lba -> lba + Z.of_nat n <= off + total ->
    read_sectors io lba (n * sector) w = (w', r) -> access (b, w) (b, w')
| ac_write b lba ls w w' r :
    off <= lba -> lba + Z.of_nat (length ls) <= off + total -> sectors_of sector ls ->
    write_sectors io lba (concat ls) w = (w', r) -> access (b, w) (b, w')
| ac_store b o w w' :
    0 <= eo_sector o <= total -> st_store store o w = (w', Ok tt) -> access (b, w) (eo_sector o, w')
| ac_flush b w w' r : st_flush store w = (w', r) -> access (b, w) (b, w')
| ac_load_state b w w' r : st_load_state store w = (w', r) -> access (b, w) (b, w')
| ac_store_state b st w w' r : st_store_state store st w = (w', r) -> access (b, w) (b, w').

Definition accesses : Z * W -> Z * W -> Prop := rtc access.

#[export] Instance accesses_preorder : PreOrder accesses.
Proof. unfold accesses. apply _. Qed.

Lemma accesses_once t t' : access t t' -> accesses t t'.
Proof. apply rtc_once. Qed.

(** What every access keeps, a volume keeps. *)
Lemma accesses_keep (R : Z -> W -> Prop) t t' :
  (forall b w b' w', access (b, w) (b', w') -> R b w -> R b' w') ->
  accesses t t' -> R t.1 t.2 -> R t'.1 t'.2.
Proof.
  intros Hk. induction 1 as [|[b w] [b1 w1] t' Hs _ IH]; [done|]. intros HR. apply IH.
  exact (Hk _ _ _ _ Hs HR).
Qed.
End Access.

Section SweepLaws.
Context {W : Type} (io : SectorIo W) (cipher : VolumeCipher) (store : EncryptedOffsetStore W).
Context (enc dec : Z -> bytes -> bytes) (inv : W -> Prop) (view : W -> Z -> bytes).
Context (off total lo hi : Z).
Context {reach : Z} `{!SectorIoUpto reach io inv view} `{!CipherLaws cipher (sector_size io) enc dec}.
Context `{!OffsetStoreLaws store inv view lo hi}.
Hypothesis Hregion : 0 <= lo <= off /\ off + total <= hi <= reach.

(** Well-formed engines: a boundary inside a data region inside the disk. *)
Record engine_wf (e : EncryptionEngine) : Prop := {
  wf_off : en_offset_sector e = off;
  wf_total : eo_total_sectors (en_encrypted_offset e) = total;
  wf_sector : 0 <= eo_sector (en_encrypted_offset e) <= total;
}.

Lemma wf_with_sector e b : engine_wf e -> 0 <= b <= total -> engine_wf (with_sector b e).
Proof using Type. intros [] ?. constructor; done. Qed.

Lemma wf_with_state e s : engine_wf e -> engine_wf (with_state s e).
Proof using Type. intros []. constructor; done. Qed.

Local Abbreviation does := (accesses io store off total).

Local Abbreviation same_data w w' :=
  (forall i, lo <= i < hi -> view w' i = view w i).

(** One batch of disk work: read [n] sectors, transform them, write them back. *)
Lemma batch_cases {A} area f e w first n (k : M VckError (EncryptionEngine * W) A) :
  (forall ls, sectors_of (Z.to_nat (sector_size io)) ls -> length ls = n ->
     area (concat ls) = Ok (concat (number_map f first ls)) /\
     sectors_of (Z.to_nat (sector_size io)) (number_map f first ls)) ->
  inv w -> 0 <= first -> first + Z.of_nat n <= total ->
  exists w', inv w' /\ (forall b, does (b, w) (b, w')) /\
    let run := (buf ← on_snd (read_sectors io (off + first) (n * Z.to_nat (sector_size io)));
                buf ← lift (area buf);
                _ ← on_snd (write_sectors io (off + first) buf); k) (e, w) in
    ((exists err, run = ((e, w'), Err err)) /\
     (forall i, lo <= i < hi -> i < off + first \/ off + first + Z.of_nat n <= i ->
        view w' i = view w i) /\
     ~ (SectorIoReliableUpto reach io inv /\ Z.of_nat n * sector_size io < 2 ^ 32)) \/
    (run = k (e, w') /\
     forall i, lo <= i < hi -> view w' i = rewrite_run f (view w) off first n i).
Proof using SectorIoUpto0 Hregion.
  intros Harea Hi Hf Hn.
  unfold on_snd, zoom, lift. cbn beta.
  destruct (read_sectors io (off + first) (n * Z.to_nat (sector_size io)) w)
    as [w1 r1] eqn:Hr.
  assert (forall b, does (b, w) (b, w1)) as Hd1.
  { intros b. apply accesses_once. eapply ac_read; [| |exact Hr]; lia. }
  destruct (io_read (n:=reach) (io:=io) (view:=view) w (off + first) n w1 r1 Hi ltac:(lia) ltac:(lia) Hr) as (Hi1 & Hv1 & Hr1).
  assert (forall i, lo <= i < hi -> view w1 i = view w i) as Hs1
    by (intros; apply Hv1; lia).
  rewrite mbind_run. cbn [fst snd]. rewrite Hr.
  destruct r1 as [buf|err|]; [| |done].
  2: { exists w1. split; [done|]. split; [done|]. left. split; [eauto|]. split; [auto|].
       intros [Hrel Hsmall].
       pose proof (io_read_ok (n:=reach) (io:=io) w (off + first) n Hi ltac:(lia) ltac:(lia) Hsmall) as Hok.
       rewrite Hr in Hok. done. }
  set (ls := read_run (view w) (off + first) n) in *.
  assert (sectors_of (Z.to_nat (sector_size io)) ls) as Hls.
  { apply sectors_of_read_run. intros i Hr'. apply io_len; [done|lia]. }
  assert (length ls = n) as Hlen by apply length_read_run.
  destruct (Harea ls Hls Hlen) as [Ha Hsec].
  rewrite mbind_run. subst buf. rewrite Ha. rewrite mbind_run. cbn [fst snd].
  destruct (write_sectors io (off + first) (concat (number_map f first ls)) w1)
    as [w2 r2] eqn:Hw.
  assert (length (number_map f first ls) = n) as Hlen' by (rewrite length_number_map; done).
  destruct (io_write (n:=reach) (io:=io) (view:=view) w1 (off + first) (number_map f first ls) w2 r2 Hi1 ltac:(lia) ltac:(lia) Hsec Hw)
    as [Hi2 Hr2].
  exists w2. split; [done|]. split.
  { intros b. rewrite Hd1. apply accesses_once. eapply ac_write; [| |exact Hsec|exact Hw]; lia. }
  destruct r2 as [[]|err|]; [right|left|done].
  - split; [done|]. intros i Hrel. rewrite Hr2 by lia. unfold rewrite_run. fold ls.
    unfold write_run. rewrite Hlen'. rewrite Hs1 by done. done.
  - split; [eauto|]. split; [intros i Hrel Ho'; rewrite Hr2 by lia; apply Hs1; done|].
    intros [Hrel Hsmall].
    pose proof (io_write_ok (n:=reach) (io:=io) w1 (off + first) (number_map f first ls) Hi1
                  ltac:(lia) ltac:(lia) ltac:(rewrite Hlen'; done) Hsec) as Hok.
    rewrite Hw in Hok. done.
Qed.

(** Persisting the boundary touches no data sector. *)
Lemma persist_cases {A} o e w (k : M VckError (EncryptionEngine * W) A) :
  inv w ->
  exists w', inv w' /\ same_data w w' /\
    let run := (_ ← on_snd (st_store store o); _ ← on_snd (st_flush store); k) (e, w) in
    ((exists err, run = ((e, w'), Err err)) /\ ~ OffsetStoreReliable store inv) \/
    (run = k (e, w') /\ (exists w1, st_store store o w = (w1, Ok tt)) /\
     forall b, 0 <= eo_sector o <= total -> does (b, w) (eo_sector o, w')).
Proof using OffsetStoreLaws0.
  intros Hi. rewrite mbind_run. unfold on_snd, zoom. cbn [fst snd].
  destruct (st_store store o w) as [w1 r1] eqn:H1.
  destruct (st_store_keeps o w w1 r1 Hi H1) as (Hi1 & Hv1 & Hp1).
  assert (same_data w w1) as Hs1 by (intros; apply Hv1; lia).
  destruct r1 as [[]|err|]; [| |done].
  2: { exists w1. split; [done|]. split; [done|]. left. split; [eauto|]. intros Hrel.
       pose proof (st_store_ok o w Hi) as Hok. rewrite H1 in Hok. done. }
  rewrite mbind_run. cbn [fst snd].
  destruct (st_flush store w1) as [w2 r2] eqn:H2.
  destruct (st_flush_keeps w1 w2 r2 Hi1 H2) as (Hi2 & Hv2 & Hp2).
  assert (same_data w w2) as Hs2.
  { intros i Hr. rewrite <- (Hs1 i Hr). apply Hv2. lia. }
  exists w2. split; [done|]. split; [done|].
  destruct r2 as [[]|err|]; [right|left|done].
  { split; [done|]. split; [eauto|]. intros b Ho. etransitivity; apply accesses_once.
    - eapply ac_store; done.
    - eapply ac_flush. done. }
  split; [eauto|]. intros Hrel. pose proof (st_flush_ok w1 Hi1) as Hok.
  rewrite H2 in Hok. done.
Qed.

(** Apply the two lemmas above to the run in the goal. *)
Tactic Notation "batch_split" constr(f) constr(first) constr(n) "as" simple_intropattern(pat) :=
  match goal with
  | |- context [(on_snd _ ≫= (fun buf => lift (@?area buf) ≫=
                   (fun _ => on_snd _ ≫= (fun _ => ?k)))) (?e, ?w)] =>
      destruct (batch_cases area f e w first n k) as pat
  end.
Tactic Notation "persist_split" "as" simple_intropattern(pat) :=
  match goal with
  | |- context [(on_snd (st_store _ ?o) ≫= (fun _ => on_snd _ ≫= (fun _ => ?k))) (?e, ?w)] =>
      destruct (persist_cases o e w k) as pat
  end.

(** How one batch over sectors [first, first+n) can end, when it moves the
    boundary to [target]. *)
Inductive batch_result (e : EncryptionEngine) (w : W) (f : Z -> bytes -> bytes)
    (first n target : Z) (idle : bool) :
    (EncryptionEngine * W) * outcome VckError bool -> Prop :=
| disk_failed w' err :
    inv w' -> ~ (SectorIoReliableUpto reach io inv /\ n * sector_size io < 2 ^ 32) ->
    (forall i, lo <= i < hi -> i < off + first \/ off + first + n <= i ->
       view w' i = view w i) ->
    batch_result e w f first n target idle ((e, w'), Err err)
| store_failed w' err :
    inv w' -> ~ OffsetStoreReliable store inv ->
    (forall i, lo <= i < hi ->
       view w' i = rewrite_run f (view w) off first (Z.to_nat n) i) ->
    batch_result e w f first n target idle ((with_sector target e, w'), Err err)
| batch_done w' :
    inv w' ->
    (exists o w0 w1, st_store store o w0 = (w1, Ok tt)) /\ does (encrypted_boundary e, w) (target, w') ->
    (forall i, lo <= i < hi ->
       view w' i = rewrite_run f (view w) off first (Z.to_nat n) i) ->
    batch_result e w f first n target idle
      ((if idle then with_state Idle (with_sector target e) else with_sector target e, w'),
       Ok (negb idle)).

Definition batch_size (avail batch : Z) : Z := Z.min avail (Z.max batch 1).

Lemma encrypt_area_run b ls :
  0 <= b -> b + Z.of_nat (length ls) <= total -> total < 2 ^ 64 ->
  sectors_of (Z.to_nat (sector_size io)) ls ->
  unwrap (E:=VckError) (encrypt_area cipher (concat ls) (sector_size io) b) =
    Ok (concat (number_map enc b ls)) /\
  sectors_of (Z.to_nat (sector_size io)) (number_map enc b ls).
Proof using CipherLaws0.
  intros. split; [rewrite cl_encrypt_area; done || lia|].
  apply sectors_of_number_map; [done|]. intros. apply cl_enc_len. done.
Qed.

Lemma decrypt_area_run b ls :
  0 <= b -> b + Z.of_nat (length ls) <= total -> total < 2 ^ 64 ->
  sectors_of (Z.to_nat (sector_size io)) ls ->
  unwrap (E:=VckError) (decrypt_area cipher (concat ls) (sector_size io) b) =
    Ok (concat (number_map dec b ls)) /\
  sectors_of (Z.to_nat (sector_size io)) (number_map dec b ls).
Proof using CipherLaws0.
  intros. split; [rewrite cl_decrypt_area; done || lia|].
  apply sectors_of_number_map; [done|]. intros. apply cl_dec_len. done.
Qed.

(** The arithmetic of a batch does not wrap. *)
Lemma batch_bytes n :
  0 <= n <= total -> total * sector_size io < 2 ^ 64 ->
  Z.to_nat (u64_mul n (sector_size io)) = (Z.to_nat n * Z.to_nat (sector_size io))%nat.
Proof using SectorIoUpto0.
  intros. pose proof (io_ss (n:=reach) (io:=io) (view:=view)).
  rewrite u64_mul_id by nia. lia.
Qed.

Lemma encrypt_step_run e w batch :
  engine_wf e -> inv w -> total * sector_size io < 2 ^ 64 ->
  eo_sector (en_encrypted_offset e) < total ->
  let b := eo_sector (en_encrypted_offset e) in
  let n := batch_size (total - b) batch in
  batch_result e w enc b n (b + n) (total <=? b + n)
    (encrypt_step io cipher store batch (e, w)).
Proof using All.
  intros Hwf Hi Hbig Hlt b n. pose proof Hwf as [Ho Ht Hsec].
  pose proof (io_total (n:=reach) (io:=io) (view:=view)).
  assert (0 < n <= total - b) as Hn by (unfold n, batch_size; lia).
  unfold encrypt_step. rewrite (mbind_step _ _ _ (e, w) e) by reflexivity.
  unfold is_fully_encrypted at 1. rewrite Ht. fold b. rewrite (proj2 (Z.leb_gt total b)) by lia.
  rewrite Ho. fold b. rewrite u64_sub_id by lia. fold (batch_size (total - b) batch). fold n.
  rewrite (u64_add_id off b), (u64_add_id b n) by lia. rewrite batch_bytes by lia.
  batch_split enc b (Z.to_nat n) as (w1 & Hi1 & Hd1 & Hc); [| done | lia .. | ].
  { intros ls Hls Hlen. apply encrypt_area_run; done || lia. }
  rewrite Z2Nat.id in Hc by lia.
  destruct Hc as [([err Hrun] & Hout & Hnr)|[Hrun Hv]]; rewrite Hrun; clear Hrun.
  { apply disk_failed; [done..|]. intros. apply Hout; lia. }
  rewrite (mbind_step _ _ _ (with_sector (b + n) e, w1) tt) by reflexivity.
  rewrite (mbind_step _ _ _ (with_sector (b + n) e, w1) (with_sector (b + n) e)) by reflexivity.
  persist_split as (w2 & Hi2 & Hs2 & Hc); [done|].
  destruct Hc as [[[err Hrun] Hnr]|[Hrun [[w3 Hst3] Hd2]]]; rewrite Hrun; clear Hrun.
  { apply store_failed; [done..|]. intros. rewrite Hs2, Hv; done. }
  unfold is_fully_encrypted. cbn [with_sector en_encrypted_offset eo_total_sectors eo_sector].
  rewrite Ht.
  assert (does (b, w) (b + n, w2)) as Hd by (rewrite (Hd1 b); apply Hd2; cbn; lia).
  pose proof (batch_done e w enc b n (b + n) (total <=? b + n) w2 Hi2
                (conj (ex_intro _ _ (ex_intro _ _ (ex_intro _ w3 Hst3))) Hd)
                ltac:(intros; rewrite Hs2, Hv; done)) as Hb.
  destruct (total <=? b + n); exact Hb.
Qed.

Lemma decrypt_step_run e w batch :
  engine_wf e -> inv w -> total * sector_size io < 2 ^ 64 ->
  0 < eo_sector (en_encrypted_offset e) ->
  let b := eo_sector (en_encrypted_offset e) in
  let n := batch_size b batch in
  batch_result e w dec (b - n) n (b - n) (b - n =? 0)
    (decrypt_step io cipher store batch (e, w)).
Proof using All.
  intros Hwf Hi Hbig Hlt b n. pose proof Hwf as [Ho Ht Hsec].
  pose proof (io_total (n:=reach) (io:=io) (view:=view)).
  assert (0 < n <= b) as Hn by (unfold n, batch_size; lia).
  unfold decrypt_step. rewrite (mbind_step _ _ _ (e, w) e) by reflexivity.
  fold b. rewrite (proj2 (Z.eqb_neq b 0)) by lia.
  rewrite Ho. fold b. fold (batch_size b batch). fold n. rewrite u64_sub_id by lia.
  rewrite u64_add_id by lia. rewrite batch_bytes by lia.
  batch_split dec (b - n) (Z.to_nat n) as (w1 & Hi1 & Hd1 & Hc); [| done | lia .. | ].
  { intros ls Hls Hlen. apply decrypt_area_run; done || lia. }
  rewrite Z2Nat.id in Hc by lia.
  destruct Hc as [([err Hrun] & Hout & Hnr)|[Hrun Hv]]; rewrite Hrun; clear Hrun.
  { apply disk_failed; [done..|]. intros. apply Hout; lia. }
  rewrite (mbind_step _ _ _ (with_sector (b - n) e, w1) tt) by reflexivity.
  rewrite (mbind_step _ _ _ (with_sector (b - n) e, w1) (with_sector (b - n) e)) by reflexivity.
  persist_split as (w2 & Hi2 & Hs2 & Hc); [done|].
  destruct Hc as [[[err Hrun] Hnr]|[Hrun [[w3 Hst3] Hd2]]]; rewrite Hrun; clear Hrun.
  { apply store_failed; [done..|]. intros. rewrite Hs2, Hv; done. }
  assert (does (b, w) (b - n, w2)) as Hd by (rewrite (Hd1 b); apply Hd2; cbn; lia).
  pose proof (batch_done e w dec (b - n) n (b - n) (b - n =? 0) w2 Hi2
                (conj (ex_intro _ _ (ex_intro _ _ (ex_intro _ w3 Hst3))) Hd)
                ltac:(intros; rewrite Hs2, Hv; done)) as Hb.
  destruct (b - n =? 0); exact Hb.
Qed.

Lemma plaintext_encrypted v b n rel :
  0 <= rel < total -> total <= 2 ^ 64 -> 0 <= n ->
  length (v (off + rel)) = Z.to_nat (sector_size io) ->
  plaintext dec (rewrite_run enc v off b (Z.to_nat n)) off (b + n) rel =
  plaintext dec v off b rel.
Proof using CipherLaws0.
  intros Hr Ht Hn Hl. unfold plaintext. rewrite rewrite_run_at, Z2Nat.id by done.
  destruct (Z.leb_spec b rel), (Z.ltb_spec rel (b + n)), (Z.ltb_spec rel b); cbn [andb];
    try lia; try done.
  apply cl_dec_enc; [unfold in_u; lia|done].
Qed.

Lemma plaintext_decrypted v b n rel :
  0 <= n <= b ->
  plaintext dec (rewrite_run dec v off (b - n) (Z.to_nat n)) off (b - n) rel =
  plaintext dec v off b rel.
Proof using Type.
  intros Hn. unfold plaintext. rewrite rewrite_run_at, Z2Nat.id by lia.
  destruct (Z.leb_spec (b - n) rel), (Z.ltb_spec rel (b - n + n)), (Z.ltb_spec rel (b - n)),
    (Z.ltb_spec rel b); cbn [andb]; try lia; done.
Qed.

(** A batch that keeps what the volume presents while it moves the boundary. *)
Record sound_batch (e : EncryptionEngine) (w : W) (f : Z -> bytes -> bytes)
    (batch first n target : Z) : Prop := {
  sb_range : 0 <= first /\ 0 < n /\ first + n <= total;
  sb_batch : n <= Z.max batch 1;
  sb_target : 0 <= target <= total;
  sb_moves : target <> eo_sector (en_encrypted_offset e);
  sb_plain rel : 0 <= rel < total ->
    plaintext dec (rewrite_run f (view w) off first (Z.to_nat n)) off target rel =
    plaintext dec (view w) off (eo_sector (en_encrypted_offset e)) rel;
}.

(** Every step either does nothing but set the state, or runs a sound batch. *)
Lemma progress_step_cases e w batch :
  engine_wf e -> inv w -> total * sector_size io < 2 ^ 64 ->
  (exists s, progress_step io cipher store batch (e, w) = ((with_state s e, w), Ok false)) \/
  (exists f first n target idle,
     sound_batch e w f batch first n target /\
     batch_result e w f first n target idle (progress_step io cipher store batch (e, w))).
Proof using All.
  intros Hwf Hi Hbig. pose proof Hwf as [Ho Ht Hs].
  pose proof (io_total (n:=reach) (io:=io) (view:=view)).
  assert (forall rel, 0 <= rel < total ->
            length (view w (off + rel)) = Z.to_nat (sector_size io)) as Hlen.
  { intros. apply io_len; [done|lia]. }
  unfold progress_step. rewrite (mbind_step _ _ _ (e, w) e) by reflexivity.
  destruct (en_state e) eqn:Hst.
  - left. exists Idle. destruct e as [? ? st]. cbn in *. subst st. done.
  - destruct (Z.le_gt_cases total (eo_sector (en_encrypted_offset e))) as [Hf|Hf].
    + left. exists Idle. unfold encrypt_step.
      rewrite (mbind_step _ _ _ (e, w) e) by reflexivity.
      unfold is_fully_encrypted at 1. rewrite Ht, (proj2 (Z.leb_le total _)) by done. done.
    + right. do 5 eexists. split; [|apply encrypt_step_run; done].
      unfold batch_size. constructor; [lia..|].
      intros. apply plaintext_encrypted; try lia. apply Hlen. done.
  - destruct (Z.eq_dec (eo_sector (en_encrypted_offset e)) 0) as [Hf|Hf].
    + left. exists Idle. unfold decrypt_step.
      rewrite (mbind_step _ _ _ (e, w) e) by reflexivity. rewrite Hf. done.
    + right. do 5 eexists. split; [|apply decrypt_step_run; done || lia].
      unfold batch_size. constructor; [lia..|].
      intros. apply plaintext_decrypted. lia.
  - left. exists Paused. destruct e as [? ? st]. cbn in *. subst st. done.
Qed.

(** *** What a step guarantees *)

Lemma progress_step_safe e w batch e' w' r :
  engine_wf e -> inv w -> total * sector_size io < 2 ^ 64 ->
  progress_step io cipher store batch (e, w) = ((e', w'), r) ->
  engine_wf e' /\ inv w' /\ r <> Panic /\
  (forall i, lo <= i < hi -> i < off \/ off + total <= i -> view w' i = view w i).
Proof using All.
  intros Hwf Hi Hbig Hrun.
  destruct (progress_step_cases e w batch Hwf Hi Hbig)
    as [[s Hs]|(f & first & n & target & idle & [Hr1 _ Ht1 _ _] & Hb)].
  { rewrite Hs in Hrun. simplify_eq. split; [by apply wf_with_state|]. auto. }
  assert (forall i, i < off \/ off + total <= i ->
            rewrite_run f (view w) off first (Z.to_nat n) i = view w i) as Hout.
  { intros i Ho. unfold rewrite_run. apply write_run_out.
    rewrite length_number_map, length_read_run. lia. }
  rewrite Hrun in Hb. inversion Hb as [? ? Hi' Hn Hv|? ? Hi' Hn Hv|? Hi' Hd Hv]; subst.
  - split; [done|]. split; [done|]. split; [done|]. intros. apply Hv; lia.
  - split; [by apply wf_with_sector|]. split; [done|]. split; [done|].
    intros. rewrite Hv by lia. apply Hout. done.
  - split; [destruct idle; try apply wf_with_state; by apply wf_with_sector|].
    split; [done|]. split; [done|].
    intros. rewrite Hv by lia. apply Hout. done.
Qed.

(** Unless the disk itself failed (and the boundary did not move), the data
    region presents the same plaintext before and after. *)
Lemma progress_step_plain e w batch e' w' r :
  engine_wf e -> inv w -> total * sector_size io < 2 ^ 64 ->
  progress_step io cipher store batch (e, w) = ((e', w'), r) ->
  is_ok r = true \/ eo_sector (en_encrypted_offset e') <> eo_sector (en_encrypted_offset e) ->
  forall rel, 0 <= rel < total ->
  plaintext dec (view w') off (eo_sector (en_encrypted_offset e')) rel =
  plaintext dec (view w) off (eo_sector (en_encrypted_offset e)) rel.
Proof using All.
  intros Hwf Hi Hbig Hrun Hok rel Hrel.
  destruct (progress_step_cases e w batch Hwf Hi Hbig)
    as [[s Hs]|(f & first & n & target & idle & [Hr1 _ Ht1 Hm Hp] & Hb)].
  { rewrite Hs in Hrun. simplify_eq. done. }
  rewrite Hrun in Hb. rewrite <- (Hp rel Hrel).
  inversion Hb as [? ? Hi' Hn Hv|? ? Hi' Hn Hv|? Hi' Hd Hv]; subst.
  - destruct Hok; done.
  - apply plaintext_ext. apply Hv. lia.
  - destruct idle; apply plaintext_ext; apply Hv; lia.
Qed.

(** A step that succeeds leaves the store at the boundary. *)
Lemma progress_step_does e w batch e' w' more :
  engine_wf e -> inv w -> total * sector_size io < 2 ^ 64 ->
  progress_step io cipher store batch (e, w) = ((e', w'), Ok more) ->
  does (encrypted_boundary e, w) (encrypted_boundary e', w').
Proof using All.
  intros Hwf Hi Hbig Hrun.
  destruct (progress_step_cases e w batch Hwf Hi Hbig)
    as [[s Hs]|(f & first & n & target & idle & _ & Hb)]; [rewrite Hs in Hrun; simplify_eq; done|].
  rewrite Hrun in Hb. inversion Hb as [| |? Hi' [_ Hd] Hv]; subst. destruct idle; exact Hd.
Qed.

(** *** Control operations *)

Lemma start_encrypt_run e w :
  inv w ->
  exists w', inv w' /\ same_data w w' /\ (forall b, access io store off total (b, w) (b, w')) /\
    start_encrypt store (e, w) =
    ((with_state (if is_fully_encrypted (en_encrypted_offset e) then Idle else Encrypting) e, w'),
     Ok tt).
Proof using OffsetStoreLaws0.
  intros Hi. unfold start_encrypt. rewrite mbind_run. unfold ignore, on_snd, zoom. cbn [fst snd].
  destruct (st_store_state store Encrypt w) as [w1 r1] eqn:H1.
  destruct (st_store_state_keeps _ w w1 r1 Hi H1) as (Hi1 & Hv1 & Hp1).
  exists w1. split; [done|]. split; [done|]. split; [intros b; eapply ac_store_state; done|].
  destruct r1; [| |done];
    rewrite (mbind_step _ _ _ (e, w1) e) by reflexivity;
    destruct (is_fully_encrypted _); done.
Qed.

Lemma start_decrypt_run e w :
  inv w ->
  exists w', inv w' /\ same_data w w' /\ (forall b, access io store off total (b, w) (b, w')) /\
    start_decrypt store (e, w) =
    ((with_state (if 0 <? eo_sector (en_encrypted_offset e) then Decrypting else Idle) e, w'),
     Ok tt).
Proof using OffsetStoreLaws0.
  intros Hi. unfold start_decrypt. rewrite mbind_run. unfold ignore, on_snd, zoom. cbn [fst snd].
  destruct (st_store_state store Decrypt w) as [w1 r1] eqn:H1.
  destruct (st_store_state_keeps _ w w1 r1 Hi H1) as (Hi1 & Hv1 & Hp1).
  exists w1. split; [done|]. split; [done|]. split; [intros b; eapply ac_store_state; done|].
  destruct r1; [| |done];
    rewrite (mbind_step _ _ _ (e, w1) e) by reflexivity;
    destruct (0 <? _); done.
Qed.

Lemma resume_run e w :
  inv w ->
  exists w' s, inv w' /\ same_data w w' /\ (forall b, access io store off total (b, w) (b, w')) /\
    resume store (e, w) = ((with_state s e, w'), Ok tt).
Proof using OffsetStoreLaws0.
  intros Hi. unfold resume. rewrite mbind_run. unfold attempt, on_snd, zoom. cbn [fst snd].
  destruct (st_load_state store w) as [w1 r1] eqn:H1.
  destruct (st_load_state_keeps w w1 r1 Hi H1) as (Hi1 & Hv1 & Hp1).
  assert (forall b, access io store off total (b, w) (b, w1)) as Hd
    by (intros b; eapply ac_load_state; done).
  destruct r1 as [s|err|]; [| |done];
    rewrite (mbind_step _ _ _ (e, w1) e) by reflexivity;
    [destruct s|]; do 2 eexists; (split; [exact Hi1|]); (split; [exact Hv1|]);
    (split; [exact Hd|]); reflexivity.
Qed.

(** *** Progress on a disk and a store that work *)

Lemma encrypt_step_reliable e w batch :
  SectorIoReliableUpto reach io inv -> OffsetStoreReliable store inv ->
  Z.max batch 1 * sector_size io < 2 ^ 32 ->
  engine_wf e -> inv w -> total * sector_size io < 2 ^ 64 ->
  en_state e = Encrypting -> eo_sector (en_encrypted_offset e) < total ->
  exists w', inv w' /\
    let b' := eo_sector (en_encrypted_offset e) +
              batch_size (total - eo_sector (en_encrypted_offset e)) batch in
    progress_step io cipher store batch (e, w) =
    ((with_state (if total <=? b' then Idle else Encrypting) (with_sector b' e), w'),
     Ok (negb (total <=? b'))).
Proof using All.
  intros Hio Hst Hsmall Hwf Hi Hbig Hs Hlt. pose proof (io_ss (n:=reach) (io:=io)) as Hss.
  pose proof (encrypt_step_run e w batch Hwf Hi Hbig Hlt) as Hb. cbn zeta in Hb.
  unfold progress_step. rewrite (mbind_step _ _ _ (e, w) e) by reflexivity. rewrite Hs.
  inversion Hb as [? ? Hi' Hn Hv Hr|? ? Hi' Hn Hv Hr|w' Hi' Hd Hv Hr]; try done.
  { destruct Hn. split; [done|]. unfold batch_size. nia. }
  exists w'. split; [done|]. cbn zeta.
  destruct (total <=? _); [done|].
  unfold with_state, with_sector. cbn. rewrite Hs. done.
Qed.

Lemma decrypt_step_reliable e w batch :
  SectorIoReliableUpto reach io inv -> OffsetStoreReliable store inv ->
  Z.max batch 1 * sector_size io < 2 ^ 32 ->
  engine_wf e -> inv w -> total * sector_size io < 2 ^ 64 ->
  en_state e = Decrypting -> 0 < eo_sector (en_encrypted_offset e) ->
  exists w', inv w' /\
    let b' := eo_sector (en_encrypted_offset e) -
              batch_size (eo_sector (en_encrypted_offset e)) batch in
    progress_step io cipher store batch (e, w) =
    ((with_state (if b' =? 0 then Idle else Decrypting) (with_sector b' e), w'),
     Ok (negb (b' =? 0))).
Proof using All.
  intros Hio Hst Hsmall Hwf Hi Hbig Hs Hlt. pose proof (io_ss (n:=reach) (io:=io)) as Hss.
  pose proof (decrypt_step_run e w batch Hwf Hi Hbig Hlt) as Hb. cbn zeta in Hb.
  unfold progress_step. rewrite (mbind_step _ _ _ (e, w) e) by reflexivity. rewrite Hs.
  inversion Hb as [? ? Hi' Hn Hv Hr|? ? Hi' Hn Hv Hr|w' Hi' Hd Hv Hr]; try done.
  { destruct Hn. split; [done|]. unfold batch_size. nia. }
  exists w'. split; [done|]. cbn zeta.
  destruct (_ =? 0); [done|].
  unfold with_state, with_sector. cbn. rewrite Hs. done.
Qed.
End SweepLaws.

(** The thread's repeated sweep steps: [n] of them in a row. *)
Fixpoint sweep_n {W} (io : SectorIo W) cipher store (batch : Z) (n : nat) :
    M VckError (EncryptionEngine * W) unit :=
  match n with
  | O => mret tt
  | S n => _ ← progress_step io cipher store batch; sweep_n io cipher store batch n
  end.

(** The number of batches of [m] sectors in [n] sectors. *)
Definition batches (n batch : Z) : nat :=
  let m := Z.max batch 1 in Z.to_nat ((n + m - 1) / m).

Lemma batches_spec n batch :
  0 < n ->
  let m := Z.max batch 1 in
  (Z.of_nat (batches n batch) - 1) * m < n <= Z.of_nat (batches n batch) * m.
Proof.
  intros Hn m. unfold batches. fold m.
  pose proof (Z.div_mod (n + m - 1) m ltac:(lia)) as Hd.
  pose proof (Z.mod_pos_bound (n + m - 1) m ltac:(lia)).
  assert (0 <= (n + m - 1) / m) by (apply Z.div_pos; lia).
  rewrite Z2Nat.id by done. nia.
Qed.

Section SweepTermination.
Context {W : Type} (io : SectorIo W) (cipher : VolumeCipher) (store : EncryptedOffsetStore W).
Context (enc dec : Z -> bytes -> bytes) (inv : W -> Prop) (view : W -> Z -> bytes).
Context (off total lo hi : Z).
Context {reach : Z} `{!SectorIoUpto reach io inv view} `{!CipherLaws cipher (sector_size io) enc dec}.
Context `{!OffsetStoreLaws store inv view lo hi}.
Context `{!SectorIoReliableUpto reach io inv} `{!OffsetStoreReliable store inv}.
Hypothesis Hregion : 0 <= lo <= off /\ off + total <= hi <= reach.
Hypothesis Hbig : total * sector_size io < 2 ^ 64.

Lemma sweep_n_step batch n e w e1 w1 b :
  progress_step io cipher store batch (e, w) = ((e1, w1), Ok b) ->
  sweep_n io cipher store batch (S n) (e, w) = sweep_n io cipher store batch n (e1, w1).
Proof using Type. intros H. cbn [sweep_n]. rewrite (mbind_step _ _ _ _ _ H). done. Qed.

Lemma encrypt_sweep_n batch k e w :
  let m := Z.max batch 1 in
  let b := eo_sector (en_encrypted_offset e) in
  engine_wf off total e -> inv w -> m * sector_size io < 2 ^ 32 -> en_state e = Encrypting ->
  b < total -> (Z.of_nat k - 1) * m < total - b <= Z.of_nat k * m ->
  exists w', inv w' /\
    sweep_n io cipher store batch k (e, w) =
    ((with_state Idle (with_sector total e), w'), Ok tt) /\
    forall rel, 0 <= rel < total ->
      plaintext dec (view w') off total rel = plaintext dec (view w) off b rel.
Proof using All.
  cbn zeta. revert e w. induction k as [|k IH]; intros e w Hwf Hi Hsm Hs Hlt Hk; [lia|].
  destruct (encrypt_step_reliable io cipher store enc dec inv view off total lo hi Hregion
              e w batch _ _ Hsm Hwf Hi Hbig Hs Hlt) as (w1 & Hi1 & Hr). cbn zeta in Hr.
  set (b' := eo_sector (en_encrypted_offset e) + _) in Hr.
  rewrite (sweep_n_step _ _ _ _ _ _ _ Hr).
  pose proof (progress_step_plain io cipher store enc dec inv view off total lo hi Hregion
                e w batch _ _ _ Hwf Hi Hbig Hr (or_introl eq_refl)) as Hp.
  cbn [with_state with_sector en_encrypted_offset eo_sector] in Hp.
  destruct (progress_step_safe io cipher store enc dec inv view off total lo hi Hregion
                e w batch _ _ _ Hwf Hi Hbig Hr) as (Hwf1 & _).
  destruct (Z.leb_spec total b') as [Hd|Hd].
  - assert (b' = total) as Hb by (unfold b', batch_size in *; lia).
    assert (k = 0)%nat as -> by (unfold b', batch_size in *; nia).
    exists w1. rewrite Hb in *. done.
  - destruct (IH _ w1 Hwf1 Hi1 Hsm eq_refl) as (w2 & Hi2 & Hr2 & Hp2);
      cbn [with_state with_sector en_encrypted_offset eo_sector] in *;
      [unfold b', batch_size in *; lia..|].
    exists w2. split; [done|]. split; [done|]. intros rel Hrel.
    rewrite Hp2, Hp by done. done.
Qed.

Lemma decrypt_sweep_n batch k e w :
  let m := Z.max batch 1 in
  let b := eo_sector (en_encrypted_offset e) in
  engine_wf off total e -> inv w -> m * sector_size io < 2 ^ 32 -> en_state e = Decrypting ->
  0 < b -> (Z.of_nat k - 1) * m < b <= Z.of_nat k * m ->
  exists w', inv w' /\
    sweep_n io cipher store batch k (e, w) =
    ((with_state Idle (with_sector 0 e), w'), Ok tt) /\
    forall rel, 0 <= rel < total ->
      view w' (off + rel) = plaintext dec (view w) off b rel.
Proof using All.
  cbn zeta. revert e w. induction k as [|k IH]; intros e w Hwf Hi Hsm Hs Hlt Hk; [lia|].
  destruct (decrypt_step_reliable io cipher store enc dec inv view off total lo hi Hregion
              e w batch _ _ Hsm Hwf Hi Hbig Hs Hlt) as (w1 & Hi1 & Hr). cbn zeta in Hr.
  set (b' := eo_sector (en_encrypted_offset e) - _) in Hr.
  rewrite (sweep_n_step _ _ _ _ _ _ _ Hr).
  pose proof (progress_step_plain io cipher store enc dec inv view off total lo hi Hregion
                e w batch _ _ _ Hwf Hi Hbig Hr (or_introl eq_refl)) as Hp.
  cbn [with_state with_sector en_encrypted_offset eo_sector] in Hp.
  destruct (progress_step_safe io cipher store enc dec inv view off total lo hi Hregion
                e w batch _ _ _ Hwf Hi Hbig Hr) as (Hwf1 & _).
  destruct (Z.eqb_spec b' 0) as [Hd|Hd].
  - assert (k = 0)%nat as -> by (unfold b', batch_size in *; nia).
    exists w1. rewrite Hd in *. split; [done|]. split; [done|].
    intros rel Hrel. rewrite <- Hp by done. unfold plaintext.
    rewrite (proj2 (Z.ltb_ge rel 0)) by lia. done.
  - destruct (IH _ w1 Hwf1 Hi1 Hsm eq_refl) as (w2 & Hi2 & Hr2 & Hp2);
      cbn [with_state with_sector en_encrypted_offset eo_sector] in *;
      [unfold b', batch_size in *; lia..|].
    exists w2. split; [done|]. split; [done|]. intros rel Hrel.
    rewrite Hp2, Hp by done. done.
Qed.
End SweepTermination.

(** ** Properties *)

(** A six-sector disk of two-byte sectors with one metadata sector at each end,
    on which the properties are evaluated. *)
Module EngineDemo.
Definition disk : MemVolume := byte_of <$> [1;2;3;4;5;6;7;8;9;10;11;12]%Z.
Definition io : SectorIo MemVolume := MemVolume_io 2 12.
Definition store : EncryptedOffsetStore MemVolume := DummyOffsetStore 4.
Definition engine_at (b : Z) (s : EngineState) : EncryptionEngine :=
  mkEngine 1 (mkEncryptedOffset b 4) s.

#[export] Instance io_laws : SectorIoLaws io (mem_inv 12) (mem_view 2).
Proof. apply (mem_laws 2 12); lia. Qed.
#[export] Instance io_reliable : SectorIoReliable io (mem_inv 12).
Proof. apply (mem_reliable 2 12); lia. Qed.
#[export] Instance cipher_laws :
  CipherLaws ShiftCipher.cipher (sector_size io) ShiftCipher.enc ShiftCipher.dec.
Proof. apply ShiftCipher.laws. cbn. lia. Qed.
#[export] Instance store_laws : OffsetStoreLaws store (mem_inv 12) (mem_view 2) 0 6.
Proof. apply DummyOffsetStore_laws. Qed.
#[export] Instance store_reliable : OffsetStoreReliable store (mem_inv 12).
Proof. apply DummyOffsetStore_reliable. Qed.

Lemma region : 0 <= 0 <= 1 /\ 1 + 4 <= 6 <= total_sectors io.
Proof. repeat split; vm_compute; discriminate. Qed.
Lemma fits : 4 * sector_size io < 2 ^ 64.
Proof. cbn. lia. Qed.
Lemma batch_fits : Z.max 3 1 * sector_size io < 2 ^ 32.
Proof. cbn. lia. Qed.
Lemma batch_fits2 : Z.max 2 1 * sector_size io < 2 ^ 32.
Proof. cbn. lia. Qed.
Lemma engine_at_wf b s : 0 <= b <= 4 -> engine_wf 1 4 (engine_at b s).
Proof. constructor; cbn; done || lia. Qed.
Lemma z04 : 0 <= 0 <= 4. Proof. lia. Qed.
Lemma z24 : 0 <= 2 <= 4. Proof. lia. Qed.
Lemma z34 : 0 <= 3 <= 4. Proof. lia. Qed.
Lemma z04' : 0 < 4. Proof. lia. Qed.
Lemma z03 : 0 < 3. Proof. lia. Qed.
End EngineDemo.

(** C6: an encryption sweep terminates. On a working disk and store, starting
    from a boundary [b < total] in state [Encrypting], exactly
    [ceil ((total - b) / max batch 1)] steps bring the engine to [Idle] with
    the boundary at [total], and every sector of the data region presents the
    plaintext it presented before. *)
Theorem encrypt_sweep_completes {W} (io : SectorIo W) cipher store enc dec inv view
    off total lo hi batch e w :
  SectorIoLaws io inv view -> CipherLaws cipher (sector_size io) enc dec ->
  OffsetStoreLaws store inv view lo hi ->
  SectorIoReliable io inv -> OffsetStoreReliable store inv ->
  0 <= lo <= off /\ off + total <= hi <= total_sectors io ->
  total * sector_size io < 2 ^ 64 -> Z.max batch 1 * sector_size io < 2 ^ 32 ->
  engine_wf off total e -> inv w -> en_state e = Encrypting ->
  let b := eo_sector (en_encrypted_offset e) in
  b < total ->
  exists w', inv w' /\
    sweep_n io cipher store batch (batches (total - b) batch) (e, w) =
    ((with_state Idle (with_sector total e), w'), Ok tt) /\
    forall rel, 0 <= rel < total ->
      plaintext dec (view w') off total rel = plaintext dec (view w) off b rel.
Proof.
  intros. eapply encrypt_sweep_n; try done. apply batches_spec. lia.
Qed.

Lemma encrypt_sweep_completes_witness :
  exists w', mem_inv 12 w' /\
    sweep_n EngineDemo.io ShiftCipher.cipher EngineDemo.store 3 2
      (EngineDemo.engine_at 0 Encrypting, EngineDemo.disk) =
    ((EngineDemo.engine_at 4 Idle, w'), Ok tt) /\
    forall rel, 0 <= rel < 4 ->
      plaintext ShiftCipher.dec (mem_view 2 w') 1 4 rel =
      plaintext ShiftCipher.dec (mem_view 2 EngineDemo.disk) 1 0 rel.
Proof.
  exact (encrypt_sweep_completes EngineDemo.io ShiftCipher.cipher EngineDemo.store ShiftCipher.enc
    ShiftCipher.dec (mem_inv 12) (mem_view 2) 1 4 0 6 3 (EngineDemo.engine_at 0 Encrypting) EngineDemo.disk
    EngineDemo.io_laws EngineDemo.cipher_laws EngineDemo.store_laws
    EngineDemo.io_reliable EngineDemo.store_reliable
    EngineDemo.region EngineDemo.fits EngineDemo.batch_fits (EngineDemo.engine_at_wf 0 Encrypting EngineDemo.z04)
    eq_refl eq_refl EngineDemo.z04').
Defined.

(** C27: a decryption sweep terminates. From a boundary [b > 0] in state
    [Decrypting], exactly [ceil (b / max batch 1)] steps bring the engine to
    [Idle] with boundary 0, and the raw data sectors are then the plaintext the
    volume presented. *)
Theorem decrypt_sweep_completes {W} (io : SectorIo W) cipher store enc dec inv view
    off total lo hi batch e w :
  SectorIoLaws io inv view -> CipherLaws cipher (sector_size io) enc dec ->
  OffsetStoreLaws store inv view lo hi ->
  SectorIoReliable io inv -> OffsetStoreReliable store inv ->
  0 <= lo <= off /\ off + total <= hi <= total_sectors io ->
  total * sector_size io < 2 ^ 64 -> Z.max batch 1 * sector_size io < 2 ^ 32 ->
  engine_wf off total e -> inv w -> en_state e = Decrypting ->
  let b := eo_sector (en_encrypted_offset e) in
  0 < b ->
  exists w', inv w' /\
    sweep_n io cipher store batch (batches b batch) (e, w) =
    ((with_state Idle (with_sector 0 e), w'), Ok tt) /\
    forall rel, 0 <= rel < total -> view w' (off + rel) = plaintext dec (view w) off b rel.
Proof.
  intros. eapply decrypt_sweep_n; try done. apply batches_spec. lia.
Qed.

Lemma decrypt_sweep_completes_witness :
  exists w', mem_inv 12 w' /\
    sweep_n EngineDemo.io ShiftCipher.cipher EngineDemo.store 2 2
      (EngineDemo.engine_at 3 Decrypting, EngineDemo.disk) =
    ((EngineDemo.engine_at 0 Idle, w'), Ok tt) /\
    forall rel, 0 <= rel < 4 ->
      mem_view 2 w' (1 + rel) = plaintext ShiftCipher.dec (mem_view 2 EngineDemo.disk) 1 3 rel.
Proof.
  exact (decrypt_sweep_completes EngineDemo.io ShiftCipher.cipher EngineDemo.store ShiftCipher.enc
    ShiftCipher.dec (mem_inv 12) (mem_view 2) 1 4 0 6 2 (EngineDemo.engine_at 3 Decrypting) EngineDemo.disk
    EngineDemo.io_laws EngineDemo.cipher_laws EngineDemo.store_laws
    EngineDemo.io_reliable EngineDemo.store_reliable
    EngineDemo.region EngineDemo.fits EngineDemo.batch_fits2 (EngineDemo.engine_at_wf 3 Decrypting EngineDemo.z34)
    eq_refl eq_refl EngineDemo.z03).
Defined.

(** C28: the sweep stays inside the data region. Whatever its outcome, a step
    never panics, keeps the boundary within [0, total], and writes no sector
    outside the data region other than through the offset store: with a store
    that keeps [lo, hi), every header and footer sector in [lo, hi) is
    unchanged. *)
Theorem sweep_confined_to_data_region {W} (io : SectorIo W) cipher store enc dec inv view
    off total lo hi batch e w :
  SectorIoLaws io inv view -> CipherLaws cipher (sector_size io) enc dec ->
  OffsetStoreLaws store inv view lo hi ->
  0 <= lo <= off /\ off + total <= hi <= total_sectors io ->
  total * sector_size io < 2 ^ 64 ->
  engine_wf off total e -> inv w ->
  let '((e', w'), r) := progress_step io cipher store batch (e, w) in
  engine_wf off total e' /\ inv w' /\ r <> Panic /\
  (forall i, lo <= i < hi -> i < off \/ off + total <= i -> view w' i = view w i).
Proof.
  intros. destruct (progress_step io cipher store batch (e, w)) as [[e' w'] r] eqn:Hr.
  eapply progress_step_safe; done.
Qed.

Lemma sweep_confined_to_data_region_witness :
  let '((e', w'), r) := progress_step EngineDemo.io ShiftCipher.cipher EngineDemo.store 3
                          (EngineDemo.engine_at 0 Encrypting, EngineDemo.disk) in
  engine_wf 1 4 e' /\ mem_inv 12 w' /\ r <> Panic /\
  (forall i, 0 <= i < 6 -> i < 1 \/ 1 + 4 <= i -> mem_view 2 w' i = mem_view 2 EngineDemo.disk i).
Proof.
  exact (sweep_confined_to_data_region EngineDemo.io ShiftCipher.cipher EngineDemo.store ShiftCipher.enc
    ShiftCipher.dec (mem_inv 12) (mem_view 2) 1 4 0 6 3 (EngineDemo.engine_at 0 Encrypting) EngineDemo.disk
    EngineDemo.io_laws EngineDemo.cipher_laws EngineDemo.store_laws
    EngineDemo.region EngineDemo.fits (EngineDemo.engine_at_wf 0 Encrypting EngineDemo.z04) eq_refl).
Defined.
