(* ===== verification/Nt.v ===== *)
(** * NT helpers ([lib/windrv/src/nt.rs]) and the I/O request packet

    Status codes are signed 32-bit integers; an IRP is the record of the fields
    the driver reads and writes. *)

From S2P Require Import Prelude Types.

(** ** Status codes *)

(** The [u32 as i32] cast. *)
Definition as_i32 (z : Z) : Z := if z <? 2 ^ 31 then z else z - 2 ^ 32.

(* src: lib/windrv/src/nt.rs:14-19 STATUS_* *)
Definition STATUS_SUCCESS : Z := 0.
Definition STATUS_PENDING : Z := 0x103.
Definition STATUS_UNSUCCESSFUL : Z := as_i32 0xC0000001.
Definition STATUS_INVALID_PARAMETER : Z := as_i32 0xC000000D.
Definition STATUS_INSUFFICIENT_RESOURCES : Z := as_i32 0xC000009A.
Definition STATUS_BUFFER_TOO_SMALL : Z := as_i32 0xC0000023.
(* src: lib/windrv/src/filter/volume_thread.rs:60-60 STATUS_CANCELLED *)
Definition STATUS_CANCELLED : Z := as_i32 0xC0000120.
(* src: lib/windrv/src/filter/io.rs:35-35 STATUS_ACCESS_DENIED *)
Definition STATUS_ACCESS_DENIED : Z := as_i32 0xC0000022.

(* src: lib/windrv/src/nt.rs:21-25 nt_success *)
Definition nt_success (status : Z) : bool := 0 <=? status.

(* src: lib/windrv/src/nt.rs:27-34 ntstatus_to_result *)
Definition ntstatus_to_result (status : Z) (context : string) : VckResult unit :=
  if nt_success status then Ok tt else Err (Io context).

(** ** Strings *)

(** [str::trim_end_matches] with a character. *)
Fixpoint trim_end_matches (c : Ascii.ascii) (s : string) : string :=
  match s with
  | EmptyString => EmptyString
  | String a s =>
      match trim_end_matches c s with
      | EmptyString => if decide (a = c) then EmptyString else String a EmptyString
      | t => String a t
      end
  end.

(** [str::strip_prefix]. *)
Fixpoint strip_prefix (p s : string) : option string :=
  match p, s with
  | EmptyString, _ => Some s
  | String a p, String b s => if decide (a = b) then strip_prefix p s else None
  | _, _ => None
  end.

(** [str::starts_with]. *)
Definition starts_with (p s : string) : bool :=
  match strip_prefix p s with Some _ => true | None => false end.

(** [str::to_ascii_lowercase]. *)
Definition ascii_lower (a : Ascii.ascii) : Ascii.ascii :=
  let n := Ascii.nat_of_ascii a in
  if ((65 <=? n) && (n <=? 90))%nat then Ascii.ascii_of_nat (n + 32) else a.

Fixpoint to_ascii_lowercase (s : string) : string :=
  match s with
  | EmptyString => EmptyString
  | String a s => String (ascii_lower a) (to_ascii_lowercase s)
  end.

Definition backslash : Ascii.ascii := Ascii.ascii_of_nat 92.

(* src: lib/windrv/src/nt.rs:68-87 win32_volume_path_to_nt *)
Definition win32_volume_path_to_nt (path : string) : string :=
  let trimmed := trim_end_matches backslash path in
  match strip_prefix "\\.\" trimmed with
  | Some rest => "\??\" +:+ rest
  | None =>
      match strip_prefix "\\?\" trimmed with
      | Some rest => "\??\" +:+ rest
      | None =>
          if starts_with "\??\" trimmed || starts_with "\Device\" trimmed
             || starts_with "\DosDevices\" trimmed
          then trimmed
          else "\??\" +:+ trimmed
      end
  end%string.

Lemma trim_end_matches_nil c s :
  trim_end_matches c s = EmptyString \/
  exists a t, trim_end_matches c s = String a t.
Proof. destruct (trim_end_matches c s); eauto. Qed.

(** Trimming again changes nothing. *)
Lemma trim_end_matches_idem c s :
  trim_end_matches c (trim_end_matches c s) = trim_end_matches c s.
Proof.
  induction s as [|a s IH]; [done|]. cbn [trim_end_matches].
  destruct (trim_end_matches c s) as [|b t] eqn:E.
  - destruct (decide (a = c)) as [|Hn]; [done|]. cbn. rewrite decide_False by done. done.
  - cbn [trim_end_matches] in *. rewrite IH. done.
Qed.

(** ** I/O request packets

    [irp_mdl] is the memory the MDL maps ([None]: the mapping fails), which
    holds [irp_length] bytes; [irp_completed] counts [IofCompleteRequest]. *)

Record IRP : Type := mkIRP {
  irp_id : nat;
  irp_byte_offset : Z;
  irp_length : Z;
  irp_mdl : option bytes;
  irp_cancel : bool;
  irp_pending : bool;
  irp_status : Z;
  irp_information : Z;
  irp_completed : nat;
}.

(* src: lib/windrv/src/filter/volume_thread.rs:398-402 complete_irp *)
Definition complete_irp (status information : Z) (i : IRP) : IRP :=
  mkIRP (irp_id i) (irp_byte_offset i) (irp_length i) (irp_mdl i) (irp_cancel i)
    (irp_pending i) status information (S (irp_completed i)).

Definition set_mdl (b : bytes) (i : IRP) : IRP :=
  mkIRP (irp_id i) (irp_byte_offset i) (irp_length i) (Some b) (irp_cancel i)
    (irp_pending i) (irp_status i) (irp_information i) (irp_completed i).

Definition set_byte_offset (z : Z) (i : IRP) : IRP :=
  mkIRP (irp_id i) z (irp_length i) (irp_mdl i) (irp_cancel i)
    (irp_pending i) (irp_status i) (irp_information i) (irp_completed i).

Definition set_pending (i : IRP) : IRP :=
  mkIRP (irp_id i) (irp_byte_offset i) (irp_length i) (irp_mdl i) (irp_cancel i)
    true (irp_status i) (irp_information i) (irp_completed i).
