(* ===== verification/Pipeline.v ===== *)
(** * The in-flight crypto pipeline ([lib/windrv/src/crypto/pipeline.rs])

    Decrypts what was read and encrypts what is written, sector by sector on
    the two sides of the boundary. The pipeline owns nothing: it is the cipher
    it borrows. [None] is a panic. *)

From S2P Require Import Prelude Types Sectors.

(* src: lib/windrv/src/crypto/pipeline.rs:18-20 CryptoPipeline *)
Record CryptoPipeline : Type := mkPipeline { cp_cipher : VolumeCipher }.

(* src: lib/windrv/src/crypto/pipeline.rs:29-46 CryptoPipeline::decrypt_read *)
Definition decrypt_read (p : CryptoPipeline) (first_rel_sector encrypted_offset : Z)
    (buf : bytes) (sector_size : Z) : option bytes :=
  if sector_size =? 0 then None
  else
    let total := Z.of_nat (length buf) / sector_size in
    let n := if encrypted_offset <=? first_rel_sector then 0
             else Z.min (encrypted_offset - first_rel_sector) total in
    if 0 <? n then
      let split := Z.to_nat (n * sector_size) in
      head ← decrypt_area (cp_cipher p) (take split buf) sector_size first_rel_sector;
      Some (head ++ drop split buf)
    else Some buf.

(* src: lib/windrv/src/crypto/pipeline.rs:50-67 CryptoPipeline::encrypt_write *)
Definition encrypt_write (p : CryptoPipeline) (first_rel_sector encrypted_offset : Z)
    (buf : bytes) (sector_size : Z) : option bytes :=
  if sector_size =? 0 then None
  else
    let total := Z.of_nat (length buf) / sector_size in
    let n := if encrypted_offset <=? first_rel_sector then 0
             else Z.min (encrypted_offset - first_rel_sector) total in
    if 0 <? n then
      let split := Z.to_nat (n * sector_size) in
      head ← encrypt_area (cp_cipher p) (take split buf) sector_size first_rel_sector;
      Some (head ++ drop split buf)
    else Some buf.

(** Decide each sector on its own: [f] below the boundary, unchanged above. *)
Definition below (f : Z -> bytes -> bytes) (b r : Z) (s : bytes) : bytes :=
  if r <? b then f r s else s.

Lemma number_map_above f b first ls :
  b <= first -> number_map (below f b) first ls = ls.
Proof.
  intros Hb. apply list_eq. intros i. rewrite lookup_number_map.
  destruct (ls !! i) as [s|]; [|done]. cbn. f_equal. unfold below.
  rewrite (proj2 (Z.ltb_ge _ _)) by lia. done.
Qed.

Lemma number_map_below f b first ls :
  first + Z.of_nat (length ls) <= b -> number_map (below f b) first ls = number_map f first ls.
Proof.
  intros Hb. apply list_eq. intros i. rewrite !lookup_number_map.
  destruct (ls !! i) as [s|] eqn:E; [|done]. apply lookup_lt_Some in E.
  cbn. f_equal. unfold below. rewrite (proj2 (Z.ltb_lt _ _)) by lia. done.
Qed.

Lemma number_map_split f b first ls k :
  Z.of_nat k = Z.max 0 (Z.min (b - first) (Z.of_nat (length ls))) ->
  number_map (below f b) first ls = number_map f first (take k ls) ++ drop k ls.
Proof.
  intros Hk. rewrite <- (take_drop k ls) at 1. rewrite number_map_app.
  rewrite length_take, Nat.min_l by lia.
  destruct (decide (k = length ls)) as [->|Hne].
  - rewrite drop_ge by lia. rewrite firstn_all.
    destruct (Z.le_gt_cases b first).
    + destruct ls; [done|cbn in Hk; lia].
    + rewrite number_map_below by lia. done.
  - rewrite (number_map_above _ b (first + Z.of_nat k)) by lia. f_equal.
    destruct (decide (k = 0)%nat) as [->|]; [done|].
    apply number_map_below. rewrite length_take. lia.
Qed.

Lemma concat_take_drop ss (ls : list bytes) k :
  sectors_of ss ls -> (k <= length ls)%nat ->
  take (k * ss) (concat ls) = concat (take k ls) /\
  drop (k * ss) (concat ls) = concat (drop k ls).
Proof.
  intros Hs Hk.
  rewrite <- (take_drop k ls) at 1 3. rewrite concat_app.
  assert (length (concat (take k ls)) = (k * ss)%nat) as Hl.
  { rewrite (length_concat_sectors ss); [rewrite length_take; nia|].
    apply Forall_take. done. }
  rewrite take_app_length' by done. rewrite drop_app_length' by done. done.
Qed.

Section PipelineLaws.
Context (p : CryptoPipeline) (ss : Z) (enc dec : Z -> bytes -> bytes).
Context `{!CipherLaws (cp_cipher p) ss enc dec}.

Lemma sector_total ls :
  sectors_of (Z.to_nat ss) ls ->
  Z.of_nat (length (concat ls)) / ss = Z.of_nat (length ls).
Proof using CipherLaws0.
  intros Hs. pose proof (cl_ss (ss:=ss)).
  rewrite (length_concat_sectors _ _ Hs), Nat2Z.inj_mul, Z2Nat.id by lia.
  apply Z.div_mul. lia.
Qed.

(** The optimised prefix computation is the per-sector decision. *)
Lemma decrypt_read_sectors first b ls :
  sectors_of (Z.to_nat ss) ls -> 0 <= first -> first + Z.of_nat (length ls) <= 2 ^ 64 ->
  decrypt_read p first b (concat ls) ss = Some (concat (number_map (below dec b) first ls)).
Proof using CipherLaws0.
  intros Hs Hf Hn. pose proof (cl_ss (ss:=ss)).
  unfold decrypt_read. rewrite (proj2 (Z.eqb_neq _ _)), sector_total by (done || lia).
  set (n := if b <=? first then 0 else _). cbn zeta.
  assert (n = Z.max 0 (Z.min (b - first) (Z.of_nat (length ls)))) as Hnn
    by (unfold n; zcase; lia).
  rewrite (number_map_split dec b first ls (Z.to_nat n)) by lia.
  destruct (Z.ltb_spec 0 n).
  - replace (Z.to_nat (n * ss)) with (Z.to_nat n * Z.to_nat ss)%nat by nia.
    destruct (concat_take_drop (Z.to_nat ss) ls (Z.to_nat n) Hs ltac:(lia)) as [-> ->].
    rewrite cl_decrypt_area; [|done|rewrite length_take; lia|apply Forall_take; done].
    cbn. rewrite concat_app. done.
  - replace (Z.to_nat n) with 0%nat by lia. rewrite drop_0. done.
Qed.

Lemma encrypt_write_sectors first b ls :
  sectors_of (Z.to_nat ss) ls -> 0 <= first -> first + Z.of_nat (length ls) <= 2 ^ 64 ->
  encrypt_write p first b (concat ls) ss = Some (concat (number_map (below enc b) first ls)).
Proof using CipherLaws0.
  intros Hs Hf Hn. pose proof (cl_ss (ss:=ss)).
  unfold encrypt_write. rewrite (proj2 (Z.eqb_neq _ _)), sector_total by (done || lia).
  set (n := if b <=? first then 0 else _). cbn zeta.
  assert (n = Z.max 0 (Z.min (b - first) (Z.of_nat (length ls)))) as Hnn
    by (unfold n; zcase; lia).
  rewrite (number_map_split enc b first ls (Z.to_nat n)) by lia.
  destruct (Z.ltb_spec 0 n).
  - replace (Z.to_nat (n * ss)) with (Z.to_nat n * Z.to_nat ss)%nat by nia.
    destruct (concat_take_drop (Z.to_nat ss) ls (Z.to_nat n) Hs ltac:(lia)) as [-> ->].
    rewrite cl_encrypt_area; [|done|rewrite length_take; lia|apply Forall_take; done].
    cbn. rewrite concat_app. done.
  - replace (Z.to_nat n) with 0%nat by lia. rewrite drop_0. done.
Qed.
End PipelineLaws.

(** ** Properties *)

(** The pipeline's prefix computation decides every sector on its own.
    Reading decrypts exactly the sectors below the boundary and writing encrypts
    exactly those, wherever the boundary falls in the buffer; reading back what
    was written at the same boundary gives the original sectors. *)
Theorem pipeline_is_per_sector (c : VolumeCipher) ss enc dec first b ls :
  CipherLaws c ss enc dec ->
  sectors_of (Z.to_nat ss) ls -> 0 <= first -> first + Z.of_nat (length ls) <= 2 ^ 64 ->
  let p := mkPipeline c in
  decrypt_read p first b (concat ls) ss = Some (concat (number_map (below dec b) first ls)) /\
  encrypt_write p first b (concat ls) ss = Some (concat (number_map (below enc b) first ls)) /\
  exists ct, encrypt_write p first b (concat ls) ss = Some ct /\
             decrypt_read p first b ct ss = Some (concat ls).
Proof.
  intros Hc Hs Hf Hn p. split; [apply (decrypt_read_sectors p ss enc dec); done|].
  split; [apply (encrypt_write_sectors p ss enc dec); done|].
  eexists. split; [apply (encrypt_write_sectors p ss enc dec); done|].
  assert (sectors_of (Z.to_nat ss) (number_map (below enc b) first ls)) as Hs'.
  { apply sectors_of_number_map; [done|]. intros i s _ Hl. unfold below.
    destruct (i <? b); [apply cl_enc_len|]; done. }
  rewrite (decrypt_read_sectors p ss enc dec) by (rewrite ?length_number_map; done).
  do 2 f_equal. apply list_eq. intros i. rewrite !lookup_number_map.
  destruct (ls !! i) as [s|] eqn:E; [|done]. cbn. f_equal.
  pose proof (lookup_lt_Some _ _ _ E). unfold below. destruct (_ <? b); [|done].
  apply cl_dec_enc; [unfold in_u; lia|]. apply (Forall_lookup_1 _ _ _ _ Hs E).
Qed.

Lemma pipeline_is_per_sector_witness :
  let p := mkPipeline ShiftCipher.cipher in
  let ls := [[Byte.x01; Byte.x02]; [Byte.x03; Byte.x04]; [Byte.x05; Byte.x06]] in
  decrypt_read p 4 6 (concat ls) 2 = Some (concat (number_map (below ShiftCipher.dec 6) 4 ls)) /\
  encrypt_write p 4 6 (concat ls) 2 = Some (concat (number_map (below ShiftCipher.enc 6) 4 ls)) /\
  exists ct, encrypt_write p 4 6 (concat ls) 2 = Some ct /\
             decrypt_read p 4 6 ct 2 = Some (concat ls).
Proof.
  exact (pipeline_is_per_sector ShiftCipher.cipher 2 ShiftCipher.enc ShiftCipher.dec 4 6
    [[Byte.x01; Byte.x02]; [Byte.x03; Byte.x04]; [Byte.x05; Byte.x06]]
    (ShiftCipher.laws 2 (conj eq_refl eq_refl))
    ltac:(repeat constructor) ltac:(lia) ltac:(cbn; lia)).
Defined.
