(* ===== verification/Volume.v ===== *)
(** * An attached volume and its request processing

    [IoConfig] ([lib/windrv/src/provider.rs]), [AttachedVolume] and its sweep
    ([registry.rs]), and what the volume thread does with one READ or WRITE
    request ([filter/volume_thread.rs]). Operations run over the pair of the
    volume and the world behind its disk and store. *)

From S2P Require Import Prelude Types Sectors Engine Nt Pipeline.

(** ** [IoConfig] ([provider.rs]) *)

(* src: lib/windrv/src/provider.rs:120-123 IoHooks *)
Record IoHooks (W : Type) : Type := mkIoHooks {
  hook_read : Z -> nat -> M VckError W bytes;
  hook_write : Z -> bytes -> M VckError W unit;
}.

(* src: lib/windrv/src/provider.rs:54-75 IoConfig *)
Inductive IoConfig (W : Type) : Type :=
| Passthrough
| Encrypted (cipher_supplier : option VolumeCipherSupplier) (offset_sector : Z)
    (encrypted_offset : EncryptedOffset) (offset_store : EncryptedOffsetStore W)
| Custom (io_hooks : IoHooks W) (offset_sector : Z)
    (encrypted_offset : EncryptedOffset) (offset_store : EncryptedOffsetStore W).
Arguments Passthrough {W}.
Arguments Encrypted {W}.
Arguments Custom {W}.

(* src: lib/windrv/src/provider.rs:79-86 IoConfig::offset_sector *)
Definition cfg_offset_sector {W} (c : IoConfig W) : Z :=
  match c with
  | Passthrough => 0
  | Encrypted _ off _ _ | Custom _ off _ _ => off
  end.

(* src: lib/windrv/src/provider.rs:90-110 IoConfig::geometry *)
Definition cfg_geometry {W} (c : IoConfig W) :
    option (Z * EncryptedOffset * EncryptedOffsetStore W) :=
  match c with
  | Passthrough => None
  | Encrypted _ off o st | Custom _ off o st => Some (off, o, st)
  end.

(** ** [AttachedVolume] ([registry.rs]) *)

(* src: lib/windrv/src/registry.rs:106-111 AttachSource *)
Inductive AttachSource : Type := Handover | Ioctl.

Global Instance AttachSource_eq_dec : EqDecision AttachSource.
Proof. solve_decision. Defined.

(** Device objects are addresses; [None] is the null pointer. *)
Abbreviation PDEVICE_OBJECT := (option nat).

(* src: lib/windrv/src/registry.rs:83-103 AttachedVolume *)
Record AttachedVolume (W : Type) : Type := mkVolume {
  av_volume_path : string;
  av_sector_size : Z;
  av_io_config : IoConfig W;
  av_encryption : EncryptionEngine;
  av_offset_store : EncryptedOffsetStore W;
  av_attach_source : AttachSource;
  av_filter_device : PDEVICE_OBJECT;
  av_sweep_io : SectorIo W;
  av_encrypted_boundary : Z;
}.
Arguments mkVolume {W}.
Arguments av_volume_path {W}.
Arguments av_sector_size {W}.
Arguments av_io_config {W}.
Arguments av_encryption {W}.
Arguments av_offset_store {W}.
Arguments av_attach_source {W}.
Arguments av_filter_device {W}.
Arguments av_sweep_io {W}.
Arguments av_encrypted_boundary {W}.

Definition set_encryption {W} (e : EncryptionEngine) (v : AttachedVolume W) : AttachedVolume W :=
  mkVolume (av_volume_path v) (av_sector_size v) (av_io_config v) e (av_offset_store v)
    (av_attach_source v) (av_filter_device v) (av_sweep_io v) (av_encrypted_boundary v).

Definition set_boundary {W} (b : Z) (v : AttachedVolume W) : AttachedVolume W :=
  mkVolume (av_volume_path v) (av_sector_size v) (av_io_config v) (av_encryption v)
    (av_offset_store v) (av_attach_source v) (av_filter_device v) (av_sweep_io v) b.

Definition set_filter_device {W} (d : PDEVICE_OBJECT) (v : AttachedVolume W) : AttachedVolume W :=
  mkVolume (av_volume_path v) (av_sector_size v) (av_io_config v) (av_encryption v)
    (av_offset_store v) (av_attach_source v) d (av_sweep_io v) (av_encrypted_boundary v).

Definition set_sweep_io {W} (io : SectorIo W) (v : AttachedVolume W) : AttachedVolume W :=
  mkVolume (av_volume_path v) (av_sector_size v) (av_io_config v) (av_encryption v)
    (av_offset_store v) (av_attach_source v) (av_filter_device v) io (av_encrypted_boundary v).

Section AttachedVolume.
Context {W : Type}.
Implicit Types v : AttachedVolume W.

(* src: lib/windrv/src/registry.rs:255-257 AttachedVolume::is_os_volume *)
Definition is_os_volume v : bool := bool_decide (av_attach_source v = Handover).

(* src: lib/windrv/src/registry.rs:260-262 AttachedVolume::has_encrypted_data *)
Definition has_encrypted_data v : bool := 0 <? av_encrypted_boundary v.

(* src: lib/windrv/src/registry.rs:264-266 AttachedVolume::offset_sector *)
Definition offset_sector v : Z := cfg_offset_sector (av_io_config v).

(* src: lib/windrv/src/registry.rs:270-280 AttachedVolume::data_sectors *)
Definition data_sectors v : Z :=
  match av_io_config v with
  | Passthrough => 0
  | Encrypted _ _ o _ | Custom _ _ o _ => eo_total_sectors o
  end.

(* src: lib/windrv/src/registry.rs:285-293 AttachedVolume::cipher_supplier *)
Definition cipher_supplier v : option VolumeCipherSupplier :=
  match av_io_config v with
  | Encrypted (Some s) _ _ _ => Some s
  | _ => None
  end.

(* src: lib/windrv/src/registry.rs:297-300 AttachedVolume::sync_boundary *)
Definition sync_boundary v : AttachedVolume W :=
  set_boundary (encrypted_boundary (av_encryption v)) v.

Abbreviation VM := (M VckError (AttachedVolume W * W)).

(** Run an engine operation under the [encryption] lock. *)
Definition on_engine {A} (m : M VckError (EncryptionEngine * W) A) : VM A :=
  zoom (fun t => (av_encryption t.1, t.2)) (fun s t => (set_encryption s.1 t.1, s.2)) m.

Definition volume : VM (AttachedVolume W) := t ← mget; mret t.1.

(* src: lib/windrv/src/registry.rs:304-329 AttachedVolume::sweep_step *)
Definition sweep_step (batch_sectors : Z) : VM bool :=
  v ← volume;
  match cipher_supplier v with
  | None => mret false
  | Some supplier =>
      match get_cipher supplier with
      | None => mret false
      | Some cipher =>
          let io := av_sweep_io v in
          result ← attempt
            (on_engine (progress_step io cipher (av_offset_store v) batch_sectors));
          match result with
          | inl more => _ ← mmodify (fun t => (sync_boundary t.1, t.2)); mret more
          | inr e => mfail e
          end
      end
  end.

(** ** Request processing ([filter/volume_thread.rs]) *)

(* src: lib/windrv/src/filter/volume_thread.rs:361-365 data_relative *)
Definition data_relative v (abs_lba : Z) : option Z :=
  rel ← (if offset_sector v <=? abs_lba then Some (abs_lba - offset_sector v) else None);
  if rel <? data_sectors v then Some rel else None.

(* src: lib/windrv/src/filter/volume_thread.rs:370-378 crypto_range *)
Definition crypto_range v (first_lba : Z) : option (Z * Z) :=
  first_rel ← data_relative v first_lba;
  let boundary := av_encrypted_boundary v in
  if (0 <? boundary) && (first_rel <? boundary) then Some (first_rel, boundary) else None.

(** The burst cipher after the call, which is also the pipeline's cipher. *)
(* src: lib/windrv/src/filter/volume_thread.rs:382-392 get_pipeline *)
Definition get_pipeline (burst_cipher : option VolumeCipher) v : option VolumeCipher :=
  match burst_cipher with
  | Some c => Some c
  | None => supplier ← cipher_supplier v; get_cipher supplier
  end.

(** [alloc] is whether [ExAllocatePool2] finds memory for a size. *)
Context (alloc : Z -> bool).

(* src: lib/windrv/src/filter/volume_thread.rs:413-466 process_read *)
Definition process_read (irp : IRP) (burst_cipher : option VolumeCipher) :
    VM (IRP * option VolumeCipher) :=
  v ← volume;
  let byte_offset := wrap 64 (irp_byte_offset irp) in
  let length := irp_length irp in
  let ss := av_sector_size v in
  if (ss =? 0) || (length =? 0) then
    mret (complete_irp STATUS_SUCCESS 0 irp, burst_cipher)
  else
    let first_lba := byte_offset / ss in
    let sector_count := length / ss in
    if sector_count =? 0 then mret (complete_irp STATUS_SUCCESS 0 irp, burst_cipher)
    else
      let io_len := u64_mul sector_count ss in
      match irp_mdl irp with
      | None => mret (complete_irp STATUS_UNSUCCESSFUL 0 irp, burst_cipher)
      | Some dst =>
          if negb (alloc io_len) then
            mret (complete_irp STATUS_UNSUCCESSFUL 0 irp, burst_cipher)
          else
            result ← attempt (on_snd (read_sectors (av_sweep_io v) first_lba (Z.to_nat io_len)));
            match result with
            | inr _ => mret (complete_irp STATUS_UNSUCCESSFUL 0 irp, burst_cipher)
            | inl frag =>
                '(frag, burst_cipher) ←
                  match crypto_range v first_lba with
                  | Some (first_rel, boundary) =>
                      let burst_cipher := get_pipeline burst_cipher v in
                      match burst_cipher with
                      | Some c =>
                          frag ← lift (unwrap (decrypt_read (mkPipeline c) first_rel boundary frag ss));
                          mret (frag, burst_cipher)
                      | None => mret (frag, burst_cipher)
                      end
                  | None => mret (frag, burst_cipher)
                  end;
                mret (complete_irp STATUS_SUCCESS io_len (set_mdl (splice 0 frag dst) irp),
                      burst_cipher)
            end
      end.

(* src: lib/windrv/src/filter/volume_thread.rs:472-522 process_write *)
Definition process_write (irp : IRP) (burst_cipher : option VolumeCipher) :
    VM (IRP * option VolumeCipher) :=
  v ← volume;
  let byte_offset := wrap 64 (irp_byte_offset irp) in
  let length := irp_length irp in
  let ss := av_sector_size v in
  if (ss =? 0) || (length =? 0) then
    mret (complete_irp STATUS_SUCCESS 0 irp, burst_cipher)
  else
    let first_lba := byte_offset / ss in
    let sector_count := length / ss in
    if sector_count =? 0 then mret (complete_irp STATUS_SUCCESS 0 irp, burst_cipher)
    else
      let io_len := u64_mul sector_count ss in
      match irp_mdl irp with
      | None => mret (complete_irp STATUS_UNSUCCESSFUL 0 irp, burst_cipher)
      | Some src =>
          if negb (alloc io_len) then
            mret (complete_irp STATUS_UNSUCCESSFUL 0 irp, burst_cipher)
          else
            let frag := take (Z.to_nat io_len) src in
            '(frag, burst_cipher) ←
              match crypto_range v first_lba with
              | Some (first_rel, boundary) =>
                  let burst_cipher := get_pipeline burst_cipher v in
                  match burst_cipher with
                  | Some c =>
                      frag ← lift (unwrap (encrypt_write (mkPipeline c) first_rel boundary frag ss));
                      mret (frag, burst_cipher)
                  | None => mret (frag, burst_cipher)
                  end
              | None => mret (frag, burst_cipher)
              end;
            result ← attempt (on_snd (write_sectors (av_sweep_io v) first_lba frag));
            match result with
            | inr _ => mret (complete_irp STATUS_UNSUCCESSFUL 0 irp, burst_cipher)
            | inl _ => mret (complete_irp STATUS_SUCCESS io_len irp, burst_cipher)
            end
      end.

(* src: lib/windrv/src/filter/volume_thread.rs:334-344 process_irp *)
Definition process_irp (irp : IRP) (is_write : bool) (burst_cipher : option VolumeCipher) :
    VM (IRP * option VolumeCipher) :=
  if is_write then process_write irp burst_cipher else process_read irp burst_cipher.
End AttachedVolume.

(** ** Refinement of a plaintext disk

    The abstract disk is the plaintext of the data region, indexed by relative
    sector. Reads return its content, writes replace it, and the sweep and the
    control operations leave it alone. *)

(** The sectors a request covers, relative to the data region. *)
Definition req_lba (ss : Z) (irp : IRP) : Z := wrap 64 (irp_byte_offset irp) / ss.
Definition req_count (ss : Z) (irp : IRP) : nat := Z.to_nat (irp_length irp / ss).

(** A request inside the data region, with its mapped buffer. *)
Record request_ok (ss off total : Z) (irp : IRP) (buf : bytes) : Prop := {
  rq_mdl : irp_mdl irp = Some buf;
  rq_len : Z.of_nat (length buf) = irp_length irp;
  rq_u32 : irp_length irp < 2 ^ 32;
  rq_pos : 0 < Z.of_nat (req_count ss irp);
  rq_lo : off <= req_lba ss irp;
  rq_hi : req_lba ss irp + Z.of_nat (req_count ss irp) <= off + total;
}.

Inductive vop : Type :=
| VRead (irp : IRP)
| VWrite (irp : IRP)
| VSweep (batch : Z)
| VStartEncrypt
| VStartDecrypt
| VResume
| VPause.

(** One operation of the abstract disk: the disk after it and the completed
    request. *)
Definition spec_vop (ss off : Z) (P : Z -> bytes) (op : vop) : (Z -> bytes) * option IRP :=
  match op with
  | VRead irp =>
      let k := req_count ss irp in
      let data := concat (read_run P (req_lba ss irp - off) k) in
      let buf := match irp_mdl irp with Some b => b | None => [] end in
      (P, Some (complete_irp STATUS_SUCCESS (Z.of_nat k * ss) (set_mdl (splice 0 data buf) irp)))
  | VWrite irp =>
      let k := req_count ss irp in
      let buf := match irp_mdl irp with Some b => b | None => [] end in
      let ls := chunks (Z.to_nat ss) (take (k * Z.to_nat ss) buf) in
      (write_run P (req_lba ss irp - off) ls,
       Some (complete_irp STATUS_SUCCESS (Z.of_nat k * ss) irp))
  | _ => (P, None)
  end.

Fixpoint spec_run (ss off : Z) (P : Z -> bytes) (ops : list vop) :
    (Z -> bytes) * list (option IRP) :=
  match ops with
  | [] => (P, [])
  | op :: ops =>
      let '(P1, r) := spec_vop ss off P op in
      let '(P2, rs) := spec_run ss off P1 ops in
      (P2, r :: rs)
  end.

(** The same operations on the attached volume. The burst cipher is part of the
    thread's state. A failed sweep step is logged by the thread. *)
Definition run_vop {W} (alloc : Z -> bool) (op : vop) (burst : option VolumeCipher) :
    M VckError (AttachedVolume W * W) (option IRP * option VolumeCipher) :=
  match op with
  | VRead irp => '(irp, burst) ← process_irp alloc irp false burst; mret (Some irp, burst)
  | VWrite irp => '(irp, burst) ← process_irp alloc irp true burst; mret (Some irp, burst)
  | VSweep batch => _ ← ignore (sweep_step batch); mret (None, burst)
  | VStartEncrypt =>
      v ← volume; _ ← on_engine (start_encrypt (av_offset_store v)); mret (None, burst)
  | VStartDecrypt =>
      v ← volume; _ ← on_engine (start_decrypt (av_offset_store v)); mret (None, burst)
  | VResume => v ← volume; _ ← on_engine (resume (av_offset_store v)); mret (None, burst)
  | VPause =>
      _ ← mmodify (fun t => (set_encryption (pause (av_encryption t.1)) t.1, t.2));
      mret (None, burst)
  end.

Fixpoint run_vops {W} (alloc : Z -> bool) (ops : list vop) (burst : option VolumeCipher) :
    M VckError (AttachedVolume W * W) (list (option IRP)) :=
  match ops with
  | [] => mret []
  | op :: ops =>
      '(r, burst) ← run_vop alloc op burst;
      rs ← run_vops alloc ops burst;
      mret (r :: rs)
  end.

Section VolumeRefinement.
Context {W : Type} (io : SectorIo W) (cipher : VolumeCipher) (store : EncryptedOffsetStore W).
Context (enc dec : Z -> bytes -> bytes) (inv : W -> Prop) (view : W -> Z -> bytes).
Context (off total lo hi : Z).
Context {reach : Z} `{!SectorIoUpto reach io inv view} `{!CipherLaws cipher (sector_size io) enc dec}.
Context `{!OffsetStoreLaws store inv view lo hi}.
Hypothesis Hregion : 0 <= lo <= off /\ off + total <= hi <= reach.
Hypothesis Hbig : total * sector_size io < 2 ^ 64.
Context (alloc : Z -> bool).
Implicit Types (v : AttachedVolume W) (w : W).
Local Abbreviation does := (accesses io store off total).

(** A keyed volume whose cached boundary is the engine's. *)
Record volume_wf v : Prop := {
  vw_cfg : exists sup o st,
    av_io_config v = Encrypted (Some sup) off o st /\
    get_cipher sup = Some cipher /\ eo_total_sectors o = total;
  vw_ss : av_sector_size v = sector_size io;
  vw_io : av_sweep_io v = io;
  vw_store : av_offset_store v = store;
  vw_engine : engine_wf off total (av_encryption v);
  vw_cache : av_encrypted_boundary v = encrypted_boundary (av_encryption v);
}.

Definition burst_ok (b : option VolumeCipher) : Prop := b = None \/ b = Some cipher.

(** What the volume presents. *)
Definition presents v w : Z -> bytes := plaintext dec (view w) off (av_encrypted_boundary v).

Definition same_disk (P Q : Z -> bytes) : Prop := forall rel, 0 <= rel < total -> P rel = Q rel.

#[export] Instance same_disk_equiv : Equivalence same_disk.
Proof using Type.
  split; [intros P rel Hr; done|intros P Q H rel Hr; symmetry; auto|].
  intros P Q R H1 H2 rel Hr. rewrite H1 by done. auto.
Qed.

Lemma wf_set_encryption v e :
  volume_wf v -> engine_wf off total e ->
  encrypted_boundary e = encrypted_boundary (av_encryption v) ->
  volume_wf (set_encryption e v).
Proof using Type.
  intros [] ? He. constructor; cbn; try done. rewrite He. done.
Qed.

Lemma wf_boundary v : volume_wf v -> 0 <= av_encrypted_boundary v <= total.
Proof using Type. intros [? ? ? ? [? ? ?] Hc]. rewrite Hc. done. Qed.

Lemma wf_supplier v :
  volume_wf v -> exists sup, cipher_supplier v = Some sup /\ get_cipher sup = Some cipher.
Proof using Type.
  intros [(sup & o & st & Hc & Hg & _)]. exists sup. unfold cipher_supplier. rewrite Hc. done.
Qed.

Lemma wf_geometry v : volume_wf v -> offset_sector v = off /\ data_sectors v = total.
Proof using Type.
  intros [(sup & o & st & Hc & _ & Ht)].
  unfold offset_sector, data_sectors. rewrite Hc. done.
Qed.

Lemma data_relative_in v lba :
  volume_wf v ->
  data_relative v lba =
  if (off <=? lba) && (lba - off <? total) then Some (lba - off) else None.
Proof using Type.
  intros Hwf. unfold data_relative. destruct (wf_geometry v Hwf) as [-> ->].
  destruct (Z.leb_spec off lba); cbn; [|done]. destruct (Z.ltb_spec (lba - off) total); done.
Qed.

Lemma crypto_range_in v first :
  volume_wf v -> 0 <= first < total ->
  crypto_range v (off + first) =
  if first <? av_encrypted_boundary v then Some (first, av_encrypted_boundary v) else None.
Proof using Type.
  intros Hwf Hf. unfold crypto_range. rewrite data_relative_in by done.
  replace (off + first - off) with first by lia.
  rewrite (proj2 (Z.leb_le off (off + first))), (proj2 (Z.ltb_lt first total)) by lia. cbn.
  destruct (Z.ltb_spec first (av_encrypted_boundary v)); [|rewrite andb_false_r; done].
  rewrite (proj2 (Z.ltb_lt 0 (av_encrypted_boundary v))) by lia. done.
Qed.

Lemma get_pipeline_in v burst :
  volume_wf v -> burst_ok burst -> get_pipeline burst v = Some cipher.
Proof using Type.
  intros Hwf Hb. destruct (wf_supplier v Hwf) as (sup & Hs & Hg).
  unfold get_pipeline. destruct Hb as [->| ->]; [|done]. rewrite Hs. done.
Qed.

(** The crypto part of a request, whatever the boundary. *)
Lemma crypt_frag (run : CryptoPipeline -> Z -> Z -> bytes -> Z -> option bytes) f
    v w burst first ls :
  (forall b, run (mkPipeline cipher) first b (concat ls) (sector_size io) =
             Some (concat (number_map (below f b) first ls))) ->
  volume_wf v -> burst_ok burst -> 0 <= first < total ->
  exists burst', burst_ok burst' /\
    match crypto_range v (off + first) with
    | Some (first_rel, boundary) =>
        match get_pipeline burst v with
        | Some c =>
            frag ← lift (unwrap (E:=VckError) (run (mkPipeline c) first_rel boundary (concat ls) (av_sector_size v)));
            mret (frag, get_pipeline burst v)
        | None => mret (concat ls, get_pipeline burst v)
        end
    | None => mret (concat ls, burst)
    end (v, w) =
    ((v, w), Ok (concat (number_map (below f (av_encrypted_boundary v)) first ls), burst')).
Proof using Type.
  intros Hrun Hwf Hb Hf. rewrite crypto_range_in by done.
  destruct (Z.ltb_spec first (av_encrypted_boundary v)) as [Hlt|Hge].
  - rewrite get_pipeline_in by done. exists (Some cipher). split; [by right|].
    rewrite (vw_ss v Hwf), mbind_run. unfold lift. rewrite Hrun. done.
  - exists burst. split; [done|]. rewrite number_map_above by lia. done.
Qed.

Lemma read_presents v w first k :
  volume_wf v -> 0 <= first -> first + Z.of_nat k <= total ->
  number_map (below dec (av_encrypted_boundary v)) first (read_run (view w) (off + first) k) =
  read_run (presents v w) first k.
Proof using Type.
  intros Hwf Hf Hk. apply list_eq. intros i. rewrite lookup_number_map.
  destruct (decide (i < k)%nat) as [Hi|Hi].
  - rewrite !lookup_read_run by done. cbn. f_equal. unfold below, presents, plaintext.
    replace (off + first + Z.of_nat i) with (off + (first + Z.of_nat i)) by lia. done.
  - rewrite !(proj2 (lookup_ge_None _ _)) by (rewrite length_read_run; lia). done.
Qed.

Lemma write_presents v w w' first ls :
  volume_wf v -> 0 <= first -> first + Z.of_nat (length ls) <= total -> total <= 2 ^ 64 ->
  sectors_of (Z.to_nat (sector_size io)) ls ->
  (forall i, 0 <= i < reach ->
     view w' i = write_run (view w) (off + first)
                   (number_map (below enc (av_encrypted_boundary v)) first ls) i) ->
  same_disk (presents v w') (write_run (presents v w) first ls).
Proof using CipherLaws0 Hregion.
  intros Hwf Hf Hk Hmax Hs Hv rel Hrel. unfold presents, plaintext at 1.
  rewrite Hv by lia. unfold write_run. rewrite length_number_map.
  destruct (Z.leb_spec first rel), (Z.ltb_spec rel (first + Z.of_nat (length ls))),
    (Z.leb_spec (off + first) (off + rel)),
    (Z.ltb_spec (off + rel) (off + first + Z.of_nat (length ls))); try lia; cbn [andb];
    [|done..].
  replace (off + rel - (off + first)) with (rel - first) by lia.
  destruct (lookup_lt_is_Some_2 ls (Z.to_nat (rel - first))) as [s Hl]; [lia|].
  rewrite (list_lookup_total_correct ls _ _ Hl).
  rewrite (list_lookup_total_correct (number_map _ _ _) _
             (below enc (av_encrypted_boundary v) rel s)).
  - unfold below. destruct (rel <? av_encrypted_boundary v); [|done].
    apply cl_dec_enc; [unfold in_u; lia|].
    eapply (Forall_lookup_1 _ _ _ _ Hs Hl).
  - rewrite lookup_number_map, Hl. cbn. do 2 f_equal. lia.
Qed.

(** The arithmetic of a request inside the data region. *)
Lemma request_arith irp buf :
  request_ok (sector_size io) off total irp buf ->
  let k := req_count (sector_size io) irp in
  irp_length irp / sector_size io = Z.of_nat k /\ (0 < k)%nat /\
  irp_length irp <> 0 /\
  u64_mul (irp_length irp / sector_size io) (sector_size io) = Z.of_nat k * sector_size io /\
  (k * Z.to_nat (sector_size io) <= length buf)%nat /\
  Z.of_nat k * sector_size io < 2 ^ 32.
Proof using SectorIoUpto0.
  intros [Hm Hl Hu Hp Ho Hh]. cbn zeta.
  pose proof (io_ss (n:=reach) (io:=io) (view:=view)). unfold req_count in *.
  assert (0 < irp_length irp / sector_size io) as Hq by lia.
  pose proof (Z.mul_div_le (irp_length irp) (sector_size io) ltac:(lia)).
  rewrite !Z2Nat.id in * by lia.
  split; [done|]. split; [lia|]. split; [intros Hz; rewrite Hz in Hq; cbn in Hq; lia|].
  split; [rewrite u64_mul_id; nia|]. split; nia.
Qed.

Lemma process_read_run v w irp buf burst :
  volume_wf v -> inv w -> burst_ok burst ->
  request_ok (sector_size io) off total irp buf ->
  exists w' irp' burst',
    process_read alloc irp burst (v, w) = ((v, w'), Ok (irp', burst')) /\
    inv w' /\ (forall b, does (b, w) (b, w')) /\ burst_ok burst' /\
    same_disk (presents v w') (presents v w) /\
    ((irp' = complete_irp STATUS_UNSUCCESSFUL 0 irp /\
      ~ ((forall n, alloc n = true) /\ SectorIoReliableUpto reach io inv)) \/
     spec_vop (sector_size io) off (presents v w) (VRead irp) = (presents v w, Some irp')).
Proof using Hregion Hbig SectorIoUpto0 CipherLaws0.
  intros Hwf Hi Hb Hrq.
  destruct (request_arith irp buf Hrq) as (Hk & Hk0 & Hl0 & Hmul & Hfit & Hsmall).
  pose proof Hrq as [Hm Hl Hu Hp Ho Hh]. pose proof (io_ss (n:=reach) (io:=io) (view:=view)) as Hss.
  set (k := req_count (sector_size io) irp) in *.
  set (lba := req_lba (sector_size io) irp) in *.
  unfold process_read. rewrite (mbind_step _ _ _ (v, w) v) by reflexivity.
  rewrite (vw_ss v Hwf), (vw_io v Hwf).
  rewrite (proj2 (Z.eqb_neq _ _)), (proj2 (Z.eqb_neq (irp_length irp) 0)) by lia.
  cbn [orb]. rewrite Hmul, Hk, (proj2 (Z.eqb_neq (Z.of_nat k) 0)) by lia. rewrite Hm.
  fold (req_lba (sector_size io) irp). fold lba.
  destruct (alloc (Z.of_nat k * sector_size io)) eqn:Ha; cbn [negb].
  2: { exists w. do 2 eexists. split; [done|]. split; [done|]. split; [done|].
       split; [done|]. split; [done|]. left. split; [done|]. intros [Hal _]. rewrite Hal in Ha. done. }
  replace (Z.to_nat (Z.of_nat k * sector_size io))
    with (k * Z.to_nat (sector_size io))%nat by nia.
  rewrite mbind_run. unfold attempt, on_snd, zoom. cbn [fst snd].
  destruct (read_sectors io lba (k * Z.to_nat (sector_size io)) w) as [w1 r1] eqn:Hr.
  destruct (io_read (n:=reach) (io:=io) (view:=view) w lba k w1 r1 Hi ltac:(lia) ltac:(lia) Hr)
    as (Hi1 & Hv1 & Hr1).
  assert (forall b, does (b, w) (b, w1)) as Hd1.
  { intros b. apply accesses_once. eapply ac_read; [| |exact Hr]; lia. }
  assert (same_disk (presents v w1) (presents v w)) as Hsame.
  { intros rel Hrel. apply plaintext_ext. apply Hv1. lia. }
  destruct r1 as [frag|err|]; [| |done].
  2: { exists w1. do 2 eexists. split; [done|]. split; [done|]. split; [done|].
       split; [done|]. split; [done|]. left. split; [done|]. intros [_ Hrel].
       pose proof (io_read_ok (n:=reach) (io:=io) w lba k Hi ltac:(lia) ltac:(lia) Hsmall) as Hok.
       rewrite Hr in Hok. done. }
  subst frag. replace lba with (off + (lba - off)) by lia.
  set (first := lba - off).
  edestruct (crypt_frag decrypt_read dec v w1 burst first
               (read_run (view w) (off + first) k)) as (burst' & Hb' & Hc);
    [|done|done|unfold first; lia|].
  { intros b. apply (decrypt_read_sectors _ _ enc dec); [|unfold first; lia|rewrite length_read_run].
    - apply sectors_of_read_run. intros i Hri. apply io_len; [done|]. unfold first in *. lia.
    - pose proof (io_total (n:=reach) (io:=io) (view:=view)). unfold first. lia. }
  rewrite (vw_ss v Hwf) in Hc.
  rewrite (mbind_step _ _ _ _ _ Hc).
  exists w1. do 2 eexists. split; [done|]. split; [done|]. split; [done|].
  split; [done|]. split; [done|]. right. cbn [spec_vop]. rewrite Hm. fold k. fold lba. fold first.
  rewrite read_presents by (done || unfold first; lia). done.
Qed.

(** A completed write replaces the plaintext; a failed one leaves the other
    sectors alone. *)
Lemma process_write_run v w irp buf burst :
  volume_wf v -> inv w -> burst_ok burst ->
  request_ok (sector_size io) off total irp buf ->
  exists w' irp' burst',
    process_write alloc irp burst (v, w) = ((v, w'), Ok (irp', burst')) /\
    inv w' /\ (forall b, does (b, w) (b, w')) /\ burst_ok burst' /\
    ((irp' = complete_irp STATUS_UNSUCCESSFUL 0 irp /\
      ~ ((forall n, alloc n = true) /\ SectorIoReliableUpto reach io inv) /\
      forall rel, 0 <= rel < total ->
        rel < req_lba (sector_size io) irp - off \/
        req_lba (sector_size io) irp - off + Z.of_nat (req_count (sector_size io) irp) <= rel ->
        presents v w' rel = presents v w rel) \/
     exists P', spec_vop (sector_size io) off (presents v w) (VWrite irp) = (P', Some irp') /\
                same_disk (presents v w') P').
Proof using Hregion Hbig SectorIoUpto0 CipherLaws0.
  intros Hwf Hi Hb Hrq.
  destruct (request_arith irp buf Hrq) as (Hk & Hk0 & Hl0 & Hmul & Hfit & Hsmall).
  pose proof Hrq as [Hm Hl Hu Hp Ho Hh]. pose proof (io_ss (n:=reach) (io:=io) (view:=view)) as Hss.
  pose proof (io_total (n:=reach) (io:=io) (view:=view)) as Htot.
  set (k := req_count (sector_size io) irp) in *.
  set (lba := req_lba (sector_size io) irp) in *.
  unfold process_write. rewrite (mbind_step _ _ _ (v, w) v) by reflexivity.
  rewrite (vw_ss v Hwf), (vw_io v Hwf).
  rewrite (proj2 (Z.eqb_neq _ _)), (proj2 (Z.eqb_neq (irp_length irp) 0)) by lia.
  cbn [orb]. rewrite Hmul, Hk, (proj2 (Z.eqb_neq (Z.of_nat k) 0)) by lia. rewrite Hm.
  fold (req_lba (sector_size io) irp). fold lba.
  destruct (alloc (Z.of_nat k * sector_size io)) eqn:Ha; cbn [negb].
  2: { exists w. do 2 eexists. split; [done|]. split; [done|]. split; [done|].
       split; [done|]. left. split; [done|]. split; [|done]. intros [Hal _]. rewrite Hal in Ha. done. }
  replace (Z.to_nat (Z.of_nat k * sector_size io))
    with (k * Z.to_nat (sector_size io))%nat by nia.
  destruct (concat_chunks (Z.to_nat (sector_size io)) k
              (take (k * Z.to_nat (sector_size io)) buf)) as (Hsec & Hcat & Hlen);
    [lia|rewrite length_take; lia|].
  set (ls := chunks (Z.to_nat (sector_size io)) (take (k * Z.to_nat (sector_size io)) buf)) in *.
  rewrite <- Hcat. replace lba with (off + (lba - off)) by lia. set (first := lba - off).
  edestruct (crypt_frag encrypt_write enc v w burst first ls) as (burst' & Hb' & Hc);
    [|done|done|unfold first; lia|].
  { intros b. apply (encrypt_write_sectors _ _ enc dec); [done|unfold first; lia|].
    rewrite Hlen. unfold first. lia. }
  rewrite (vw_ss v Hwf) in Hc. rewrite (mbind_step _ _ _ _ _ Hc).
  rewrite mbind_run. unfold attempt, on_snd, zoom. cbn [fst snd].
  set (out := number_map (below enc (av_encrypted_boundary v)) first ls).
  assert (sectors_of (Z.to_nat (sector_size io)) out) as Hout.
  { apply sectors_of_number_map; [done|]. intros i s _ Hs. unfold below.
    destruct (i <? _); [apply cl_enc_len|]; done. }
  assert (length out = k) as Hlo by (unfold out; rewrite length_number_map; done).
  destruct (write_sectors io (off + first) (concat out) w) as [w1 r1] eqn:Hw.
  destruct (io_write (n:=reach) (io:=io) (view:=view) w (off + first) out w1 r1 Hi
              ltac:(unfold first; lia) ltac:(unfold first; lia) Hout Hw) as [Hi1 Hr1].
  assert (forall b, does (b, w) (b, w1)) as Hd1.
  { intros b. apply accesses_once. eapply ac_write; [| |exact Hout|exact Hw]; unfold first; lia. }
  exists w1. destruct r1 as [[]|err|]; [| |done].
  - do 2 eexists. split; [done|]. split; [done|]. split; [done|]. split; [done|]. right.
    eexists. cbn [spec_vop]. rewrite Hm. fold k. fold lba. fold first. fold ls.
    split; [done|]. apply write_presents; try done; unfold first in *; lia.
  - do 2 eexists. split; [done|]. split; [done|]. split; [done|]. split; [done|]. left.
    split; [done|]. split.
    + intros [_ Hrel].
      pose proof (io_write_ok (n:=reach) (io:=io) w (off + first) out Hi
                    ltac:(unfold first; lia) ltac:(unfold first; lia) ltac:(rewrite Hlo; done) Hout) as Hok.
      rewrite Hw in Hok. done.
    + intros rel Hrel Ho'. unfold first in *. apply plaintext_ext. apply Hr1; lia.
Qed.

(** A sweep step that returns [Ok] keeps what the volume presents. *)
Lemma sweep_step_run v w batch :
  volume_wf v -> inv w ->
  exists v' w' r,
    sweep_step batch (v, w) = ((v', w'), r) /\ inv w' /\ r <> Panic /\
    (is_ok r = true -> volume_wf v' /\ same_disk (presents v' w') (presents v w) /\
       does (av_encrypted_boundary v, w) (av_encrypted_boundary v', w')) /\
    (is_err r = true ->
       ~ (SectorIoReliableUpto reach io inv /\ OffsetStoreReliable store inv /\
          Z.max batch 1 * sector_size io < 2 ^ 32)).
Proof using All.
  intros Hwf Hi. destruct (wf_supplier v Hwf) as (sup & Hs & Hg).
  unfold sweep_step. rewrite (mbind_step _ _ _ (v, w) v) by reflexivity.
  rewrite Hs, Hg, (vw_io v Hwf), (vw_store v Hwf), mbind_run.
  unfold attempt, on_engine, zoom. cbn [fst snd].
  destruct (progress_step io cipher store batch (av_encryption v, w)) as [[e1 w1] r1] eqn:Hr.
  pose proof (vw_engine v Hwf) as Hewf.
  destruct (progress_step_safe io cipher store enc dec inv view off total lo hi Hregion
              _ w batch _ _ _ Hewf Hi Hbig Hr) as (Hewf1 & Hi1 & Hp1 & _).
  pose proof (progress_step_plain io cipher store enc dec inv view off total lo hi Hregion
              _ w batch _ _ _ Hewf Hi Hbig Hr) as Hpl.
  destruct r1 as [more|err|]; [| |done]; cbn [fst snd].
  - do 3 eexists. split; [done|]. split; [done|]. split; [done|]. split; [|done].
    intros _. split; [|split].
    + destruct Hwf. constructor; cbn; try done.
    + intros rel Hrel. unfold presents. cbn. rewrite (vw_cache v Hwf).
      apply Hpl; [by left|done].
    + rewrite (vw_cache v Hwf). cbn.
      apply (progress_step_does io cipher store enc dec inv view off total lo hi Hregion
               _ w batch _ _ more Hewf Hi Hbig Hr).
  - do 3 eexists. split; [done|]. split; [done|]. split; [done|]. split; [done|].
    intros _ (Hio & Hst & Hsm). pose proof (io_ss (n:=reach) (io:=io)) as Hss.
    destruct (progress_step_cases io cipher store enc dec inv view off total lo hi Hregion
                (av_encryption v) w batch Hewf Hi Hbig)
      as [[s Hsame]|(f & first & n & target & idle & [] & Hb)]; [congruence|].
    rewrite Hr in Hb. inversion Hb as [? ? ? Hn|? ? ? Hn|]; destruct Hn; [|done].
    split; [done|nia].
Qed.

Definition op_ok (op : vop) : Prop :=
  match op with
  | VRead irp | VWrite irp => exists buf, request_ok (sector_size io) off total irp buf
  | VSweep batch => Z.max batch 1 * sector_size io < 2 ^ 32
  | _ => True
  end.

(** The abstract disk only looks at the data region. *)
Lemma spec_vop_same P Q op :
  op_ok op -> same_disk P Q ->
  (spec_vop (sector_size io) off P op).2 = (spec_vop (sector_size io) off Q op).2 /\
  same_disk (spec_vop (sector_size io) off P op).1 (spec_vop (sector_size io) off Q op).1.
Proof using Type.
  intros Hop Heq. destruct op as [irp|irp| | | | |]; try done.
  - destruct Hop as [buf [Hm Hl Hu Hp Ho Hh]]. cbn. split; [|done].
    rewrite (read_run_ext P Q); [done|]. intros. apply Heq. lia.
  - cbn. split; [done|]. intros rel Hrel. unfold write_run. rewrite Heq by done. done.
Qed.

Lemma spec_run_same P Q ops :
  Forall op_ok ops -> same_disk P Q ->
  (spec_run (sector_size io) off P ops).2 = (spec_run (sector_size io) off Q ops).2 /\
  same_disk (spec_run (sector_size io) off P ops).1 (spec_run (sector_size io) off Q ops).1.
Proof using Type.
  intros Hops. revert P Q. induction Hops as [|op ops Hop _ IH]; intros P Q Heq; [done|].
  destruct (spec_vop_same P Q op Hop Heq) as [Hr Hs]. cbn [spec_run].
  destruct (spec_vop _ _ P op) as [P1 r1], (spec_vop _ _ Q op) as [Q1 r2]. cbn in Hr, Hs.
  subst r2. destruct (IH P1 Q1 Hs) as [H1 H2].
  destruct (spec_run _ _ P1 ops), (spec_run _ _ Q1 ops). cbn in *. subst. done.
Qed.

(** Engine control operations under the lock. *)
Lemma control_run v w w' (m : M VckError (EncryptionEngine * W) unit) s :
  volume_wf v -> inv w' -> (forall i, lo <= i < hi -> view w' i = view w i) ->
  access io store off total (av_encrypted_boundary v, w) (av_encrypted_boundary v, w') ->
  m (av_encryption v, w) = ((with_state s (av_encryption v), w'), Ok tt) ->
  exists v', on_engine m (v, w) = ((v', w'), Ok tt) /\ volume_wf v' /\
    same_disk (presents v' w') (presents v w) /\
    does (av_encrypted_boundary v, w) (av_encrypted_boundary v', w').
Proof using Hregion.
  intros Hwf Hi Hv Hd Hm. unfold on_engine, zoom. cbn [fst snd]. rewrite Hm.
  eexists. split; [done|]. split; [|split; [|apply accesses_once; exact Hd]].
  - apply wf_set_encryption; [done| |done]. apply wf_with_state. apply (vw_engine v Hwf).
  - intros rel Hrel. apply plaintext_ext. cbn. apply Hv. lia.
Qed.

(** One operation on working hardware. *)
Lemma run_vop_ok v w op burst :
  SectorIoReliableUpto reach io inv -> OffsetStoreReliable store inv -> (forall n, alloc n = true) ->
  volume_wf v -> inv w -> burst_ok burst -> op_ok op ->
  exists v' w' burst',
    run_vop alloc op burst (v, w) =
      ((v', w'), Ok ((spec_vop (sector_size io) off (presents v w) op).2, burst')) /\
    volume_wf v' /\ inv w' /\ burst_ok burst' /\
    same_disk (presents v' w') (spec_vop (sector_size io) off (presents v w) op).1 /\
    does (av_encrypted_boundary v, w) (av_encrypted_boundary v', w').
Proof using All.
  intros Hio Hst Hal Hwf Hi Hb Hop.
  pose proof (vw_engine v Hwf) as Hewf. pose proof (vw_store v Hwf) as Hstore.
  destruct op as [irp|irp|batch| | | |]; cbn [run_vop].
  1, 2: destruct Hop as [buf Hop].
  - destruct (process_read_run v w irp buf burst Hwf Hi Hb Hop)
      as (w' & irp' & burst' & Hr & Hi' & Hd & Hb' & Hs & [[_ Hn]|Hspec]); [by destruct Hn|].
    cbn [process_irp]. rewrite (mbind_step _ _ _ _ _ Hr), Hspec. cbn.
    exists v, w', burst'. done.
  - destruct (process_write_run v w irp buf burst Hwf Hi Hb Hop)
      as (w' & irp' & burst' & Hr & Hi' & Hd & Hb' & [(_ & Hn & _)|(P' & Hspec & Hs)]);
      [by destruct Hn|].
    cbn [process_irp]. rewrite (mbind_step _ _ _ _ _ Hr), Hspec. cbn.
    exists v, w', burst'. done.
  - destruct (sweep_step_run v w batch Hwf Hi) as (v' & w' & r & Hr & Hi' & Hp & Hok & Herr).
    rewrite mbind_run. unfold ignore. rewrite Hr.
    destruct r as [more|err|]; [|destruct (Herr eq_refl); split_and!; done|done].
    destruct (Hok eq_refl) as (Hwf' & Hs & Hd). exists v', w', burst. done.
  - destruct (start_encrypt_run io store inv view off total lo hi (av_encryption v) w Hi)
      as (w' & Hi' & Hv & Hd & Hr).
    destruct (control_run v w w' _ _ Hwf Hi' Hv (Hd _) Hr) as (v' & Hr' & Hwf' & Hs).
    rewrite (mbind_step _ _ _ (v, w) v) by reflexivity. rewrite Hstore.
    rewrite (mbind_step _ _ _ _ _ Hr'). exists v', w', burst. done.
  - destruct (start_decrypt_run io store inv view off total lo hi (av_encryption v) w Hi)
      as (w' & Hi' & Hv & Hd & Hr).
    destruct (control_run v w w' _ _ Hwf Hi' Hv (Hd _) Hr) as (v' & Hr' & Hwf' & Hs).
    rewrite (mbind_step _ _ _ (v, w) v) by reflexivity. rewrite Hstore.
    rewrite (mbind_step _ _ _ _ _ Hr'). exists v', w', burst. done.
  - destruct (resume_run io store inv view off total lo hi (av_encryption v) w Hi)
      as (w' & s & Hi' & Hv & Hd & Hr).
    destruct (control_run v w w' _ _ Hwf Hi' Hv (Hd _) Hr) as (v' & Hr' & Hwf' & Hs).
    rewrite (mbind_step _ _ _ (v, w) v) by reflexivity. rewrite Hstore.
    rewrite (mbind_step _ _ _ _ _ Hr'). exists v', w', burst. done.
  - exists (set_encryption (pause (av_encryption v)) v), w, burst.
    split; [done|]. split; [|done].
    apply wf_set_encryption; [done| |]; unfold pause; destruct (en_state _); try done;
      apply wf_with_state; done.
Qed.

(** Any sequence of operations. *)
Lemma run_vops_ok v w burst ops :
  SectorIoReliableUpto reach io inv -> OffsetStoreReliable store inv -> (forall n, alloc n = true) ->
  volume_wf v -> inv w -> burst_ok burst -> Forall op_ok ops ->
  exists v' w',
    run_vops alloc ops burst (v, w) =
      ((v', w'), Ok (spec_run (sector_size io) off (presents v w) ops).2) /\
    volume_wf v' /\ inv w' /\
    same_disk (presents v' w') (spec_run (sector_size io) off (presents v w) ops).1.
Proof using All.
  intros Hio Hst Hal Hwf Hi Hb Hops.
  revert v w burst Hwf Hi Hb. induction Hops as [|op ops Hop Hops IH]; intros v w burst Hwf Hi Hb.
  { exists v, w. done. }
  destruct (run_vop_ok v w op burst Hio Hst Hal Hwf Hi Hb Hop)
    as (v1 & w1 & burst1 & Hr & Hwf1 & Hi1 & Hb1 & Hs1 & _).
  destruct (IH v1 w1 burst1 Hwf1 Hi1 Hb1) as (v2 & w2 & Hr2 & Hwf2 & Hi2 & Hs2).
  destruct (spec_run_same _ _ ops Hops Hs1) as [He He'].
  exists v2, w2. cbn [run_vops spec_run].
  rewrite (mbind_step _ _ _ _ _ Hr), (mbind_step _ _ _ _ _ Hr2).
  destruct (spec_vop _ _ _ op) as [P1 r1]. cbn in *.
  destruct (spec_run _ _ P1 ops) as [P2 rs]. cbn in *. rewrite He.
  split; [done|]. split; [done|]. split; [done|]. rewrite Hs2. done.
Qed.
End VolumeRefinement.

(** ** Properties *)

(** The keyed volume of the evaluated examples: [EngineDemo]'s disk, with the
    first [b] data sectors encrypted. *)
Module VolumeDemo.
Definition supplier : VolumeCipherSupplier := mkSupplier (Some ShiftCipher.cipher).
Definition volume_at (b : Z) (s : EngineState) : AttachedVolume MemVolume :=
  mkVolume "\Device\HarddiskVolume3" 2
    (Encrypted (Some supplier) 1 (mkEncryptedOffset 0 4) EngineDemo.store)
    (EngineDemo.engine_at b s) EngineDemo.store Ioctl None EngineDemo.io b.
Definition alloc (_ : Z) : bool := true.
(** A two-sector request at byte offset 4, that is relative sector 1. *)
Definition request (buf : list Z) : IRP :=
  mkIRP 7 4 4 (Some (byte_of <$> buf)) false true 0 0 0.

Lemma volume_at_wf b s :
  0 <= b <= 4 ->
  volume_wf EngineDemo.io ShiftCipher.cipher EngineDemo.store 1 4 (volume_at b s).
Proof.
  intros. constructor; try done. exists supplier. do 2 eexists. done.
Qed.

Lemma request_in buf :
  length buf = 4%nat -> request_ok 2 1 4 (request buf) (byte_of <$> buf).
Proof. intros H. constructor; cbn; rewrite ?length_fmap, ?H; done. Qed.

(** A store whose [store] always fails. *)
Definition FailStore : EncryptedOffsetStore MemVolume := {|
  st_load := mret (mkEncryptedOffset 0 4);
  st_store _ := mfail (Io "device removed");
  st_flush := mret tt;
  st_load_state := default_load_state;
  st_store_state := default_store_state;
|}.

Definition failing : AttachedVolume MemVolume :=
  mkVolume "\Device\HarddiskVolume3" 2
    (Encrypted (Some supplier) 1 (mkEncryptedOffset 0 4) FailStore)
    (EngineDemo.engine_at 0 Encrypting) FailStore Ioctl None EngineDemo.io 0.

Lemma failing_wf : volume_wf EngineDemo.io ShiftCipher.cipher FailStore 1 4 failing.
Proof.
  constructor; try done. exists supplier. do 2 eexists. done.
Qed.

Lemma fail_laws : OffsetStoreLaws FailStore (mem_inv 12) (mem_view 2) 0 6.
Proof.
  constructor; intros; try apply mret_keeps.
  intros w w' r Hi H. cbn in H. unfold mfail in H. simplify_eq. done.
Qed.

Definition ops : list vop :=
  [VStartEncrypt; VWrite (request [50; 51; 52; 53]); VSweep 3; VRead (request [0; 0; 0; 0])].

Lemma ops_ok : Forall (op_ok EngineDemo.io 1 4) ops.
Proof.
  repeat constructor; eexists; apply request_in; done.
Qed.
End VolumeDemo.

(** C5: the driver's data path refines a plaintext disk. Any sequence of
    READ and WRITE requests inside the data region, sweep batches and control
    operations (start, resume, pause), in any order and from any well-formed
    state with the boundary anywhere, runs to completion on working hardware;
    every completed request is exactly the one a plain disk holding the
    presented plaintext returns, and the volume afterwards presents that disk's
    content. *)
Theorem volume_refines_plaintext_disk {W} (io : SectorIo W) cipher store enc dec inv view
    off total lo hi alloc v w burst ops :
  SectorIoLaws io inv view -> CipherLaws cipher (sector_size io) enc dec ->
  OffsetStoreLaws store inv view lo hi ->
  SectorIoReliable io inv -> OffsetStoreReliable store inv -> (forall n, alloc n = true) ->
  0 <= lo <= off /\ off + total <= hi <= total_sectors io ->
  total * sector_size io < 2 ^ 64 ->
  volume_wf io cipher store off total v -> inv w -> burst_ok cipher burst ->
  Forall (op_ok io off total) ops ->
  exists v' w',
    run_vops alloc ops burst (v, w) =
      ((v', w'), Ok (spec_run (sector_size io) off (presents dec view off v w) ops).2) /\
    volume_wf io cipher store off total v' /\ inv w' /\
    same_disk total (presents dec view off v' w')
      (spec_run (sector_size io) off (presents dec view off v w) ops).1.
Proof.
  intros. apply (run_vops_ok io cipher store enc dec inv view off total lo hi); done.
Qed.

Lemma volume_refines_plaintext_disk_witness :
  exists v' w',
    run_vops VolumeDemo.alloc VolumeDemo.ops None
      (VolumeDemo.volume_at 2 Idle, EngineDemo.disk) =
      ((v', w'), Ok (spec_run 2 1
        (presents ShiftCipher.dec (mem_view 2) 1 (VolumeDemo.volume_at 2 Idle) EngineDemo.disk)
        VolumeDemo.ops).2) /\
    volume_wf EngineDemo.io ShiftCipher.cipher EngineDemo.store 1 4 v' /\ mem_inv 12 w' /\
    same_disk 4 (presents ShiftCipher.dec (mem_view 2) 1 v' w')
      (spec_run 2 1
        (presents ShiftCipher.dec (mem_view 2) 1 (VolumeDemo.volume_at 2 Idle) EngineDemo.disk)
        VolumeDemo.ops).1.
Proof.
  exact (volume_refines_plaintext_disk EngineDemo.io ShiftCipher.cipher EngineDemo.store
    ShiftCipher.enc ShiftCipher.dec (mem_inv 12) (mem_view 2) 1 4 0 6 VolumeDemo.alloc
    (VolumeDemo.volume_at 2 Idle) EngineDemo.disk None VolumeDemo.ops
    EngineDemo.io_laws EngineDemo.cipher_laws EngineDemo.store_laws
    EngineDemo.io_reliable EngineDemo.store_reliable (fun _ => eq_refl)
    EngineDemo.region EngineDemo.fits
    (VolumeDemo.volume_at_wf 2 Idle EngineDemo.z24) eq_refl (or_introl eq_refl) VolumeDemo.ops_ok).
Defined.

(** C34: a failing offset store exposes ciphertext. When the disk works but
    persisting the boundary fails, an encrypting sweep step returns the store's
    error after it has written ciphertext and advanced the engine's boundary by
    the batch [n], yet leaves the cached boundary the request path uses at [b]:
    the volume then presents ciphertext for exactly the sectors [b, b+n). *)
Theorem store_failure_exposes_ciphertext {W} (io : SectorIo W) cipher store enc dec inv view
    off total lo hi batch v w :
  SectorIoLaws io inv view -> CipherLaws cipher (sector_size io) enc dec ->
  OffsetStoreLaws store inv view lo hi -> SectorIoReliable io inv ->
  (forall o w1, is_err (st_store store o w1).2 = true) ->
  0 <= lo <= off /\ off + total <= hi <= total_sectors io ->
  total * sector_size io < 2 ^ 64 -> Z.max batch 1 * sector_size io < 2 ^ 32 ->
  volume_wf io cipher store off total v -> inv w ->
  en_state (av_encryption v) = Encrypting ->
  let b := av_encrypted_boundary v in
  b < total ->
  let n := batch_size (total - b) batch in
  exists v' w' e,
    sweep_step batch (v, w) = ((v', w'), Err e) /\
    av_encrypted_boundary v' = b /\ encrypted_boundary (av_encryption v') = b + n /\
    forall rel, 0 <= rel < total ->
      presents dec view off v' w' rel =
      if (b <=? rel) && (rel <? b + n)
      then enc rel (presents dec view off v w rel) else presents dec view off v w rel.
Proof.
  intros Hio Hc Hst Hrio Hfail Hreg Hbig Hsm Hwf Hi Hstate b Hlt n.
  pose proof (io_ss (io:=io)) as Hss.
  destruct (wf_supplier _ _ _ _ _ v Hwf) as (sup & Hs & Hg).
  assert (b = eo_sector (en_encrypted_offset (av_encryption v))) as Hbe by apply (vw_cache _ _ _ _ _ v Hwf).
  assert (progress_step io cipher store batch (av_encryption v, w) =
          encrypt_step io cipher store batch (av_encryption v, w)) as Hp.
  { unfold progress_step. rewrite (mbind_step _ _ _ (av_encryption v, w) (av_encryption v)) by done.
    rewrite Hstate. done. }
  pose proof (encrypt_step_run io cipher store enc dec inv view off total lo hi Hreg
                (av_encryption v) w batch (vw_engine _ _ _ _ _ v Hwf) Hi Hbig ltac:(lia)) as Hb.
  cbn zeta in Hb. rewrite <- Hp, <- Hbe in Hb. fold n in Hb.
  unfold sweep_step. rewrite (mbind_step _ _ _ (v, w) v) by done.
  rewrite Hs, Hg, (vw_io _ _ _ _ _ v Hwf), (vw_store _ _ _ _ _ v Hwf), mbind_run.
  unfold attempt, on_engine, zoom. cbn [fst snd].
  destruct (progress_step io cipher store batch (av_encryption v, w)) as [[e1 w1] r1].
  inversion Hb as [? ? Hi' Hn Hv|w' err Hi' Hn Hv|w' Hi' [(o & w0 & w3 & Hst3) _] Hv]; subst.
  - destruct Hn. split; [done|]. unfold n, batch_size. nia.
  - cbn [fst snd]. do 3 eexists. split; [done|]. split; [done|]. split; [done|].
    intros rel Hrel. unfold presents, plaintext. cbn. fold b. rewrite Hv, rewrite_run_at by lia.
    assert (0 <= n) by (unfold n, batch_size; lia). rewrite Z2Nat.id by done.
    destruct (Z.leb_spec b rel), (Z.ltb_spec rel (b + n)), (Z.ltb_spec rel b); cbn [andb];
      done || lia.
  - pose proof (Hfail o w0) as Hf. rewrite Hst3 in Hf. done.
Qed.

Lemma store_failure_exposes_ciphertext_witness :
  exists v' w' e,
    sweep_step 3 (VolumeDemo.failing, EngineDemo.disk) = ((v', w'), Err e) /\
    av_encrypted_boundary v' = 0 /\ encrypted_boundary (av_encryption v') = 3 /\
    forall rel, 0 <= rel < 4 ->
      presents ShiftCipher.dec (mem_view 2) 1 v' w' rel =
      if (0 <=? rel) && (rel <? 0 + 3)
      then ShiftCipher.enc rel
             (presents ShiftCipher.dec (mem_view 2) 1 VolumeDemo.failing EngineDemo.disk rel)
      else presents ShiftCipher.dec (mem_view 2) 1 VolumeDemo.failing EngineDemo.disk rel.
Proof.
  exact (store_failure_exposes_ciphertext EngineDemo.io ShiftCipher.cipher VolumeDemo.FailStore
    ShiftCipher.enc ShiftCipher.dec (mem_inv 12) (mem_view 2) 1 4 0 6 3 VolumeDemo.failing
    EngineDemo.disk EngineDemo.io_laws EngineDemo.cipher_laws VolumeDemo.fail_laws
    EngineDemo.io_reliable (fun _ _ => eq_refl) EngineDemo.region EngineDemo.fits EngineDemo.batch_fits
    VolumeDemo.failing_wf eq_refl eq_refl EngineDemo.z04').
Defined.
