(* ===== verification/Thread.v ===== *)
(** * The per-volume thread ([lib/windrv/src/filter/volume_thread.rs])

    One system thread per cipher-bound filter serialises the volume's READ and
    WRITE requests with its background sweep. The thread is a state machine
    whose steps are the atomic sections of [thread_main]; [enqueue], [stop] and
    [set_current] run on other threads and interleave with those steps. Volumes
    are shared objects ([Arc]), so they live in a heap and the thread holds an
    address. *)

From S2P Require Import Prelude Types Sectors Engine Nt Pipeline Volume.

(* src: lib/windrv/src/filter/volume_thread.rs:64-65 BATCH_SECTORS *)
Definition BATCH_SECTORS : Z := 2048.
(* src: lib/windrv/src/filter/volume_thread.rs:66-68 MAX_IRP_BURST *)
Definition MAX_IRP_BURST : nat := 64.

(* src: lib/windrv/src/filter/volume_thread.rs:77-80 IrpEntry *)
Record IrpEntry : Type := mkEntry { ie_irp : IRP; ie_is_write : bool }.

(** [vt_current] is the address of the bound volume, [vt_wake] the event, and
    [vt_thread] whether the system thread exists. *)
(* src: lib/windrv/src/filter/volume_thread.rs:86-93 VolumeThread *)
Record VolumeThread : Type := mkThread {
  vt_queue : list IrpEntry;
  vt_current : nat;
  vt_wake : bool;
  vt_shutdown : bool;
  vt_thread : bool;
}.

(** [created] is whether [PsCreateSystemThread] succeeded. *)
(* src: lib/windrv/src/filter/volume_thread.rs:105-142 VolumeThread::start *)
Definition vt_start (created : bool) (volume : nat) : VolumeThread :=
  mkThread [] volume false false created.

(* src: lib/windrv/src/filter/volume_thread.rs:150-152 VolumeThread::signal *)
Definition vt_signal (vt : VolumeThread) : VolumeThread :=
  mkThread (vt_queue vt) (vt_current vt) true (vt_shutdown vt) (vt_thread vt).

(* src: lib/windrv/src/filter/volume_thread.rs:145-148 VolumeThread::set_current *)
Definition vt_set_current (volume : nat) (vt : VolumeThread) : VolumeThread :=
  vt_signal (mkThread (vt_queue vt) volume (vt_wake vt) (vt_shutdown vt) (vt_thread vt)).

(** The part of [stop] before it waits for the thread to exit. *)
(* src: lib/windrv/src/filter/volume_thread.rs:161-168 VolumeThread::stop *)
Definition vt_stop (vt : VolumeThread) : VolumeThread :=
  vt_signal (mkThread (vt_queue vt) (vt_current vt) (vt_wake vt) true (vt_thread vt)).

(** The requests [Drop] completes. *)
(* src: lib/windrv/src/filter/volume_thread.rs:171-180 VolumeThread::drop *)
Definition vt_drop (vt : VolumeThread) : list IRP :=
  (fun ep => complete_irp STATUS_CANCELLED 0 (ie_irp ep)) <$> vt_queue vt.

(** The filter extension's thread after a bind to a volume that has or has not
    a cipher. *)
(* src: lib/windrv/src/filter/volume_thread.rs:194-204 bind *)
Definition bind (created : bool) (vthread : option VolumeThread) (volume : nat)
    (has_cipher : bool) : option VolumeThread :=
  match vthread with
  | Some vt => Some (vt_set_current volume vt)
  | None => if has_cipher then Some (vt_start created volume) else None
  end.

(** The thread, the requests completed by the call, and the status returned. *)
(* src: lib/windrv/src/filter/volume_thread.rs:210-232 enqueue *)
Definition enqueue (vt : VolumeThread) (irp : IRP) (is_write : bool) :
    VolumeThread * list IRP * Z :=
  if vt_shutdown vt then
    (vt, [complete_irp STATUS_CANCELLED 0 irp], STATUS_CANCELLED)
  else
    let vt := mkThread (vt_queue vt ++ [mkEntry (set_pending irp) is_write]) (vt_current vt)
                (vt_wake vt) (vt_shutdown vt) (vt_thread vt) in
    (vt_signal vt, [], STATUS_PENDING).

(* src: lib/windrv/src/filter/volume_thread.rs:237-244 claim_cancelled *)
Definition claim_cancelled (irp : IRP) : bool := irp_cancel irp.

(* src: lib/windrv/src/filter/volume_thread.rs:253-262 wake_for *)
Definition wake_for (filter_do : PDEVICE_OBJECT) (vthread : option VolumeThread) :
    option VolumeThread :=
  match filter_do with
  | None => vthread
  | Some _ => vt_signal <$> vthread
  end.

(** ** The thread's state machine

    [AtTop] is the head of the outer loop, [AtBurst n did] the inner loop after
    [n] requests, [AtSweep] the sweep batch, [AtWait] the idle wait, [AtDrain]
    the loop after shutdown. *)

Inductive thread_pc : Type :=
| AtTop
| AtBurst (n : nat) (did : bool)
| AtSweep (did : bool)
| AtWait
| AtDrain
| Exited.

(** [ts_vol] is the [vol] the pass captured; [ts_done] lists the completed
    requests in the order of their completion. *)
Record ThreadState (W : Type) : Type := mkTS {
  ts_vt : VolumeThread;
  ts_pc : thread_pc;
  ts_vol : nat;
  ts_burst : option VolumeCipher;
  ts_heap : gmap nat (AttachedVolume W);
  ts_done : list IRP;
}.
Arguments mkTS {W}.
Arguments ts_vt {W}.
Arguments ts_pc {W}.
Arguments ts_vol {W}.
Arguments ts_burst {W}.
Arguments ts_heap {W}.
Arguments ts_done {W}.

Section Thread.
Context {W : Type} (alloc : Z -> bool).
Abbreviation TM := (M VckError (ThreadState W * W)).

Definition thread_state : TM (ThreadState W) := t ← mget; mret t.1.
Definition tmodify (f : ThreadState W -> ThreadState W) : TM unit :=
  mmodify (fun t => (f t.1, t.2)).

Definition set_pc (pc : thread_pc) (s : ThreadState W) : ThreadState W :=
  mkTS (ts_vt s) pc (ts_vol s) (ts_burst s) (ts_heap s) (ts_done s).
Definition set_burst (b : option VolumeCipher) (s : ThreadState W) : ThreadState W :=
  mkTS (ts_vt s) (ts_pc s) (ts_vol s) b (ts_heap s) (ts_done s).
Definition set_vol (v : nat) (s : ThreadState W) : ThreadState W :=
  mkTS (ts_vt s) (ts_pc s) v (ts_burst s) (ts_heap s) (ts_done s).
Definition log_done (irp : IRP) (s : ThreadState W) : ThreadState W :=
  mkTS (ts_vt s) (ts_pc s) (ts_vol s) (ts_burst s) (ts_heap s) (ts_done s ++ [irp]).
Definition set_queue (q : list IrpEntry) (s : ThreadState W) : ThreadState W :=
  mkTS (mkThread q (vt_current (ts_vt s)) (vt_wake (ts_vt s)) (vt_shutdown (ts_vt s))
          (vt_thread (ts_vt s)))
    (ts_pc s) (ts_vol s) (ts_burst s) (ts_heap s) (ts_done s).
Definition clear_wake (s : ThreadState W) : ThreadState W :=
  mkTS (mkThread (vt_queue (ts_vt s)) (vt_current (ts_vt s)) false (vt_shutdown (ts_vt s))
          (vt_thread (ts_vt s)))
    (ts_pc s) (ts_vol s) (ts_burst s) (ts_heap s) (ts_done s).
Definition set_heap (h : gmap nat (AttachedVolume W)) (s : ThreadState W) : ThreadState W :=
  mkTS (ts_vt s) (ts_pc s) (ts_vol s) (ts_burst s) h (ts_done s).

(** Run an operation of the volume the pass captured. *)
Definition on_vol {A} (m : M VckError (AttachedVolume W * W) A) : TM A :=
  fun t =>
    match ts_heap t.1 !! ts_vol t.1 with
    | Some v =>
        let '((v', w'), o) := m (v, t.2) in
        ((set_heap (<[ts_vol t.1 := v']> (ts_heap t.1)) t.1, w'), o)
    | None => (t, Panic)
    end.

(** One atomic section of [thread_main]. *)
(* src: lib/windrv/src/filter/volume_thread.rs:268-332 thread_main *)
Definition thread_step : TM unit :=
  s ← thread_state;
  match ts_pc s with
  | AtTop =>
      if vt_shutdown (ts_vt s) then tmodify (set_pc AtDrain)
      else tmodify (fun s => set_pc (AtBurst 0 false)
                               (set_burst None (set_vol (vt_current (ts_vt s)) s)))
  | AtBurst n did =>
      if (n <? MAX_IRP_BURST)%nat then
        match vt_queue (ts_vt s) with
        | ep :: q =>
            _ ← tmodify (set_queue q);
            _ ← (if claim_cancelled (ie_irp ep)
                 then tmodify (log_done (complete_irp STATUS_CANCELLED 0 (ie_irp ep)))
                 else
                   '(irp, burst) ←
                     on_vol (process_irp alloc (ie_irp ep) (ie_is_write ep) (ts_burst s));
                   tmodify (fun s => log_done irp (set_burst burst s)));
            tmodify (set_pc (AtBurst (S n) true))
        | [] => tmodify (fun s => set_pc (AtSweep did) (set_burst None s))
        end
      else tmodify (fun s => set_pc (AtSweep did) (set_burst None s))
  | AtSweep did =>
      r ← attempt (on_vol (sweep_step BATCH_SECTORS));
      let did := match r with inl true => true | _ => did end in
      tmodify (set_pc (if did then AtTop else AtWait))
  | AtWait => tmodify (fun s => set_pc AtTop (clear_wake s))
  | AtDrain =>
      match vt_queue (ts_vt s) with
      | ep :: q =>
          tmodify (fun s => log_done (complete_irp STATUS_CANCELLED 0 (ie_irp ep)) (set_queue q s))
      | [] => tmodify (set_pc Exited)
      end
  | Exited => mret tt
  end.

(** What happens between two observations: the thread runs one section, a
    request arrives, or another thread rebinds or stops the thread. *)
Inductive event : Type :=
| EvThread
| EvEnqueue (irp : IRP) (is_write : bool)
| EvRebind (volume : nat)
| EvStop.

Definition set_vt (vt : VolumeThread) (s : ThreadState W) : ThreadState W :=
  mkTS vt (ts_pc s) (ts_vol s) (ts_burst s) (ts_heap s) (ts_done s).

Definition run_event (ev : event) : TM unit :=
  match ev with
  | EvThread => thread_step
  | EvEnqueue irp is_write =>
      s ← thread_state;
      let '(vt, done, _) := enqueue (ts_vt s) irp is_write in
      tmodify (fun s => mkTS vt (ts_pc s) (ts_vol s) (ts_burst s) (ts_heap s) (ts_done s ++ done))
  | EvRebind volume => tmodify (fun s => set_vt (vt_set_current volume (ts_vt s)) s)
  | EvStop => tmodify (fun s => set_vt (vt_stop (ts_vt s)) s)
  end.

Definition run_events (evs : list event) : TM unit := miter run_event evs.
End Thread.

(** ** Requests are completed exactly once *)

(** What processing keeps of a request: its identity and its pending mark; it
    completes it once. *)
Definition completes (i i' : IRP) : Prop :=
  irp_id i' = irp_id i /\ irp_pending i' = irp_pending i /\
  irp_completed i' = S (irp_completed i).

Lemma complete_irp_completes st n i : completes i (complete_irp st n i).
Proof. done. Qed.

Lemma complete_mdl_completes st n b i : completes i (complete_irp st n (set_mdl b i)).
Proof. done. Qed.

Section RequestFrame.
Context {W : Type} (alloc : Z -> bool).
Implicit Types (v : AttachedVolume W) (w : W).

(** A computation all of whose results satisfy [P], and which cannot fail. *)
Definition yields {S A} (m : M VckError S A) (P : A -> Prop) : Prop :=
  forall s, match (m s).2 with Ok a => P a | Err _ => False | Panic => True end.

Lemma yields_ret {S A} (a : A) (P : A -> Prop) : P a -> yields (S:=S) (mret a) P.
Proof. intros H s. exact H. Qed.

Lemma yields_bind {S A B} (m : M VckError S A) (k : A -> M VckError S B) Q P :
  yields m Q -> (forall a, Q a -> yields (k a) P) -> yields (m ≫= k) P.
Proof.
  intros Hm Hk s. rewrite mbind_run. specialize (Hm s).
  destruct (m s) as [s1 [a|e|]]; [|done..]. apply Hk. done.
Qed.

Lemma yields_attempt {S A} (m : M VckError S A) : yields (attempt m) (fun _ => True).
Proof. intros s. unfold attempt. destruct (m s) as [s1 [a|e|]]; done. Qed.

Lemma yields_volume : yields (volume (W:=W)) (fun _ => True).
Proof. intros s. done. Qed.


Lemma yields_unwrap {S A} (o : option A) :
  yields (S:=S) (lift (unwrap o)) (fun _ => True).
Proof. intros s. destruct o; done. Qed.

(** Walk through a computation bind by bind. *)
Ltac yields_step :=
  cbv zeta;
  first
    [ apply yields_ret; done
    | apply yields_attempt
    | apply yields_volume
    | apply yields_unwrap
    | eapply (yields_bind _ _ (fun _ => True)); [|intros ? _]
    | case_match ].

Lemma process_read_completes irp burst :
  yields (process_read (W:=W) alloc irp burst) (fun p => completes irp p.1).
Proof. unfold process_read. repeat yields_step. Qed.

Lemma process_write_completes irp burst :
  yields (process_write (W:=W) alloc irp burst) (fun p => completes irp p.1).
Proof. unfold process_write. repeat yields_step. Qed.

Lemma process_irp_completes irp is_write burst :
  yields (process_irp (W:=W) alloc irp is_write burst) (fun p => completes irp p.1).
Proof.
  unfold process_irp. destruct is_write;
    [apply process_write_completes|apply process_read_completes].
Qed.
End RequestFrame.

(** ** Accounting of requests *)

(** The requests that arrive before and after the thread is stopped. *)
Fixpoint accepted (down : bool) (evs : list event) : list IRP :=
  match evs with
  | [] => []
  | EvEnqueue irp _ :: evs => (if down then [] else [irp]) ++ accepted down evs
  | EvStop :: evs => accepted true evs
  | _ :: evs => accepted down evs
  end.

Fixpoint refused (down : bool) (evs : list event) : list IRP :=
  match evs with
  | [] => []
  | EvEnqueue irp _ :: evs => (if down then [irp] else []) ++ refused down evs
  | EvStop :: evs => refused true evs
  | _ :: evs => refused down evs
  end.

Definition is_stop (ev : event) : bool := match ev with EvStop => true | _ => false end.

(** A request as the I/O manager sends it. *)
Definition fresh_event (ev : event) : Prop :=
  match ev with
  | EvEnqueue irp _ => irp_completed irp = 0%nat /\ irp_pending irp = false
  | _ => True
  end.

Definition of_queue (i : IRP) : bool := irp_pending i.

(** [acc] are the requests accepted so far and [rej] those refused. *)
Record queue_inv {W} (acc rej : list IRP) (s : ThreadState W) : Prop := {
  qi_order :
    irp_id <$> filter (fun i => irp_pending i = true) (ts_done s) ++ (ie_irp <$> vt_queue (ts_vt s)) =
    irp_id <$> acc;
  qi_refused : irp_id <$> filter (fun i => irp_pending i = false) (ts_done s) = irp_id <$> rej;
  qi_done : Forall (fun i => irp_completed i = 1%nat) (ts_done s);
  qi_queue :
    Forall (fun ep => irp_completed (ie_irp ep) = 0%nat /\ irp_pending (ie_irp ep) = true)
      (vt_queue (ts_vt s));
}.

(** Evaluate a run of state updates. *)
Ltac mrun H :=
  cbn [run_event] in H; unfold tmodify, mmodify, mret, M_ret in H; cbn in H; simplify_eq.

Section Accounting.
Context {W : Type} (alloc : Z -> bool).
Implicit Types (s : ThreadState W) (w : W).

(** Completing the head of the queue keeps the account. *)
Lemma queue_inv_pop acc rej s s' ep q irp :
  queue_inv acc rej s -> vt_queue (ts_vt s) = ep :: q -> completes (ie_irp ep) irp ->
  ts_done s' = ts_done s ++ [irp] -> vt_queue (ts_vt s') = q ->
  queue_inv acc rej s'.
Proof using Type.
  intros [Ho Hr Hd Hq] Hep (Hid & Hp & Hc) Hdone Hq'.
  rewrite Hep in Hq, Ho. apply Forall_cons in Hq as [[Hc0 Hp0] Hq].
  assert (irp_pending irp = true) as Hpi by congruence.
  constructor; rewrite ?Hdone, ?Hq'.
  - rewrite filter_app, filter_cons_True, filter_nil by done.
    rewrite <- Ho. rewrite !fmap_app. cbn. rewrite Hid, <- app_assoc. done.
  - rewrite filter_app, filter_cons_False, filter_nil by congruence.
    rewrite app_nil_r. done.
  - apply Forall_app. split; [done|]. repeat constructor. rewrite Hc, Hc0. done.
  - done.
Qed.

(** Sections that complete nothing. *)
Lemma queue_inv_same acc rej s s' :
  queue_inv acc rej s -> ts_done s' = ts_done s -> vt_queue (ts_vt s') = vt_queue (ts_vt s) ->
  queue_inv acc rej s'.
Proof using Type. intros [] Hd Hq. constructor; rewrite ?Hd, ?Hq; done. Qed.

Lemma on_vol_frame {A} (m : M VckError (AttachedVolume W * W) A) s w s' w' r :
  on_vol m (s, w) = ((s', w'), r) ->
  ts_done s' = ts_done s /\ ts_vt s' = ts_vt s /\ ts_pc s' = ts_pc s /\ ts_vol s' = ts_vol s /\
  ts_burst s' = ts_burst s.
Proof using Type.
  unfold on_vol. cbn. destruct (ts_heap s !! ts_vol s) as [v|]; [|intros; simplify_eq; done].
  destruct (m (v, w)) as [[v' w1] o]. intros. simplify_eq. done.
Qed.

Lemma on_vol_yields {A} (m : M VckError (AttachedVolume W * W) A) P :
  yields m P -> yields (on_vol m) P.
Proof using Type.
  intros Hm [s w]. unfold on_vol. cbn. destruct (ts_heap s !! ts_vol s) as [v|]; [|done].
  specialize (Hm (v, w)). destruct (m (v, w)) as [[v' w1] o]. done.
Qed.

Lemma thread_step_inv acc rej s w s' w' :
  queue_inv acc rej s -> thread_step alloc (s, w) = ((s', w'), Ok tt) ->
  queue_inv acc rej s' /\ vt_shutdown (ts_vt s') = vt_shutdown (ts_vt s).
Proof using Type.
  intros Hq Hrun. unfold thread_step in Hrun.
  rewrite (mbind_step _ _ _ (s, w) s) in Hrun by reflexivity.
  destruct (ts_pc s) as [|n did|did| | |] eqn:Hpc.
  - destruct (vt_shutdown (ts_vt s)) eqn:Hd; mrun Hrun;
      (split; [eapply queue_inv_same; done|exact Hd]).
  - destruct (n <? MAX_IRP_BURST)%nat; [|mrun Hrun; split;
      [eapply queue_inv_same; done|done]].
    destruct (vt_queue (ts_vt s)) as [|ep q] eqn:Hqu;
      [mrun Hrun; split; [eapply queue_inv_same; done|done]|].
    rewrite (mbind_step _ _ _ (set_queue q s, w) tt) in Hrun by reflexivity.
    apply mbind_ok in Hrun as ([s1 w1] & [] & H1 & H2). mrun H2.
    destruct (claim_cancelled (ie_irp ep)).
    + mrun H1. split; [|done].
      eapply queue_inv_pop; [done..|apply complete_irp_completes|done|done].
    + apply mbind_ok in H1 as ([s2 w2] & [irp burst] & H1 & H3). mrun H3.
      pose proof (on_vol_yields _ _
        (process_irp_completes alloc (ie_irp ep) (ie_is_write ep) (ts_burst s)) (set_queue q s, w))
        as Hy.
      rewrite H1 in Hy. cbn in Hy.
      apply on_vol_frame in H1 as (Hd & Hv & _). cbn in Hd, Hv.
      cbn. rewrite Hv. cbn. split; [|done].
      eapply queue_inv_pop; [done..| |cbn; rewrite Hd; done|cbn; rewrite Hv; done]. done.
  - apply mbind_ok in Hrun as ([s1 w1] & r & H1 & H2).
    unfold attempt in H1.
    destruct (on_vol (sweep_step BATCH_SECTORS) (s, w)) as [[s2 w2] o] eqn:Ho.
    apply on_vol_frame in Ho as (Hd & Hv & _).
    destruct o; cbn in H1; simplify_eq; mrun H2; cbn; rewrite Hv; split; try done;
      (apply (queue_inv_same acc rej s); [done|exact Hd|cbn; rewrite Hv; done]).
  - mrun Hrun. split; [eapply queue_inv_same; done|done].
  - destruct (vt_queue (ts_vt s)) as [|ep q] eqn:Hqu; mrun Hrun.
    + split; [eapply queue_inv_same; done|done].
    + split; [|done]. eapply queue_inv_pop; [done..|apply complete_irp_completes|done|done].
  - mrun Hrun. done.
Qed.

Lemma run_event_inv acc rej s w s' w' ev :
  queue_inv acc rej s -> fresh_event ev -> run_event alloc ev (s, w) = ((s', w'), Ok tt) ->
  queue_inv (acc ++ accepted (vt_shutdown (ts_vt s)) [ev])
    (rej ++ refused (vt_shutdown (ts_vt s)) [ev]) s' /\
  vt_shutdown (ts_vt s') = vt_shutdown (ts_vt s) || is_stop ev.
Proof using Type.
  intros Hq Hf Hrun. destruct ev as [|irp wr|vol|]; cbn [accepted refused is_stop];
    rewrite ?app_nil_r, ?orb_false_r, ?orb_true_r.
  - cbn in Hrun. eapply thread_step_inv; done.
  - cbn [run_event] in Hrun. rewrite (mbind_step _ _ _ (s, w) s) in Hrun by reflexivity.
    destruct Hf as [Hc Hp]. destruct Hq as [Ho Hr Hd Hqu].
    unfold enqueue in Hrun. destruct (vt_shutdown (ts_vt s)) eqn:Hs; mrun Hrun;
      (split; [|done]); constructor; cbn [ts_done ts_vt vt_queue vt_signal];
      rewrite ?app_nil_r; try done.
    + rewrite filter_app, filter_cons_False, filter_nil by (cbn; congruence).
      rewrite app_nil_r. done.
    + rewrite filter_app, filter_cons_True, filter_nil by done. rewrite !fmap_app, Hr. done.
    + apply Forall_app. split; [done|]. repeat constructor. cbn. rewrite Hc. done.
    + rewrite (fmap_app ie_irp), app_assoc, fmap_app, Ho, fmap_app. done.
    + apply Forall_app. split; [done|]. repeat constructor. done.
  - mrun Hrun. split; [eapply queue_inv_same; done|done].
  - mrun Hrun. split; [eapply queue_inv_same; done|done].
Qed.

Lemma run_events_inv acc rej s w s' w' evs :
  queue_inv acc rej s -> Forall fresh_event evs ->
  run_events alloc evs (s, w) = ((s', w'), Ok tt) ->
  queue_inv (acc ++ accepted (vt_shutdown (ts_vt s)) evs)
    (rej ++ refused (vt_shutdown (ts_vt s)) evs) s'.
Proof using Type.
  intros Hq Hf. revert acc rej s w Hq. induction Hf as [|ev evs Hev _ IH]; intros acc rej s w Hq Hrun.
  { cbn in *. unfold mret, M_ret in Hrun. simplify_eq. rewrite !app_nil_r. done. }
  cbn [run_events miter] in Hrun. apply mbind_ok in Hrun as ([s1 w1] & [] & H1 & H2).
  destruct (run_event_inv _ _ _ _ _ _ _ Hq Hev H1) as [Hq1 Hs1].
  specialize (IH _ _ _ _ Hq1 H2). rewrite Hs1, <- !app_assoc in IH.
  destruct ev; cbn [accepted refused is_stop app] in *;
    rewrite ?app_nil_r, ?orb_false_r, ?orb_true_r in IH; done.
Qed.
End Accounting.

(** ** The thread drains and exits *)

(** Devices, stores and ciphers that report failure instead of panicking. *)
Definition quiet_io {W} (io : SectorIo W) : Prop :=
  0 < sector_size io /\
  (forall lba n w, (read_sectors io lba n w).2 <> Panic) /\
  (forall lba b w, (write_sectors io lba b w).2 <> Panic).

Definition quiet_store {W} (st : EncryptedOffsetStore W) : Prop :=
  (forall o w, (st_store st o w).2 <> Panic) /\ (forall w, (st_flush st w).2 <> Panic).

Definition quiet_cipher (c : VolumeCipher) : Prop :=
  forall buf ss first, 0 < ss -> encrypt_area c buf ss first <> None /\
                                 decrypt_area c buf ss first <> None.

Definition quiet_volume {W} (v : AttachedVolume W) : Prop :=
  quiet_io (av_sweep_io v) /\ quiet_store (av_offset_store v) /\ 0 <= av_sector_size v /\
  forall sup c, cipher_supplier v = Some sup -> get_cipher sup = Some c -> quiet_cipher c.

Definition quiet_burst (b : option VolumeCipher) : Prop :=
  forall c, b = Some c -> quiet_cipher c.

(** [safe I m P]: from states satisfying [I], [m] does not panic, keeps [I],
    and returns values satisfying [P]. *)
Definition safe {E S A} (I : S -> Prop) (m : M E S A) (P : A -> Prop) : Prop :=
  forall s, I s ->
    match m s with
    | (s', Ok a) => I s' /\ P a
    | (s', Err _) => I s'
    | (_, Panic) => False
    end.

Lemma safe_ret {E S A} (I : S -> Prop) (a : A) (P : A -> Prop) :
  P a -> safe (E:=E) I (mret a) P.
Proof. intros H s Hs. split; done. Qed.

Lemma safe_bind {E S A B} (I : S -> Prop) (m : M E S A) (k : A -> M E S B) Q P :
  safe I m Q -> (forall a, Q a -> safe I (k a) P) -> safe I (m ≫= k) P.
Proof.
  intros Hm Hk s Hs. rewrite mbind_run. specialize (Hm s Hs).
  destruct (m s) as [s1 [a|e|]]; [|done..]. destruct Hm as [H1 Ha]. apply (Hk a Ha s1 H1).
Qed.

Lemma safe_attempt {E S A} (I : S -> Prop) (m : M E S A) P :
  safe I m P -> safe I (attempt m) (fun r => match r with inl a => P a | inr _ => True end).
Proof.
  intros Hm s Hs. unfold attempt. specialize (Hm s Hs).
  destruct (m s) as [s1 [a|e|]]; done.
Qed.

Lemma safe_weaken {E S A} (I : S -> Prop) (m : M E S A) (P Q : A -> Prop) :
  safe I m P -> (forall a, P a -> Q a) -> safe I m Q.
Proof.
  intros Hm H s Hs. specialize (Hm s Hs). destruct (m s) as [s1 [a|e|]]; try done.
  destruct Hm. auto.
Qed.

Lemma safe_fail {E S A} (I : S -> Prop) (e : E) (P : A -> Prop) : safe I (mfail e) P.
Proof. intros s Hs. done. Qed.

Section ThreadSafety.
Context {W : Type} (alloc : Z -> bool).

Lemma safe_on_snd {T A} (I : T -> Prop) (m : M VckError W A) :
  (forall w, (m w).2 <> Panic) -> safe (fun t : T * W => I t.1) (on_snd m) (fun _ => True).
Proof using Type.
  intros Hm [t w] Hs. unfold on_snd, zoom. cbn. specialize (Hm w).
  destruct (m w) as [w1 [a|e|]]; done.
Qed.

Lemma safe_unwrap {S A} (I : S -> Prop) (o : option A) :
  o <> None -> safe (E:=VckError) I (lift (unwrap o)) (fun _ => True).
Proof using Type. intros Ho s Hs. destruct o; done. Qed.

Lemma decrypt_read_quiet c first b buf ss :
  quiet_cipher c -> 0 < ss -> decrypt_read (mkPipeline c) first b buf ss <> None.
Proof using Type.
  intros Hc Hss. unfold decrypt_read. rewrite (proj2 (Z.eqb_neq ss 0)) by lia. cbv zeta.
  case_match; [|done]. cbn [cp_cipher].
  destruct (decrypt_area c _ ss first) eqn:E; [done|]. by apply Hc in E.
Qed.

Lemma encrypt_write_quiet c first b buf ss :
  quiet_cipher c -> 0 < ss -> encrypt_write (mkPipeline c) first b buf ss <> None.
Proof using Type.
  intros Hc Hss. unfold encrypt_write. rewrite (proj2 (Z.eqb_neq ss 0)) by lia. cbv zeta.
  case_match; [|done]. cbn [cp_cipher].
  destruct (encrypt_area c _ ss first) eqn:E; [done|]. by apply Hc in E.
Qed.

Lemma get_pipeline_quiet burst (v : AttachedVolume W) :
  quiet_volume v -> quiet_burst burst -> quiet_burst (get_pipeline burst v).
Proof using Type.
  intros (_ & _ & _ & Hv) Hb c. unfold get_pipeline. destruct burst as [c0|]; [apply Hb|].
  destruct (cipher_supplier v) as [sup|] eqn:E; [|done]. cbn. apply Hv. done.
Qed.

Abbreviation quiet_state := (fun t : AttachedVolume W * W => quiet_volume t.1).

Lemma safe_volume : safe quiet_state volume (quiet_volume (W:=W)).
Proof using Type. intros s Hs. done. Qed.

Lemma process_irp_safe irp is_write burst :
  quiet_burst burst ->
  safe quiet_state (process_irp alloc irp is_write burst) (fun p => quiet_burst p.2).
Proof using Type.
  intros Hb. unfold process_irp, process_read, process_write.
  destruct is_write; (eapply safe_bind; [apply safe_volume|]); intros v Hv; cbv zeta;
    destruct (Z.eqb_spec (av_sector_size v) 0) as [|Hne]; cbn [orb]; [apply safe_ret; done| |apply safe_ret; done|];
    repeat (match goal with |- safe _ (if ?b then _ else _) _ => destruct b end;
            [apply safe_ret; done|]);
    destruct (irp_mdl irp); try (apply safe_ret; done);
    (match goal with |- safe _ (if ?b then _ else _) _ => destruct b end; [apply safe_ret; done|]);
    pose proof (get_pipeline_quiet burst v Hv Hb) as Hg;
    destruct Hv as ([Hss [Hrd Hwr]] & Hst & Hs0 & Hc).
  - eapply (safe_bind _ _ _ (fun p => quiet_burst p.2)).
    + destruct (crypto_range v _) as [[fr bd]|]; [|apply safe_ret; done].
      destruct (get_pipeline burst v) as [c|]; [|apply safe_ret; done].
      eapply safe_bind; [apply safe_unwrap, encrypt_write_quiet; [by apply Hg|lia]|].
      intros. apply safe_ret. done.
    + intros [frag b'] Hb'. eapply safe_bind; [eapply safe_attempt, safe_on_snd; done|].
      intros [?|?] _; apply safe_ret; done.
  - eapply safe_bind; [eapply safe_attempt, safe_on_snd; done|].
    intros [frag|?] _; [|apply safe_ret; done].
    eapply (safe_bind _ _ _ (fun p => quiet_burst p.2)).
    + destruct (crypto_range v _) as [[fr bd]|]; [|apply safe_ret; done].
      destruct (get_pipeline burst v) as [c|]; [|apply safe_ret; done].
      eapply safe_bind; [apply safe_unwrap, decrypt_read_quiet; [by apply Hg|lia]|].
      intros. apply safe_ret. done.
    + intros [? ?] ?. apply safe_ret. done.
Qed.

Lemma progress_step_quiet io cipher (store : EncryptedOffsetStore W) batch :
  quiet_io io -> quiet_store store -> quiet_cipher cipher ->
  safe (fun _ => True) (progress_step io cipher store batch) (fun _ => True).
Proof using Type.
  intros (Hss & Hr & Hw) [Hs Hf] Hc.
  assert (forall A (m : M VckError W A), (forall w, (m w).2 <> Panic) ->
            safe (E:=VckError) (fun _ : EncryptionEngine * W => True) (on_snd m) (fun _ => True)) as Hos.
  { intros A m Hm. apply (safe_on_snd (fun _ => True)). done. }
  unfold progress_step, encrypt_step, decrypt_step.
  eapply (safe_bind _ _ _ (fun _ => True)); [intros s ?; done|]. intros e _.
  destruct (en_state e); try (apply safe_ret; done);
    (eapply (safe_bind _ _ _ (fun _ => True)); [intros s ?; done|]); intros e1 _; cbv zeta;
    (match goal with |- safe _ (if ?b then _ else _) _ => destruct b end; [intros s ?; done|]);
    (eapply safe_bind; [apply Hos; done|]); intros buf _;
    (eapply safe_bind; [apply safe_unwrap, Hc; done|]); intros buf1 _;
    (eapply safe_bind; [apply Hos; done|]); intros _ _;
    (eapply (safe_bind _ _ _ (fun _ => True)); [intros s ?; done|]); intros _ _;
    (eapply (safe_bind _ _ _ (fun _ => True)); [intros s ?; done|]); intros e2 _;
    (eapply safe_bind; [apply Hos; done|]); intros _ _;
    (eapply safe_bind; [apply Hos; done|]); intros _ _;
    (match goal with |- safe _ (if ?b then _ else _) _ => destruct b end; intros s ?; done).
Qed.

Lemma sweep_step_safe batch : safe quiet_state (sweep_step batch) (fun _ => True).
Proof using Type.
  unfold sweep_step. eapply safe_bind; [apply safe_volume|]. intros v Hv.
  destruct (cipher_supplier v) as [sup|] eqn:Hs; [|apply safe_ret; done].
  destruct (get_cipher sup) as [c|] eqn:Hg; [|apply safe_ret; done].
  destruct Hv as (Hio & Hst & _ & Hc). specialize (Hc sup c Hs Hg).
  eapply (safe_bind _ _ _ (fun _ => True)).
  - eapply safe_weaken; [apply (safe_attempt _ _ (fun _ => True))|done].
    intros [v1 w1] Hq. unfold on_engine, zoom. cbn [fst snd].
    pose proof (progress_step_quiet _ c _ batch Hio Hst Hc (av_encryption v1, w1) I) as Hp.
    destruct (progress_step _ c _ batch (av_encryption v1, w1)) as [[e2 w2] [b|e|]]; done.
  - intros [b|e] _; [|apply safe_fail]. intros [v1 w1] Hq. cbn. done.
Qed.

(** Every volume the thread can reach is quiet, and its addresses are valid. *)
Record thread_quiet (s : ThreadState W) : Prop := {
  tq_heap i v : ts_heap s !! i = Some v -> quiet_volume v;
  tq_vol : is_Some (ts_heap s !! ts_vol s);
  tq_current : is_Some (ts_heap s !! vt_current (ts_vt s));
  tq_burst : quiet_burst (ts_burst s);
}.

Lemma on_vol_safe {A} (m : M VckError (AttachedVolume W * W) A) P s w :
  safe quiet_state m P -> thread_quiet s ->
  exists s' w' r, on_vol m (s, w) = ((s', w'), r) /\ thread_quiet s' /\
    (forall i, is_Some (ts_heap s !! i) -> is_Some (ts_heap s' !! i)) /\
    ts_vt s' = ts_vt s /\
    match r with Ok a => P a | Err _ => True | Panic => False end.
Proof using Type.
  intros Hm [Hh [v Hv] Hc Hb]. unfold on_vol. cbn. rewrite Hv.
  specialize (Hm (v, w) (Hh _ _ Hv)). destruct (m (v, w)) as [[v1 w1] r].
  assert (quiet_volume v1) as Hq1 by (destruct r; [destruct Hm|..]; done).
  assert (forall i, is_Some (ts_heap s !! i) ->
            is_Some (<[ts_vol s := v1]> (ts_heap s) !! i)) as Hdom.
  { intros i Hi. destruct (decide (i = ts_vol s)) as [->|Hne].
    - rewrite lookup_insert_eq. eauto.
    - rewrite lookup_insert_ne by done. done. }
  do 3 eexists. split; [done|]. split; [|split; [exact Hdom|split; [done|]]].
  - constructor; cbn; [|apply Hdom; eauto|apply Hdom; done|done].
    intros i v2 Hi. destruct (decide (i = ts_vol s)) as [->|Hne].
    + rewrite lookup_insert_eq in Hi. simplify_eq. done.
    + rewrite lookup_insert_ne in Hi by done. eauto.
  - destruct r; [destruct Hm|..]; done.
Qed.

Definition heap_grows (s s' : ThreadState W) : Prop :=
  forall i, is_Some (ts_heap s !! i) -> is_Some (ts_heap s' !! i).

(** Thread sections left until [Exited], once [shutdown] is set. *)
Definition sections_left (s : ThreadState W) : nat :=
  match ts_pc s with
  | AtBurst _ _ => 5 + length (vt_queue (ts_vt s))
  | AtSweep _ => 4 + length (vt_queue (ts_vt s))
  | AtWait => 3 + length (vt_queue (ts_vt s))
  | AtTop => 2 + length (vt_queue (ts_vt s))
  | AtDrain => 1 + length (vt_queue (ts_vt s))
  | Exited => 0
  end.

Definition exit_empty (s : ThreadState W) : Prop :=
  ts_pc s = Exited -> vt_queue (ts_vt s) = [] /\ vt_shutdown (ts_vt s) = true.

(** Close the side goals of one section. *)
Ltac step_end :=
  split_and?; try done; try (intros ? ?; assumption); try (intros; cbn; lia); auto.

Lemma thread_step_ok (s : ThreadState W) w :
  thread_quiet s -> exit_empty s -> (ts_pc s = AtDrain -> vt_shutdown (ts_vt s) = true) ->
  exists s' w', thread_step alloc (s, w) = ((s', w'), Ok tt) /\
    thread_quiet s' /\ heap_grows s s' /\ exit_empty s' /\
    (ts_pc s' = AtDrain -> vt_shutdown (ts_vt s') = true) /\
    vt_shutdown (ts_vt s') = vt_shutdown (ts_vt s) /\
    (vt_shutdown (ts_vt s) = true -> ts_pc s <> Exited ->
     (sections_left s' < sections_left s)%nat) /\
    (ts_pc s = Exited -> s' = s).
Proof using Type.
  intros Hq He Hd. unfold thread_step.
  rewrite (mbind_step _ _ _ (s, w) s) by reflexivity.
  unfold exit_empty, sections_left in *. pose proof Hq as [Hh Hv Hc Hb].
  destruct (ts_pc s) as [|n did|did| | |] eqn:Hpc.
  - destruct (vt_shutdown (ts_vt s)) eqn:Hs; (do 2 eexists; split; [reflexivity|]);
      cbn; rewrite ?Hs; (split; [constructor; done|]); step_end.
  - destruct (n <? MAX_IRP_BURST)%nat.
    2: { do 2 eexists; split; [reflexivity|]. cbn. split; [constructor; done|].
         step_end. }
    destruct (vt_queue (ts_vt s)) as [|ep q] eqn:Hqu.
    { do 2 eexists; split; [reflexivity|]. cbn. split; [constructor; done|].
      rewrite ?Hqu. step_end. }
    rewrite (mbind_step _ _ _ (set_queue q s, w) tt) by reflexivity.
    assert (thread_quiet (set_queue q s)) as Hq1 by (constructor; done).
    destruct (claim_cancelled (ie_irp ep)).
    { do 2 eexists; split; [reflexivity|]. cbn. split; [constructor; done|].
      step_end. }
    destruct (on_vol_safe _ _ (set_queue q s) w
                (process_irp_safe (ie_irp ep) (ie_is_write ep) (ts_burst s) Hb) Hq1)
      as (s1 & w1 & r & Hr & Hq2 & Hg & Hvt & HP).
    pose proof (process_irp_completes (W:=W) alloc (ie_irp ep) (ie_is_write ep) (ts_burst s)) as Hy.
    apply on_vol_yields in Hy. specialize (Hy (set_queue q s, w)). rewrite Hr in Hy. cbn in Hy.
    destruct r as [[irp burst]|e|]; [|done..].
    rewrite mbind_run, mbind_run, Hr. cbn in HP, Hvt.
    do 2 eexists; split; [reflexivity|]. destruct Hq2 as [Hh2 Hv2 Hc2 Hb2].
    cbn. split; [constructor; done|]. rewrite Hvt in *. cbn.
    step_end.
  - destruct (on_vol_safe _ _ s w (sweep_step_safe BATCH_SECTORS) Hq)
      as (s1 & w1 & r & Hr & [Hh2 Hv2 Hc2 Hb2] & Hg & Hvt & HP).
    rewrite mbind_run. unfold attempt. rewrite Hr.
    destruct r as [b|e|]; [| |done]; (do 2 eexists; split; [reflexivity|]); cbn;
      (split; [constructor; done|]); rewrite Hvt;
      [destruct b|]; destruct did; cbn; step_end.
  - do 2 eexists; split; [reflexivity|]. cbn. split; [constructor; done|].
    step_end.
  - destruct (vt_queue (ts_vt s)) as [|ep q] eqn:Hqu; (do 2 eexists; split; [reflexivity|]);
      cbn; (split; [constructor; done|]); rewrite ?Hqu, ?Hpc; step_end.
  - do 2 eexists; split; [reflexivity|]. rewrite Hpc. step_end.
Qed.

(** What every reachable state satisfies; [h0] is the heap the run began with. *)
Record run_inv (h0 : gmap nat (AttachedVolume W)) (s : ThreadState W) : Prop := {
  ri_quiet : thread_quiet s;
  ri_exit : exit_empty s;
  ri_drain : ts_pc s = AtDrain -> vt_shutdown (ts_vt s) = true;
  ri_heap i : is_Some (h0 !! i) -> is_Some (ts_heap s !! i);
}.

Definition event_ok (h0 : gmap nat (AttachedVolume W)) (ev : event) : Prop :=
  match ev with EvRebind v => is_Some (h0 !! v) | _ => True end.

Lemma run_event_ok h0 s w ev :
  run_inv h0 s -> event_ok h0 ev ->
  exists s' w', run_event alloc ev (s, w) = ((s', w'), Ok tt) /\ run_inv h0 s' /\
    (length (vt_queue (ts_vt s')) <= S (length (vt_queue (ts_vt s))))%nat.
Proof using Type.
  intros [Hq He Hd Hh] Hev. destruct ev as [|irp wr|v|].
  - destruct (thread_step_ok s w Hq He Hd) as (s' & w' & Hr & Hq' & Hg & He' & Hd' & _ & _ & Hx).
    exists s', w'. split; [exact Hr|]. split; [constructor; auto|].
    clear -Hr. unfold thread_step in Hr. rewrite (mbind_step _ _ _ (s, w) s) in Hr by done.
    destruct (ts_pc s); [destruct (vt_shutdown _)|destruct (n <? _)%nat| | | |];
      try (mrun Hr; cbn; lia).
    + destruct (vt_queue (ts_vt s)) as [|ep q] eqn:Hqu; [mrun Hr; cbn; rewrite Hqu; cbn; lia|].
      rewrite (mbind_step _ _ _ (set_queue q s, w) tt) in Hr by done.
      apply mbind_ok in Hr as ([s1 w1] & [] & H1 & H2). mrun H2. cbn.
      destruct (claim_cancelled _); [mrun H1; cbn; lia|].
      apply mbind_ok in H1 as ([s2 w2] & [i b] & H1 & H3). mrun H3. cbn.
      apply on_vol_frame in H1 as (_ & Hv & _). rewrite Hv. cbn. lia.
    + apply mbind_ok in Hr as ([s1 w1] & r & H1 & H2). unfold attempt in H1.
      destruct (on_vol _ (s, w)) as [[s2 w2] o] eqn:Ho. apply on_vol_frame in Ho as (_ & Hv & _).
      destruct o; cbn in H1; simplify_eq; mrun H2; cbn; rewrite Hv; lia.
    + destruct (vt_queue (ts_vt s)) as [|ep q] eqn:Hqu; mrun Hr; cbn; rewrite ?Hqu; cbn; lia.
  - cbn [run_event]. rewrite (mbind_step _ _ _ (s, w) s) by done. unfold enqueue.
    destruct Hq as [Hhp Hv Hc Hb].
    destruct (vt_shutdown (ts_vt s)) eqn:Hs; (do 2 eexists; split; [reflexivity|]); cbn.
    + split; [|lia]. constructor; [constructor; done|..]; unfold exit_empty in *; cbn;
        rewrite ?Hs; auto.
      intros Hx. destruct (He Hx). done.
    + split; [|rewrite length_app; cbn; lia].
      constructor; [constructor; done|..]; unfold exit_empty in *; cbn; rewrite ?Hs; auto.
      intros Hx. destruct (He Hx). congruence.
  - do 2 eexists; split; [reflexivity|]. destruct Hq as [Hhp Hv Hc Hb]. split; [|cbn; lia].
    constructor; [constructor; auto|..]; done.
  - do 2 eexists; split; [reflexivity|]. destruct Hq as [Hhp Hv Hc Hb]. split; [|cbn; lia].
    constructor; [constructor; done|..]; unfold exit_empty in *; cbn; auto.
    intros Hx. destruct (He Hx). done.
Qed.

Lemma run_events_ok h0 evs s w :
  run_inv h0 s -> Forall (event_ok h0) evs ->
  exists s' w', run_events alloc evs (s, w) = ((s', w'), Ok tt) /\ run_inv h0 s' /\
    (length (vt_queue (ts_vt s')) <= length evs + length (vt_queue (ts_vt s)))%nat.
Proof using Type.
  intros Hi Hev. revert s w Hi. induction Hev as [|ev evs Hev _ IH]; intros s w Hi.
  { exists s, w. split; [done|]. split; [done|]. cbn. lia. }
  destruct (run_event_ok h0 s w ev Hi Hev) as (s1 & w1 & Hr1 & Hi1 & Hl1).
  destruct (IH s1 w1 Hi1) as (s2 & w2 & Hr2 & Hi2 & Hl2).
  exists s2, w2. unfold run_events in *. cbn [miter].
  rewrite (mbind_step _ _ _ _ _ Hr1). split; [done|]. split; [done|]. cbn. lia.
Qed.

Lemma run_events_app evs1 evs2 (s : ThreadState W) w s1 w1 :
  run_events alloc evs1 (s, w) = ((s1, w1), Ok tt) ->
  run_events alloc (evs1 ++ evs2) (s, w) = run_events alloc evs2 (s1, w1).
Proof using Type. apply miter_app. Qed.

(** Once stopped, the thread exits within [sections_left] sections. *)
Lemma drain n s w :
  thread_quiet s -> exit_empty s -> vt_shutdown (ts_vt s) = true -> (sections_left s <= n)%nat ->
  exists s' w', run_events alloc (replicate n EvThread) (s, w) = ((s', w'), Ok tt) /\
    ts_pc s' = Exited /\ vt_queue (ts_vt s') = [].
Proof using Type.
  revert s w. induction n as [|n IH]; intros s w Hq He Hs Hn.
  - exists s, w. split; [done|]. unfold sections_left in Hn.
    assert (ts_pc s = Exited) as Hpc by (destruct (ts_pc s); try lia; done).
    split; [done|]. destruct (He Hpc). done.
  - destruct (thread_step_ok s w Hq He (fun _ => Hs))
      as (s1 & w1 & Hr & Hq1 & _ & He1 & _ & Hs1 & Hm & Hx).
    destruct (IH s1 w1 Hq1 He1 ltac:(congruence)) as (s2 & w2 & Hr2 & Hp).
    { destruct (ts_pc s) eqn:Hpc; try (specialize (Hm Hs ltac:(done)); lia).
      rewrite (Hx eq_refl). unfold sections_left. rewrite Hpc. lia. }
    exists s2, w2. split; [|done]. unfold run_events. cbn [replicate miter].
    cbn [run_event]. rewrite (mbind_step _ _ _ _ _ Hr). exact Hr2.
Qed.
(** One request of a burst. *)
Lemma burst_step (s : ThreadState W) w n did ep q :
  thread_quiet s -> ts_pc s = AtBurst n did -> (n < MAX_IRP_BURST)%nat ->
  vt_queue (ts_vt s) = ep :: q ->
  exists s' w', thread_step alloc (s, w) = ((s', w'), Ok tt) /\ thread_quiet s' /\
    ts_pc s' = AtBurst (S n) true /\ vt_queue (ts_vt s') = q.
Proof using Type.
  intros Hq Hpc Hn Hqu. pose proof Hq as [Hh Hv Hc Hb]. unfold thread_step.
  rewrite (mbind_step _ _ _ (s, w) s) by reflexivity. rewrite Hpc.
  rewrite (proj2 (Nat.ltb_lt n MAX_IRP_BURST)) by done. rewrite Hqu.
  rewrite (mbind_step _ _ _ (set_queue q s, w) tt) by reflexivity.
  destruct (claim_cancelled (ie_irp ep)).
  { do 2 eexists; split; [reflexivity|]. split; [constructor; done|]. done. }
  destruct (on_vol_safe _ _ (set_queue q s) w
              (process_irp_safe (ie_irp ep) (ie_is_write ep) (ts_burst s) Hb)
              ltac:(constructor; done))
    as (s1 & w1 & r & Hr & [Hh2 Hv2 Hc2 Hb2] & Hg & Hvt & HP).
  pose proof (process_irp_completes (W:=W) alloc (ie_irp ep) (ie_is_write ep) (ts_burst s)) as Hy.
  apply on_vol_yields in Hy. specialize (Hy (set_queue q s, w)). rewrite Hr in Hy. cbn in Hy.
  destruct r as [[irp burst]|e|]; [|done..].
  rewrite mbind_run, mbind_run, Hr. do 2 eexists; split; [reflexivity|].
  split; [constructor; done|]. cbn. rewrite Hvt. done.
Qed.

Lemma burst_run m : forall (s : ThreadState W) w n did,
  thread_quiet s -> ts_pc s = AtBurst n did -> (n + m = MAX_IRP_BURST)%nat ->
  exists k s' w' did',
    (k <= m)%nat /\
    run_events alloc (replicate (1 + k) EvThread) (s, w) = ((s', w'), Ok tt) /\
    ts_pc s' = AtSweep did' /\
    length (vt_queue (ts_vt s')) = (length (vt_queue (ts_vt s)) - k)%nat /\
    (k = m \/ vt_queue (ts_vt s') = []).
Proof using Type.
  induction m as [|m IH]; intros s w n did Hq Hpc Hn.
  - exists 0%nat, (set_pc (AtSweep did) (set_burst None s)), w, did. split; [lia|].
    split; [|split; [done|cbn; split; [lia|by left]]].
    unfold run_events. cbn [replicate miter run_event Nat.add].
    rewrite mbind_run. unfold thread_step.
    rewrite (mbind_step _ _ _ (s, w) s) by reflexivity. rewrite Hpc.
    rewrite (proj2 (Nat.ltb_ge n MAX_IRP_BURST)) by lia. done.
  - destruct (vt_queue (ts_vt s)) as [|ep q] eqn:Hqu.
    + exists 0%nat, (set_pc (AtSweep did) (set_burst None s)), w, did. split; [lia|].
      split; [|split; [done|cbn; rewrite Hqu; split; [done|by right]]].
      unfold run_events. cbn [replicate miter run_event Nat.add].
      rewrite mbind_run. unfold thread_step.
      rewrite (mbind_step _ _ _ (s, w) s) by reflexivity. rewrite Hpc.
      rewrite (proj2 (Nat.ltb_lt n MAX_IRP_BURST)) by lia. rewrite Hqu. done.
    + destruct (burst_step s w n did ep q Hq Hpc ltac:(lia) Hqu) as (s1 & w1 & Hr & Hq1 & Hp1 & Hq1').
      destruct (IH s1 w1 (S n) true Hq1 Hp1 ltac:(lia))
        as (k & s2 & w2 & did' & Hk & Hr2 & Hp2 & Hl2 & Hor).
      exists (S k), s2, w2, did'. split; [lia|].
      split; [|split; [done|rewrite Hl2, Hq1'; cbn; split; [lia|destruct Hor; auto]]].
      unfold run_events in *. change (1 + S k)%nat with (S (1 + k)).
      cbn [replicate miter run_event]. rewrite (mbind_step _ _ _ _ _ Hr). exact Hr2.
Qed.
End ThreadSafety.

(** The state [VolumeThread::start] leaves behind. *)
Definition thread_init {W} (volume : nat) (heap : gmap nat (AttachedVolume W)) : ThreadState W :=
  mkTS (vt_start true volume) AtTop volume None heap [].

Lemma thread_init_inv {W} volume (heap : gmap nat (AttachedVolume W)) :
  (forall i v, heap !! i = Some v -> quiet_volume v) -> is_Some (heap !! volume) ->
  run_inv heap (thread_init volume heap).
Proof. intros. constructor; [constructor; done|..]; done. Qed.

Lemma thread_init_queue {W} volume (heap : gmap nat (AttachedVolume W)) :
  queue_inv [] [] (thread_init volume heap).
Proof. constructor; done. Qed.

(** ** Properties *)

(** C10: stopping the thread loses no request. Whatever requests, rebinds and
    thread sections came before, in any interleaving, once the thread is
    stopped it exits within five sections plus one per event, without a panic,
    with an empty queue; every request accepted before the stop has been
    completed exactly once, in the order of arrival, none other was queued, and
    every completed request was completed once. *)
Theorem stop_completes_every_request {W} (alloc : Z -> bool) volume
    (heap : gmap nat (AttachedVolume W)) (w : W) evs :
  (forall i v, heap !! i = Some v -> quiet_volume v) -> is_Some (heap !! volume) ->
  Forall fresh_event evs -> Forall (event_ok heap) evs ->
  exists s' w',
    run_events alloc (evs ++ EvStop :: replicate (5 + length evs) EvThread)
      (thread_init volume heap, w) = ((s', w'), Ok tt) /\
    ts_pc s' = Exited /\ vt_queue (ts_vt s') = [] /\
    irp_id <$> filter (fun i => irp_pending i = true) (ts_done s') =
      irp_id <$> accepted false evs /\
    irp_id <$> filter (fun i => irp_pending i = false) (ts_done s') =
      irp_id <$> refused false evs /\
    Forall (fun i => irp_completed i = 1%nat) (ts_done s').
Proof.
  intros Hh Hv Hf Hok.
  destruct (run_events_ok alloc heap evs _ w (thread_init_inv volume heap Hh Hv) Hok)
    as (s1 & w1 & Hr1 & Hi1 & Hl1). cbn in Hl1.
  destruct (run_event_ok alloc heap s1 w1 EvStop Hi1 I) as (s2 & w2 & Hr2 & Hi2 & _).
  assert (Hs2 : vt_shutdown (ts_vt s2) = true /\ vt_queue (ts_vt s2) = vt_queue (ts_vt s1))
    by (mrun Hr2; done).
  destruct Hs2 as [Hs2 Hl2].
  destruct (drain alloc (5 + length evs) s2 w2) as (s3 & w3 & Hr3 & Hpc & Hqu);
    [apply Hi2|apply Hi2|done| |].
  { unfold sections_left. rewrite Hl2. destruct (ts_pc s2); lia. }
  assert (Hrun : run_events alloc (evs ++ EvStop :: replicate (5 + length evs) EvThread)
                   (thread_init volume heap, w) = ((s3, w3), Ok tt)).
  { rewrite (run_events_app _ _ _ _ _ _ _ Hr1). unfold run_events. cbn [miter].
    rewrite (mbind_step _ _ _ _ _ Hr2). exact Hr3. }
  exists s3, w3. split; [exact Hrun|]. split; [done|]. split; [done|].
  assert (Hf' : Forall fresh_event (evs ++ EvStop :: replicate (5 + length evs) EvThread)).
  { apply Forall_app. split; [done|]. constructor; [done|].
    apply Forall_replicate. done. }
  destruct (run_events_inv alloc [] [] _ _ _ _ _ (thread_init_queue volume heap) Hf' Hrun)
    as [Ho Hre Hd _].
  rewrite Hqu in Ho. cbn [fmap list_fmap] in Ho. rewrite app_nil_r in Ho.
  assert (Hacc : forall b, accepted b (evs ++ EvStop :: replicate (5 + length evs) EvThread) =
            accepted b evs /\
            refused b (evs ++ EvStop :: replicate (5 + length evs) EvThread) = refused b evs).
  { assert (forall n, accepted true (replicate n EvThread) = [] /\
                      refused true (replicate n EvThread) = []) as Hrep
      by (induction n; done).
    generalize (5 + length evs)%nat as n. clear -Hrep. intros n.
    induction evs as [|ev evs IH]; intros b; cbn.
    - apply Hrep.
    - destruct ev; cbn; try apply IH. destruct (IH b) as [-> ->]. done. }
  destruct (Hacc false) as [Ha Hb]. cbn [thread_init ts_vt vt_start vt_shutdown] in *.
  rewrite Ha in Ho. rewrite Hb in Hre. cbn [app] in *. done.
Qed.

Module ThreadDemo.
Definition vol : AttachedVolume unit :=
  mkVolume "\Device\HarddiskVolume3" 2
    (Encrypted (Some VolumeDemo.supplier) 1 (mkEncryptedOffset 0 4) (DummyOffsetStore 4))
    (EngineDemo.engine_at 0 Encrypting) (DummyOffsetStore 4) Ioctl None (DummySectorIo 2 6) 0.
Definition heap : gmap nat (AttachedVolume unit) := {[0%nat := vol]}.
Definition request (n : nat) : IRP := mkIRP n 4 4 (Some (byte_of <$> [1; 2; 3; 4])) false false 0 0 0.
Definition evs : list event :=
  [EvEnqueue (request 1) false; EvThread; EvThread; EvEnqueue (request 2) true; EvThread;
   EvEnqueue (request 3) false].

Lemma vol_quiet : quiet_volume vol.
Proof.
  split; [split; [cbn; lia|done]|]. split; [done|]. split; [cbn; lia|].
  intros sup c Hs Hg. cbn in Hs. simplify_eq. cbn in Hg. simplify_eq. done.
Qed.

Lemma heap_quiet i v : heap !! i = Some v -> quiet_volume v.
Proof.
  unfold heap. intros Hi. apply lookup_singleton_Some in Hi as [_ <-]. apply vol_quiet.
Qed.

Lemma heap_has : is_Some (heap !! 0%nat).
Proof. exists vol. apply lookup_singleton_eq. Qed.

Lemma evs_fresh : Forall fresh_event evs.
Proof. repeat constructor. Qed.
Lemma evs_ok : Forall (event_ok heap) evs.
Proof. repeat constructor. Qed.
End ThreadDemo.

Lemma stop_completes_every_request_witness :
  exists s' w',
    run_events VolumeDemo.alloc (ThreadDemo.evs ++ EvStop :: replicate 11 EvThread)
      (thread_init 0 ThreadDemo.heap, tt) = ((s', w'), Ok tt) /\
    ts_pc s' = Exited /\ vt_queue (ts_vt s') = [] /\
    irp_id <$> filter (fun i => irp_pending i = true) (ts_done s') = [1%nat; 2%nat; 3%nat] /\
    irp_id <$> filter (fun i => irp_pending i = false) (ts_done s') = [] /\
    Forall (fun i => irp_completed i = 1%nat) (ts_done s').
Proof.
  exact (stop_completes_every_request VolumeDemo.alloc 0 ThreadDemo.heap tt ThreadDemo.evs
    ThreadDemo.heap_quiet ThreadDemo.heap_has ThreadDemo.evs_fresh ThreadDemo.evs_ok).
Defined.

(** User requests cannot starve the sweep. From the head of the loop, with
    the thread not stopped and any number of requests queued, the thread reaches
    its sweep batch after at most [MAX_IRP_BURST] processed requests. *)
Theorem sweep_not_starved {W} (alloc : Z -> bool) (s : ThreadState W) w :
  thread_quiet s -> ts_pc s = AtTop -> vt_shutdown (ts_vt s) = false ->
  exists k s' w' did,
    (k <= MAX_IRP_BURST)%nat /\
    run_events alloc (replicate (2 + k) EvThread) (s, w) = ((s', w'), Ok tt) /\
    ts_pc s' = AtSweep did /\
    length (vt_queue (ts_vt s')) = (length (vt_queue (ts_vt s)) - k)%nat /\
    (k = MAX_IRP_BURST \/ vt_queue (ts_vt s') = []).
Proof.
  intros Hq Hpc Hs.
  set (s1 := set_pc (AtBurst 0 false) (set_burst None (set_vol (vt_current (ts_vt s)) s))).
  assert (thread_quiet s1) as Hq1 by (destruct Hq; constructor; done).
  destruct (burst_run alloc MAX_IRP_BURST s1 w 0 false Hq1 eq_refl eq_refl)
    as (k & s' & w' & did & Hk & Hr & Hp & Hl & Hor).
  exists k, s', w', did. split; [done|]. split; [|done].
  unfold run_events in *. change (2 + k)%nat with (S (1 + k)).
  cbn [replicate miter run_event].
  assert (thread_step alloc (s, w) = ((s1, w), Ok tt)) as Ht.
  { unfold thread_step. rewrite (mbind_step _ _ _ (s, w) s) by reflexivity.
    rewrite Hpc, Hs. done. }
  rewrite (mbind_step _ _ _ _ _ Ht). exact Hr.
Qed.

Lemma sweep_not_starved_witness :
  exists k s' w' did,
    (k <= MAX_IRP_BURST)%nat /\
    run_events VolumeDemo.alloc (replicate (2 + k) EvThread) (thread_init 0 ThreadDemo.heap, tt) =
      ((s', w'), Ok tt) /\
    ts_pc s' = AtSweep did /\ length (vt_queue (ts_vt s')) = (0 - k)%nat /\
    (k = MAX_IRP_BURST \/ vt_queue (ts_vt s') = []).
Proof.
  exact (sweep_not_starved VolumeDemo.alloc (thread_init 0 ThreadDemo.heap) tt
    (ri_quiet _ _ (thread_init_inv 0 ThreadDemo.heap ThreadDemo.heap_quiet ThreadDemo.heap_has))
    eq_refl eq_refl).
Defined.
