(* ===== verification/Xts.v ===== *)
(** * AES-256-XTS volume cipher ([lib/common/src/xts.rs])

    The sector cipher of the driver and the loader, with its eight-block batch
    path and its scalar tail as the code runs them, proved equal to the textbook
    block-by-block XTS. The AES block cipher of the [aes] crate is a class of
    operations with its documented laws. The driver's wrapper
    ([lib/windrv/src/crypto/aes_xts.rs]) is at the end. *)

From S2P Require Import Prelude Types Sectors.

(** ** Byte strings *)

Definition byte_xor (a b : byte) : byte := byte_of (Z.lxor (byte_val a) (byte_val b)).
Definition bxor (x y : bytes) : bytes := zip_with byte_xor x y.

Lemma byte_xor_cancel a b : byte_xor (byte_xor a b) b = a.
Proof.
  unfold byte_xor. rewrite byte_val_of.
  pose proof (byte_val_range a). pose proof (byte_val_range b).
  pose proof (lxor_range (byte_val a) (byte_val b) 8 ltac:(lia) ltac:(lia) ltac:(lia)).
  rewrite Z.mod_small by lia. rewrite Z.lxor_assoc, Z.lxor_nilpotent, Z.lxor_0_r.
  apply byte_of_val.
Qed.

Lemma length_bxor x y : length y = length x -> length (bxor x y) = length x.
Proof. intros H. unfold bxor. rewrite length_zip_with. lia. Qed.

Lemma bxor_cancel x y : length y = length x -> bxor (bxor x y) y = x.
Proof.
  revert y. induction x as [|a x IH]; intros [|b y] Hl; try done.
  cbn. rewrite byte_xor_cancel. f_equal. apply IH. cbn in Hl. lia.
Qed.

(** ** The [aes] crate *)

Class AesApi := {
  Aes256 : Type;
  new_from_slice : bytes -> option Aes256;
  encrypt_block : Aes256 -> bytes -> bytes;
  decrypt_block : Aes256 -> bytes -> bytes;
  encrypt_blocks : Aes256 -> list bytes -> list bytes;
  decrypt_blocks : Aes256 -> list bytes -> list bytes;
}.

(** A key of 32 bytes is accepted; decryption inverts encryption on blocks of
    16 bytes; the parallel entry points treat each block on its own. *)
Class AesLaws (A : AesApi) : Prop := {
  aes_new k : length k = 32%nat -> is_Some (new_from_slice k);
  aes_enc_len k b : length b = 16%nat -> length (encrypt_block k b) = 16%nat;
  aes_dec_len k b : length b = 16%nat -> length (decrypt_block k b) = 16%nat;
  aes_dec_enc k b : length b = 16%nat -> decrypt_block k (encrypt_block k b) = b;
  aes_enc_blocks k l : encrypt_blocks k l = encrypt_block k <$> l;
  aes_dec_blocks k l : decrypt_blocks k l = decrypt_block k <$> l;
}.

(** ** The cipher *)

(* src: lib/common/src/xts.rs:50-52 BATCH *)
Definition BATCH : nat := 8.

(* src: lib/common/src/xts.rs:110-121 gf128_mul *)
Definition gf128_mul (t : bytes) : bytes :=
  let lo := le_decode (slice 0 8 t) in
  let hi := le_decode (slice 8 8 t) in
  let carry := if negb (Z.shiftr hi 63 =? 0) then 0x87 else 0 in
  le_encode 8 (Z.lxor (wrap 64 (Z.shiftl lo 1)) carry) ++
  le_encode 8 (Z.lor (wrap 64 (Z.shiftl hi 1)) (Z.shiftr lo 63)).

Section Xts.
Context `{A : AesApi}.

(* src: lib/common/src/xts.rs:54-59 XtsVolumeCipher *)
Record XtsVolumeCipher : Type := mkXts { cipher_1 : Aes256; cipher_2 : Aes256 }.

(* src: lib/common/src/xts.rs:124-130 XtsVolumeCipher::new *)
Definition xts_new (key1 key2 : bytes) : VckResult XtsVolumeCipher :=
  cipher_1 ← ok_or (new_from_slice key1) (CryptoFailed "invalid XTS key1");
  cipher_2 ← ok_or (new_from_slice key2) (CryptoFailed "invalid XTS key2");
  Ok (mkXts cipher_1 cipher_2).

(** [ts[0] = tw] and [ts[i] = gf128_mul(ts[i-1])]. *)
Fixpoint tweaks (n : nat) (tw : bytes) : list bytes :=
  match n with O => [] | S n => tw :: tweaks n (gf128_mul tw) end.

(** The loops' state: the block offset, the next tweak, the sector. *)
Definition xts_state : Type := nat * bytes * bytes.

(** One iteration of the eight-block loop. [crypt] is the parallel AES call. *)
Definition batch_iter (crypt : list bytes -> list bytes) (st : xts_state) : xts_state :=
  let '(off, tw, sector) := st in
  let ts := tweaks BATCH tw in
  let tw' := gf128_mul (ts !!! (BATCH - 1)%nat) in
  let batch := imap (fun i t => bxor (slice ((off + i) * 16) 16 sector) t) ts in
  let batch := crypt batch in
  let sector :=
    foldl (fun s i => splice ((off + i) * 16) (bxor (batch !!! i) (ts !!! i)) s)
      sector (seq 0 BATCH) in
  ((off + BATCH)%nat, tw', sector).

(** One iteration of the scalar tail loop. *)
Definition tail_iter (crypt : bytes -> bytes) (st : xts_state) : xts_state :=
  let '(off, tw, sector) := st in
  let block := bxor (slice (off * 16) 16 sector) tw in
  let ga := crypt block in
  let block := bxor ga tw in
  (S off, gf128_mul tw, splice (off * 16) block sector).

(** [while off + step <= n { body }]; each iteration advances [off], so
    [n] is enough fuel. *)
Fixpoint while_le (fuel n step : nat) (body : xts_state -> xts_state) (st : xts_state) : xts_state :=
  match fuel with
  | O => st
  | S fuel => if (st.1.1 + step <=? n)%nat then while_le fuel n step body (body st) else st
  end.

(* src: lib/common/src/xts.rs:160-210 XtsVolumeCipher::encrypt_sector_inner *)
Definition encrypt_sector_inner (c : XtsVolumeCipher) (rel_sector : Z) (sector : bytes) : bytes :=
  let tw := encrypt_block (cipher_2 c) (le_encode 16 rel_sector) in
  let n := (length sector / 16)%nat in
  let st := while_le n n BATCH (batch_iter (encrypt_blocks (cipher_1 c))) (0%nat, tw, sector) in
  let st := while_le n n 1 (tail_iter (encrypt_block (cipher_1 c))) st in
  st.2.

(* src: lib/common/src/xts.rs:213-260 XtsVolumeCipher::decrypt_sector_inner *)
Definition decrypt_sector_inner (c : XtsVolumeCipher) (rel_sector : Z) (sector : bytes) : bytes :=
  let tw := encrypt_block (cipher_2 c) (le_encode 16 rel_sector) in
  let n := (length sector / 16)%nat in
  let st := while_le n n BATCH (batch_iter (decrypt_blocks (cipher_1 c))) (0%nat, tw, sector) in
  let st := while_le n n 1 (tail_iter (decrypt_block (cipher_1 c))) st in
  st.2.

(** [chunks_mut(0)] panics. *)
Definition map_area (f : Z -> bytes -> bytes) (buf : bytes) (sector_size first : Z) : option bytes :=
  if sector_size =? 0 then None
  else Some (concat (imap (fun si s => f (u64_add first (Z.of_nat si)) s)
                       (chunks (Z.to_nat sector_size) buf))).

(* src: lib/common/src/xts.rs:133-135 XtsVolumeCipher::encrypt_sector *)
Definition xts_encrypt_sector (c : XtsVolumeCipher) (rel : Z) (sector : bytes) : option bytes :=
  Some (encrypt_sector_inner c rel sector).
(* src: lib/common/src/xts.rs:138-140 XtsVolumeCipher::decrypt_sector *)
Definition xts_decrypt_sector (c : XtsVolumeCipher) (rel : Z) (sector : bytes) : option bytes :=
  Some (decrypt_sector_inner c rel sector).
(* src: lib/common/src/xts.rs:144-148 XtsVolumeCipher::encrypt_area *)
Definition xts_encrypt_area (c : XtsVolumeCipher) (buf : bytes) (sector_size first : Z) :
    option bytes :=
  map_area (encrypt_sector_inner c) buf sector_size first.
(* src: lib/common/src/xts.rs:151-155 XtsVolumeCipher::decrypt_area *)
Definition xts_decrypt_area (c : XtsVolumeCipher) (buf : bytes) (sector_size first : Z) :
    option bytes :=
  map_area (decrypt_sector_inner c) buf sector_size first.

(* src: lib/common/src/xts.rs:61-78 impl VolumeCipher for XtsVolumeCipher *)
Definition xts_cipher (c : XtsVolumeCipher) : VolumeCipher := {|
  encrypt_sector := xts_encrypt_sector c;
  decrypt_sector := xts_decrypt_sector c;
  encrypt_area := xts_encrypt_area c;
  decrypt_area := xts_decrypt_area c;
|}.

(* src: lib/common/src/xts.rs:91-94 StaticCipherSupplier *)
Record StaticCipherSupplier : Type := mkStaticSupplier { sup_key1 : bytes; sup_key2 : bytes }.

(* src: lib/common/src/xts.rs:97-99 StaticCipherSupplier::new *)
Definition static_supplier_new (key1 key2 : bytes) : StaticCipherSupplier :=
  mkStaticSupplier key1 key2.

(* src: lib/common/src/xts.rs:102-108 StaticCipherSupplier::get_cipher *)
Definition static_supplier (s : StaticCipherSupplier) : VolumeCipherSupplier := {|
  get_cipher :=
    match xts_new (sup_key1 s) (sup_key2 s) with
    | Ok c => Some (xts_cipher c)
    | _ => None
    end;
|}.

(** ** The driver's wrapper ([aes_xts.rs]) *)

(* src: lib/windrv/src/crypto/aes_xts.rs:11-13 AesXtsCipher *)
Record AesXtsCipher : Type := mkAesXts { inner : XtsVolumeCipher }.

(* src: lib/windrv/src/crypto/aes_xts.rs:16-20 AesXtsCipher::new *)
Definition aes_xts_new (key1 key2 : bytes) : VckResult AesXtsCipher :=
  inner ← xts_new key1 key2; Ok (mkAesXts inner).

(* src: lib/windrv/src/crypto/aes_xts.rs:22-59 AesXtsCipher methods and impl VolumeCipher *)
Definition aes_xts_cipher (c : AesXtsCipher) : VolumeCipher := {|
  encrypt_sector rel s := xts_encrypt_sector (inner c) rel s;
  decrypt_sector rel s := xts_decrypt_sector (inner c) rel s;
  encrypt_area buf ss first := xts_encrypt_area (inner c) buf ss first;
  decrypt_area buf ss first := xts_decrypt_area (inner c) buf ss first;
|}.

(** ** The reference: XTS block by block *)

Definition xts_block (crypt : bytes -> bytes) (tw b : bytes) : bytes := bxor (crypt (bxor b tw)) tw.

Fixpoint xts_blocks (crypt : bytes -> bytes) (tw : bytes) (bs : list bytes) : list bytes :=
  match bs with
  | [] => []
  | b :: bs => xts_block crypt tw b :: xts_blocks crypt (gf128_mul tw) bs
  end.

Definition xts_reference (crypt : bytes -> bytes) (tw sector : bytes) : bytes :=
  let n := (length sector / 16)%nat in
  concat (xts_blocks crypt tw (chunks 16 (take (n * 16) sector))) ++ drop (n * 16) sector.
End Xts.

(** ** The loops compute the reference *)

Section Reference.
Context (crypt : bytes -> bytes).
Hypothesis Hcrypt : forall b, length b = 16%nat -> length (crypt b) = 16%nat.

Lemma length_gf128_mul t : length (gf128_mul t) = 16%nat.
Proof using Type. unfold gf128_mul. rewrite length_app, !length_le_encode. done. Qed.

Lemma length_iter_gf k tw : length tw = 16%nat -> length (Nat.iter k gf128_mul tw) = 16%nat.
Proof using Type. destruct k; [done|]. intros _. apply length_gf128_mul. Qed.

Lemma length_xts_block tw b :
  length tw = 16%nat -> length b = 16%nat -> length (xts_block crypt tw b) = 16%nat.
Proof using Hcrypt.
  intros Ht Hb. unfold xts_block.
  assert (length (crypt (bxor b tw)) = 16%nat) by (apply Hcrypt; rewrite length_bxor; lia).
  rewrite length_bxor; lia.
Qed.

Lemma length_tweaks n tw : length (tweaks n tw) = n.
Proof using Type. revert tw. induction n; intros; cbn; auto. Qed.

Lemma lookup_tweaks n tw i :
  (i < n)%nat -> tweaks n tw !! i = Some (Nat.iter i gf128_mul tw).
Proof using Type.
  revert n tw. induction i as [|i IH]; intros [|n] tw H; try lia; [done|].
  cbn [tweaks lookup list_lookup]. rewrite IH by lia. f_equal.
  rewrite Nat.iter_succ_r. done.
Qed.

Lemma lookup_xts_blocks tw bs i :
  xts_blocks crypt tw bs !! i = xts_block crypt (Nat.iter i gf128_mul tw) <$> bs !! i.
Proof using Type.
  revert tw i. induction bs as [|b bs IH]; intros tw [|i]; try done.
  cbn [xts_blocks lookup list_lookup]. rewrite IH, <- Nat.iter_succ_r. done.
Qed.

Lemma length_xts_blocks tw bs : length (xts_blocks crypt tw bs) = length bs.
Proof using Type. revert tw. induction bs; intros; cbn; auto. Qed.

Lemma xts_blocks_app tw b1 b2 :
  xts_blocks crypt tw (b1 ++ b2) =
  xts_blocks crypt tw b1 ++ xts_blocks crypt (Nat.iter (length b1) gf128_mul tw) b2.
Proof using Type.
  revert tw. induction b1 as [|b b1 IH]; intros tw; [done|].
  cbn [xts_blocks app length]. rewrite IH. rewrite <- Nat.iter_succ_r. done.
Qed.

Lemma sectors_of_xts_blocks tw bs :
  length tw = 16%nat -> sectors_of 16 bs -> sectors_of 16 (xts_blocks crypt tw bs).
Proof using Hcrypt.
  intros Ht Hs. revert tw Ht. induction Hs as [|b bs Hb _ IH]; intros tw Ht; [constructor|].
  constructor; [apply length_xts_block; done|]. apply IH. apply length_gf128_mul.
Qed.

Lemma tail_iter_step dn tw b r :
  sectors_of 16 dn -> length b = 16%nat -> length tw = 16%nat ->
  tail_iter crypt (length dn, tw, concat dn ++ b ++ r) =
  (S (length dn), gf128_mul tw, concat dn ++ xts_block crypt tw b ++ r).
Proof using Hcrypt.
  intros Hd Hb Ht. pose proof (length_concat_sectors _ _ Hd) as Hl.
  unfold tail_iter. rewrite slice_app_mid by lia.
  rewrite splice_app_mid; [done|lia|]. fold (xts_block crypt tw b).
  rewrite length_xts_block; done.
Qed.

Lemma tail_loop fuel todo : forall dn tw r,
  sectors_of 16 dn -> sectors_of 16 todo -> length tw = 16%nat -> (length todo <= fuel)%nat ->
  while_le fuel (length dn + length todo) 1 (tail_iter crypt)
    (length dn, tw, concat dn ++ concat todo ++ r) =
  ((length dn + length todo)%nat, Nat.iter (length todo) gf128_mul tw,
   concat dn ++ concat (xts_blocks crypt tw todo) ++ r).
Proof using Hcrypt.
  revert todo. induction fuel as [|fuel IH]; intros todo dn tw r Hd Ht Htw Hf.
  { destruct todo; cbn in *; [|lia]. rewrite Nat.add_0_r. done. }
  cbn [while_le fst]. destruct todo as [|b todo].
  { cbn [length]. rewrite (proj2 (Nat.leb_gt _ _)) by lia. rewrite Nat.add_0_r. done. }
  apply Forall_cons in Ht as [Hb Ht].
  rewrite (proj2 (Nat.leb_le _ _)) by (cbn; lia).
  cbn [concat]. rewrite <- app_assoc, tail_iter_step by done.
  assert (sectors_of 16 (dn ++ [xts_block crypt tw b])) as Hd'.
  { apply sectors_of_app. split; [done|]. repeat constructor. apply length_xts_block; done. }
  specialize (IH todo (dn ++ [xts_block crypt tw b]) (gf128_mul tw) r Hd' Ht
                (length_gf128_mul tw) ltac:(cbn in Hf; lia)).
  rewrite length_app, concat_app in IH. cbn [length concat] in IH.
  rewrite app_nil_r, <- app_assoc in IH.
  replace (length dn + length (b :: todo))%nat with (length dn + 1 + length todo)%nat
    by (cbn; lia).
  replace (S (length dn)) with (length dn + 1)%nat by lia.
  rewrite IH. cbn [xts_blocks concat length]. rewrite <- !app_assoc, <- Nat.iter_succ_r. done.
Qed.

(** The writes of one batch. *)
Lemma batch_writes (f : nat -> bytes) off bs : forall dn j r,
  (forall i, length (f i) = 16%nat) -> sectors_of 16 dn -> sectors_of 16 bs ->
  length dn = (off + j)%nat ->
  foldl (fun s i => splice ((off + i) * 16) (f i) s) (concat dn ++ concat bs ++ r)
    (seq j (length bs)) =
  concat dn ++ concat (f <$> seq j (length bs)) ++ r.
Proof using Type.
  induction bs as [|b bs IH]; intros dn j r Hf Hd Hb Hl; [done|].
  apply Forall_cons in Hb as [Hb Hbs]. cbn [length seq foldl concat fmap list_fmap].
  pose proof (length_concat_sectors _ _ Hd).
  rewrite <- app_assoc, splice_app_mid; [|lia|rewrite Hf; done].
  assert (sectors_of 16 (dn ++ [f j])) as Hd'
    by (apply sectors_of_app; split; [done|]; repeat constructor; apply Hf).
  specialize (IH (dn ++ [f j]) (S j) r Hf Hd' Hbs ltac:(rewrite length_app; cbn; lia)).
  rewrite concat_app in IH. cbn [concat] in IH. rewrite app_nil_r, <- !app_assoc in IH.
  rewrite IH, <- app_assoc. done.
Qed.

(** A batch is eight scalar blocks. *)
Lemma batch_iter_step dn tw bs r :
  sectors_of 16 dn -> sectors_of 16 bs -> length bs = BATCH -> length tw = 16%nat ->
  batch_iter (fmap crypt) (length dn, tw, concat dn ++ concat bs ++ r) =
  ((length dn + BATCH)%nat, Nat.iter BATCH gf128_mul tw,
   concat dn ++ concat (xts_blocks crypt tw bs) ++ r).
Proof using Hcrypt.
  intros Hd Hb Hlen Htw. unfold batch_iter. cbn zeta.
  set (ts := tweaks BATCH tw).
  set (batch := crypt <$> imap _ ts).
  assert (forall i b, bs !! i = Some b ->
            slice ((length dn + i) * 16) 16 (concat dn ++ concat bs ++ r) = b) as Hread.
  { intros i b Hi. pose proof (lookup_lt_Some _ _ _ Hi).
    assert (sectors_of 16 (dn ++ bs)) as Hdb by (apply sectors_of_app; done).
    pose proof (length_concat_sectors _ _ Hdb) as Hl. rewrite length_app in Hl.
    rewrite app_assoc, <- concat_app, slice_app_l by lia.
    apply slice_concat_sector; [done|]. rewrite lookup_app_r by lia.
    rewrite <- Hi. f_equal. lia. }
  assert (forall i b, bs !! i = Some b ->
            bxor (batch !!! i) (ts !!! i) = xts_block crypt (Nat.iter i gf128_mul tw) b) as Hout.
  { intros i b Hi. pose proof (lookup_lt_Some _ _ _ Hi).
    assert (ts !! i = Some (Nat.iter i gf128_mul tw)) as Ht by (apply lookup_tweaks; lia).
    rewrite (list_lookup_total_correct ts _ _ Ht).
    rewrite (list_lookup_total_correct batch i (crypt (bxor b (Nat.iter i gf128_mul tw)))); [done|].
    unfold batch. rewrite list_lookup_fmap, list_lookup_imap, Ht. cbn.
    rewrite (Hread i b Hi). done. }
  assert (ts !!! (BATCH - 1)%nat = Nat.iter (BATCH - 1) gf128_mul tw) as Hlast
    by (apply list_lookup_total_correct, lookup_tweaks; unfold BATCH; lia).
  rewrite Hlast. f_equal.
  set (f := fun i => match bs !! i with
                     | Some _ => bxor (batch !!! i) (ts !!! i)
                     | None => replicate 16 Byte.x00 end).
  assert (forall i, length (f i) = 16%nat) as Hf.
  { intros i. unfold f. destruct (bs !! i) as [b|] eqn:E; [|done].
    rewrite (Hout i b E). apply length_xts_block; [apply length_iter_gf; done|].
    apply (Forall_lookup_1 _ _ _ _ Hb E). }
  rewrite <- Hlen. transitivity
    (foldl (fun s i => splice ((length dn + i) * 16) (f i) s) (concat dn ++ concat bs ++ r)
       (seq 0 (length bs))).
  - apply foldl_ext_in. intros s i Hi. apply elem_of_seq in Hi. unfold f.
    destruct (lookup_lt_is_Some_2 bs i ltac:(lia)) as [b E]. rewrite E. done.
  - rewrite (batch_writes f (length dn)) by (done || lia).
    do 3 f_equal. apply list_eq. intros i. rewrite lookup_xts_blocks, list_lookup_fmap.
    destruct (bs !! i) as [b|] eqn:E.
    + pose proof (lookup_lt_Some _ _ _ E). rewrite lookup_seq_lt by done. cbn.
      unfold f. rewrite E. f_equal. apply Hout. done.
    + rewrite (proj2 (lookup_ge_None (seq 0 _) i)); [done|].
      rewrite length_seq. apply lookup_ge_None. done.
Qed.

Lemma batch_loop fuel : forall dn todo tw r,
  sectors_of 16 dn -> sectors_of 16 todo -> length tw = 16%nat ->
  exists k, (k <= length todo)%nat /\
    while_le fuel (length dn + length todo) BATCH (batch_iter (fmap crypt))
      (length dn, tw, concat dn ++ concat todo ++ r) =
    ((length dn + k)%nat, Nat.iter k gf128_mul tw,
     concat dn ++ concat (xts_blocks crypt tw (take k todo)) ++ concat (drop k todo) ++ r).
Proof using Hcrypt.
  induction fuel as [|fuel IH]; intros dn todo tw r Hd Ht Htw; cbn [while_le fst].
  { exists 0%nat. split; [lia|]. rewrite Nat.add_0_r. done. }
  destruct (Nat.leb_spec (length dn + BATCH) (length dn + length todo)) as [Hle|Hgt].
  2: { exists 0%nat. split; [lia|]. rewrite Nat.add_0_r. done. }
  assert (length (take BATCH todo) = BATCH) as Hbl by len.
  assert (sectors_of 16 (take BATCH todo)) as Hbs by (apply Forall_take; done).
  assert (sectors_of 16 (drop BATCH todo)) as Hbd by (apply Forall_drop; done).
  assert (concat todo = concat (take BATCH todo) ++ concat (drop BATCH todo)) as Hsplit
    by (rewrite <- concat_app, take_drop; done).
  rewrite Hsplit, <- app_assoc, batch_iter_step by done.
  set (new := xts_blocks crypt tw (take BATCH todo)).
  assert (length new = BATCH) as Hnl by (unfold new; rewrite length_xts_blocks; done).
  assert (sectors_of 16 (dn ++ new)) as Hd'
    by (apply sectors_of_app; split; [done|]; apply sectors_of_xts_blocks; done).
  destruct (IH (dn ++ new) (drop BATCH todo) (Nat.iter BATCH gf128_mul tw) r Hd' Hbd
              (length_iter_gf BATCH tw Htw)) as (k & Hk & Hr).
  rewrite length_drop in Hk.
  exists (BATCH + k)%nat. split; [lia|].
  rewrite length_app, Hnl, concat_app, <- !app_assoc in Hr.
  replace (length dn + BATCH + length (drop BATCH todo))%nat
    with (length dn + length todo)%nat in Hr by len.
  rewrite Hr. f_equal; [f_equal; [lia|]|].
  - rewrite Nat.add_comm, Nat.iter_add. done.
  - f_equal. rewrite drop_drop.
    rewrite <- (take_drop BATCH (take (BATCH + k) todo)) at 1.
    rewrite take_take, Nat.min_l by lia.
    rewrite xts_blocks_app, Hbl, concat_app, <- app_assoc. fold new. do 2 f_equal.
    rewrite take_drop_commute. done.
Qed.

(** Both loops together are block-by-block XTS. *)
Lemma loops_reference tw sector :
  length tw = 16%nat ->
  let n := (length sector / 16)%nat in
  (while_le n n 1 (tail_iter crypt)
     (while_le n n BATCH (batch_iter (fmap crypt)) (0%nat, tw, sector))).2 =
  xts_reference crypt tw sector.
Proof using Hcrypt.
  intros Htw n. pose proof (Nat.div_mod_eq (length sector) 16) as Hdm. fold n in Hdm.
  destruct (concat_chunks 16 n (take (n * 16) sector)) as (Hs & Hc & Hl);
    [lia|rewrite length_take; lia|].
  unfold xts_reference. fold n. set (todo := chunks 16 (take (n * 16) sector)) in *.
  destruct (batch_loop n [] todo tw (drop (n * 16) sector)) as (k & Hk & Hr);
    [constructor|done|done|].
  cbn [length Nat.add concat app] in Hr. rewrite Hc, take_drop, Hl in Hr. rewrite Hr.
  set (dn := xts_blocks crypt tw (take k todo)).
  assert (length dn = k) as Hdl
    by (unfold dn; rewrite length_xts_blocks, length_take; lia).
  assert (sectors_of 16 dn) as Hds
    by (apply sectors_of_xts_blocks; [done|apply Forall_take; done]).
  pose proof (tail_loop n (drop k todo) dn (Nat.iter k gf128_mul tw) (drop (n * 16) sector)
                Hds ltac:(apply Forall_drop; done) (length_iter_gf k tw Htw)
                ltac:(rewrite length_drop; lia)) as Ht.
  rewrite Hdl, length_drop in Ht. replace (k + (length todo - k))%nat with n in Ht by lia.
  rewrite Ht. cbn [snd]. rewrite app_assoc. f_equal.
  rewrite <- (take_drop k todo) at 2. rewrite xts_blocks_app, concat_app, length_take.
  rewrite Nat.min_l by lia. done.
Qed.
End Reference.

(** Decrypting with the same tweaks inverts encryption. *)
Lemma xts_blocks_inv (E D : bytes -> bytes) tw bs :
  (forall b, length b = 16%nat -> length (E b) = 16%nat) ->
  (forall b, length b = 16%nat -> D (E b) = b) ->
  length tw = 16%nat -> sectors_of 16 bs -> xts_blocks D tw (xts_blocks E tw bs) = bs.
Proof.
  intros HE HD Htw Hs. revert tw Htw. induction Hs as [|b bs Hb _ IH]; intros tw Htw; [done|].
  cbn [xts_blocks]. rewrite IH by apply length_gf128_mul. f_equal.
  unfold xts_block.
  assert (length (bxor b tw) = 16%nat) as Hx by (rewrite length_bxor; lia).
  assert (length (E (bxor b tw)) = 16%nat) as Hy by auto.
  rewrite (bxor_cancel (E _)) by lia. rewrite HD by done. apply bxor_cancel. lia.
Qed.

Lemma length_xts_reference crypt tw sector :
  (forall b, length b = 16%nat -> length (crypt b) = 16%nat) -> length tw = 16%nat ->
  length (xts_reference crypt tw sector) = length sector.
Proof.
  intros Hc Htw. unfold xts_reference.
  pose proof (Nat.div_mod_eq (length sector) 16) as Hdm.
  set (n := (length sector / 16)%nat) in *.
  destruct (concat_chunks 16 n (take (n * 16) sector)) as (Hs & _ & Hl);
    [lia|rewrite length_take; lia|].
  rewrite length_app, length_drop.
  rewrite (length_concat_sectors 16) by (apply sectors_of_xts_blocks; done).
  rewrite length_xts_blocks, Hl. lia.
Qed.

Lemma xts_reference_inv (E D : bytes -> bytes) tw sector :
  (forall b, length b = 16%nat -> length (E b) = 16%nat) ->
  (forall b, length b = 16%nat -> D (E b) = b) -> length tw = 16%nat ->
  xts_reference D tw (xts_reference E tw sector) = sector.
Proof.
  intros HE HD Htw. pose proof (length_xts_reference E tw sector HE Htw) as Hlen.
  unfold xts_reference at 1. rewrite Hlen. unfold xts_reference.
  pose proof (Nat.div_mod_eq (length sector) 16) as Hdm.
  set (n := (length sector / 16)%nat) in *.
  destruct (concat_chunks 16 n (take (n * 16) sector)) as (Hs & Hc & Hl);
    [lia|rewrite length_take; lia|].
  set (bs := chunks 16 (take (n * 16) sector)) in *.
  assert (sectors_of 16 (xts_blocks E tw bs)) as Hes by (apply sectors_of_xts_blocks; done).
  assert (length (concat (xts_blocks E tw bs)) = (n * 16)%nat) as Hel.
  { rewrite (length_concat_sectors 16) by done. rewrite length_xts_blocks, Hl. done. }
  rewrite take_app_length', drop_app_length' by done.
  rewrite chunks_concat by (done || lia). rewrite xts_blocks_inv by done.
  rewrite Hc. apply take_drop.
Qed.

(** ** Multiplication by alpha *)

Lemma gf128_value t :
  length t = 16%nat ->
  le_decode (gf128_mul t) =
  Z.lxor (2 * le_decode t mod 2 ^ 128) (if 2 ^ 127 <=? le_decode t then 0x87 else 0).
Proof.
  intros Hl. unfold gf128_mul.
  assert (t = slice 0 8 t ++ slice 8 8 t) as Ht.
  { unfold slice. rewrite drop_0. rewrite (take_ge (drop 8 t)) by len.
    rewrite take_drop. done. }
  assert (length (slice 0 8 t) = 8%nat) as H1 by (apply length_slice; lia).
  assert (length (slice 8 8 t) = 8%nat) as H2 by (apply length_slice; lia).
  pose proof (le_decode_range (slice 0 8 t)) as R1. pose proof (le_decode_range (slice 8 8 t)) as R2.
  rewrite H1 in R1. rewrite H2 in R2. change (256 ^ Z.of_nat 8) with (2 ^ 64) in *.
  assert (le_decode t = le_decode (slice 0 8 t) + 2 ^ 64 * le_decode (slice 8 8 t)) as Hv
    by (rewrite Ht at 1; rewrite le_decode_app, H1; done).
  rewrite Hv. set (lo := le_decode (slice 0 8 t)) in *. set (hi := le_decode (slice 8 8 t)) in *.
  rewrite le_decode_app, length_le_encode, !le_decode_encode.
  change (256 ^ Z.of_nat 8) with (2 ^ 64). unfold wrap.
  rewrite !Z.shiftl_mul_pow2, !Z.shiftr_div_pow2 by lia. change (2 ^ 1) with 2.
  set (c := if negb (hi / 2 ^ 63 =? 0) then 135 else 0).
  assert (c = if 2 ^ 127 <=? lo + 2 ^ 64 * hi then 135 else 0) as Hc.
  { unfold c. destruct (Z.eqb_spec (hi / 2 ^ 63) 0), (Z.leb_spec (2 ^ 127) (lo + 2 ^ 64 * hi));
      cbn [negb]; try done; exfalso; Z.div_mod_to_equations; lia. }
  rewrite <- Hc. assert (0 <= c < 2 ^ 64) as Hcr by (unfold c; destruct (negb _); lia).
  pose proof (Z.mod_pos_bound (lo * 2) (2 ^ 64) ltac:(lia)) as Hm.
  assert (Z.lor (hi * 2 mod 2 ^ 64) (lo / 2 ^ 63) = (hi * 2 + lo / 2 ^ 63) mod 2 ^ 64) as Hhi.
  { assert (0 <= lo / 2 ^ 63 < 2 ^ 1) by (Z.div_mod_to_equations; lia).
    replace (hi * 2 mod 2 ^ 64) with (Z.shiftl (hi mod 2 ^ 63) 1)
      by (rewrite Z.shiftl_mul_pow2 by lia; Z.div_mod_to_equations; lia).
    rewrite Z.lor_comm, <- add_shift_lor by lia. Z.div_mod_to_equations; lia. }
  rewrite Hhi.
  replace ((2 * (lo + 2 ^ 64 * hi)) mod 2 ^ 128)
    with (lo * 2 mod 2 ^ 64 + 2 ^ 64 * ((hi * 2 + lo / 2 ^ 63) mod 2 ^ 64))
    by (Z.div_mod_to_equations; lia).
  rewrite lxor_low by lia.
  pose proof (lxor_range (lo * 2 mod 2 ^ 64) c 64 ltac:(lia) Hm Hcr) as Hx.
  rewrite (Z.mod_small (Z.lxor _ _)) by done.
  rewrite (Z.mod_small (_ mod _)) by (apply Z.mod_pos_bound; lia).
  rewrite <- add_shift_lor by lia. done.
Qed.

(** ** The cipher meets its interface *)

(** *** Textbook XTS

    A block is a polynomial over GF(2), its bytes little-endian; multiplying by
    alpha = x is modulo the field polynomial x^128 + x^7 + x^2 + x + 1. The tweak of
    block [j] is alpha^j times the encrypted sector number. Nothing here is the code's. *)

Definition field_polynomial : Z := 2 ^ 128 + 2 ^ 7 + 2 ^ 2 + 2 + 1.
Definition times_alpha (p : Z) : Z :=
  let q := 2 * p in if 2 ^ 128 <=? q then Z.lxor q field_polynomial else q.
Definition block_tweak (tw : bytes) (j : nat) : bytes :=
  le_encode 16 (Nat.iter j times_alpha (le_decode tw)).

Definition xts_textbook (crypt : bytes -> bytes) (tw sector : bytes) : bytes :=
  let whole := (length sector / 16 * 16)%nat in
  concat (imap (fun j b => bxor (crypt (bxor b (block_tweak tw j))) (block_tweak tw j))
            (chunks 16 (take whole sector))) ++ drop whole sector.

(** Folding the carry back in is reducing by the field polynomial. *)
Lemma times_alpha_fold p :
  0 <= p < 2 ^ 128 ->
  times_alpha p = Z.lxor (2 * p mod 2 ^ 128) (if 2 ^ 127 <=? p then 0x87 else 0).
Proof.
  intros Hp. unfold times_alpha. cbv zeta.
  destruct (Z.leb_spec (2 ^ 127) p), (Z.leb_spec (2 ^ 128) (2 * p)); try lia.
  - assert (field_polynomial = Z.lxor (2 ^ 128) 0x87) as -> by reflexivity.
    rewrite <- Z.lxor_assoc. f_equal.
    rewrite <- (Z.mod_unique (2 * p) (2 ^ 128) 1 (2 * p - 2 ^ 128)) by lia.
    set (r := 2 * p - 2 ^ 128). replace (2 * p) with (r + 2 ^ 128) by lia.
    assert (Z.land r (2 ^ 128) = 0) as Hl.
    { apply Z.bits_inj'. intros n Hn. rewrite Z.land_spec, Z.bits_0, Z.pow2_bits_eqb by lia.
      destruct (Z.eqb_spec 128 n) as [<-|]; [|apply andb_false_r].
      rewrite (Z.bits_above_log2 r 128); [done|lia|]. destruct (Z.eq_dec r 0) as [->|]; [done|].
      apply Z.log2_lt_pow2; lia. }
    rewrite Z.add_nocarry_lxor by done. rewrite Z.lxor_assoc, Z.lxor_nilpotent, Z.lxor_0_r. done.
  - rewrite Z.mod_small, Z.lxor_0_r by lia. done.
Qed.

Lemma iter_block_tweak tw j :
  length tw = 16%nat -> Nat.iter j gf128_mul tw = block_tweak tw j.
Proof.
  intros Htw. pose proof (length_iter_gf j tw Htw) as Hl.
  rewrite <- (le_encode_decode (Nat.iter j gf128_mul tw)), Hl. unfold block_tweak. f_equal. clear Hl.
  induction j as [|j IH]; [done|]. rewrite !Nat.iter_succ, <- IH.
  pose proof (length_iter_gf j tw Htw) as Hl. rewrite gf128_value by done.
  pose proof (le_decode_range (Nat.iter j gf128_mul tw)) as Hr. rewrite Hl in Hr.
  symmetry. apply times_alpha_fold. exact Hr.
Qed.

Lemma reference_textbook crypt tw sector :
  length tw = 16%nat -> xts_reference crypt tw sector = xts_textbook crypt tw sector.
Proof.
  intros Htw. unfold xts_reference, xts_textbook. cbv zeta. do 2 f_equal. apply list_eq. intros i.
  rewrite lookup_xts_blocks, list_lookup_imap, iter_block_tweak by done. done.
Qed.

Lemma while_le_ext fuel n step (f g : xts_state -> xts_state) st :
  (forall x, f x = g x) -> while_le fuel n step f st = while_le fuel n step g st.
Proof.
  intros H. revert st. induction fuel as [|fuel IH]; intros st; [done|].
  cbn [while_le]. destruct (_ <=? n)%nat; [|done]. rewrite H. apply IH.
Qed.

Lemma batch_iter_ext (f g : list bytes -> list bytes) st :
  (forall l, f l = g l) -> batch_iter f st = batch_iter g st.
Proof. intros H. unfold batch_iter. destruct st as [[off tw] s]. cbn zeta. rewrite H. done. Qed.

Section XtsLaws.
Context `{!AesLaws A} (c : XtsVolumeCipher (A:=A)).

Definition xts_tweak (rel : Z) : bytes := encrypt_block (cipher_2 c) (le_encode 16 rel).

Lemma length_xts_tweak rel : length (xts_tweak rel) = 16%nat.
Proof using AesLaws0. apply aes_enc_len. apply length_le_encode. Qed.

Lemma encrypt_inner_reference rel s :
  encrypt_sector_inner c rel s =
  xts_reference (encrypt_block (cipher_1 c)) (xts_tweak rel) s.
Proof using AesLaws0.
  unfold encrypt_sector_inner. fold (xts_tweak rel).
  rewrite (while_le_ext _ _ BATCH _ (batch_iter (fmap (encrypt_block (cipher_1 c))))).
  - apply loops_reference; [intros; apply aes_enc_len; done|apply length_xts_tweak].
  - intros st. apply batch_iter_ext. apply aes_enc_blocks.
Qed.

Lemma decrypt_inner_reference rel s :
  decrypt_sector_inner c rel s =
  xts_reference (decrypt_block (cipher_1 c)) (xts_tweak rel) s.
Proof using AesLaws0.
  unfold decrypt_sector_inner. fold (xts_tweak rel).
  rewrite (while_le_ext _ _ BATCH _ (batch_iter (fmap (decrypt_block (cipher_1 c))))).
  - apply loops_reference; [intros; apply aes_dec_len; done|apply length_xts_tweak].
  - intros st. apply batch_iter_ext. apply aes_dec_blocks.
Qed.

Lemma decrypt_encrypt_inner rel s :
  decrypt_sector_inner c rel (encrypt_sector_inner c rel s) = s.
Proof using AesLaws0.
  rewrite decrypt_inner_reference, encrypt_inner_reference.
  apply xts_reference_inv;
    [intros; apply aes_enc_len; done|intros; apply aes_dec_enc; done|apply length_xts_tweak].
Qed.

Lemma map_area_sectors f ss first ls :
  0 < ss < 2 ^ 32 -> 0 <= first -> first + Z.of_nat (length ls) <= 2 ^ 64 ->
  sectors_of (Z.to_nat ss) ls ->
  map_area f (concat ls) ss first = Some (concat (number_map f first ls)).
Proof using Type.
  intros Hss Hf Hn Hs. unfold map_area. rewrite (proj2 (Z.eqb_neq ss 0)) by lia.
  rewrite chunks_concat by (done || lia). do 2 f_equal.
  unfold number_map. apply list_eq. intros i. rewrite !list_lookup_imap.
  destruct (ls !! i) as [s|] eqn:E; [|done]. apply lookup_lt_Some in E. cbn. f_equal.
  rewrite u64_add_id by lia. done.
Qed.

#[export] Instance xts_laws ss :
  0 < ss < 2 ^ 32 ->
  CipherLaws (xts_cipher c) ss (encrypt_sector_inner c) (decrypt_sector_inner c).
Proof using AesLaws0.
  intros Hss. constructor; try done; intros.
  - apply decrypt_encrypt_inner.
  - rewrite encrypt_inner_reference, length_xts_reference; try done;
      [intros; apply aes_enc_len; done|apply length_xts_tweak].
  - rewrite decrypt_inner_reference, length_xts_reference; try done;
      [intros; apply aes_dec_len; done|apply length_xts_tweak].
  - apply map_area_sectors; done.
  - apply map_area_sectors; done.
Qed.
End XtsLaws.

(** ** Properties *)

(** A concrete block cipher satisfying the laws, for the evaluated examples. *)
Module ToyAes.
#[export] Instance api : AesApi := {
  Aes256 := Z;
  new_from_slice k := if decide (length k = 32%nat) then Some (le_decode (take 1 k)) else None;
  encrypt_block k b := ShiftCipher.enc k b;
  decrypt_block k b := ShiftCipher.dec k b;
  encrypt_blocks k l := ShiftCipher.enc k <$> l;
  decrypt_blocks k l := ShiftCipher.dec k <$> l;
}.

Lemma laws : AesLaws api.
Proof.
  constructor; cbn; try done.
  - intros k Hk. rewrite decide_True by done. eauto.
  - intros k b Hb. unfold ShiftCipher.enc. rewrite length_fmap. done.
  - intros k b Hb. unfold ShiftCipher.dec. rewrite length_fmap. done.
  - intros. apply ShiftCipher.dec_enc.
Qed.

Definition cipher : XtsVolumeCipher := mkXts (A:=api) 3 7.
(** Ten blocks and three stray bytes: one batch, two scalar blocks, a tail. *)
Definition sector : bytes := (fun i => byte_of (Z.of_nat i)) <$> seq 0 163.
End ToyAes.

(** C25: sector encryption is inverted by decryption, for every sector number
    and every sector length. *)
Theorem xts_sector_roundtrip {A : AesApi} (HA : AesLaws A) (c : XtsVolumeCipher) rel s :
  decrypt_sector_inner c rel (encrypt_sector_inner c rel s) = s /\
  length (encrypt_sector_inner c rel s) = length s.
Proof.
  split; [apply decrypt_encrypt_inner; done|].
  rewrite encrypt_inner_reference by done.
  apply length_xts_reference; [intros; apply aes_enc_len; done|apply length_xts_tweak; done].
Qed.

Lemma xts_sector_roundtrip_witness :
  decrypt_sector_inner ToyAes.cipher 5 (encrypt_sector_inner ToyAes.cipher 5 ToyAes.sector) =
    ToyAes.sector /\
  length (encrypt_sector_inner ToyAes.cipher 5 ToyAes.sector) = 163%nat.
Proof. exact (xts_sector_roundtrip ToyAes.laws ToyAes.cipher 5 ToyAes.sector). Defined.

(** C26: the eight-block batch path and the scalar tail compute textbook XTS:
    block [j] of the sector is [E(b xor T_j) xor T_j], where [T_j] is [E_K2(rel)] times
    alpha^j in GF(2)[x] modulo x^128 + x^7 + x^2 + x + 1, and a trailing partial block is
    untouched. Decryption is the same with the inverse block cipher and the same tweaks. *)
Theorem xts_batch_equals_reference {A : AesApi} (HA : AesLaws A) (c : XtsVolumeCipher) rel s :
  encrypt_sector_inner c rel s =
    xts_textbook (encrypt_block (cipher_1 c))
      (encrypt_block (cipher_2 c) (le_encode 16 rel)) s /\
  decrypt_sector_inner c rel s =
    xts_textbook (decrypt_block (cipher_1 c))
      (encrypt_block (cipher_2 c) (le_encode 16 rel)) s.
Proof.
  pose proof (length_xts_tweak c rel) as Hl.
  rewrite encrypt_inner_reference, decrypt_inner_reference, !reference_textbook by done. done.
Qed.

(** A tweak with its top bit set: the second block's tweak has been reduced. *)
Lemma xts_batch_equals_reference_witness :
  encrypt_sector_inner ToyAes.cipher 5 ToyAes.sector =
    xts_textbook (ShiftCipher.enc 3) (ShiftCipher.enc 7 (le_encode 16 5)) ToyAes.sector /\
  decrypt_sector_inner ToyAes.cipher (2 ^ 128 - 1) ToyAes.sector =
    xts_textbook (ShiftCipher.dec 3) (ShiftCipher.enc 7 (le_encode 16 (2 ^ 128 - 1))) ToyAes.sector /\
  block_tweak (le_encode 16 (2 ^ 127 + 5)) 1 = le_encode 16 0x8d.
Proof.
  split; [|split].
  - exact (proj1 (xts_batch_equals_reference ToyAes.laws ToyAes.cipher 5 ToyAes.sector)).
  - exact (proj2 (xts_batch_equals_reference ToyAes.laws ToyAes.cipher (2 ^ 128 - 1) ToyAes.sector)).
  - vm_compute. reflexivity.
Defined.

(** [gf128_mul] multiplies by alpha in GF(2^128): it doubles the
    little-endian value modulo 2^128 and folds a carry out of bit 127 back in
    as the polynomial 0x87. *)
Theorem gf128_mul_is_doubling t :
  length t = 16%nat ->
  le_decode (gf128_mul t) =
  Z.lxor (2 * le_decode t mod 2 ^ 128) (if 2 ^ 127 <=? le_decode t then 0x87 else 0).
Proof. apply gf128_value. Qed.

Lemma gf128_mul_is_doubling_witness :
  le_decode (gf128_mul (le_encode 16 (2 ^ 127 + 5))) =
  Z.lxor (2 * le_decode (le_encode 16 (2 ^ 127 + 5)) mod 2 ^ 128)
    (if 2 ^ 127 <=? le_decode (le_encode 16 (2 ^ 127 + 5)) then 0x87 else 0).
Proof. exact (gf128_mul_is_doubling (le_encode 16 (2 ^ 127 + 5)) eq_refl). Defined.

(** The keys of a volume give a cipher that keeps the contract, at every sector size. *)
Lemma keys_give_cipher `{A : AesApi} {HA : AesLaws A} key1 key2 ss :
  length key1 = 32%nat -> length key2 = 32%nat -> 0 < ss < 2 ^ 32 ->
  exists c enc dec, get_cipher (static_supplier (static_supplier_new key1 key2)) = Some c /\
    CipherLaws c ss enc dec.
Proof.
  intros H1 H2 Hss. destruct (aes_new _ H1) as [c1 Hc1], (aes_new _ H2) as [c2 Hc2].
  exists (xts_cipher (mkXts c1 c2)). do 2 eexists. split; [|apply xts_laws; done].
  cbn. unfold xts_new. rewrite Hc1, Hc2. done.
Qed.
