(* ===== verification/Metadata.v ===== *)
(** * JVCK metadata blocks ([lib/common/src/jvck/metadata.rs])

    The 512-byte block: its layout, key derivation, encoding, CRC check, parsing
    and the authenticated decryption of its payload. The HKDF, HMAC, AES-CBC and
    CRC crates are a class of operations; their documented behaviour is the law
    class [CryptoLaws]. *)

From S2P Require Import Prelude Types.

(** ** Layout *)

(* src: lib/common/src/jvck/metadata.rs:35-35 JVCK_SIGNATURE *)
Definition JVCK_SIGNATURE : bytes := bytes_of_string "JVCK".
(* src: lib/common/src/jvck/metadata.rs:37-39 METADATA_BLOCK_SIZE *)
Definition METADATA_BLOCK_SIZE : nat := 512.
(* src: lib/common/src/jvck/metadata.rs:40-40 ENCRYPTED_METADATA_SIZE *)
Definition ENCRYPTED_METADATA_SIZE : nat := 128.
(* src: lib/common/src/jvck/metadata.rs:41-41 HMAC_SIZE *)
Definition HMAC_SIZE : nat := 32.
(* src: lib/common/src/jvck/metadata.rs:42-43 SALT_SIZE *)
Definition SALT_SIZE : nat := 16.
(* src: lib/common/src/jvck/metadata.rs:44-45 VENDOR_RESERVED_SIZE *)
Definition VENDOR_RESERVED_SIZE : nat := 192.

(* src: lib/common/src/jvck/metadata.rs:47-48 INFO_MAC *)
Definition INFO_MAC : bytes := bytes_of_string "EncryptedMetadata:MAC".
(* src: lib/common/src/jvck/metadata.rs:49-49 INFO_ENC *)
Definition INFO_ENC : bytes := bytes_of_string "EncryptedMetadata:ENC".
(* src: lib/common/src/jvck/metadata.rs:50-50 INFO_IV *)
Definition INFO_IV : bytes := bytes_of_string "EncryptedMetadata:IV".

(* src: lib/common/src/jvck/metadata.rs:87-94 EM_OFF_* *)
Definition EM_OFF_SIGNATURE : nat := 0.
Definition EM_OFF_MUST_ZERO : nat := 4.
Definition EM_OFF_ENCRYPTED_OFFSET : nat := 16.
Definition EM_OFF_STATE : nat := 24.
Definition EM_OFF_FVEK_KEY1 : nat := 32.
Definition EM_OFF_FVEK_KEY2 : nat := 64.

(* src: lib/common/src/jvck/metadata.rs:129-147 OFF_* *)
Definition OFF_SIGNATURE : nat := 0.
Definition OFF_VENDOR_ID : nat := 4.
Definition OFF_METADATA_VERSION : nat := 12.
Definition OFF_VENDOR_VERSION : nat := 14.
Definition OFF_METADATA_SIZE : nat := 16.
Definition OFF_SECTOR_SIZE : nat := 20.
Definition OFF_HEADER_COUNT : nat := 24.
Definition OFF_FOOTER_COUNT : nat := 25.
Definition OFF_VOLUME_ID : nat := 32.
Definition OFF_SALT : nat := 48.
Definition OFF_ENCRYPTED_METADATA : nat := 64.
Definition OFF_HMAC : nat := 192.
Definition OFF_VENDOR_RESERVED : nat := 304.
Definition OFF_CRC32 : nat := 508.
Definition CRC_COVERAGE_END : nat := 508.

(* src: lib/common/src/jvck/metadata.rs:102-116 JvckHeader *)
Record JvckHeader : Type := mkHeader {
  h_vendor_id : Z;
  h_metadata_version : Z;
  h_vendor_version : Z;
  h_metadata_size : Z;
  h_sector_size : Z;
  h_header_replica_count : Z;
  h_footer_replica_count : Z;
  h_volume_id : bytes;
  h_vendor_reserved : bytes;
}.

(* src: lib/common/src/jvck/metadata.rs:124-127 JvckSecrets *)
Record JvckSecrets : Type := mkSecrets { fvek_key1 : bytes; fvek_key2 : bytes }.

(* src: lib/common/src/jvck/metadata.rs:54-59 DerivedKeys *)
Record DerivedKeys : Type := mkKeys { mac_key : bytes; enc_key : bytes; enc_iv : bytes }.

(** ** The crypto crates *)

Class CryptoApi := {
  Hkdf : Type;
  hkdf_new : bytes -> bytes -> Hkdf;
  hkdf_expand : Hkdf -> bytes -> nat -> option bytes;
  CbcEnc : Type;
  cbc_enc_new : bytes -> bytes -> option CbcEnc;
  cbc_encrypt : CbcEnc -> bytes -> option bytes;
  CbcDec : Type;
  cbc_dec_new : bytes -> bytes -> option CbcDec;
  cbc_decrypt : CbcDec -> bytes -> option bytes;
  Hmac : Type;
  hmac_new : bytes -> option Hmac;
  hmac_tag : Hmac -> bytes -> bytes;
  hmac_verify : Hmac -> bytes -> bytes -> bool;
  crc32 : bytes -> Z;
}.

(** HKDF expands to any short length; keys and IVs of the right length are
    accepted; CBC keeps whole-block lengths and decryption inverts encryption
    under one key and IV; a tag has 32 bytes and verifies exactly itself; a CRC
    has 32 bits. *)
Class CryptoLaws (C : CryptoApi) : Prop := {
  hkdf_ok hk info n : (n <= 255 * 32)%nat ->
    exists out, hkdf_expand hk info n = Some out /\ length out = n;
  cbc_new_ok key iv : length key = 32%nat -> length iv = 16%nat ->
    is_Some (cbc_enc_new key iv) /\ is_Some (cbc_dec_new key iv);
  cbc_roundtrip key iv e d p :
    cbc_enc_new key iv = Some e -> cbc_dec_new key iv = Some d ->
    (length p mod 16 = 0)%nat ->
    exists c, cbc_encrypt e p = Some c /\ length c = length p /\ cbc_decrypt d c = Some p;
  cbc_dec_len d c p : cbc_decrypt d c = Some p -> length p = length c;
  hmac_new_ok key : is_Some (hmac_new key);
  hmac_len m data : length (hmac_tag m data) = 32%nat;
  hmac_verify_iff m data tag : hmac_verify m data tag = true <-> tag = hmac_tag m data;
  crc32_range data : 0 <= crc32 data < 2 ^ 32;
}.

(* src: lib/common/src/jvck/metadata.rs:149-153 le_u16 *)
Definition le_u16 (block : bytes) (off : nat) : Z := le_decode (slice off 2 block).
(* src: lib/common/src/jvck/metadata.rs:154-156 le_u32 *)
Definition le_u32 (block : bytes) (off : nat) : Z := le_decode (slice off 4 block).
(* src: lib/common/src/jvck/metadata.rs:157-159 le_u64 *)
Definition le_u64 (block : bytes) (off : nat) : Z := le_decode (slice off 8 block).

Section Metadata.
Context `{C : CryptoApi}.

(** [None] is the panic of [expect]. *)
(* src: lib/common/src/jvck/metadata.rs:66-85 derive_keys *)
Definition derive_keys (volume_id salt vmk : bytes) : option DerivedKeys :=
  let hkdf_salt := volume_id ++ salt in
  let hk := hkdf_new hkdf_salt vmk in
  mac ← hkdf_expand hk INFO_MAC 32;
  enc ← hkdf_expand hk INFO_ENC 32;
  iv ← hkdf_expand hk INFO_IV 16;
  Some (mkKeys mac enc iv).

(* src: lib/common/src/jvck/metadata.rs:261-276 verify_crc *)
Definition verify_crc (block : bytes) : VckResult unit :=
  if (length block <? METADATA_BLOCK_SIZE)%nat then
    Err (SizeMismatch (Z.of_nat METADATA_BLOCK_SIZE) (Z.of_nat (length block)))
  else if negb (bool_decide (slice OFF_SIGNATURE 4 block = JVCK_SIGNATURE)) then
    Err SignatureMismatch
  else
    let stored := le_u32 block OFF_CRC32 in
    if negb (crc32 (slice 0 CRC_COVERAGE_END block) =? stored) then Err ChecksumMismatch
    else Ok tt.

(** The byte at an offset known to be in range. *)
Definition byte_at (block : bytes) (off : nat) : Z := le_decode (slice off 1 block).

(* src: lib/common/src/jvck/metadata.rs:168-184 JvckHeader::parse *)
Definition parse (block : bytes) : VckResult JvckHeader :=
  _ ← verify_crc block;
  let block := take METADATA_BLOCK_SIZE block in
  Ok {|
    h_vendor_id := le_u64 block OFF_VENDOR_ID;
    h_metadata_version := le_u16 block OFF_METADATA_VERSION;
    h_vendor_version := le_u16 block OFF_VENDOR_VERSION;
    h_metadata_size := le_u32 block OFF_METADATA_SIZE;
    h_sector_size := le_u32 block OFF_SECTOR_SIZE;
    h_header_replica_count := byte_at block OFF_HEADER_COUNT;
    h_footer_replica_count := byte_at block OFF_FOOTER_COUNT;
    h_volume_id := slice OFF_VOLUME_ID 16 block;
    h_vendor_reserved := slice OFF_VENDOR_RESERVED VENDOR_RESERVED_SIZE block;
  |}.

(** [out[off..off+x.len()].copy_from_slice(x)] on the output array. *)
Definition put (off : nat) (x : bytes) : M VckError bytes unit := mmodify (splice off x).

(** The plaintext of the encrypted payload. *)
Definition payload_plain (secrets : JvckSecrets) (encrypted_offset : Z) (state : VolumeState) :
    bytes :=
  let plain := replicate ENCRYPTED_METADATA_SIZE Byte.x00 in
  let plain := splice EM_OFF_SIGNATURE JVCK_SIGNATURE plain in
  let plain := splice EM_OFF_ENCRYPTED_OFFSET (le_encode 8 encrypted_offset) plain in
  let plain := splice EM_OFF_STATE (le_encode 2 (as_u16 state)) plain in
  let plain := splice EM_OFF_FVEK_KEY1 (fvek_key1 secrets) plain in
  splice EM_OFF_FVEK_KEY2 (fvek_key2 secrets) plain.

(** The state is the output array, which an error leaves partly written. *)
(* src: lib/common/src/jvck/metadata.rs:189-252 JvckHeader::encode *)
Definition encode (h : JvckHeader) (secrets : JvckSecrets) (encrypted_offset : Z)
    (state : VolumeState) (salt vmk : bytes) : M VckError bytes unit :=
  _ ← mmodify (fun out => replicate (length out) Byte.x00);
  _ ← put OFF_SIGNATURE JVCK_SIGNATURE;
  _ ← put OFF_VENDOR_ID (le_encode 8 (h_vendor_id h));
  _ ← put OFF_METADATA_VERSION (le_encode 2 (h_metadata_version h));
  _ ← put OFF_VENDOR_VERSION (le_encode 2 (h_vendor_version h));
  _ ← put OFF_METADATA_SIZE (le_encode 4 (h_metadata_size h));
  _ ← put OFF_SECTOR_SIZE (le_encode 4 (h_sector_size h));
  _ ← put OFF_HEADER_COUNT (le_encode 1 (h_header_replica_count h));
  _ ← put OFF_FOOTER_COUNT (le_encode 1 (h_footer_replica_count h));
  _ ← put OFF_VOLUME_ID (h_volume_id h);
  _ ← put OFF_SALT salt;
  _ ← put OFF_VENDOR_RESERVED (h_vendor_reserved h);
  let plain := payload_plain secrets encrypted_offset state in
  keys ← lift (unwrap (derive_keys (h_volume_id h) salt vmk));
  enc ← lift (ok_or (cbc_enc_new (enc_key keys) (enc_iv keys))
                (CryptoFailed "invalid ENC key/iv length"));
  plain ← lift (ok_or (cbc_encrypt enc plain)
                  (CryptoFailed "EncryptedMetadata CBC encrypt failed"));
  _ ← put OFF_ENCRYPTED_METADATA plain;
  mac ← lift (ok_or (hmac_new (mac_key keys)) (CryptoFailed "invalid HMAC key length"));
  out ← mget;
  let tag := hmac_tag mac (slice OFF_ENCRYPTED_METADATA ENCRYPTED_METADATA_SIZE out) in
  _ ← put OFF_HMAC tag;
  out ← mget;
  let crc := crc32 (slice 0 CRC_COVERAGE_END out) in
  put OFF_CRC32 (le_encode 4 crc).

(* src: lib/common/src/jvck/metadata.rs:284-334 decrypt_payload *)
Definition decrypt_payload (block vmk : bytes) : VckResult (Z * VolumeState * JvckSecrets) :=
  _ ← verify_crc block;
  let block := take METADATA_BLOCK_SIZE block in
  let volume_id := slice OFF_VOLUME_ID 16 block in
  let salt := slice OFF_SALT SALT_SIZE block in
  keys ← unwrap (derive_keys volume_id salt vmk);
  let enc := slice OFF_ENCRYPTED_METADATA ENCRYPTED_METADATA_SIZE block in
  let stored_hmac := slice OFF_HMAC HMAC_SIZE block in
  mac ← ok_or (hmac_new (mac_key keys)) (CryptoFailed "invalid HMAC key length");
  if negb (hmac_verify mac enc stored_hmac) then
    Err (ValidationFailed "EncryptedMetadata HMAC mismatch")
  else
    dec ← ok_or (cbc_dec_new (enc_key keys) (enc_iv keys))
            (CryptoFailed "invalid ENC key/iv length");
    plain ← ok_or (cbc_decrypt dec enc) (CryptoFailed "EncryptedMetadata CBC decrypt failed");
    if negb (bool_decide (slice EM_OFF_SIGNATURE 4 plain = JVCK_SIGNATURE)) then
      Err (ValidationFailed "inner JVCK signature mismatch")
    else if negb (bool_decide (slice EM_OFF_MUST_ZERO 12 plain = replicate 12 Byte.x00)) then
      Err (ValidationFailed "inner must-zero field not zero")
    else
      let secrets := mkSecrets (slice EM_OFF_FVEK_KEY1 32 plain) (slice EM_OFF_FVEK_KEY2 32 plain) in
      let state := from_u16 (le_u16 plain EM_OFF_STATE) in
      Ok (le_u64 plain EM_OFF_ENCRYPTED_OFFSET, state, secrets).

(* src: lib/common/src/jvck/metadata.rs:339-342 read_encrypted_offset *)
Definition read_encrypted_offset (block vmk : bytes) : VckResult Z :=
  '(encrypted_offset, _, _) ← decrypt_payload block vmk;
  Ok encrypted_offset.

(* src: lib/common/src/jvck/metadata.rs:254-256 JvckHeader::volume_guid *)
Definition volume_guid (from_bytes : bytes -> Guid) (h : JvckHeader) : Guid :=
  from_bytes (h_volume_id h).
End Metadata.

(** ** Encoding in normal form *)

Record header_wf (h : JvckHeader) : Prop := {
  hw_vendor_id : in_u 64 (h_vendor_id h);
  hw_metadata_version : in_u 16 (h_metadata_version h);
  hw_vendor_version : in_u 16 (h_vendor_version h);
  hw_metadata_size : in_u 32 (h_metadata_size h);
  hw_sector_size : in_u 32 (h_sector_size h);
  hw_header_count : in_u 8 (h_header_replica_count h);
  hw_footer_count : in_u 8 (h_footer_replica_count h);
  hw_volume_id : length (h_volume_id h) = 16%nat;
  hw_vendor_reserved : length (h_vendor_reserved h) = VENDOR_RESERVED_SIZE;
}.

Record secrets_wf (s : JvckSecrets) : Prop := {
  sw_key1 : length (fvek_key1 s) = 32%nat;
  sw_key2 : length (fvek_key2 s) = 32%nat;
}.

(** Bounds and disjointness of fields whose lengths are known. *)
Ltac sized := apply Nat.leb_le; vm_compute; reflexivity.
Ltac fields :=
  repeat (apply Forall_cons; split); try apply Forall_nil; unfold fits, apart; cbn [fst snd];
  rewrite ?length_replicate, ?length_le_encode;
  repeat match goal with H : length _ = _ |- _ => rewrite H end;
  first [exact I | sized | left; sized | right; sized].

Section MetadataProofs.
Context `{!CryptoLaws C}.

Definition header_fields (h : JvckHeader) (salt : bytes) : list (nat * bytes) :=
  [ (OFF_SIGNATURE, JVCK_SIGNATURE); (OFF_VENDOR_ID, le_encode 8 (h_vendor_id h));
    (OFF_METADATA_VERSION, le_encode 2 (h_metadata_version h));
    (OFF_VENDOR_VERSION, le_encode 2 (h_vendor_version h));
    (OFF_METADATA_SIZE, le_encode 4 (h_metadata_size h));
    (OFF_SECTOR_SIZE, le_encode 4 (h_sector_size h));
    (OFF_HEADER_COUNT, le_encode 1 (h_header_replica_count h));
    (OFF_FOOTER_COUNT, le_encode 1 (h_footer_replica_count h));
    (OFF_VOLUME_ID, h_volume_id h); (OFF_SALT, salt);
    (OFF_VENDOR_RESERVED, h_vendor_reserved h) ].

(** The block before its CRC, and the block. *)
Definition sealed_fields (h : JvckHeader) (salt ct tag : bytes) : list (nat * bytes) :=
  header_fields h salt ++ [(OFF_ENCRYPTED_METADATA, ct); (OFF_HMAC, tag)].

Definition sealed_block (h : JvckHeader) (salt ct tag : bytes) : bytes :=
  let b := puts (sealed_fields h salt ct tag) (replicate METADATA_BLOCK_SIZE Byte.x00) in
  splice OFF_CRC32 (le_encode 4 (crc32 (slice 0 CRC_COVERAGE_END b))) b.

Definition block_fields (h : JvckHeader) (salt ct tag : bytes) : list (nat * bytes) :=
  sealed_fields h salt ct tag ++
  [(OFF_CRC32, le_encode 4 (crc32 (slice 0 CRC_COVERAGE_END
      (puts (sealed_fields h salt ct tag) (replicate METADATA_BLOCK_SIZE Byte.x00)))))].

Lemma sealed_block_puts h salt ct tag :
  sealed_block h salt ct tag =
  puts (block_fields h salt ct tag) (replicate METADATA_BLOCK_SIZE Byte.x00).
Proof using Type. unfold block_fields. rewrite puts_app. done. Qed.

Lemma block_fits h salt ct tag :
  header_wf h -> length salt = SALT_SIZE -> length ct = ENCRYPTED_METADATA_SIZE ->
  length tag = HMAC_SIZE ->
  Forall (fits (length (replicate METADATA_BLOCK_SIZE Byte.x00))) (block_fields h salt ct tag).
Proof using Type.
  intros [] Hs Hc Ht. unfold block_fields, sealed_fields, header_fields. cbn [app].
  fields.
Qed.

(** A field of the block, by its position in the list of fields. *)
Lemma block_field h salt ct tag fs1 off x fs2 :
  header_wf h -> length salt = SALT_SIZE -> length ct = ENCRYPTED_METADATA_SIZE ->
  length tag = HMAC_SIZE ->
  block_fields h salt ct tag = fs1 ++ (off, x) :: fs2 -> Forall (apart off (length x)) fs2 ->
  slice off (length x) (sealed_block h salt ct tag) = x.
Proof using Type.
  intros Hh Hs Hc Ht Hf Ha. rewrite sealed_block_puts, Hf.
  apply slice_puts_field; [done| |done]. rewrite <- Hf. apply block_fits; done.
Qed.

Lemma length_sealed_block h salt ct tag :
  header_wf h -> length salt = SALT_SIZE -> length ct = ENCRYPTED_METADATA_SIZE ->
  length tag = HMAC_SIZE -> length (sealed_block h salt ct tag) = METADATA_BLOCK_SIZE.
Proof using Type.
  intros. rewrite sealed_block_puts, length_puts by (apply block_fits; done). done.
Qed.

Section Fields.
Context (h : JvckHeader) (salt ct tag : bytes).
Hypothesis Hh : header_wf h.
Hypothesis Hs : length salt = SALT_SIZE.
Hypothesis Hc : length ct = ENCRYPTED_METADATA_SIZE.
Hypothesis Ht : length tag = HMAC_SIZE.
Abbreviation B := (sealed_block h salt ct tag).

Lemma field_at (k : nat) off n x :
  block_fields h salt ct tag !! k = Some (off, x) -> length x = n ->
  Forall (apart off n) (drop (S k) (block_fields h salt ct tag)) -> slice off n B = x.
Proof using Hh Hs Hc Ht.
  intros Hk <- Ha.
  apply (block_field h salt ct tag (take k (block_fields h salt ct tag)) off x
           (drop (S k) (block_fields h salt ct tag))); try done.
  symmetry. apply take_drop_middle. done.
Qed.

Ltac field k :=
  pose proof Hh as [];
  apply (field_at k); [reflexivity|rewrite ?length_le_encode; first [done|assumption]|];
  unfold block_fields, sealed_fields, header_fields; cbn [app drop];
  try (apply Forall_nil; exact I); fields.

Lemma f_signature : slice OFF_SIGNATURE 4 B = JVCK_SIGNATURE.
Proof using Hh Hs Hc Ht. field 0%nat. Qed.
Lemma f_vendor_id : slice OFF_VENDOR_ID 8 B = le_encode 8 (h_vendor_id h).
Proof using Hh Hs Hc Ht. field 1%nat. Qed.
Lemma f_metadata_version : slice OFF_METADATA_VERSION 2 B = le_encode 2 (h_metadata_version h).
Proof using Hh Hs Hc Ht. field 2%nat. Qed.
Lemma f_vendor_version : slice OFF_VENDOR_VERSION 2 B = le_encode 2 (h_vendor_version h).
Proof using Hh Hs Hc Ht. field 3%nat. Qed.
Lemma f_metadata_size : slice OFF_METADATA_SIZE 4 B = le_encode 4 (h_metadata_size h).
Proof using Hh Hs Hc Ht. field 4%nat. Qed.
Lemma f_sector_size : slice OFF_SECTOR_SIZE 4 B = le_encode 4 (h_sector_size h).
Proof using Hh Hs Hc Ht. field 5%nat. Qed.
Lemma f_header_count : slice OFF_HEADER_COUNT 1 B = le_encode 1 (h_header_replica_count h).
Proof using Hh Hs Hc Ht. field 6%nat. Qed.
Lemma f_footer_count : slice OFF_FOOTER_COUNT 1 B = le_encode 1 (h_footer_replica_count h).
Proof using Hh Hs Hc Ht. field 7%nat. Qed.
Lemma f_volume_id : slice OFF_VOLUME_ID 16 B = h_volume_id h.
Proof using Hh Hs Hc Ht. field 8%nat. Qed.
Lemma f_salt : slice OFF_SALT SALT_SIZE B = salt.
Proof using Hh Hs Hc Ht. field 9%nat. Qed.
Lemma f_vendor_reserved : slice OFF_VENDOR_RESERVED VENDOR_RESERVED_SIZE B = h_vendor_reserved h.
Proof using Hh Hs Hc Ht. field 10%nat. Qed.
Lemma f_encrypted : slice OFF_ENCRYPTED_METADATA ENCRYPTED_METADATA_SIZE B = ct.
Proof using Hh Hs Hc Ht. field 11%nat. Qed.
Lemma f_hmac : slice OFF_HMAC HMAC_SIZE B = tag.
Proof using Hh Hs Hc Ht. field 12%nat. Qed.

Lemma crc_covered :
  crc32 (slice 0 CRC_COVERAGE_END B) = le_u32 B OFF_CRC32.
Proof using Hh Hs Hc Ht CryptoLaws0.
  pose proof (block_fits h salt ct tag Hh Hs Hc Ht) as Hf.
  unfold block_fields in Hf. apply Forall_app in Hf as [Hf _].
  set (b := puts (sealed_fields h salt ct tag) (replicate METADATA_BLOCK_SIZE Byte.x00)).
  assert (length b = METADATA_BLOCK_SIZE) as Hl by (unfold b; rewrite length_puts; done).
  unfold sealed_block. fold b. cbv zeta. unfold le_u32.
  rewrite (slice_splice_other 0) by (rewrite length_le_encode, ?Hl; try left; sized).
  rewrite slice_splice_same by (rewrite length_le_encode, ?Hl; first [done|sized]).
  rewrite le_decode_encode_id; [done|]. apply crc32_range.
Qed.

Lemma sealed_verify_crc : verify_crc B = Ok tt.
Proof using Hh Hs Hc Ht CryptoLaws0.
  unfold verify_crc. rewrite length_sealed_block by done.
  rewrite (proj2 (Nat.ltb_ge _ _)) by lia.
  rewrite f_signature by done. rewrite bool_decide_true by done. cbn [negb].
  rewrite crc_covered, Z.eqb_refl. done.
Qed.

Lemma take_block : take METADATA_BLOCK_SIZE B = B.
Proof using Hh Hs Hc Ht. apply take_ge. rewrite length_sealed_block by done. lia. Qed.

(** Parsing a sealed block gives the header back. *)
Lemma sealed_parse : parse B = Ok h.
Proof using Hh Hs Hc Ht CryptoLaws0.
  unfold parse. rewrite sealed_verify_crc. ostep. rewrite take_block.
  unfold le_u64, le_u32, le_u16, byte_at. cbv zeta.
  rewrite f_vendor_id, f_metadata_version, f_vendor_version, f_metadata_size, f_sector_size,
    f_header_count, f_footer_count, f_volume_id, f_vendor_reserved by done.
  pose proof Hh as []. rewrite !le_decode_encode_id by done. destruct h. done.
Qed.
End Fields.

(** *** The encrypted payload *)

Definition payload_fields (s : JvckSecrets) (o : Z) (st : VolumeState) : list (nat * bytes) :=
  [ (EM_OFF_SIGNATURE, JVCK_SIGNATURE); (EM_OFF_ENCRYPTED_OFFSET, le_encode 8 o);
    (EM_OFF_STATE, le_encode 2 (as_u16 st)); (EM_OFF_FVEK_KEY1, fvek_key1 s);
    (EM_OFF_FVEK_KEY2, fvek_key2 s) ].

Section Payload.
Context (s : JvckSecrets) (o : Z) (st : VolumeState).
Hypothesis Hsec : secrets_wf s.
Abbreviation P := (payload_plain s o st).

Lemma payload_fits :
  Forall (fits (length (replicate ENCRYPTED_METADATA_SIZE Byte.x00))) (payload_fields s o st).
Proof using Hsec. destruct Hsec. unfold payload_fields. fields. Qed.

Lemma length_payload : length P = ENCRYPTED_METADATA_SIZE.
Proof using Hsec.
  change P with (puts (payload_fields s o st) (replicate ENCRYPTED_METADATA_SIZE Byte.x00)).
  rewrite length_puts by apply payload_fits. apply length_replicate.
Qed.

Lemma payload_at (k : nat) off n x :
  payload_fields s o st !! k = Some (off, x) -> length x = n ->
  Forall (apart off n) (drop (S k) (payload_fields s o st)) -> slice off n P = x.
Proof using Hsec.
  intros Hk <- Ha.
  change P with (puts (payload_fields s o st) (replicate ENCRYPTED_METADATA_SIZE Byte.x00)).
  pose proof (take_drop_middle _ _ _ Hk) as He. rewrite <- He.
  apply slice_puts_field; [done| |exact Ha]. rewrite He. apply payload_fits.
Qed.

Ltac pfield k :=
  pose proof Hsec as [];
  apply (payload_at k); [reflexivity|rewrite ?length_le_encode; first [done|assumption]|];
  unfold payload_fields; cbn [drop]; try (apply Forall_nil; exact I); fields.

Lemma p_signature : slice EM_OFF_SIGNATURE 4 P = JVCK_SIGNATURE.
Proof using Hsec. pfield 0%nat. Qed.
Lemma p_offset : slice EM_OFF_ENCRYPTED_OFFSET 8 P = le_encode 8 o.
Proof using Hsec. pfield 1%nat. Qed.
Lemma p_state : slice EM_OFF_STATE 2 P = le_encode 2 (as_u16 st).
Proof using Hsec. pfield 2%nat. Qed.
Lemma p_key1 : slice EM_OFF_FVEK_KEY1 32 P = fvek_key1 s.
Proof using Hsec. pfield 3%nat. Qed.
Lemma p_key2 : slice EM_OFF_FVEK_KEY2 32 P = fvek_key2 s.
Proof using Hsec. pfield 4%nat. Qed.
Lemma p_zero : slice EM_OFF_MUST_ZERO 12 P = replicate 12 Byte.x00.
Proof using Hsec.
  change P with (puts (payload_fields s o st) (replicate ENCRYPTED_METADATA_SIZE Byte.x00)).
  rewrite slice_puts_apart; [reflexivity|apply payload_fits|].
  destruct Hsec. unfold payload_fields. fields.
Qed.
End Payload.

(** *** Encoding *)

Lemma derive_keys_ok volume_id salt vmk :
  exists k, derive_keys volume_id salt vmk = Some k /\
    length (mac_key k) = 32%nat /\ length (enc_key k) = 32%nat /\ length (enc_iv k) = 16%nat.
Proof using CryptoLaws0.
  unfold derive_keys.
  destruct (hkdf_ok (hkdf_new (volume_id ++ salt) vmk) INFO_MAC 32) as (m & -> & Hm); [lia|].
  destruct (hkdf_ok (hkdf_new (volume_id ++ salt) vmk) INFO_ENC 32) as (e & -> & He); [lia|].
  destruct (hkdf_ok (hkdf_new (volume_id ++ salt) vmk) INFO_IV 16) as (i & -> & Hi); [lia|].
  eexists. split; [reflexivity|]. done.
Qed.

(** The keys, ciphertext and tag a block is sealed with. *)
Record sealing (h : JvckHeader) (s : JvckSecrets) (o : Z) (st : VolumeState)
    (salt vmk ct tag : bytes) : Prop := {
  sl_run : exists keys enc mac dec,
    derive_keys (h_volume_id h) salt vmk = Some keys /\
    cbc_enc_new (enc_key keys) (enc_iv keys) = Some enc /\
    cbc_encrypt enc (payload_plain s o st) = Some ct /\
    hmac_new (mac_key keys) = Some mac /\ tag = hmac_tag mac ct /\
    cbc_dec_new (enc_key keys) (enc_iv keys) = Some dec /\
    cbc_decrypt dec ct = Some (payload_plain s o st);
  sl_ct : length ct = ENCRYPTED_METADATA_SIZE;
  sl_tag : length tag = HMAC_SIZE;
}.

Lemma sealing_exists h s o st salt vmk :
  secrets_wf s -> exists ct tag, sealing h s o st salt vmk ct tag.
Proof using CryptoLaws0.
  intros Hs. destruct (derive_keys_ok (h_volume_id h) salt vmk) as (k & Hk & _ & He & Hi).
  destruct (cbc_new_ok _ _ He Hi) as [[enc Henc] [dec Hdec]].
  destruct (hmac_new_ok (mac_key k)) as [mac Hmac].
  destruct (cbc_roundtrip _ _ enc dec (payload_plain s o st) Henc Hdec) as (ct & Hct & Hl & Hd).
  { rewrite length_payload by done. done. }
  exists ct, (hmac_tag mac ct). constructor.
  - exists k, enc, mac, dec. done.
  - rewrite Hl. apply length_payload. done.
  - apply hmac_len.
Qed.

Lemma encode_run h s o st salt vmk ct tag out :
  header_wf h -> length salt = SALT_SIZE -> length out = METADATA_BLOCK_SIZE ->
  sealing h s o st salt vmk ct tag ->
  encode h s o st salt vmk out = (sealed_block h salt ct tag, Ok tt).
Proof using CryptoLaws0.
  intros Hh Hs Ho [(k & enc & mac & dec & Hk & He & Hct & Hm & Htag & _) Hcl Htl].
  unfold encode, put. cbv zeta.
  repeat (rewrite mbind_run; cbn [mmodify mget lift unwrap ok_or]; unfold mmodify, mget, lift;
          rewrite ?Hk, ?Hm; cbn [unwrap ok_or]; rewrite ?He, ?Hct; cbn [unwrap ok_or]).
  rewrite Ho. unfold sealed_block, puts, sealed_fields, header_fields. cbn [foldl app fst snd].
  set (b := splice OFF_VENDOR_RESERVED _ _).
  assert (length b = METADATA_BLOCK_SIZE) as Hb.
  { pose proof (block_fits h salt ct tag Hh Hs Hcl Htl) as Hf.
    unfold block_fields, sealed_fields in Hf. apply Forall_app in Hf as [Hf _].
    apply Forall_app in Hf as [Hf _].
    change b with (puts (header_fields h salt) (replicate METADATA_BLOCK_SIZE Byte.x00)).
    rewrite length_puts by done. done. }
  rewrite slice_splice_same by (rewrite ?Hcl, ?Hb; first [done|sized]).
  rewrite <- Htag. done.
Qed.

(** Opening a sealed block with the same key material gives the payload back. *)
Lemma sealed_decrypt h s o st salt vmk ct tag :
  header_wf h -> secrets_wf s -> in_u 64 o -> length salt = SALT_SIZE ->
  sealing h s o st salt vmk ct tag ->
  decrypt_payload (sealed_block h salt ct tag) vmk = Ok (o, st, s).
Proof using CryptoLaws0.
  intros Hh Hsec Ho Hs [(k & enc & mac & dec & Hk & He & Hct & Hm & Htag & Hd & Hdp) Hcl Htl].
  unfold decrypt_payload. rewrite sealed_verify_crc by done. ostep.
  rewrite take_block by done. cbv zeta.
  rewrite f_volume_id, f_salt, f_encrypted, f_hmac by done.
  rewrite Hk. ostep. rewrite Hm. ostep.
  rewrite (proj2 (hmac_verify_iff mac ct tag)) by done. cbn [negb].
  rewrite Hd. ostep. rewrite Hdp. ostep.
  rewrite p_signature, p_zero by done. rewrite !bool_decide_true by done. cbn [negb].
  unfold le_u64, le_u16. rewrite p_offset, p_state, p_key1, p_key2 by done.
  rewrite !le_decode_encode_id
    by (first [done | pose proof (as_u16_range st); cbn; lia]).
  rewrite from_as_u16. destruct s. done.
Qed.

(** A block whose authentication tag is not the one its key gives is refused. *)
Lemma decrypt_bad_tag block vmk :
  verify_crc block = Ok tt ->
  (forall k mac,
     derive_keys (slice OFF_VOLUME_ID 16 (take METADATA_BLOCK_SIZE block))
       (slice OFF_SALT SALT_SIZE (take METADATA_BLOCK_SIZE block)) vmk = Some k ->
     hmac_new (mac_key k) = Some mac ->
     slice OFF_HMAC HMAC_SIZE (take METADATA_BLOCK_SIZE block) <>
     hmac_tag mac (slice OFF_ENCRYPTED_METADATA ENCRYPTED_METADATA_SIZE
                     (take METADATA_BLOCK_SIZE block))) ->
  decrypt_payload block vmk = Err (ValidationFailed "EncryptedMetadata HMAC mismatch").
Proof using CryptoLaws0.
  intros Hv Hbad. unfold decrypt_payload. rewrite Hv. ostep. cbv zeta.
  destruct (derive_keys_ok (slice OFF_VOLUME_ID 16 (take METADATA_BLOCK_SIZE block))
              (slice OFF_SALT SALT_SIZE (take METADATA_BLOCK_SIZE block)) vmk) as (k & Hk & _).
  rewrite Hk. ostep.
  destruct (hmac_new_ok (mac_key k)) as [mac Hm]. rewrite Hm. ostep.
  destruct (hmac_verify mac _ _) eqn:Hver; [|done].
  apply hmac_verify_iff in Hver. destruct (Hbad k mac Hk Hm). done.
Qed.

(** No decoder runs past a block that is too short or carries the wrong
    signature or checksum, and none panics. *)
Lemma verify_crc_ok_iff block :
  verify_crc block = Ok tt <->
  (METADATA_BLOCK_SIZE <= length block)%nat /\ slice OFF_SIGNATURE 4 block = JVCK_SIGNATURE /\
  crc32 (slice 0 CRC_COVERAGE_END block) = le_u32 block OFF_CRC32.
Proof using Type.
  unfold verify_crc. destruct (Nat.ltb_spec (length block) METADATA_BLOCK_SIZE).
  { split; [done|]. lia. }
  case_bool_decide as Hb; cbn [negb].
  - destruct (Z.eqb_spec (crc32 (slice 0 CRC_COVERAGE_END block)) (le_u32 block OFF_CRC32));
      cbn [negb]; split; intros; destruct_and?; done.
  - split; [done|]. intros (_ & ? & _). done.
Qed.

Lemma verify_crc_cases block :
  verify_crc block = Ok tt \/
  exists e, verify_crc block = Err e /\
    (e = SizeMismatch 512 (Z.of_nat (length block)) \/ e = SignatureMismatch \/
     e = ChecksumMismatch).
Proof using Type.
  unfold verify_crc. destruct (_ <? _)%nat; [right; eauto|].
  destruct (negb _); [right; eauto|]. destruct (negb _); [right; eauto|left; done].
Qed.

Lemma read_encrypted_offset_fst block vmk :
  read_encrypted_offset block vmk =
  match decrypt_payload block vmk with
  | Ok (o, _, _) => Ok o
  | Err e => Err e
  | Panic => Panic
  end.
Proof using Type. unfold read_encrypted_offset. destruct decrypt_payload as [[[]]| |]; done. Qed.

Lemma decrypt_payload_no_panic block vmk : decrypt_payload block vmk <> Panic.
Proof using CryptoLaws0.
  unfold decrypt_payload. destruct (verify_crc_cases block) as [->|(e & -> & _)]; [|done].
  ostep. cbv zeta.
  destruct (derive_keys_ok (slice OFF_VOLUME_ID 16 (take METADATA_BLOCK_SIZE block))
              (slice OFF_SALT SALT_SIZE (take METADATA_BLOCK_SIZE block)) vmk) as (k & -> & _).
  ostep. destruct (hmac_new_ok (mac_key k)) as [mac ->]. ostep.
  destruct (negb _); [done|]. destruct (cbc_dec_new _ _); [|done]. ostep.
  destruct (cbc_decrypt _ _); [|done]. ostep. destruct (negb _); [done|].
  destruct (negb _); done.
Qed.
End MetadataProofs.


(** ** A concrete instance of the crypto operations *)

Module ToyCrypto.
Definition sum (l : bytes) : Z := foldl (fun a b => a + byte_val b) 0 l.
Definition shift (k : Z) (l : bytes) : bytes := (fun b => byte_of (byte_val b + k)) <$> l.

#[export] Instance api : CryptoApi := {|
  Hkdf := Z;
  hkdf_new salt ikm := sum salt + 7 * sum ikm;
  hkdf_expand hk info n := Some (le_encode n (hk + sum info));
  CbcEnc := Z;
  cbc_enc_new key iv := Some (sum key + sum iv);
  cbc_encrypt k p := Some (shift k p);
  CbcDec := Z;
  cbc_dec_new key iv := Some (sum key + sum iv);
  cbc_decrypt k c := Some (shift (- k) c);
  Hmac := Z;
  hmac_new key := Some (sum key);
  hmac_tag k data := le_encode 32 (k + sum data);
  hmac_verify k data tag := bool_decide (tag = le_encode 32 (k + sum data));
  crc32 data := sum data mod 2 ^ 32;
|}.

Lemma shift_back k l : shift (- k) (shift k l) = l.
Proof.
  unfold shift. rewrite <- list_fmap_compose.
  rewrite <- (list_fmap_id l) at 2. apply list_fmap_ext. intros i b _. cbn.
  rewrite byte_val_of. rewrite <- (byte_of_val b) at 2. unfold byte_of.
  rewrite Zplus_mod_idemp_l. replace (byte_val b + k + - k) with (byte_val b) by lia. done.
Qed.

#[export] Instance laws : CryptoLaws api.
Proof.
  constructor; intros.
  - eexists. split; [reflexivity|]. apply length_le_encode.
  - split; eexists; reflexivity.
  - cbn in *. simplify_eq. eexists. split_and!; [reflexivity| |].
    + unfold shift. apply length_fmap.
    + f_equal. apply shift_back.
  - cbn in *. simplify_eq. unfold shift. rewrite length_fmap. done.
  - eexists. reflexivity.
  - apply length_le_encode.
  - cbn. apply bool_decide_eq_true.
  - cbn. apply Z.mod_pos_bound. lia.
Qed.

Definition header : JvckHeader :=
  mkHeader 0 1 0 131072 512 0 1 (replicate 16 Byte.x11) (replicate 192 Byte.x22).
Definition secrets : JvckSecrets := mkSecrets (replicate 32 Byte.x33) (replicate 32 Byte.x44).
Definition salt : bytes := replicate 16 Byte.x55.
Definition vmk : bytes := replicate 8 Byte.x66.

Lemma header_ok : header_wf header.
Proof. constructor; vm_compute; (done || (split; [discriminate|reflexivity])). Qed.
Lemma secrets_ok : secrets_wf secrets.
Proof. constructor; reflexivity. Qed.

(** The block of the concrete volume. *)
Definition block : bytes :=
  (encode header secrets 77 Decrypt salt vmk (replicate 512 Byte.x00)).1.

Example block_parses : parse block = Ok header.
Proof. vm_compute. reflexivity. Qed.
Example block_opens : decrypt_payload block vmk = Ok (77, Decrypt, secrets).
Proof. vm_compute. reflexivity. Qed.
End ToyCrypto.

(** ** Properties *)

(** C19: A metadata block round trips. For every well-formed header, payload, salt
    and master key, [encode] into any 512-byte output succeeds; the block it
    leaves is 512 bytes, parses back to the same header, decrypts under the same
    master key to the same boundary, direction and volume keys, and gives the
    same boundary to the recovery scan. *)
Theorem metadata_block_roundtrip {C : CryptoApi} (HC : CryptoLaws C)
    h s o st salt vmk out :
  header_wf h -> secrets_wf s -> in_u 64 o -> length salt = SALT_SIZE ->
  length out = METADATA_BLOCK_SIZE ->
  exists block,
    encode h s o st salt vmk out = (block, Ok tt) /\
    length block = METADATA_BLOCK_SIZE /\
    parse block = Ok h /\
    decrypt_payload block vmk = Ok (o, st, s) /\
    read_encrypted_offset block vmk = Ok o.
Proof.
  intros Hh Hs Ho Hsalt Hout.
  destruct (sealing_exists h s o st salt vmk Hs) as (ct & tag & Hsl).
  exists (sealed_block h salt ct tag). pose proof Hsl as [_ Hc Ht].
  pose proof (sealed_decrypt _ _ _ _ _ _ _ _ Hh Hs Ho Hsalt Hsl) as Hd.
  split_and!.
  - apply encode_run; done.
  - apply length_sealed_block; done.
  - apply sealed_parse; done.
  - done.
  - rewrite read_encrypted_offset_fst, Hd. done.
Qed.

Lemma metadata_block_roundtrip_witness :
  exists block,
    encode (C:=ToyCrypto.api) ToyCrypto.header ToyCrypto.secrets 77 Decrypt ToyCrypto.salt ToyCrypto.vmk
      (replicate METADATA_BLOCK_SIZE Byte.x00) = (block, Ok tt) /\
    length block = METADATA_BLOCK_SIZE /\
    parse (C:=ToyCrypto.api) block = Ok ToyCrypto.header /\
    decrypt_payload (C:=ToyCrypto.api) block ToyCrypto.vmk = Ok (77, Decrypt, ToyCrypto.secrets) /\
    read_encrypted_offset (C:=ToyCrypto.api) block ToyCrypto.vmk = Ok 77.
Proof.
  apply (metadata_block_roundtrip ToyCrypto.laws);
    [exact ToyCrypto.header_ok|exact ToyCrypto.secrets_ok|unfold in_u; lia|reflexivity|reflexivity].
Defined.

(** C20: Only an authentic block opens. [decrypt_payload] never panics, and it
    accepts a block exactly when the block is at least 512 bytes, carries the
    signature and a CRC over its first 508 bytes, its tag is the HMAC of its
    ciphertext under the key derived from the master key, volume id and salt,
    and the decrypted payload starts with the inner signature and the reserved
    zeros; the result then is the payload's boundary, direction and keys. *)
Theorem metadata_accepts_only_authentic {C : CryptoApi} (HC : CryptoLaws C) block vmk :
  decrypt_payload block vmk <> Panic /\
  forall o st s,
    decrypt_payload block vmk = Ok (o, st, s) <->
    (METADATA_BLOCK_SIZE <= length block)%nat /\
    slice OFF_SIGNATURE 4 block = JVCK_SIGNATURE /\
    crc32 (slice 0 CRC_COVERAGE_END block) = le_u32 block OFF_CRC32 /\
    let b := take METADATA_BLOCK_SIZE block in
    let ct := slice OFF_ENCRYPTED_METADATA ENCRYPTED_METADATA_SIZE b in
    exists keys mac dec plain,
      derive_keys (slice OFF_VOLUME_ID 16 b) (slice OFF_SALT SALT_SIZE b) vmk = Some keys /\
      hmac_new (mac_key keys) = Some mac /\
      slice OFF_HMAC HMAC_SIZE b = hmac_tag mac ct /\
      cbc_dec_new (enc_key keys) (enc_iv keys) = Some dec /\
      cbc_decrypt dec ct = Some plain /\
      slice EM_OFF_SIGNATURE 4 plain = JVCK_SIGNATURE /\
      slice EM_OFF_MUST_ZERO 12 plain = replicate 12 Byte.x00 /\
      o = le_u64 plain EM_OFF_ENCRYPTED_OFFSET /\
      st = from_u16 (le_u16 plain EM_OFF_STATE) /\
      s = mkSecrets (slice EM_OFF_FVEK_KEY1 32 plain) (slice EM_OFF_FVEK_KEY2 32 plain).
Proof.
  split; [apply decrypt_payload_no_panic|]. intros o st s. cbv zeta. split.
  - intros H. unfold decrypt_payload in H. apply obind_ok in H as ([] & Hv & H).
    apply verify_crc_ok_iff in Hv. destruct_and!. split_and!; [done..|].
    cbv zeta in H. minv H.
    destruct (hmac_verify _ _ _) eqn:Hver; [|done]. apply hmac_verify_iff in Hver.
    cbn [negb] in H. minv H.
    case_bool_decide as Hin; [|done]. cbn [negb] in H.
    case_bool_decide as Hz; [|done]. cbn [negb] in H. simplify_eq.
    unfold unwrap, ok_or in *. repeat case_match; simplify_eq.
    eexists _, _, _, _. split_and!; done.
  - intros (Hl & Hsig & Hcrc & k & mac & dec & p & Hk & Hm & Ht & Hd & Hp & Hi & Hz & -> & -> & ->).
    unfold decrypt_payload. rewrite (proj2 (verify_crc_ok_iff block)) by done. ostep. cbv zeta.
    rewrite Hk. ostep. rewrite Hm. ostep. rewrite (proj2 (hmac_verify_iff _ _ _) Ht). cbn [negb].
    rewrite Hd. ostep. rewrite Hp. ostep. rewrite !bool_decide_true by done. done.
Qed.

Lemma metadata_accepts_only_authentic_witness :
  decrypt_payload (C:=ToyCrypto.api) ToyCrypto.block ToyCrypto.vmk <> Panic /\
  (METADATA_BLOCK_SIZE <= length ToyCrypto.block)%nat.
Proof.
  pose proof (metadata_accepts_only_authentic ToyCrypto.laws ToyCrypto.block ToyCrypto.vmk)
    as [H1 H2].
  split; [exact H1|]. exact (proj1 (proj1 (H2 _ _ _) ToyCrypto.block_opens)).
Defined.
