(* ===== verification/Codec.v ===== *)
(** * Metadata codecs and replica contexts ([lib/common/src/jvck/codec.rs])

    A codec seals and opens the encrypted payload of a metadata block; the store
    is written against this trait. [CodecLaws] is the contract, and the default
    JVCK suite is proved to meet it from the laws of the crypto crates. *)

From S2P Require Import Prelude Types Sectors Metadata.

(* src: lib/common/src/jvck/codec.rs:37-41 Unsealed *)
Record Unsealed : Type := mkUnsealed {
  un_encrypted_offset : Z;
  un_state : VolumeState;
  un_secrets : JvckSecrets;
}.

(* src: lib/common/src/jvck/codec.rs:49-85 ReplicaCtx *)
Record ReplicaCtx (W : Type) : Type := mkReplicaCtx {
  rc_header : JvckHeader;
  rc_block : bytes;
  rc_io : SectorIo W;
  rc_vendor_base_lba : Z;
  rc_vendor_sector_count : Z;
  rc_sector_size : Z;
  rc_replica_index : nat;
}.
Arguments mkReplicaCtx {W}.
Arguments rc_header {W}.
Arguments rc_block {W}.
Arguments rc_io {W}.
Arguments rc_vendor_base_lba {W}.
Arguments rc_vendor_sector_count {W}.
Arguments rc_sector_size {W}.
Arguments rc_replica_index {W}.

(** The accessors of the raw block. *)
(* src: lib/common/src/jvck/codec.rs:97-100 ReplicaCtx::encrypted_metadata *)
Definition rc_encrypted_metadata {W} (ctx : ReplicaCtx W) : bytes :=
  slice OFF_ENCRYPTED_METADATA ENCRYPTED_METADATA_SIZE (rc_block ctx).
(* src: lib/common/src/jvck/codec.rs:102-105 ReplicaCtx::salt *)
Definition rc_salt {W} (ctx : ReplicaCtx W) : bytes := slice OFF_SALT SALT_SIZE (rc_block ctx).
(* src: lib/common/src/jvck/codec.rs:107-112 ReplicaCtx::volume_id *)
Definition rc_volume_id {W} (ctx : ReplicaCtx W) : bytes := slice OFF_VOLUME_ID 16 (rc_block ctx).

(** A buffer of [len] bytes is a whole, non-zero number of sectors. *)
Definition whole_sectors (ss : Z) (len : nat) : bool :=
  negb (ss =? 0) && negb (Z.of_nat len =? 0) && (Z.of_nat len mod ss =? 0).

(** [rel.checked_add(nsec).is_none_or(|end| end > count)]. *)
Definition vendor_range_bad (rel nsec count : Z) : bool :=
  match checked 64 (rel + nsec) with
  | None => true
  | Some end_ => count <? end_
  end.

Definition bad_vendor_buffer : VckError :=
  InvalidData "vendor data buffer must be a non-zero multiple of the sector size".
Definition bad_vendor_range : VckError :=
  ValidationFailed "vendor data range exceeds the replica region".

(* src: lib/common/src/jvck/codec.rs:124-143 ReplicaCtx::read_vendor_data *)
Definition rc_read_vendor_data {W} (ctx : ReplicaCtx W) (rel_sector : Z) (len : nat) :
    M VckError W bytes :=
  let ss := rc_sector_size ctx in
  if negb (whole_sectors ss len) then mfail bad_vendor_buffer
  else
    let nsec := Z.of_nat len / ss in
    if vendor_range_bad rel_sector nsec (rc_vendor_sector_count ctx) then mfail bad_vendor_range
    else read_sectors (rc_io ctx) (u64_add (rc_vendor_base_lba ctx) rel_sector) len.

(** [seal] works on the output block; [unseal] and [read_offset] may read the
    replica's vendor data. *)
(* src: lib/common/src/jvck/codec.rs:146-177 MetadataCodec *)
Record MetadataCodec (W : Type) : Type := mkCodec {
  mc_unseal : ReplicaCtx W -> bytes -> M VckError W Unsealed;
  mc_seal : JvckHeader -> JvckSecrets -> Z -> VolumeState -> bytes -> bytes ->
            M VckError bytes unit;
  mc_read_offset : ReplicaCtx W -> bytes -> M VckError W Z;
}.
Arguments mkCodec {W}.
Arguments mc_unseal {W}.
Arguments mc_seal {W}.
Arguments mc_read_offset {W}.

(** The trait's default [read_offset]. *)
(* src: lib/common/src/jvck/codec.rs:172-176 MetadataCodec::read_offset *)
Definition default_read_offset {W} (unseal : ReplicaCtx W -> bytes -> M VckError W Unsealed)
    (ctx : ReplicaCtx W) (vmk : bytes) : M VckError W Z :=
  u ← unseal ctx vmk;
  mret (un_encrypted_offset u).

Section Jvck.
Context `{C : CryptoApi} {W : Type}.

(* src: lib/common/src/jvck/codec.rs:179-211 impl MetadataCodec for JvckCbcCodec *)
Definition JvckCbcCodec : MetadataCodec W := {|
  mc_unseal ctx vmk :=
    '(encrypted_offset, state, secrets) ← lift (decrypt_payload (rc_block ctx) vmk);
    mret (mkUnsealed encrypted_offset state secrets);
  mc_seal header secrets encrypted_offset state salt vmk :=
    encode header secrets encrypted_offset state salt vmk;
  mc_read_offset ctx vmk := lift (read_encrypted_offset (rc_block ctx) vmk);
|}.

(* src: lib/common/src/jvck/codec.rs:213-216 default_codec *)
Definition default_codec : MetadataCodec W := JvckCbcCodec.
End Jvck.

(** ** The contract

    Sealing well-formed data fills the block with one that is a valid container
    for the header, and which the same codec opens to the same data; opening
    changes no sector and does not panic. *)

Definition sealed_as `{C : CryptoApi} {W} (c : MetadataCodec W) (inv : W -> Prop) (block : bytes)
    (h : JvckHeader) (s : JvckSecrets) (o : Z) (st : VolumeState) (vmk : bytes) : Prop :=
  verify_crc block = Ok tt /\ parse block = Ok h /\
  (forall ctx w, inv w -> rc_block ctx = block ->
     exists w', mc_unseal c ctx vmk w = (w', Ok (mkUnsealed o st s))) /\
  (forall ctx w, inv w -> rc_block ctx = block ->
     exists w', mc_read_offset c ctx vmk w = (w', Ok o)).

Class CodecLaws `{C : CryptoApi} {W} (c : MetadataCodec W) (inv : W -> Prop)
    (view : W -> Z -> bytes) (total : Z) : Prop := {
  cd_seal h s o st salt vmk out :
    header_wf h -> secrets_wf s -> length salt = SALT_SIZE ->
    length out = METADATA_BLOCK_SIZE ->
    exists block, mc_seal c h s o st salt vmk out = (block, Ok tt) /\
      length block = METADATA_BLOCK_SIZE /\
      (in_u 64 o -> sealed_as c inv block h s o st vmk);
  cd_unseal_keeps ctx vmk : keeps inv view 0 total (mc_unseal c ctx vmk);
  cd_read_keeps ctx vmk : keeps inv view 0 total (mc_read_offset c ctx vmk);
}.

Lemma lift_keeps {W A} (inv : W -> Prop) view lo hi (o : VckResult A) :
  o <> Panic -> keeps inv view lo hi (lift o).
Proof. intros Ho w w' r Hi H. unfold lift in H. simplify_eq. done. Qed.

Lemma bind_keeps {W A B} (inv : W -> Prop) view lo hi (m : M VckError W A)
    (k : A -> M VckError W B) :
  keeps inv view lo hi m -> (forall a, keeps inv view lo hi (k a)) ->
  keeps inv view lo hi (m ≫= k).
Proof.
  intros Hm Hk w w' r Hi H. rewrite mbind_run in H. destruct (m w) as [w1 o] eqn:E.
  destruct (Hm _ _ _ Hi E) as (Hi1 & Hv1 & Hp). destruct o as [a|e|]; simplify_eq; try done.
  destruct (Hk a _ _ _ Hi1 H) as (Hi2 & Hv2 & Hp2). split_and!; try done.
  intros i Hr. rewrite Hv2, Hv1; done.
Qed.

(** The default suite meets the contract. *)
Global Instance JvckCbcCodec_laws `{C : CryptoApi} {HC : CryptoLaws C} {W}
    (inv : W -> Prop) view total : CodecLaws JvckCbcCodec inv view total.
Proof.
  constructor.
  - intros h s o st salt vmk out Hh Hs Hsalt Hout.
    destruct (sealing_exists h s o st salt vmk Hs) as (ct & tag & Hsl).
    pose proof Hsl as [_ Hc Ht].
    exists (sealed_block h salt ct tag). split; [apply encode_run; done|].
    split; [apply length_sealed_block; done|]. intros Ho.
    pose proof (sealed_decrypt _ _ _ _ _ _ _ _ Hh Hs Ho Hsalt Hsl) as Hd.
    split; [apply sealed_verify_crc; done|].
    split; [apply sealed_parse; done|].
    split; intros ctx w _ Hb; exists w; cbn [mc_unseal mc_read_offset JvckCbcCodec]; rewrite Hb.
    + rewrite mbind_run. unfold lift. rewrite Hd. done.
    + unfold lift. rewrite read_encrypted_offset_fst, Hd. done.
  - intros ctx vmk. apply bind_keeps.
    + apply lift_keeps, decrypt_payload_no_panic.
    + intros [[]]. apply mret_keeps.
  - intros ctx vmk. apply lift_keeps. rewrite read_encrypted_offset_fst.
    pose proof (decrypt_payload_no_panic (rc_block ctx) vmk).
    destruct decrypt_payload as [[[]]| |]; done.
Qed.
