(* ===== verification/Store.v ===== *)
(** * The JVCK metadata store ([lib/common/src/jvck/store.rs])

    The replica layout of a volume, the store that keeps the boundary and the
    direction in every replica, and the two-phase reader. A store is stateful:
    its operations run on the pair of the store's own fields and the world
    behind its device. *)

From S2P Require Import Prelude Types Sectors Metadata Codec.

(** ** Layout *)

(* src: lib/common/src/jvck/store.rs:36-44 Geometry *)
Record Geometry : Type := mkGeometry {
  g_offset_sector : Z;
  g_data_sectors : Z;
  g_sector_size : Z;
}.

(** Every caller has checked [sector_size >= 512]. *)
(* src: lib/common/src/jvck/store.rs:69-78 replica_sectors *)
Definition replica_sectors (metadata_size sector_size : Z) : Z := metadata_size / sector_size.

(** [0..n]. *)
Definition upto (n : Z) : list Z := Z.of_nat <$> seq 0 (Z.to_nat n).

(* src: lib/common/src/jvck/store.rs:80-99 metadata_sector_lbas *)
Definition metadata_sector_lbas (volume_sectors replica_sectors use_header use_footer : Z) :
    list Z :=
  let headers := (fun i => u64_mul i replica_sectors) <$> upto use_header in
  let footer_start := u64_sub volume_sectors (u64_mul use_footer replica_sectors) in
  let footers :=
    (fun j =>
       let region_start := u64_add footer_start (u64_mul j replica_sectors) in
       u64_sub (u64_add region_start replica_sectors) 1) <$> upto use_footer in
  headers ++ footers.

(* src: lib/common/src/jvck/store.rs:101-123 vendor_data_base_lba_at *)
Definition vendor_data_base_lba_at (volume_sectors rs use_header use_footer : Z)
    (replica_index : nat) : option Z :=
  let i := Z.of_nat replica_index in
  if i <? use_header then Some (u64_add (u64_mul i rs) 1)
  else if i <? use_header + use_footer then
    let j := i - use_header in
    let footer_start := u64_sub volume_sectors (u64_mul use_footer rs) in
    Some (u64_add footer_start (u64_mul j rs))
  else None.

(* src: lib/common/src/jvck/store.rs:125-154 compute_geometry *)
Definition compute_geometry (sector_size volume_sectors : Z) (options : JvckMetadataOptions) :
    VckResult Geometry :=
  if sector_size <? Z.of_nat METADATA_BLOCK_SIZE then Err (Unsupported "sector size smaller than 512")
  else
    let rs := replica_sectors (opt_metadata_size options) sector_size in
    if rs =? 0 then Err (ValidationFailed "metadata_size smaller than one sector")
    else
      let consumed := u64_mul (replica_count options) rs in
      if volume_sectors <=? consumed then
        Err (ValidationFailed "volume too small to hold metadata replicas")
      else
        Ok {| g_offset_sector := u64_mul (use_header options) rs;
              g_data_sectors := u64_sub volume_sectors consumed;
              g_sector_size := sector_size |}.

(** ** Blocks *)

(* src: lib/common/src/jvck/store.rs:156-166 read_block *)
Definition read_block {W} (io : SectorIo W) (sector_size lba : Z) : M VckError W bytes :=
  sector ← read_sectors io lba (Z.to_nat sector_size);
  lift (range 0 (Z.of_nat METADATA_BLOCK_SIZE) sector).

(* src: lib/common/src/jvck/store.rs:168-179 write_block *)
Definition write_block {W} (io : SectorIo W) (sector_size lba : Z) (block : bytes) :
    M VckError W unit :=
  let sector := replicate (Z.to_nat sector_size) Byte.x00 in
  if (length sector <? METADATA_BLOCK_SIZE)%nat then mpanic
  else write_sectors io lba (splice 0 block sector).

(** ** The store *)

(* src: lib/common/src/jvck/store.rs:46-67 JvckMetadataStore *)
Record JvckMetadataStore (W : Type) : Type := mkStore {
  js_io : SectorIo W;
  js_options : JvckMetadataOptions;
  js_vmk : bytes;
  js_geometry : Geometry;
  js_volume_sectors : Z;
  js_header : JvckHeader;
  js_secrets : JvckSecrets;
  js_offset : Z;
  js_state : Z;
  js_codec : MetadataCodec W;
}.
Arguments mkStore {W}.
Arguments js_io {W}.
Arguments js_options {W}.
Arguments js_vmk {W}.
Arguments js_geometry {W}.
Arguments js_volume_sectors {W}.
Arguments js_header {W}.
Arguments js_secrets {W}.
Arguments js_offset {W}.
Arguments js_state {W}.
Arguments js_codec {W}.

(** The layout a store or a reader addresses its replicas with. *)
Definition layout_rs (options : JvckMetadataOptions) (g : Geometry) : Z :=
  replica_sectors (opt_metadata_size options) (g_sector_size g).
Definition layout_lbas (volume_sectors : Z) (options : JvckMetadataOptions) (g : Geometry) :
    list Z :=
  metadata_sector_lbas volume_sectors (layout_rs options g) (use_header options)
    (use_footer options).
Definition layout_vendor_base (volume_sectors : Z) (options : JvckMetadataOptions) (g : Geometry)
    (replica_index : nat) : option Z :=
  vendor_data_base_lba_at volume_sectors (layout_rs options g) (use_header options)
    (use_footer options) replica_index.

(** [saturating_sub(1)] of the region size. *)
Definition layout_vendor_count (options : JvckMetadataOptions) (g : Geometry) : Z :=
  Z.max 0 (layout_rs options g - 1).

(** The context of replica [idx], whose block has been read and checked. *)
Definition replica_context {W} (io : SectorIo W) (header : JvckHeader) (volume_sectors : Z)
    (options : JvckMetadataOptions) (g : Geometry) (idx : nat) (block : bytes) : ReplicaCtx W :=
  {| rc_header := header; rc_block := block; rc_io := io;
     rc_vendor_base_lba := default 0 (layout_vendor_base volume_sectors options g idx);
     rc_vendor_sector_count := layout_vendor_count options g;
     rc_sector_size := g_sector_size g; rc_replica_index := idx |}.

Section Store.
Context `{C : CryptoApi} {W : Type}.
Context (RNG : option (RandomSource W)).

Abbreviation Store := (JvckMetadataStore W).
Implicit Types s : Store.

Definition set_js_offset (o : Z) (s : Store) : Store :=
  mkStore (js_io s) (js_options s) (js_vmk s) (js_geometry s) (js_volume_sectors s)
    (js_header s) (js_secrets s) o (js_state s) (js_codec s).
Definition set_js_state (st : Z) (s : Store) : Store :=
  mkStore (js_io s) (js_options s) (js_vmk s) (js_geometry s) (js_volume_sectors s)
    (js_header s) (js_secrets s) (js_offset s) st (js_codec s).
Definition set_js_header (h : JvckHeader) (s : Store) : Store :=
  mkStore (js_io s) (js_options s) (js_vmk s) (js_geometry s) (js_volume_sectors s)
    h (js_secrets s) (js_offset s) (js_state s) (js_codec s).

Definition js_lbas (s : Store) : list Z :=
  layout_lbas (js_volume_sectors s) (js_options s) (js_geometry s).

(** [for lba in lbas { write_block(..)?; }]. *)
Definition write_blocks (io : SectorIo W) (sector_size : Z) (lbas : list Z) (block : bytes) :
    M VckError W unit :=
  miter (fun lba => write_block io sector_size lba block) lbas.

(* src: lib/common/src/jvck/store.rs:308-335 JvckMetadataStore::write_all_replicas *)
Definition write_all_replicas (s : Store) : M VckError W unit :=
  salt ← fill_random RNG SALT_SIZE;
  let encrypted_offset := js_offset s in
  let state := from_u16 (js_state s) in
  block ← lift (
    let '(out, r) := mc_seal (js_codec s) (js_header s) (js_secrets s) encrypted_offset state
                       salt (js_vmk s) (replicate METADATA_BLOCK_SIZE Byte.x00) in
    _ ← r; mret out);
  write_blocks (js_io s) (g_sector_size (js_geometry s)) (js_lbas s) block.

(* src: lib/common/src/jvck/store.rs:195-245 JvckMetadataStore::create *)
Definition create (io : SectorIo W) (vmk : bytes) (options : JvckMetadataOptions)
    (key1 key2 volume_id : bytes) (codec : MetadataCodec W) : M VckError W Store :=
  _ ← lift (validate_options options);
  let ss := sector_size io in
  let volume_sectors := total_sectors io in
  geometry ← lift (compute_geometry ss volume_sectors options);
  let header := {|
    h_vendor_id := 0;
    h_metadata_version := 1;
    h_vendor_version := 0;
    h_metadata_size := opt_metadata_size options;
    h_sector_size := ss;
    h_header_replica_count := wrap 8 (use_header options);
    h_footer_replica_count := wrap 8 (use_footer options);
    h_volume_id := volume_id;
    h_vendor_reserved := replicate VENDOR_RESERVED_SIZE Byte.x00;
  |} in
  let store := {|
    js_io := io; js_options := options; js_vmk := vmk; js_geometry := geometry;
    js_volume_sectors := volume_sectors; js_header := header;
    js_secrets := mkSecrets key1 key2; js_offset := 0; js_state := as_u16 Encrypt;
    js_codec := codec
  |} in
  _ ← write_all_replicas store;
  mret store.

(** One round of the recovery scan. *)
Definition load_replica (s : Store) (idx : nat) (lba : Z) (best : option Z) :
    M VckError W (option Z) :=
  block ← attempt (read_block (js_io s) (g_sector_size (js_geometry s)) lba);
  match block with
  | inr _ => mret best
  | inl block =>
      if is_err (verify_crc block) then mret best
      else
        let ctx := replica_context (js_io s) (js_header s) (js_volume_sectors s) (js_options s)
                     (js_geometry s) idx block in
        offset ← attempt (mc_read_offset (js_codec s) ctx (js_vmk s));
        match offset with
        | inl offset => mret (Some (match best with Some b => Z.max b offset | None => offset end))
        | inr _ => mret best
        end
  end.

Fixpoint load_replicas (s : Store) (idx : nat) (lbas : list Z) (best : option Z) :
    M VckError W (option Z) :=
  match lbas with
  | [] => mret best
  | lba :: lbas => best ← load_replica s idx lba best; load_replicas s (S idx) lbas best
  end.

(* src: lib/common/src/jvck/store.rs:247-295 JvckMetadataStore::load_offset *)
Definition load_offset (s : Store) : M VckError W Z :=
  best ← load_replicas s 0 (js_lbas s) None;
  lift (ok_or best (NotFound "no valid JVCK metadata replica")).

(* src: lib/common/src/jvck/store.rs:297-301 JvckMetadataStore::fvek_keys *)
Definition fvek_keys (s : Store) : bytes * bytes :=
  (fvek_key1 (js_secrets s), fvek_key2 (js_secrets s)).
(* src: lib/common/src/jvck/store.rs:303-306 JvckMetadataStore::volume_id *)
Definition js_volume_id (s : Store) : bytes := h_volume_id (js_header s).
(* src: lib/common/src/jvck/store.rs:337-339 JvckMetadataStore::offset_sector *)
Definition js_offset_sector (s : Store) : Z := g_offset_sector (js_geometry s).
(* src: lib/common/src/jvck/store.rs:341-343 JvckMetadataStore::data_sector_count *)
Definition js_data_sector_count (s : Store) : Z := g_data_sectors (js_geometry s).
(* src: lib/common/src/jvck/store.rs:345-347 JvckMetadataStore::sector_size *)
Definition js_sector_size (s : Store) : Z := g_sector_size (js_geometry s).
(* src: lib/common/src/jvck/store.rs:349-351 JvckMetadataStore::footer_replica_count *)
Definition js_footer_replica_count (s : Store) : Z := use_footer (js_options s).
(* src: lib/common/src/jvck/store.rs:353-355 JvckMetadataStore::metadata_size *)
Definition js_metadata_size (s : Store) : Z := opt_metadata_size (js_options s).
(* src: lib/common/src/jvck/store.rs:371-374 JvckMetadataStore::replica_count *)
Definition js_replica_count (s : Store) : nat := Z.to_nat (replica_count (js_options s)).
(* src: lib/common/src/jvck/store.rs:376-380 JvckMetadataStore::vendor_data_sector_count *)
Definition vendor_data_sector_count (s : Store) : Z :=
  layout_vendor_count (js_options s) (js_geometry s).
(* src: lib/common/src/jvck/store.rs:382-392 JvckMetadataStore::vendor_data_base_lba *)
Definition vendor_data_base_lba (s : Store) (replica_index : nat) : option Z :=
  layout_vendor_base (js_volume_sectors s) (js_options s) (js_geometry s) replica_index.

(* src: lib/common/src/jvck/store.rs:394-417 JvckMetadataStore::vendor_data_lba_checked *)
Definition vendor_data_lba_checked (s : Store) (replica_index : nat) (rel_sector : Z)
    (len : nat) : VckResult Z :=
  let ss := g_sector_size (js_geometry s) in
  if negb (whole_sectors ss len) then Err bad_vendor_buffer
  else
    let nsec := Z.of_nat len / ss in
    base ← ok_or (vendor_data_base_lba s replica_index)
             (NotFound "vendor data replica index out of range");
    let count := vendor_data_sector_count s in
    if vendor_range_bad rel_sector nsec count then Err bad_vendor_range
    else Ok (u64_add base rel_sector).

(* src: lib/common/src/jvck/store.rs:419-429 JvckMetadataStore::read_vendor_data *)
Definition read_vendor_data (s : Store) (replica_index : nat) (rel_sector : Z) (len : nat) :
    M VckError W bytes :=
  lba ← lift (vendor_data_lba_checked s replica_index rel_sector len);
  read_sectors (js_io s) lba len.

(* src: lib/common/src/jvck/store.rs:431-441 JvckMetadataStore::write_vendor_data *)
Definition write_vendor_data (s : Store) (replica_index : nat) (rel_sector : Z) (buf : bytes) :
    M VckError W unit :=
  lba ← lift (vendor_data_lba_checked s replica_index rel_sector (length buf));
  write_sectors (js_io s) lba buf.

(* src: lib/common/src/jvck/store.rs:443-458 JvckMetadataStore::write_vendor_data_all *)
Definition write_vendor_data_all (s : Store) (rel_sector : Z) (buf : bytes) : M VckError W unit :=
  _ ← lift (vendor_data_lba_checked s 0 rel_sector (length buf));
  miter (fun i => write_vendor_data s i rel_sector buf) (seq 0 (js_replica_count s)).

(* src: lib/common/src/jvck/store.rs:460-463 JvckMetadataStore::vendor_reserved *)
Definition vendor_reserved (s : Store) : bytes := h_vendor_reserved (js_header s).

Definition with_vendor_reserved (r : bytes) (h : JvckHeader) : JvckHeader :=
  mkHeader (h_vendor_id h) (h_metadata_version h) (h_vendor_version h) (h_metadata_size h)
    (h_sector_size h) (h_header_replica_count h) (h_footer_replica_count h) (h_volume_id h) r.

(** *** As an [EncryptedOffsetStore]

    The world of the trait object: the store's own fields, and the device's. *)

Abbreviation SW := (JvckMetadataStore W * W)%type.

(** Run an operation that reads the store's fields. *)
Definition with_store {A} (f : Store -> M VckError W A) : M VckError SW A :=
  fun sw => let '(w, r) := f sw.1 sw.2 in ((sw.1, w), r).

Definition upd_store (f : Store -> Store) : M VckError SW unit :=
  fun sw => ((f sw.1, sw.2), Ok tt).

(* src: lib/common/src/jvck/store.rs:465-478 JvckMetadataStore::set_vendor_reserved *)
Definition set_vendor_reserved (r : bytes) : M VckError SW unit :=
  _ ← upd_store (fun s => set_js_header (with_vendor_reserved r (js_header s)) s);
  with_store write_all_replicas.

(* src: lib/common/src/jvck/store.rs:481-512 impl EncryptedOffsetStore for JvckMetadataStore *)
Definition Jvck_OffsetStore : EncryptedOffsetStore SW := {|
  st_load := with_store (fun s =>
    sector ← load_offset s;
    mret (mkEncryptedOffset sector (g_data_sectors (js_geometry s))));
  st_store offset :=
    _ ← upd_store (set_js_offset (eo_sector offset));
    with_store write_all_replicas;
  st_flush := mret tt;
  st_load_state := with_store (fun s => mret (from_u16 (js_state s)));
  st_store_state state :=
    _ ← upd_store (set_js_state (as_u16 state));
    with_store write_all_replicas;
|}.

(** The device seen from that world. *)
Definition lift_io (io : SectorIo W) : SectorIo SW := {|
  sector_size := sector_size io;
  total_sectors := total_sectors io;
  read_sectors lba n := on_snd (read_sectors io lba n);
  write_sectors lba buf := on_snd (write_sectors io lba buf);
|}.

(** ** The reader *)

(* src: lib/common/src/jvck/store.rs:514-529 JvckMetadataReader *)
Record JvckMetadataReader : Type := mkReader {
  jr_io : SectorIo W;
  jr_options : JvckMetadataOptions;
  jr_geometry : Geometry;
  jr_volume_sectors : Z;
  jr_header : JvckHeader;
}.

(** The loop over the candidate sectors. *)
Fixpoint open_candidates (io : SectorIo W) (ss volume_sectors : Z) (lbas : list Z) :
    M VckError W JvckMetadataReader :=
  match lbas with
  | [] => mfail (NotFound "no JVCK metadata present")
  | lba :: lbas =>
      block ← read_block io ss lba;
      if is_err (verify_crc block) then open_candidates io ss volume_sectors lbas
      else
        header ← lift (parse block);
        let options := {|
          use_header := h_header_replica_count header;
          use_footer := h_footer_replica_count header;
          opt_metadata_size := h_metadata_size header
        |} in
        geometry ← lift (compute_geometry ss volume_sectors options);
        mret (mkReader io options geometry volume_sectors header)
  end.

(* src: lib/common/src/jvck/store.rs:531-566 JvckMetadataReader::open *)
Definition Reader_open (io : SectorIo W) : M VckError W JvckMetadataReader :=
  let ss := sector_size io in
  if ss <? Z.of_nat METADATA_BLOCK_SIZE then mfail (Unsupported "sector size smaller than 512")
  else
    let volume_sectors := total_sectors io in
    if volume_sectors =? 0 then mfail (NotFound "empty volume")
    else open_candidates io ss volume_sectors [volume_sectors - 1; 0].

Definition jr_lbas (r : JvckMetadataReader) : list Z :=
  layout_lbas (jr_volume_sectors r) (jr_options r) (jr_geometry r).
Definition jr_context (r : JvckMetadataReader) (idx : nat) (block : bytes) : ReplicaCtx W :=
  replica_context (jr_io r) (jr_header r) (jr_volume_sectors r) (jr_options r) (jr_geometry r)
    idx block.

(* src: lib/common/src/jvck/store.rs:579-582 JvckMetadataReader::replica_count *)
Definition jr_replica_count (r : JvckMetadataReader) : nat :=
  Z.to_nat (replica_count (jr_options r)).

(* src: lib/common/src/jvck/store.rs:584-622 JvckMetadataReader::replica_ctx *)
Definition jr_replica_ctx (r : JvckMetadataReader) (replica_index : nat) :
    M VckError W (ReplicaCtx W) :=
  lba ← lift (ok_or (jr_lbas r !! replica_index) (NotFound "replica index out of range"));
  block ← read_block (jr_io r) (g_sector_size (jr_geometry r)) lba;
  _ ← lift (verify_crc block);
  mret (jr_context r replica_index block).

(* src: lib/common/src/jvck/store.rs:624-659 JvckMetadataReader::read_vendor_data *)
Definition jr_read_vendor_data (r : JvckMetadataReader) (replica_index : nat) (rel_sector : Z)
    (len : nat) : M VckError W bytes :=
  let ss := g_sector_size (jr_geometry r) in
  if negb (whole_sectors ss len) then mfail bad_vendor_buffer
  else
    base ← lift (ok_or (layout_vendor_base (jr_volume_sectors r) (jr_options r) (jr_geometry r)
                          replica_index)
                   (NotFound "vendor data replica index out of range"));
    let nsec := Z.of_nat len / ss in
    if vendor_range_bad rel_sector nsec (layout_vendor_count (jr_options r) (jr_geometry r))
    then mfail bad_vendor_range
    else read_sectors (jr_io r) (u64_add base rel_sector) len.

Abbreviation Select := (ReplicaCtx W -> M VckError W (MetadataCodec W * Unsealed)).

(** The loop of [into_store]: the first replica the selector adopts, else the
    last error. *)
Fixpoint select_replica (r : JvckMetadataReader) (select : Select) (idx : nat) (lbas : list Z)
    (last_err : option VckError) : M VckError W (MetadataCodec W * Unsealed) :=
  match lbas with
  | [] =>
      mfail (default (NotFound "no JVCK metadata replica could be unsealed") last_err)
  | lba :: lbas =>
      block ← attempt (read_block (jr_io r) (g_sector_size (jr_geometry r)) lba);
      match block with
      | inr e => select_replica r select (S idx) lbas (Some e)
      | inl block =>
          if is_err (verify_crc block) then select_replica r select (S idx) lbas last_err
          else
            sel ← attempt (select (jr_context r idx block));
            match sel with
            | inl chosen => mret chosen
            | inr e => select_replica r select (S idx) lbas (Some e)
            end
      end
  end.

(* src: lib/common/src/jvck/store.rs:661-753 JvckMetadataReader::into_store *)
Definition into_store (r : JvckMetadataReader) (vmk : bytes) (select : Select) :
    M VckError W Store :=
  '(codec, unsealed) ← select_replica r select 0 (jr_lbas r) None;
  let store := {|
    js_io := jr_io r; js_options := jr_options r; js_vmk := vmk; js_geometry := jr_geometry r;
    js_volume_sectors := jr_volume_sectors r; js_header := jr_header r;
    js_secrets := un_secrets unsealed; js_offset := 0;
    js_state := as_u16 (un_state unsealed); js_codec := codec
  |} in
  o ← attempt (load_offset store);
  let recovered := match o with inl o => o | inr _ => un_encrypted_offset unsealed end in
  mret (set_js_offset recovered store).

(** The selector of [open]: the default suite. *)
Definition default_select (vmk : bytes) : Select := fun ctx =>
  unsealed ← mc_unseal JvckCbcCodec ctx vmk;
  mret (JvckCbcCodec, unsealed).

(* src: lib/common/src/jvck/store.rs:181-193 JvckMetadataStore::open *)
Definition open (io : SectorIo W) (vmk : bytes) : M VckError W Store :=
  r ← Reader_open io;
  into_store r vmk (default_select vmk).
End Store.
Arguments JvckMetadataReader W : clear implicits.

(** ** The UEFI volume

    The firmware's Block I/O protocol and its handle database are what the
    [uefi] crate gives: per handle, the partition's GUID bytes if it is a GPT
    partition, and its media and [read_blocks]. *)

(* src: lib/common/src/jvck/store.rs:777-788 UefiBlockIoVolume *)
Record UefiHandle (W : Type) : Type := mkUefiHandle {
  uh_gpt_guid : option bytes;
  uh_opens : bool;
  uh_media_present : bool;
  uh_block_size : Z;
  uh_media_id : Z;
  uh_last_block : Z;
  uh_read_blocks : Z -> Z -> nat -> M string W bytes;
}.
Arguments mkUefiHandle {W}.
Arguments uh_gpt_guid {W}.
Arguments uh_opens {W}.
Arguments uh_media_present {W}.
Arguments uh_block_size {W}.
Arguments uh_media_id {W}.
Arguments uh_last_block {W}.
Arguments uh_read_blocks {W}.

Definition saturating_add64 (a b : Z) : Z := Z.min (a + b) (2 ^ 64 - 1).

(** [media_id], [sector_size] and [total_sectors] are read once, when the volume
    is located. *)
(* src: lib/common/src/jvck/store.rs:790-805 impl SectorIo for UefiBlockIoVolume *)
Definition UefiBlockIoVolume {W} (h : UefiHandle W) : SectorIo W := {|
  sector_size := uh_block_size h;
  total_sectors := saturating_add64 (uh_last_block h) 1;
  read_sectors lba n := fun w =>
    match uh_read_blocks h (uh_media_id h) lba n w with
    | (w, Ok b) => (w, Ok b)
    | (w, Err e) => (w, Err (Io ("BlockIO.ReadBlocks failed: " +:+ e)))
    | (w, Panic) => (w, Panic)
    end;
  write_sectors _ _ := mfail (Unsupported "loader Block IO volume is read-only");
|}.

(** [handles] is [Err] when the handle buffer cannot be located. *)
(* src: lib/common/src/jvck/store.rs:811-854 locate_block_io_volume *)
Definition locate_block_io_volume {W} (from_bytes_le : bytes -> Guid)
    (handles : outcome string (list (UefiHandle W))) (partition_guid : Guid) :
    VckResult (SectorIo W) :=
  match handles with
  | Panic => Panic
  | Err e => Err (Io ("locate BlockIO handles failed: " +:+ e))
  | Ok handles =>
      let matched h :=
        match uh_gpt_guid h with
        | Some g => bool_decide (guid_from_windows_bytes from_bytes_le g = partition_guid)
        | None => false
        end in
      match list_find (fun h => matched h = true) handles with
      | Some (_, h) =>
          if negb (uh_opens h) then Err (Io "open BlockIO failed")
          else if negb (uh_media_present h) then Err (Io "matched partition has no media present")
          else Ok (UefiBlockIoVolume h)
      | None => Err (NotFound "no Block IO partition matched the target GUID")
      end
  end.

(* src: lib/common/src/jvck/store.rs:856-867 open_volume_footer_uefi *)
Definition open_volume_footer_uefi `{C : CryptoApi} {W} (from_bytes_le : bytes -> Guid)
    (handles : outcome string (list (UefiHandle W))) (partition_guid : Guid) (vmk : bytes) :
    M VckError W (JvckMetadataStore W) :=
  io ← lift (locate_block_io_volume from_bytes_le handles partition_guid);
  open io vmk.
