(* ===== verification/StoreLaws.v ===== *)
(** * Properties of the JVCK metadata store

    The replica layout partitions the volume; the store never touches the data
    region, which discharges the engine's store interface; reopening a volume
    after a complete update gives the same store back; the recovery scan takes
    the largest valid boundary, also after an interrupted update; vendor data
    reads back what was written and touches nothing else. *)

From S2P Require Import Prelude Types Sectors Metadata Codec Store.

(** ** The layout *)

Lemma lookup_upto n k : upto n !! k = if Z.of_nat k <? n then Some (Z.of_nat k) else None.
Proof.
  unfold upto. rewrite list_lookup_fmap. zcase.
  - rewrite lookup_seq_lt by lia. done.
  - rewrite lookup_seq_ge by lia. done.
Qed.

Lemma length_upto n : length (upto n) = Z.to_nat n.
Proof. unfold upto. rewrite length_fmap. apply length_seq. Qed.

(** Regions of [rs] sectors, [uh] at the start and [uf] at the end of the
    volume. *)
Record layout_wf (vs rs uh uf : Z) : Prop := {
  lw_vs : 0 <= vs < 2 ^ 64;
  lw_rs : 0 < rs;
  lw_uh : 0 <= uh;
  lw_uf : 0 <= uf;
  lw_room : (uh + uf) * rs < vs;
}.

Section Layout.
Context (vs rs uh uf : Z).
Hypothesis L : layout_wf vs rs uh uf.

Definition region (k : Z) : Z := if k <? uh then k * rs else vs - (uh + uf) * rs + k * rs.
Definition block_lba (k : Z) : Z := if k <? uh then region k else region k + rs - 1.
Definition vendor_lba (k : Z) : Z := if k <? uh then region k + 1 else region k.

Lemma lbas_lookup k :
  metadata_sector_lbas vs rs uh uf !! k =
  if Z.of_nat k <? uh + uf then Some (block_lba (Z.of_nat k)) else None.
Proof using L.
  destruct L as [Hvs Hrs Huh Huf Hroom].
  unfold metadata_sector_lbas. cbv zeta.
  destruct (decide (Z.of_nat k < uh)) as [Hk|Hk].
  - rewrite lookup_app_l by (rewrite length_fmap, length_upto; lia).
    rewrite list_lookup_fmap, lookup_upto. unfold block_lba, region. zcase; try lia.
    cbn. f_equal. apply u64_mul_id. nia.
  - rewrite lookup_app_r by (rewrite length_fmap, length_upto; lia).
    rewrite list_lookup_fmap, lookup_upto, length_fmap, length_upto.
    unfold block_lba, region. zcase; try lia; [|done].
    cbn. f_equal.
    replace (Z.of_nat (k - Z.to_nat uh)) with (Z.of_nat k - uh) by lia.
    remember (Z.of_nat k) as z.
    assert (0 <= (z - uh) * rs <= (uf - 1) * rs) by nia. assert (0 <= uf * rs < vs) by nia.
    rewrite !u64_mul_id by lia. rewrite (u64_sub_id vs) by lia.
    rewrite (u64_add_id (vs - uf * rs)) by lia. rewrite u64_add_id by lia.
    rewrite u64_sub_id by lia. lia.
Qed.

Lemma vendor_base_lookup k :
  vendor_data_base_lba_at vs rs uh uf k =
  if Z.of_nat k <? uh + uf then Some (vendor_lba (Z.of_nat k)) else None.
Proof using L.
  destruct L as [Hvs Hrs Huh Huf Hroom].
  unfold vendor_data_base_lba_at, vendor_lba, region. cbv zeta.
  remember (Z.of_nat k) as z. assert (0 <= z) by lia.
  zcase; try lia; try done; f_equal.
  - rewrite u64_mul_id by nia. apply u64_add_id. nia.
  - assert (0 <= (z - uh) * rs <= (uf - 1) * rs) by nia. assert (0 <= uf * rs < vs) by nia.
    rewrite !u64_mul_id by lia. rewrite u64_sub_id by lia. rewrite u64_add_id by lia. lia.
Qed.

Lemma region_bounds k :
  0 <= k < uh + uf ->
  0 <= region k /\ region k + rs <= vs /\
  (k < uh -> region k + rs <= uh * rs) /\
  (uh <= k -> uh * rs + (vs - (uh + uf) * rs) <= region k).
Proof using L. destruct L. intros Hk. unfold region. zcase; nia. Qed.

Lemma region_disjoint k1 k2 :
  0 <= k1 -> k1 < k2 -> k2 < uh + uf -> region k1 + rs <= region k2.
Proof using L. destruct L. intros. unfold region. zcase; nia. Qed.

(** A sector of replica [k]'s region. *)
Lemma region_unique k1 k2 l :
  0 <= k1 < uh + uf -> 0 <= k2 < uh + uf ->
  region k1 <= l < region k1 + rs -> region k2 <= l < region k2 + rs -> k1 = k2.
Proof using L.
  intros. destruct (Z.lt_total k1 k2) as [|[|]]; [|done|].
  - pose proof (region_disjoint k1 k2). lia.
  - pose proof (region_disjoint k2 k1). lia.
Qed.

(** Every sector outside the data region is in a replica region. *)
Lemma region_cover l :
  0 <= l < vs -> l < uh * rs \/ uh * rs + (vs - (uh + uf) * rs) <= l ->
  exists k, 0 <= k < uh + uf /\ region k <= l < region k + rs.
Proof using L.
  destruct L as [Hvs Hrs Huh Huf Hroom]. intros Hl [Ho|Ho].
  - exists (l / rs). assert (0 <= l / rs < uh).
    { split; [apply Z.div_pos; lia|apply Z.div_lt_upper_bound; lia]. }
    unfold region. zcase; [|lia].
    pose proof (Z.mul_div_le l rs). pose proof (Z.mul_succ_div_gt l rs). lia.
  - set (q := (l - (vs - uf * rs)) / rs). exists (uh + q).
    assert (0 <= q < uf).
    { unfold q. split; [apply Z.div_pos; lia|apply Z.div_lt_upper_bound; lia]. }
    unfold region. zcase; [lia|].
    pose proof (Z.mul_div_le (l - (vs - uf * rs)) rs).
    pose proof (Z.mul_succ_div_gt (l - (vs - uf * rs)) rs). fold q in H0, H1. nia.
Qed.

Lemma block_in_region k :
  0 <= k < uh + uf -> region k <= block_lba k < region k + rs.
Proof using L. destruct L. unfold block_lba. intros. zcase; lia. Qed.

Lemma vendor_in_region k j :
  0 <= k < uh + uf -> 0 <= j < rs - 1 ->
  region k <= vendor_lba k + j < region k + rs /\ vendor_lba k + j <> block_lba k.
Proof using L. destruct L. unfold block_lba, vendor_lba. intros. zcase; lia. Qed.

Lemma region_split k l :
  0 <= k < uh + uf -> region k <= l < region k + rs ->
  l = block_lba k \/ exists j, 0 <= j < rs - 1 /\ l = vendor_lba k + j.
Proof using L.
  destruct L. unfold block_lba, vendor_lba. intros. zcase.
  - destruct (decide (l = region k)); [by left|right]. exists (l - (region k + 1)). lia.
  - destruct (decide (l = region k + rs - 1)); [by left|right]. exists (l - region k). lia.
Qed.
End Layout.

(** The options the code's types admit, with a replica count that fits a
    [u32]. *)
Record options_wf (o : JvckMetadataOptions) : Prop := {
  ow_header : 0 <= use_header o;
  ow_footer : 0 <= use_footer o;
  ow_count : use_header o + use_footer o < 2 ^ 32;
  ow_size : in_u 32 (opt_metadata_size o);
}.

Lemma compute_geometry_ok ss vs o g :
  in_u 32 ss -> in_u 64 vs -> options_wf o -> compute_geometry ss vs o = Ok g ->
  512 <= ss /\
  let rs := opt_metadata_size o / ss in
  layout_wf vs rs (use_header o) (use_footer o) /\
  g = mkGeometry (use_header o * rs) (vs - (use_header o + use_footer o) * rs) ss.
Proof.
  intros Hss Hvs [] H. unfold compute_geometry, replica_sectors, replica_count in H.
  change (Z.of_nat METADATA_BLOCK_SIZE) with 512 in H. cbv zeta in H.
  destruct (Z.ltb_spec ss 512) as [|Hs]; [done|].
  destruct (Z.eqb_spec (opt_metadata_size o / ss) 0) as [|Hr]; [done|].
  rewrite (wrap_id 32) in H by (unfold in_u; lia).
  unfold in_u in *. set (rs := opt_metadata_size o / ss) in *.
  assert (0 <= rs <= opt_metadata_size o).
  { unfold rs. split; [apply Z.div_pos; lia|apply Z.div_le_upper_bound; nia]. }
  assert (0 <= (use_header o + use_footer o) * rs < 2 ^ 64) by nia.
  rewrite u64_mul_id in H by done.
  destruct (Z.leb_spec vs ((use_header o + use_footer o) * rs)) as [|Hroom]; [done|].
  split; [done|]. cbv zeta. split; [constructor; lia|].
  injection H as <-. rewrite u64_mul_id by nia. rewrite u64_sub_id by lia. done.
Qed.

Lemma compute_geometry_intro ss vs o :
  512 <= ss -> in_u 64 vs -> options_wf o -> 0 < opt_metadata_size o / ss ->
  (use_header o + use_footer o) * (opt_metadata_size o / ss) < vs ->
  compute_geometry ss vs o =
  Ok (mkGeometry (use_header o * (opt_metadata_size o / ss))
        (vs - (use_header o + use_footer o) * (opt_metadata_size o / ss)) ss).
Proof.
  intros Hss Hvs [] Hrs Hroom. unfold compute_geometry, replica_sectors, replica_count.
  change (Z.of_nat METADATA_BLOCK_SIZE) with 512. cbv zeta. unfold in_u in *.
  rewrite (proj2 (Z.ltb_ge _ _)), (proj2 (Z.eqb_neq _ 0)) by lia.
  rewrite (wrap_id 32) by (unfold in_u; lia). rewrite (u64_mul_id (_ + _)) by nia.
  rewrite (proj2 (Z.leb_gt _ _)) by lia. rewrite u64_mul_id, u64_sub_id by nia. done.
Qed.

(** *** What each sector of the volume is for *)

Inductive role : Type :=
| RData (i : Z)
| RBlock (k : nat)
| RVendor (k : nat) (j : Z).

(** The sector the code addresses for a role, if the role exists. *)
Definition role_lba (vs : Z) (o : JvckMetadataOptions) (g : Geometry) (r : role) : option Z :=
  match r with
  | RData i =>
      if (0 <=? i) && (i <? g_data_sectors g) then Some (g_offset_sector g + i) else None
  | RBlock k => layout_lbas vs o g !! k
  | RVendor k j =>
      base ← layout_vendor_base vs o g k;
      if (0 <=? j) && (j <? layout_vendor_count o g) then Some (base + j) else None
  end.

Section Roles.
Context (ss vs : Z) (o : JvckMetadataOptions) (g : Geometry).
Hypothesis Hss : in_u 32 ss.
Hypothesis Hvs : in_u 64 vs.
Hypothesis Ho : options_wf o.
Hypothesis Hg : compute_geometry ss vs o = Ok g.

Abbreviation uh := (use_header o).
Abbreviation uf := (use_footer o).
Abbreviation rs := (opt_metadata_size o / ss).

Lemma geometry_facts :
  512 <= ss /\ layout_wf vs rs uh uf /\ g_offset_sector g = uh * rs /\
  g_data_sectors g = vs - (uh + uf) * rs /\ g_sector_size g = ss /\ layout_rs o g = rs.
Proof using Hss Hvs Ho Hg.
  destruct (compute_geometry_ok _ _ _ _ Hss Hvs Ho Hg) as (H1 & H2 & H3).
  rewrite H3. cbn. done.
Qed.

Lemma layout_lbas_lookup k :
  layout_lbas vs o g !! k =
  if Z.of_nat k <? uh + uf then Some (block_lba vs rs uh uf (Z.of_nat k)) else None.
Proof using Hss Hvs Ho Hg.
  destruct geometry_facts as (_ & HL & _ & _ & _ & Hrs).
  unfold layout_lbas. rewrite Hrs. apply lbas_lookup. done.
Qed.

Lemma length_layout_lbas : length (layout_lbas vs o g) = Z.to_nat (uh + uf).
Proof using Hss Hvs Ho Hg.
  destruct Ho. unfold layout_lbas, metadata_sector_lbas.
  rewrite length_app, !length_fmap, !length_upto. lia.
Qed.

Lemma role_lba_region r l :
  role_lba vs o g r = Some l ->
  0 <= l < vs /\
  match r with
  | RData i => 0 <= i /\ l = uh * rs + i /\ uh * rs <= l < uh * rs + (vs - (uh + uf) * rs)
  | RBlock k => 0 <= Z.of_nat k < uh + uf /\ l = block_lba vs rs uh uf (Z.of_nat k)
  | RVendor k j =>
      0 <= Z.of_nat k < uh + uf /\ 0 <= j < rs - 1 /\
      l = vendor_lba vs rs uh uf (Z.of_nat k) + j
  end.
Proof using Hss Hvs Ho Hg.
  destruct geometry_facts as (_ & HL & Hoff & Hdata & Hs & Hrs). pose proof HL as [].
  destruct r as [i|k|k j]; cbn [role_lba].
  - rewrite Hoff, Hdata. intros H. zcase; simplify_eq; nia.
  - rewrite layout_lbas_lookup. intros H. zcase; simplify_eq.
    pose proof (region_bounds _ _ _ _ HL (Z.of_nat k) ltac:(lia)).
    pose proof (block_in_region _ _ _ _ HL (Z.of_nat k) ltac:(lia)). lia.
  - unfold layout_vendor_base, layout_vendor_count. rewrite Hrs, vendor_base_lookup by done.
    intros H. destruct (Z.ltb_spec (Z.of_nat k) (uh + uf)); [|done]. cbn in H.
    zcase; simplify_eq.
    pose proof (region_bounds _ _ _ _ HL (Z.of_nat k) ltac:(lia)).
    pose proof (vendor_in_region _ _ _ _ HL (Z.of_nat k) j ltac:(lia) ltac:(lia)). lia.
Qed.

Lemma role_lba_inj r1 r2 l :
  role_lba vs o g r1 = Some l -> role_lba vs o g r2 = Some l -> r1 = r2.
Proof using Hss Hvs Ho Hg.
  destruct geometry_facts as (_ & HL & _). pose proof HL as [].
  intros [_ H1]%role_lba_region [_ H2]%role_lba_region.
  pose proof (region_bounds _ _ _ _ HL) as Hb. pose proof (region_unique _ _ _ _ HL) as Hu.
  pose proof (block_in_region _ _ _ _ HL) as Hbl. pose proof (vendor_in_region _ _ _ _ HL) as Hv.
  destruct r1 as [i1|k1|k1 j1], r2 as [i2|k2|k2 j2]; destruct_and!.
  - f_equal. lia.
  - specialize (Hb (Z.of_nat k2)). specialize (Hbl (Z.of_nat k2)). lia.
  - specialize (Hb (Z.of_nat k2)). specialize (Hv (Z.of_nat k2) j2). lia.
  - specialize (Hb (Z.of_nat k1)). specialize (Hbl (Z.of_nat k1)). lia.
  - assert (Z.of_nat k1 = Z.of_nat k2); [|f_equal; lia].
    pose proof (Hbl (Z.of_nat k1)). pose proof (Hbl (Z.of_nat k2)).
    apply (Hu _ _ l); lia.
  - pose proof (Hbl (Z.of_nat k1) ltac:(lia)). pose proof (Hv (Z.of_nat k2) j2 ltac:(lia) ltac:(lia)).
    assert (Z.of_nat k1 = Z.of_nat k2) as He by (apply (Hu _ _ l); lia).
    rewrite He in *. lia.
  - specialize (Hb (Z.of_nat k1)). specialize (Hv (Z.of_nat k1) j1). lia.
  - pose proof (Hbl (Z.of_nat k2) ltac:(lia)). pose proof (Hv (Z.of_nat k1) j1 ltac:(lia) ltac:(lia)).
    assert (Z.of_nat k1 = Z.of_nat k2) as He by (apply (Hu _ _ l); lia).
    rewrite He in *. lia.
  - pose proof (Hv (Z.of_nat k2) j2 ltac:(lia) ltac:(lia)).
    pose proof (Hv (Z.of_nat k1) j1 ltac:(lia) ltac:(lia)).
    assert (Z.of_nat k1 = Z.of_nat k2) as He by (apply (Hu _ _ l); lia).
    rewrite He in *. f_equal; lia.
Qed.

Lemma role_lba_total l : 0 <= l < vs -> exists r, role_lba vs o g r = Some l.
Proof using Hss Hvs Ho Hg.
  destruct geometry_facts as (_ & HL & Hoff & Hdata & _ & Hrs). pose proof HL as []. intros Hl.
  destruct (decide (uh * rs <= l < uh * rs + (vs - (uh + uf) * rs))) as [Hd|Hd].
  - exists (RData (l - uh * rs)). cbn. rewrite Hoff, Hdata. zcase; try lia. f_equal. lia.
  - destruct (region_cover _ _ _ _ HL l Hl ltac:(lia)) as (k & Hk & Hr).
    destruct (region_split _ _ _ _ HL k l Hk Hr) as [->|(j & Hj & ->)].
    + exists (RBlock (Z.to_nat k)). cbn. rewrite layout_lbas_lookup, Z2Nat.id by lia.
      zcase; [done|lia].
    + exists (RVendor (Z.to_nat k) j). cbn. unfold layout_vendor_base, layout_vendor_count.
      rewrite Hrs, vendor_base_lookup, Z2Nat.id by (done || lia). zcase; try lia.
      cbn. zcase; (done || lia).
Qed.

Lemma layout_lba_bounds l :
  l ∈ layout_lbas vs o g ->
  0 <= l < vs /\ (l < g_offset_sector g \/ g_offset_sector g + g_data_sectors g <= l).
Proof using Hss Hvs Ho Hg.
  destruct geometry_facts as (_ & HL & Hoff & Hdata & _). pose proof HL as [].
  intros [k Hk]%list_elem_of_lookup_1. pose proof (role_lba_region (RBlock k) l Hk) as (Hl & Hk2 & ->).
  split; [done|]. rewrite Hoff, Hdata.
  pose proof (region_bounds _ _ _ _ HL (Z.of_nat k) ltac:(lia)).
  pose proof (block_in_region _ _ _ _ HL (Z.of_nat k) ltac:(lia)). lia.
Qed.

Lemma layout_nodup : NoDup (layout_lbas vs o g).
Proof using Hss Hvs Ho Hg.
  apply NoDup_alt. intros i j l Hi Hj.
  pose proof (role_lba_inj (RBlock i) (RBlock j) l Hi Hj). congruence.
Qed.

Lemma layout_last : 0 < uf -> (vs - 1) ∈ layout_lbas vs o g.
Proof using Hss Hvs Ho Hg.
  destruct geometry_facts as (_ & HL & _). pose proof HL as []. intros Hf.
  apply (list_elem_of_lookup_2 _ (Z.to_nat (uh + uf - 1))).
  rewrite layout_lbas_lookup, Z2Nat.id by lia. zcase; [|lia].
  f_equal. unfold block_lba, region. zcase; nia.
Qed.

Lemma layout_first : 0 < uh -> 0 ∈ layout_lbas vs o g.
Proof using Hss Hvs Ho Hg.
  destruct geometry_facts as (_ & HL & _). pose proof HL as []. intros Hf.
  apply (list_elem_of_lookup_2 _ 0). rewrite layout_lbas_lookup. zcase; [|lia].
  f_equal. unfold block_lba, region. zcase; nia.
Qed.
End Roles.

(** ** Blocks on a device *)

(** What [fill_random] gives: [n] bytes, without touching the device. *)
Class FillLaws {W} (RNG : option (RandomSource W)) (inv : W -> Prop) (view : W -> Z -> bytes)
    (total : Z) : Prop := {
  fill_keeps n : keeps inv view 0 total (fill_random RNG n);
  fill_len n w w' b : inv w -> fill_random RNG n w = (w', Ok b) -> length b = n;
}.

Class FillReliable {W} (RNG : option (RandomSource W)) (inv : W -> Prop) : Prop :=
  fill_ok n w : inv w -> is_ok (fill_random RNG n w).2 = true.

(** The metadata block of a sector, and the sector a block is written as. *)
Definition block_of (sector : bytes) : bytes := slice 0 METADATA_BLOCK_SIZE sector.
Definition padded (ss : Z) (block : bytes) : bytes :=
  splice 0 block (replicate (Z.to_nat ss) Byte.x00).

Lemma block_of_padded ss block :
  512 <= ss -> length block = METADATA_BLOCK_SIZE -> block_of (padded ss block) = block.
Proof.
  intros Hs Hb. apply slice_splice_same; [done|].
  rewrite length_replicate, Hb. unfold METADATA_BLOCK_SIZE. lia.
Qed.

Lemma length_padded ss block :
  512 <= ss -> length block = METADATA_BLOCK_SIZE -> length (padded ss block) = Z.to_nat ss.
Proof.
  intros Hs Hb. unfold padded. rewrite length_splice, length_replicate; [done|].
  rewrite length_replicate, Hb. unfold METADATA_BLOCK_SIZE. lia.
Qed.

Section Device.
Context {W : Type} (io : SectorIo W) (inv : W -> Prop) (view : W -> Z -> bytes).
Context {IL : SectorIoLaws io inv view}.
Abbreviation ss := (sector_size io).
Abbreviation total := (total_sectors io).
Hypothesis Hss : 512 <= ss.

Lemma read_block_run lba w w' r :
  inv w -> 0 <= lba < total -> read_block io ss lba w = (w', r) ->
  inv w' /\ (forall i, 0 <= i < total -> view w' i = view w i) /\
  match r with
  | Ok b => b = block_of (view w lba)
  | Err _ => True
  | Panic => False
  end.
Proof using IL Hss.
  intros Hi Hl H. unfold read_block in H. rewrite mbind_run in H.
  replace (Z.to_nat ss) with (1 * Z.to_nat ss)%nat in H by lia.
  destruct (read_sectors io lba (1 * Z.to_nat ss) w) as [w1 r1] eqn:E.
  destruct (io_read w lba 1 w1 r1 Hi ltac:(lia) ltac:(lia) E) as (Hi1 & Hv1 & Hr).
  destruct r1 as [b|e|]; [|simplify_eq; done|done]. subst b.
  unfold lift in H. cbn [read_run fmap list_fmap seq concat] in H. rewrite app_nil_r in H.
  rewrite Z.add_0_r in H. pose proof (io_len w lba Hi Hl) as Hlen.
  rewrite range_ok in H by (rewrite ?Hlen; unfold METADATA_BLOCK_SIZE; lia).
  simplify_eq. done.
Qed.

Lemma read_block_ok {RL : SectorIoReads io inv} lba w :
  inv w -> 0 <= lba < total ->
  exists w', read_block io ss lba w = (w', Ok (block_of (view w lba))).
Proof using IL Hss.
  intros Hi Hl. destruct (read_block io ss lba w) as [w' r] eqn:E. exists w'.
  destruct (read_block_run _ _ _ _ Hi Hl E) as (_ & _ & Hr).
  destruct r as [b|e|]; [subst; done| |done]. exfalso.
  unfold read_block in E. rewrite mbind_run in E.
  replace (Z.to_nat ss) with (1 * Z.to_nat ss)%nat in E by lia.
  pose proof (io_reads_ok w lba 1 Hi ltac:(lia) ltac:(lia) ltac:(pose proof (io_ss (io:=io)); lia)) as Hok.
  destruct (read_sectors io lba (1 * Z.to_nat ss) w) as [w1 r1] eqn:E1.
  cbn in Hok. destruct r1 as [b| |]; [|done..]. unfold lift, range in E. case_match; done.
Qed.

Lemma write_block_run lba block w w' r :
  inv w -> 0 <= lba < total -> length block = METADATA_BLOCK_SIZE ->
  write_block io ss lba block w = (w', r) ->
  inv w' /\ (forall i, 0 <= i < total -> i <> lba -> view w' i = view w i) /\
  match r with
  | Ok _ => view w' lba = padded ss block
  | Err _ => True
  | Panic => False
  end.
Proof using IL Hss.
  intros Hi Hl Hb H. unfold write_block in H. cbv zeta in H.
  rewrite length_replicate in H. rewrite (proj2 (Nat.ltb_ge _ _)) in H
    by (unfold METADATA_BLOCK_SIZE; lia).
  change (splice _ _ _) with (padded ss block) in H.
  replace (padded ss block) with (concat [padded ss block]) in H by (cbn; apply app_nil_r).
  destruct (io_write w lba [padded ss block] w' r Hi ltac:(lia) ltac:(cbn; lia)) as [Hi' Hr];
    [|done|].
  { repeat constructor. apply length_padded; done. }
  split; [done|]. destruct r as [u|e|]; [|split; [|done]|done].
  - split; intros.
    + rewrite Hr by done. apply write_run_out. cbn. lia.
    + rewrite Hr by done. rewrite write_run_in by (cbn; lia). rewrite Z.sub_diag. done.
  - intros. apply Hr; cbn; lia.
Qed.

Lemma write_block_ok {RL : SectorIoReliable io inv} lba block w :
  inv w -> 0 <= lba < total -> length block = METADATA_BLOCK_SIZE ->
  is_ok (write_block io ss lba block w).2 = true.
Proof using IL Hss.
  intros Hi Hl Hb. unfold write_block. cbv zeta. rewrite length_replicate.
  rewrite (proj2 (Nat.ltb_ge _ _)) by (unfold METADATA_BLOCK_SIZE; lia).
  change (splice _ _ _) with (padded ss block).
  replace (padded ss block) with (concat [padded ss block]) by (cbn; apply app_nil_r).
  pose proof (io_ss (io:=io)) as H32.
  apply (io_write_ok (io:=io)); cbn [length]; [done|lia..|].
  repeat constructor. apply length_padded; done.
Qed.

(** Writing a block to a list of sectors: the sectors done before a failure hold
    the block, the one that failed is in any state, and every other sector is as
    it was. *)
Lemma write_blocks_run lbas block w w' r :
  inv w -> Forall (fun l => 0 <= l < total) lbas -> NoDup lbas ->
  length block = METADATA_BLOCK_SIZE ->
  write_blocks io ss lbas block w = (w', r) ->
  inv w' /\ r <> Panic /\
  (forall i, 0 <= i < total -> i ∉ lbas -> view w' i = view w i) /\
  exists n, (n <= length lbas)%nat /\ (is_ok r = true -> n = length lbas) /\
    (forall k l, lbas !! k = Some l -> (k < n)%nat -> view w' l = padded ss block) /\
    (forall k l, lbas !! k = Some l -> (n < k)%nat -> view w' l = view w l).
Proof using IL Hss.
  unfold write_blocks. intros Hi Hb Hn Hl. revert w Hi.
  induction lbas as [|l lbas IH]; intros w Hi H.
  - cbn in H. unfold mret, M_ret in H. simplify_eq. split_and!; try done.
    exists 0%nat. split_and!; done.
  - apply Forall_cons in Hb as [Hl0 Hb]. apply NoDup_cons in Hn as [Hni Hn].
    cbn [miter] in H. rewrite mbind_run in H.
    destruct (write_block io ss l block w) as [w1 r1] eqn:E.
    destruct (write_block_run _ _ _ _ _ Hi Hl0 Hl E) as (Hi1 & Hv1 & Hr1).
    destruct r1 as [u|e|]; [|simplify_eq|done].
    + destruct (IH Hb Hn w1 Hi1 H) as (Hi' & Hp & Hv & n & Hnl & Hok & Hd & Hk).
      split_and!; [done|done| |].
      * intros i Hr Hne. apply not_elem_of_cons in Hne as [Hne Hne2].
        rewrite Hv by done. apply Hv1; done.
      * exists (S n). cbn [length]. split_and!.
        -- lia.
        -- intros Hr. rewrite Hok; done.
        -- intros [|k] l' Hk' Hlt; cbn in Hk'.
           ++ simplify_eq. rewrite Hv by done. done.
           ++ apply (Hd k); [done|lia].
        -- intros [|k] l' Hk' Hlt; cbn in Hk'; [lia|].
           rewrite (Hk k) by (done || lia). apply Hv1.
           ++ rewrite Forall_forall in Hb. apply Hb. eapply list_elem_of_lookup_2. done.
           ++ intros ->. apply Hni. eapply list_elem_of_lookup_2. done.
    + split_and!; [done|done| |].
      * intros i Hr Hne. apply not_elem_of_cons in Hne as [Hne Hne2]. apply Hv1; done.
      * exists 0%nat. split_and!; [lia|done|lia|].
        intros [|k] l' Hk' Hlt; cbn in Hk'; [lia|]. apply Hv1.
        -- rewrite Forall_forall in Hb. apply Hb. eapply list_elem_of_lookup_2. done.
        -- intros ->. apply Hni. eapply list_elem_of_lookup_2. done.
Qed.

Lemma write_blocks_ok {RL : SectorIoReliable io inv} lbas block w :
  inv w -> Forall (fun l => 0 <= l < total) lbas -> length block = METADATA_BLOCK_SIZE ->
  is_ok (write_blocks io ss lbas block w).2 = true.
Proof using IL Hss.
  unfold write_blocks. intros Hi Hb Hl. revert w Hi.
  induction lbas as [|l lbas IH]; intros w Hi; [done|].
  apply Forall_cons in Hb as [Hl0 Hb]. cbn [miter]. rewrite mbind_run.
  pose proof (write_block_ok l block w Hi Hl0 Hl) as Hok.
  destruct (write_block io ss l block w) as [w1 r1] eqn:E.
  destruct (write_block_run _ _ _ _ _ Hi Hl0 Hl E) as (Hi1 & _). cbn in Hok.
  destruct r1; [|done..]. apply IH; done.
Qed.
End Device.

(** ** The store *)

Section StoreProofs.
Context `{C : CryptoApi} {W : Type} (RNG : option (RandomSource W)).
Context (io : SectorIo W) (inv : W -> Prop) (view : W -> Z -> bytes).
Context {IL : SectorIoLaws io inv view}.
Context {FL : FillLaws RNG inv view (total_sectors io)}.
Abbreviation ss := (sector_size io).
Abbreviation total := (total_sectors io).

Record store_wf (s : JvckMetadataStore W) : Prop := {
  sw_io : js_io s = io;
  sw_volume : js_volume_sectors s = total;
  sw_options : options_wf (js_options s);
  sw_some : 0 < use_header (js_options s) + use_footer (js_options s);
  sw_geometry : compute_geometry ss total (js_options s) = Ok (js_geometry s);
  sw_header : header_wf (js_header s);
  sw_secrets : secrets_wf (js_secrets s);
  sw_codec : CodecLaws (js_codec s) inv view total;
}.

Lemma ss_32 : in_u 32 ss.
Proof using IL. pose proof (io_ss (io:=io)). unfold in_u. lia. Qed.
Lemma total_64 : in_u 64 total.
Proof using IL. pose proof (io_total (io:=io)). done. Qed.

Section One.
Context (s : JvckMetadataStore W).
Hypothesis S : store_wf s.

Lemma store_ss : 512 <= ss /\ g_sector_size (js_geometry s) = ss.
Proof using S IL.
  destruct S as [_ _ Ho _ Hg _ _ _].
  destruct (geometry_facts _ _ _ _ ss_32 total_64 Ho Hg) as (H1 & _ & _ & _ & H5 & _). done.
Qed.

Lemma js_lbas_layout : js_lbas s = layout_lbas total (js_options s) (js_geometry s).
Proof using S. unfold js_lbas. rewrite (sw_volume _ S). done. Qed.

Lemma js_lbas_range : Forall (fun l => 0 <= l < total) (js_lbas s).
Proof using S IL.
  rewrite js_lbas_layout. destruct S as [_ _ Ho _ Hg _ _ _]. apply Forall_forall. intros l Hl.
  apply (layout_lba_bounds _ _ _ _ ss_32 total_64 Ho Hg l Hl).
Qed.

Lemma js_lbas_data i :
  g_offset_sector (js_geometry s) <= i <
    g_offset_sector (js_geometry s) + g_data_sectors (js_geometry s) ->
  0 <= i < total /\ i ∉ js_lbas s.
Proof using S IL.
  rewrite js_lbas_layout. destruct S as [_ _ Ho _ Hg _ _ _]. intros Hi. split.
  - destruct (geometry_facts _ _ _ _ ss_32 total_64 Ho Hg) as (_ & [] & H3 & H4 & _). nia.
  - intros Hl. pose proof (layout_lba_bounds _ _ _ _ ss_32 total_64 Ho Hg i Hl). lia.
Qed.

Lemma js_lbas_nodup : NoDup (js_lbas s).
Proof using S IL.
  rewrite js_lbas_layout. destruct S as [_ _ Ho _ Hg _ _ _].
  apply (layout_nodup _ _ _ _ ss_32 total_64 Ho Hg).
Qed.

Lemma js_lbas_nonempty : js_lbas s <> [].
Proof using S IL.
  rewrite js_lbas_layout. destruct S as [_ _ Ho Hs Hg _ _ _]. intros He.
  pose proof (length_layout_lbas _ _ _ _ ss_32 total_64 Ho Hg) as Hl. rewrite He in Hl.
  cbn in Hl. lia.
Qed.

(** The replicas [w'] holds after an update of [w] that wrote [block] to the
    first [n] of them: those hold it, the next one may be torn, and the rest are
    as they were. *)
Definition updated (w w' : W) (block : bytes) (n : nat) : Prop :=
  (n <= length (js_lbas s))%nat /\
  (forall k l, js_lbas s !! k = Some l -> (k < n)%nat -> view w' l = padded ss block) /\
  (forall k l, js_lbas s !! k = Some l -> (n < k)%nat -> view w' l = view w l).

Definition sealed_store (block : bytes) : Prop :=
  sealed_as (js_codec s) inv block (js_header s) (js_secrets s) (js_offset s)
    (from_u16 (js_state s)) (js_vmk s).

Lemma write_all_run w w' r :
  inv w -> write_all_replicas RNG s w = (w', r) ->
  inv w' /\ r <> Panic /\
  (forall i, 0 <= i < total -> i ∉ js_lbas s -> view w' i = view w i) /\
  ((is_ok r = false /\ forall i, 0 <= i < total -> view w' i = view w i) \/
   exists block n, length block = METADATA_BLOCK_SIZE /\
     (in_u 64 (js_offset s) -> sealed_store block) /\ updated w w' block n /\
     (is_ok r = true -> n = length (js_lbas s))).
Proof using S IL FL.
  destruct store_ss as [Hss Hgs]. intros Hi H. unfold write_all_replicas in H.
  rewrite mbind_run in H. destruct (fill_random RNG SALT_SIZE w) as [w1 r1] eqn:E1.
  destruct (fill_keeps SALT_SIZE w w1 r1 Hi E1) as (Hi1 & Hv1 & Hp1).
  destruct r1 as [salt|e|]; [|simplify_eq; split_and!; auto|done].
  pose proof (fill_len _ _ _ _ Hi E1) as Hsalt. cbv zeta in H.
  rewrite mbind_run in H. unfold lift in H.
  destruct (cd_seal (CodecLaws:=sw_codec _ S) (js_header s) (js_secrets s) (js_offset s)
              (from_u16 (js_state s)) salt (js_vmk s)
              (replicate METADATA_BLOCK_SIZE Byte.x00) (sw_header _ S) (sw_secrets _ S) Hsalt
              (length_replicate _ _)) as (block & Hsl & Hbl & Hsealed).
  rewrite Hsl in H. cbn [mbind outcome_bind mret outcome_ret] in H.
  rewrite Hgs, (sw_io _ S) in H.
  destruct (write_blocks_run io inv view Hss (js_lbas s) block w1 w' r Hi1 js_lbas_range
              js_lbas_nodup Hbl H) as (Hi' & Hp & Hv & n & Hnl & Hok & Hd & Hk).
  split_and!; [done|done| |right].
  - intros i Hr Hni. rewrite Hv, Hv1; done.
  - exists block, n. split_and!; [done|done| |done]. split_and!; [done|done|].
    intros k l Hkl Hnk. rewrite (Hk k) by done. apply Hv1.
    pose proof js_lbas_range as Hf. rewrite Forall_forall in Hf. apply Hf.
    eapply list_elem_of_lookup_2. done.
Qed.

Lemma write_all_ok {RL : SectorIoReliable io inv} {FR : FillReliable RNG inv} w :
  inv w -> is_ok (write_all_replicas RNG s w).2 = true.
Proof using S IL FL.
  destruct store_ss as [Hss Hgs]. intros Hi. unfold write_all_replicas.
  rewrite mbind_run. pose proof (fill_ok SALT_SIZE w Hi) as Hf.
  destruct (fill_random RNG SALT_SIZE w) as [w1 r1] eqn:E1. cbn in Hf.
  destruct (fill_keeps SALT_SIZE w w1 r1 Hi E1) as (Hi1 & _).
  destruct r1 as [salt| |]; [|done..].
  pose proof (fill_len _ _ _ _ Hi E1) as Hsalt. cbv zeta. rewrite mbind_run. unfold lift.
  destruct (cd_seal (CodecLaws:=sw_codec _ S) (js_header s) (js_secrets s) (js_offset s)
              (from_u16 (js_state s)) salt (js_vmk s)
              (replicate METADATA_BLOCK_SIZE Byte.x00) (sw_header _ S) (sw_secrets _ S) Hsalt
              (length_replicate _ _)) as (block & -> & Hbl & _).
  cbn [mbind outcome_bind mret outcome_ret]. rewrite Hgs, (sw_io _ S).
  apply (write_blocks_ok io inv view Hss); [done|apply js_lbas_range|done].
Qed.

(** *** The recovery scan *)

(** What a replica contributes to the scan: nothing if its CRC is wrong, its
    boundary if it is sealed for this store. *)
Inductive offers (sector : bytes) : option Z -> Prop :=
| offers_none : is_err (verify_crc (block_of sector)) = true -> offers sector None
| offers_some h sec o st :
    sealed_as (js_codec s) inv (block_of sector) h sec o st (js_vmk s) ->
    offers sector (Some o).

Definition take_max (best offer : option Z) : option Z :=
  match offer with
  | None => best
  | Some o => Some (match best with Some b => Z.max b o | None => o end)
  end.

Lemma load_replica_run {RL : SectorIoReads io inv} idx lba w best offer :
  inv w -> 0 <= lba < total -> offers (view w lba) offer ->
  exists w', load_replica s idx lba best w = (w', Ok (take_max best offer)) /\
    inv w' /\ forall i, 0 <= i < total -> view w' i = view w i.
Proof using S IL.
  destruct store_ss as [Hss Hgs]. intros Hi Hl Hof. unfold load_replica.
  rewrite Hgs, (sw_io _ S), mbind_run. unfold attempt at 1.
  destruct (read_block_ok io inv view Hss lba w Hi Hl) as [w1 E]. rewrite E.
  destruct (read_block_run io inv view Hss _ _ _ _ Hi Hl E) as (Hi1 & Hv1 & _).
  destruct Hof as [Hbad|h sec o st (Hcrc & _ & _ & Hread)].
  - rewrite Hbad. eexists. split; [reflexivity|]. done.
  - rewrite Hcrc. cbn [is_err]. rewrite mbind_run. unfold attempt.
    set (ctx := replica_context _ _ _ _ _ _ _).
    destruct (Hread ctx w1 Hi1 eq_refl) as [w2 E2]. rewrite E2.
    destruct (cd_read_keeps (CodecLaws:=sw_codec _ S) ctx (js_vmk s) w1 w2 _ Hi1 E2)
      as (Hi2 & Hv2 & _).
    eexists. split; [reflexivity|]. split; [done|]. intros i Hr. rewrite Hv2, Hv1; done.
Qed.

Lemma load_replicas_run {RL : SectorIoReads io inv} lbas offer idx w best :
  inv w -> Forall (fun l => 0 <= l < total) lbas ->
  Forall2 (fun l => offers (view w l)) lbas offer ->
  exists w', load_replicas s idx lbas best w = (w', Ok (foldl take_max best offer)) /\
    inv w' /\ forall i, 0 <= i < total -> view w' i = view w i.
Proof using S IL.
  intros Hi Hb Hf. revert idx w best Hi Hf Hb.
  revert offer. induction lbas as [|l lbas IH]; intros offer idx w best Hi Hf Hb.
  - inversion Hf; subst. eexists. split; [reflexivity|]. done.
  - apply Forall2_cons_inv_l in Hf as (o & os & Ho & Hf & ->).
    apply Forall_cons in Hb as [Hl Hb]. cbn [load_replicas foldl].
    destruct (load_replica_run idx l w best o Hi Hl Ho) as (w1 & E & Hi1 & Hv1).
    rewrite mbind_run, E. cbv beta iota.
    assert (Forall2 (fun l => offers (view w1 l)) lbas os) as Hf1.
    { clear - Hf Hv1 Hb. induction Hf as [|l o ls os Ho _ IHf]; constructor.
      - apply Forall_cons in Hb as [Hl _]. rewrite Hv1 by done. done.
      - apply Forall_cons in Hb as [_ Hb]. apply IHf. done. }
    destruct (IH os (Datatypes.S idx) w1 (take_max best o) Hi1 Hf1 Hb) as (w2 & E2 & Hi2 & Hv2).
    exists w2. split; [done|]. split; [done|]. intros i Hr. rewrite Hv2, Hv1; done.
Qed.

Lemma load_offset_run {RL : SectorIoReads io inv} w offer :
  inv w -> Forall2 (fun l => offers (view w l)) (js_lbas s) offer ->
  exists w', load_offset s w =
      (w', ok_or (foldl take_max None offer) (NotFound "no valid JVCK metadata replica")) /\
    inv w' /\ forall i, 0 <= i < total -> view w' i = view w i.
Proof using S IL.
  intros Hi Hf. unfold load_offset. rewrite mbind_run.
  destruct (load_replicas_run _ _ 0 w None Hi js_lbas_range Hf) as (w' & E & Hi' & Hv').
  rewrite E. exists w'. done.
Qed.

Lemma take_max_some best offer :
  foldl take_max (Some best) offer =
  Some (foldl Z.max best (omap id offer)).
Proof using Type.
  revert best. induction offer as [|[o|] offer IH]; intros best; cbn; [done|..]; apply IH.
Qed.
End One.

Lemma store_wf_offset s o : store_wf s -> store_wf (set_js_offset o s).
Proof using Type. intros []. constructor; done. Qed.
Lemma store_wf_state s st : store_wf s -> store_wf (set_js_state st s).
Proof using Type. intros []. constructor; done. Qed.
Lemma store_wf_reserved s r :
  length r = VENDOR_RESERVED_SIZE -> store_wf s ->
  store_wf (set_js_header (with_vendor_reserved r (js_header s)) s).
Proof using Type.
  intros Hr []. constructor; try done. cbn. destruct sw_header0. constructor; done.
Qed.

(** The scan does not look at the cached boundary. *)
Lemma load_offset_set o (s : JvckMetadataStore W) w : load_offset (set_js_offset o s) w = load_offset s w.
Proof using Type.
  assert (forall lbas idx best w, load_replicas (set_js_offset o s) idx lbas best w =
            load_replicas s idx lbas best w) as H.
  { induction lbas as [|l lbas IH]; intros idx best w0; [done|]. cbn [load_replicas].
    rewrite !mbind_run. change (load_replica (set_js_offset o s)) with (load_replica s).
    destruct (load_replica s idx l best w0) as [w1 [b| |]]; [apply IH|done..]. }
  unfold load_offset. rewrite !mbind_run, H. done.
Qed.

(** Every replica holds one block, sealed from the store. *)
Definition synced (s : JvckMetadataStore W) (w : W) : Prop :=
  exists block, length block = METADATA_BLOCK_SIZE /\ sealed_store s block /\
    forall l, l ∈ js_lbas s -> view w l = padded ss block.

Lemma write_all_synced s w w' :
  store_wf s -> inv w -> in_u 64 (js_offset s) -> write_all_replicas RNG s w = (w', Ok tt) ->
  inv w' /\ synced s w' /\
  forall i, 0 <= i < total -> i ∉ js_lbas s -> view w' i = view w i.
Proof using IL FL.
  intros S Hi Ho H. destruct (write_all_run s S w w' _ Hi H) as (Hi' & _ & Hv & [[? _]|Hb]); [done|].
  destruct Hb as (block & n & Hl & Hsl & (Hn & Hd & _) & Hok). split; [done|]. split; [|done].
  exists block. split_and!; [done|auto|]. intros l [k Hk]%list_elem_of_lookup_1.
  apply (Hd k l Hk). rewrite Hok by done. apply lookup_lt_Some in Hk. done.
Qed.

Lemma synced_ext s w w' :
  store_wf s -> (forall i, 0 <= i < total -> view w' i = view w i) -> synced s w -> synced s w'.
Proof using IL.
  intros S Hv (block & Hl & Hs & Hr). exists block. split_and!; [done..|]. intros l Hin.
  pose proof (js_lbas_range s S) as Hf. rewrite Forall_forall in Hf.
  rewrite Hv by (apply Hf; done). apply Hr. done.
Qed.

Lemma synced_block s w l :
  store_wf s -> synced s w -> l ∈ js_lbas s ->
  exists block, block_of (view w l) = block /\ sealed_store s block.
Proof using IL.
  intros S (block & Hl & Hs & Hr) Hin. exists block. split; [|done].
  rewrite Hr by done. apply block_of_padded; [|done]. apply (store_ss s S).
Qed.

Lemma synced_offers s w :
  store_wf s -> synced s w ->
  Forall2 (fun l => offers s (view w l)) (js_lbas s)
    (replicate (length (js_lbas s)) (Some (js_offset s))).
Proof using IL.
  intros S Hs. apply Forall2_same_length_lookup_2; [rewrite length_replicate; done|].
  intros i l o Hl [-> _]%lookup_replicate_1.
  destruct (synced_block s w l S Hs) as (b & Hb & Hsl); [eapply list_elem_of_lookup_2; done|].
  eapply offers_some. rewrite Hb. apply Hsl.
Qed.

Lemma fold_max_same n o : foldl take_max (Some o) (replicate n (Some o)) = Some o.
Proof using Type. induction n as [|n IH]; [done|]. cbn. rewrite Z.max_id. done. Qed.

(** A synced store loads its own boundary back. *)
Lemma synced_load {RL : SectorIoReads io inv} s w :
  store_wf s -> inv w -> synced s w ->
  exists w', load_offset s w = (w', Ok (js_offset s)) /\ inv w' /\
    forall i, 0 <= i < total -> view w' i = view w i.
Proof using IL.
  intros S Hi Hs.
  destruct (load_offset_run s S w _ Hi (synced_offers s w S Hs)) as (w' & E & Hi' & Hv').
  exists w'. split; [|done]. rewrite E.
  destruct (js_lbas s) as [|l ls] eqn:El; [destruct (js_lbas_nonempty s S El)|].
  cbn. rewrite fold_max_same. done.
Qed.

(** *** Opening *)

(** The plaintext header carries the options of the store. *)
Record header_matches (s : JvckMetadataStore W) : Prop := {
  hm_header : h_header_replica_count (js_header s) = use_header (js_options s);
  hm_footer : h_footer_replica_count (js_header s) = use_footer (js_options s);
  hm_size : h_metadata_size (js_header s) = opt_metadata_size (js_options s);
}.

(** The last sector identifies the volume: it is a footer block, or holds none. *)
Definition last_sector_clear (s : JvckMetadataStore W) (w : W) : Prop :=
  0 < use_footer (js_options s) \/ is_err (verify_crc (block_of (view w (total - 1)))) = true.

Definition reader_of (s : JvckMetadataStore W) : JvckMetadataReader W :=
  mkReader io (js_options s) (js_geometry s) total (js_header s).

(** The layout the plaintext header announces. *)
Definition header_options (h : JvckHeader) : JvckMetadataOptions :=
  mkOptions (h_header_replica_count h) (h_footer_replica_count h) (h_metadata_size h).

Lemma candidate_header {RL : SectorIoReads io inv} s w l ls g' :
  store_wf s -> inv w -> synced s w -> l ∈ js_lbas s ->
  compute_geometry ss total (header_options (js_header s)) = Ok g' ->
  exists w', open_candidates io ss total (l :: ls) w =
      (w', Ok (mkReader io (header_options (js_header s)) g' total (js_header s))) /\ inv w' /\
    forall i, 0 <= i < total -> view w' i = view w i.
Proof using IL.
  intros S Hi Hs Hl Hg'. pose proof (store_ss s S) as [Hss _].
  pose proof (js_lbas_range s S) as Hr. rewrite Forall_forall in Hr. specialize (Hr l Hl).
  destruct (synced_block s w l S Hs Hl) as (b & Hb & (Hcrc & Hparse & _)).
  destruct (read_block_ok io inv view Hss l w Hi Hr) as [w1 E].
  destruct (read_block_run io inv view Hss _ _ _ _ Hi Hr E) as (Hi1 & Hv1 & _).
  exists w1. split; [|done]. cbn [open_candidates]. rewrite mbind_run, E, Hb, Hcrc.
  cbn [is_err]. rewrite mbind_run. unfold lift. rewrite Hparse. cbv zeta beta iota.
  rewrite mbind_run. change (mkOptions _ _ _) with (header_options (js_header s)).
  rewrite Hg'. done.
Qed.

Lemma candidate_hit {RL : SectorIoReads io inv} s w l ls :
  store_wf s -> header_matches s -> inv w -> synced s w -> l ∈ js_lbas s ->
  exists w', open_candidates io ss total (l :: ls) w = (w', Ok (reader_of s)) /\ inv w' /\
    forall i, 0 <= i < total -> view w' i = view w i.
Proof using IL.
  intros S [Hh Hf Hz] Hi Hs Hl.
  assert (header_options (js_header s) = js_options s) as He.
  { unfold header_options. rewrite Hh, Hf, Hz. destruct (js_options s). done. }
  destruct (candidate_header s w l ls (js_geometry s)) as (w' & E & H); try done.
  - rewrite He. apply S.
  - exists w'. rewrite E, He. done.
Qed.

Lemma candidate_miss {RL : SectorIoReads io inv} w l ls :
  512 <= ss -> inv w -> 0 <= l < total -> is_err (verify_crc (block_of (view w l))) = true ->
  exists w', open_candidates io ss total (l :: ls) w = open_candidates io ss total ls w' /\ inv w' /\
    forall i, 0 <= i < total -> view w' i = view w i.
Proof using IL.
  intros Hss Hi Hr Hbad. destruct (read_block_ok io inv view Hss l w Hi Hr) as [w1 E].
  destruct (read_block_run io inv view Hss _ _ _ _ Hi Hr E) as (Hi1 & Hv1 & _).
  exists w1. split; [|done]. cbn [open_candidates]. rewrite mbind_run, E, Hbad. done.
Qed.

Lemma reader_open_synced {RL : SectorIoReads io inv} s w :
  store_wf s -> header_matches s -> inv w -> synced s w -> last_sector_clear s w ->
  exists w', Reader_open io w = (w', Ok (reader_of s)) /\ inv w' /\
    forall i, 0 <= i < total -> view w' i = view w i.
Proof using IL.
  intros S Hm Hi Hs Hlast. pose proof (store_ss s S) as [Hss _].
  pose proof S as [_ _ Ho Hsome Hg _ _ _].
  assert (0 < total) as Ht.
  { destruct (js_lbas s) as [|l ls] eqn:El; [destruct (js_lbas_nonempty s S El)|].
    pose proof (js_lbas_range s S) as Hr. rewrite El in Hr. apply Forall_cons in Hr as [? _]. lia. }
  unfold Reader_open. cbv zeta. change (Z.of_nat METADATA_BLOCK_SIZE) with 512.
  rewrite (proj2 (Z.ltb_ge _ _)) by lia. rewrite (proj2 (Z.eqb_neq _ _)) by lia.
  destruct (decide (0 < use_footer (js_options s))) as [Huf|Huf].
  - apply candidate_hit; try done. rewrite js_lbas_layout by done.
    apply (layout_last _ _ _ _ ss_32 total_64 Ho Hg Huf).
  - destruct Hlast as [|Hbad]; [done|].
    destruct (candidate_miss w (total - 1) [0] Hss Hi ltac:(lia) Hbad) as (w1 & E1 & Hi1 & Hv1).
    rewrite E1. destruct (candidate_hit s w1 0 [] S Hm Hi1) as (w2 & E2 & Hi2 & Hv2).
    + apply (synced_ext _ w); done.
    + rewrite js_lbas_layout by done. apply (layout_first _ _ _ _ ss_32 total_64 Ho Hg).
      destruct Ho. lia.
    + exists w2. rewrite E2. split_and!; [done|done|]. intros i Hr. rewrite Hv2, Hv1; done.
Qed.

Lemma select_synced {RL : SectorIoReads io inv} s w :
  store_wf s -> js_codec s = JvckCbcCodec -> inv w -> synced s w ->
  exists w', select_replica (reader_of s) (default_select (js_vmk s)) 0 (jr_lbas (reader_of s)) None w =
    (w', Ok (JvckCbcCodec, mkUnsealed (js_offset s) (from_u16 (js_state s)) (js_secrets s))) /\
    inv w' /\ forall i, 0 <= i < total -> view w' i = view w i.
Proof using IL.
  intros S Hc Hi Hs. pose proof (store_ss s S) as [Hss Hgs].
  replace (jr_lbas (reader_of s)) with (js_lbas s) by (rewrite js_lbas_layout; done).
  destruct (js_lbas s) as [|l ls] eqn:El; [destruct (js_lbas_nonempty s S El)|].
  pose proof (js_lbas_range s S) as Hr. rewrite El in Hr. apply Forall_cons in Hr as [Hr _].
  destruct (synced_block s w l S Hs) as (b & Hb & (Hcrc & _ & Hun & _)); [rewrite El; left|].
  destruct (read_block_ok io inv view Hss l w Hi Hr) as [w1 E].
  destruct (read_block_run io inv view Hss _ _ _ _ Hi Hr E) as (Hi1 & Hv1 & _).
  cbn [select_replica jr_io reader_of jr_geometry]. rewrite Hgs, mbind_run. unfold attempt at 1.
  rewrite E, Hb, Hcrc. cbn [is_err]. rewrite mbind_run. unfold attempt, default_select.
  rewrite mbind_run. rewrite Hc in Hun.
  destruct (Hun (jr_context (reader_of s) 0 b) w1 Hi1 eq_refl) as [w2 E2]. rewrite E2.
  exists w2. split; [done|].
  assert (CodecLaws JvckCbcCodec inv view total) as HL by (rewrite <- Hc; apply S).
  destruct (cd_unseal_keeps _ _ _ _ _ Hi1 E2) as (Hi2 & Hv2 & _).
  split; [done|]. intros i Hi3. rewrite Hv2, Hv1; done.
Qed.

(** Opening a synced volume gives the store. *)
Lemma open_synced {RL : SectorIoReads io inv} s w st :
  store_wf s -> header_matches s -> js_codec s = JvckCbcCodec -> js_state s = as_u16 st ->
  inv w -> synced s w -> last_sector_clear s w ->
  exists w', open io (js_vmk s) w = (w', Ok s) /\ inv w' /\
    forall i, 0 <= i < total -> view w' i = view w i.
Proof using IL.
  intros S Hm Hc Hst Hi Hs Hlast. unfold open.
  destruct (reader_open_synced s w S Hm Hi Hs Hlast) as (w1 & E1 & Hi1 & Hv1).
  rewrite mbind_run, E1. unfold into_store. rewrite mbind_run.
  pose proof (synced_ext s w w1 S Hv1 Hs) as Hs1.
  destruct (select_synced s w1 S Hc Hi1 Hs1) as (w2 & E2 & Hi2 & Hv2). rewrite E2. cbv beta iota zeta.
  pose proof (synced_ext s w1 w2 S Hv2 Hs1) as Hs2.
  set (s0 := mkStore _ _ _ _ _ _ _ _ _ _).
  assert (set_js_offset (js_offset s) s0 = s) as Heq.
  { subst s0. cbn. unfold set_js_offset. cbn. rewrite Hst, from_as_u16, <- Hst, <- Hc.
    rewrite <- (sw_volume _ S), <- (sw_io _ S). destruct s. done. }
  assert (store_wf s0) as S0.
  { pose proof (store_wf_offset s 0 S) as H. rewrite <- Heq in H. exact H. }
  assert (load_offset s0 w2 = load_offset s w2) as Hload.
  { transitivity (load_offset (set_js_offset (js_offset s) s0) w2).
    - symmetry. apply load_offset_set.
    - rewrite Heq. done. }
  rewrite mbind_run. unfold attempt. rewrite Hload.
  destruct (synced_load s w2 S Hi2 Hs2) as (w3 & E3 & Hi3 & Hv3). rewrite E3.
  exists w3. split; [|split; [done|]].
  - unfold mret, M_ret. rewrite Heq. done.
  - intros i Hr. rewrite Hv3, Hv2, Hv1; done.
Qed.
End StoreProofs.

(** ** The store as the engine sees it *)

Section Interface.
Context `{C : CryptoApi} {W : Type} (RNG : option (RandomSource W)).
Context (io : SectorIo W) (inv : W -> Prop) (view : W -> Z -> bytes).
Context {IL : SectorIoLaws io inv view}.
Context {FL : FillLaws RNG inv view (total_sectors io)}.
Context (g : Geometry).

(** The invariant of the pair of the store and its device: a well-formed store of
    the fixed geometry [g]. *)
Definition store_inv (sw : JvckMetadataStore W * W) : Prop :=
  store_wf io inv view sw.1 /\ js_geometry sw.1 = g /\ inv sw.2.
Definition store_view (sw : JvckMetadataStore W * W) : Z -> bytes := view sw.2.

Abbreviation lo := (g_offset_sector g).
Abbreviation hi := (g_offset_sector g + g_data_sectors g).

(** An update of the store's fields followed by a rewrite of the replicas. *)
Definition update (f : JvckMetadataStore W -> JvckMetadataStore W) :
    M VckError (JvckMetadataStore W * W) unit :=
  _ ← upd_store f; with_store (write_all_replicas RNG).

Lemma update_run f sw :
  update f sw = let '(w, r) := write_all_replicas RNG (f sw.1) sw.2 in ((f sw.1, w), r).
Proof using Type. reflexivity. Qed.

Lemma update_keeps f :
  (forall s, store_wf io inv view s -> js_geometry s = g ->
     store_wf io inv view (f s) /\ js_geometry (f s) = g) ->
  keeps store_inv store_view lo hi (update f).
Proof using IL FL.
  intros Hf [s w] sw' r (S & Hg & Hi) H. cbn [fst snd] in *. destruct (Hf s S Hg) as [S' Hg'].
  rewrite update_run in H. cbn [fst snd] in H.
  destruct (write_all_replicas RNG (f s) w) as [w' r'] eqn:E. simplify_eq.
  destruct (write_all_run RNG io inv view (f s) S' w w' _ Hi E) as (Hi' & Hp & Hv & _).
  split_and!; [split_and!; done| |done]. intros i Hr. unfold store_view. cbn [snd].
  assert (0 <= i < total_sectors io /\ i ∉ js_lbas (f s)) as [Ht Hni].
  { apply (js_lbas_data io inv view (f s) S'). rewrite Hg'. done. }
  apply Hv; done.
Qed.

#[export] Instance jvck_store_laws :
  OffsetStoreLaws (Jvck_OffsetStore RNG) store_inv store_view lo hi.
Proof using IL FL.
  constructor.
  - intros o. apply (update_keeps (set_js_offset (eo_sector o))).
    intros s S Hg. split; [apply store_wf_offset; done|done].
  - apply mret_keeps.
  - intros [s w] sw' r Hi H. cbn in H. unfold with_store in H. cbn in H. simplify_eq. done.
  - intros st. apply (update_keeps (set_js_state (as_u16 st))).
    intros s S Hg. split; [apply store_wf_state; done|done].
Qed.

#[export] Instance jvck_store_reliable {RL : SectorIoReliable io inv} {FR : FillReliable RNG inv} :
  OffsetStoreReliable (Jvck_OffsetStore RNG) store_inv.
Proof using IL FL.
  constructor; [|done]. intros o [s w] (S & Hg & Hi).
  change (st_store _ o) with (update (set_js_offset (eo_sector o))). rewrite update_run.
  cbn [fst snd] in *. pose proof (store_wf_offset io inv view s (eo_sector o) S) as S'.
  pose proof (write_all_ok RNG io inv view _ S' w Hi) as Hok.
  destruct (write_all_replicas _ _ _). done.
Qed.

(** The device under the store's world. *)
#[export] Instance lift_io_laws : SectorIoLaws (lift_io io) store_inv store_view.
Proof using IL.
  constructor; cbn [sector_size total_sectors lift_io].
  - apply io_ss.
  - apply io_total.
  - intros [s w] i (_ & _ & Hi) Hr. exact (io_len (io:=io) (view:=view) w i Hi Hr).
  - intros [s w] lba k sw' r (S & Hg & Hi) Hl Hk H. cbn in H. unfold on_snd, zoom in H.
    cbn [fst snd] in H.
    destruct (read_sectors io lba (k * Z.to_nat (sector_size io)) w) as [w' r'] eqn:E.
    simplify_eq. destruct (io_read w lba k w' r Hi Hl Hk E) as (Hi' & Hv & Hr). done.
  - intros [s w] lba ls sw' r (S & Hg & Hi) Hl Hk Hs H. cbn in H. unfold on_snd, zoom in H.
    cbn [fst snd] in H. destruct (write_sectors io lba (concat ls) w) as [w' r'] eqn:E.
    simplify_eq. destruct (io_write w lba ls w' r Hi Hl Hk Hs E) as (Hi' & Hr). done.
Qed.

#[export] Instance lift_io_reliable {RL : SectorIoReliable io inv} :
  SectorIoReliable (lift_io io) store_inv.
Proof using Type.
  constructor; cbn [sector_size total_sectors lift_io read_sectors write_sectors].
  - intros [s w] lba k (_ & _ & Hi) Hl Hk Hsm. unfold on_snd, zoom. cbn [fst snd].
    pose proof (io_read_ok w lba k Hi Hl Hk Hsm) as H. destruct (read_sectors _ _ _ _). done.
  - intros [s w] lba ls (_ & _ & Hi) Hl Hk Hsm Hs. unfold on_snd, zoom. cbn [fst snd].
    pose proof (io_write_ok w lba ls Hi Hl Hk Hsm Hs) as H. destruct (write_sectors _ _ _ _). done.
Qed.

(** An update on a working device, and what opening the volume then gives. *)
Lemma update_reopens {RL : SectorIoReliable io inv} {FR : FillReliable RNG inv} f s w st :
  store_wf io inv view (f s) -> header_matches (f s) -> js_codec (f s) = JvckCbcCodec ->
  js_state (f s) = as_u16 st -> in_u 64 (js_offset (f s)) -> inv w ->
  last_sector_clear io view (f s) w ->
  exists w', update f (s, w) = ((f s, w'), Ok tt) /\ inv w' /\
    (forall i, 0 <= i < total_sectors io -> i ∉ js_lbas (f s) -> view w' i = view w i) /\
    exists w'', open io (js_vmk (f s)) w' = (w'', Ok (f s)) /\
      forall i, 0 <= i < total_sectors io -> view w'' i = view w' i.
Proof using IL FL.
  intros S Hm Hc Hst Ho Hi Hlast. rewrite update_run. cbn [fst snd].
  pose proof (write_all_ok RNG io inv view _ S w Hi) as Hok.
  destruct (write_all_replicas RNG (f s) w) as [w' r] eqn:E. cbn in Hok.
  destruct r as [[]| |]; [|done..]. exists w'.
  destruct (write_all_synced RNG io inv view _ w w' S Hi Ho E) as (Hi' & Hs & Hv).
  split_and!; [done..|].
  destruct (open_synced io inv view (f s) w' st S Hm Hc Hst Hi' Hs) as (w'' & E2 & _ & Hv2).
  - unfold last_sector_clear in *. destruct (decide (0 < use_footer (js_options (f s)))); [by left|].
    destruct Hlast as [|Hbad]; [by left|right].
    pose proof S as [_ _ Hop _ Hg _ _ _]. pose proof Hop as [].
    destruct (geometry_facts _ _ _ _ (ss_32 io inv view) (total_64 io inv view) Hop Hg)
      as (_ & [] & H3 & H4 & _).
    assert (0 <= total_sectors io - 1 < total_sectors io /\ total_sectors io - 1 ∉ js_lbas (f s))
      as [Hr Hni].
    { apply (js_lbas_data io inv view (f s) S). rewrite H3, H4. nia. }
    rewrite Hv by done. done.
  - exists w''. done.
Qed.
End Interface.

(** ** Vendor data *)

Section Vendor.
Context `{C : CryptoApi} {W : Type}.
Context (io : SectorIo W) (inv : W -> Prop) (view : W -> Z -> bytes).
Context {IL : SectorIoLaws io inv view}.
Context (s : JvckMetadataStore W).
Hypothesis S : store_wf io inv view s.
Abbreviation ss := (sector_size io).
Abbreviation total := (total_sectors io).
Abbreviation uh := (use_header (js_options s)).
Abbreviation uf := (use_footer (js_options s)).
Abbreviation rs := (opt_metadata_size (js_options s) / ss).

Lemma vendor_facts :
  512 <= ss /\ layout_wf total rs uh uf /\ g_sector_size (js_geometry s) = ss /\
  vendor_data_sector_count s = rs - 1 /\
  forall k, vendor_data_base_lba s k =
    if Z.of_nat k <? uh + uf then Some (vendor_lba total rs uh uf (Z.of_nat k)) else None.
Proof using S IL.
  pose proof S as [_ Hv Ho _ Hg _ _ _].
  destruct (geometry_facts _ _ _ _ (ss_32 io inv view) (total_64 io inv view) Ho Hg)
    as (H1 & HL & _ & _ & H5 & Hrs). pose proof HL as [].
  split_and!; [done..| |].
  - unfold vendor_data_sector_count, layout_vendor_count. rewrite Hrs. lia.
  - intros k. unfold vendor_data_base_lba, layout_vendor_base. rewrite Hrs, Hv.
    apply vendor_base_lookup. done.
Qed.

(** What the check accepts, and the sector it gives. *)
Lemma vendor_checked_ok k rel n :
  Z.of_nat k < uh + uf -> 0 <= rel -> 0 < Z.of_nat n -> rel + Z.of_nat n <= rs - 1 ->
  vendor_data_lba_checked s k rel (n * Z.to_nat ss) =
    Ok (vendor_lba total rs uh uf (Z.of_nat k) + rel) /\
  0 <= vendor_lba total rs uh uf (Z.of_nat k) + rel /\
  vendor_lba total rs uh uf (Z.of_nat k) + rel + Z.of_nat n <= total /\
  Z.of_nat n * ss < 2 ^ 32.
Proof using S IL.
  intros Hk Hr Hn Hend. destruct vendor_facts as (Hss & HL & Hgs & Hc & Hb). pose proof HL as [].
  pose proof (region_bounds _ _ _ _ HL (Z.of_nat k) ltac:(lia)) as (Hb1 & Hb2 & _).
  pose proof (vendor_in_region _ _ _ _ HL (Z.of_nat k) rel ltac:(lia) ltac:(lia)) as [Hv1 _].
  pose proof (vendor_in_region _ _ _ _ HL (Z.of_nat k) (rel + Z.of_nat n - 1)
                ltac:(lia) ltac:(lia)) as [Hv2 _].
  assert (Z.of_nat n * ss < 2 ^ 32) as Hsmall.
  { destruct S as [_ _ [_ _ _ Hsz] _ _ _ _ _]. unfold in_u in Hsz.
    pose proof (Z.mul_div_le (opt_metadata_size (js_options s)) ss ltac:(lia)). nia. }
  split; [|lia]. unfold vendor_data_lba_checked, whole_sectors. cbv zeta. rewrite Hgs, Hc, Hb.
  assert (Z.of_nat (n * Z.to_nat ss) = Z.of_nat n * ss) as Hlen by lia. rewrite Hlen.
  rewrite (proj2 (Z.eqb_neq ss 0)) by lia. rewrite (proj2 (Z.eqb_neq _ 0)) by nia.
  rewrite Z_mod_mult, Z.eqb_refl. cbn [negb andb]. rewrite (proj2 (Z.ltb_lt _ _)) by lia.
  ostep. rewrite Z.div_mul by lia. unfold vendor_range_bad.
  rewrite (proj2 (checked_some 64 _ _)) by (split; [reflexivity|unfold in_u; lia]).
  rewrite (proj2 (Z.ltb_ge _ _)) by lia. f_equal. apply u64_add_id. lia.
Qed.

(** Everything else is refused, by the first check that fails. *)
Lemma vendor_checked_err k rel len :
  in_u 64 rel ->
  let ok_len := (0 < len)%nat /\ Z.of_nat len mod ss = 0 in
  (~ ok_len -> vendor_data_lba_checked s k rel len = Err bad_vendor_buffer) /\
  (ok_len -> uh + uf <= Z.of_nat k ->
   vendor_data_lba_checked s k rel len =
     Err (NotFound "vendor data replica index out of range")) /\
  (ok_len -> Z.of_nat k < uh + uf -> rs - 1 < rel + Z.of_nat len / ss ->
   vendor_data_lba_checked s k rel len = Err bad_vendor_range).
Proof using S IL.
  intros Hrel. destruct vendor_facts as (Hss & HL & Hgs & Hc & Hb). cbv zeta.
  unfold vendor_data_lba_checked, whole_sectors. cbv zeta. rewrite Hgs, Hc, Hb.
  rewrite (proj2 (Z.eqb_neq ss 0)) by lia. cbn [negb andb].
  split_and!.
  - intros Hno. destruct (Z.eqb_spec (Z.of_nat len) 0); [done|].
    destruct (Z.eqb_spec (Z.of_nat len mod ss) 0); [|done]. exfalso. apply Hno. lia.
  - intros [Hl Hm] Hk. rewrite Hm, Z.eqb_refl, (proj2 (Z.eqb_neq _ 0)) by lia. cbn [negb andb].
    rewrite (proj2 (Z.ltb_ge _ _)) by lia. done.
  - intros [Hl Hm] Hk Hend. rewrite Hm, Z.eqb_refl, (proj2 (Z.eqb_neq _ 0)) by lia.
    cbn [negb andb]. rewrite (proj2 (Z.ltb_lt _ _)) by lia. ostep. unfold vendor_range_bad.
    destruct (checked 64 _) as [e|] eqn:E; [|done]. apply checked_some in E as [-> _].
    rewrite (proj2 (Z.ltb_lt _ _)) by lia. done.
Qed.

Lemma vendor_write_run k rel ls w w' r :
  inv w -> Z.of_nat k < uh + uf -> 0 <= rel -> ls <> [] ->
  rel + Z.of_nat (length ls) <= rs - 1 -> sectors_of (Z.to_nat ss) ls ->
  write_vendor_data s k rel (concat ls) w = (w', r) ->
  let lba := vendor_lba total rs uh uf (Z.of_nat k) + rel in
  inv w' /\ r <> Panic /\
  (forall i, 0 <= i < total -> i < lba \/ lba + Z.of_nat (length ls) <= i -> view w' i = view w i) /\
  (r = Ok tt -> forall i, 0 <= i < total -> view w' i = write_run (view w) lba ls i).
Proof using S IL.
  intros Hi Hk Hr Hls Hend Hs H. cbv zeta.
  assert (0 < length ls)%nat by (destruct ls; cbn; [done|lia]).
  unfold write_vendor_data in H. rewrite (length_concat_sectors _ _ Hs) in H.
  destruct (vendor_checked_ok k rel (length ls) Hk Hr ltac:(lia) Hend) as (E & H1 & H2 & H3).
  rewrite mbind_run in H. unfold lift in H. rewrite E, (sw_io _ _ _ _ S) in H.
  destruct (io_write w _ ls w' r Hi H1 H2 Hs H) as [Hi' Hr']. destruct r as [[]|e|]; [| |done].
  - split_and!; [done|done| |auto]. intros i Hr2 Ho. rewrite Hr' by done. apply write_run_out. done.
  - split_and!; done.
Qed.

Lemma vendor_write_ok {RL : SectorIoReliable io inv} k rel ls w :
  inv w -> Z.of_nat k < uh + uf -> 0 <= rel -> ls <> [] ->
  rel + Z.of_nat (length ls) <= rs - 1 -> sectors_of (Z.to_nat ss) ls ->
  is_ok (write_vendor_data s k rel (concat ls) w).2 = true.
Proof using S IL.
  intros Hi Hk Hr Hls Hend Hs. assert (0 < length ls)%nat by (destruct ls; cbn; [done|lia]).
  unfold write_vendor_data. rewrite (length_concat_sectors _ _ Hs).
  destruct (vendor_checked_ok k rel (length ls) Hk Hr ltac:(lia) Hend) as (E & H1 & H2 & H3).
  rewrite mbind_run. unfold lift. rewrite E, (sw_io _ _ _ _ S). apply io_write_ok; done.
Qed.

(** A sector with another role is outside the range. *)
Lemma vendor_frame k rel n ro l :
  Z.of_nat k < uh + uf -> 0 <= rel -> rel + Z.of_nat n <= rs - 1 ->
  role_lba total (js_options s) (js_geometry s) ro = Some l ->
  (forall j, ro = RVendor k j -> j < rel \/ rel + Z.of_nat n <= j) ->
  let lba := vendor_lba total rs uh uf (Z.of_nat k) + rel in
  0 <= l < total /\ (l < lba \/ lba + Z.of_nat n <= l).
Proof using S IL.
  intros Hk Hr Hend Hl Hne. cbv zeta. pose proof S as [_ Hv Ho _ Hg _ _ _].
  destruct vendor_facts as (_ & _ & _ & Hc & Hb).
  pose proof (ss_32 io inv view) as H32. pose proof (total_64 io inv view) as H64.
  split; [apply (role_lba_region _ _ _ _ H32 H64 Ho Hg ro l Hl)|].
  set (base := vendor_lba total rs uh uf (Z.of_nat k)).
  destruct (Z.lt_ge_cases l (base + rel)) as [|Hge]; [by left|right].
  destruct (Z.le_gt_cases (base + rel + Z.of_nat n) l) as [|Hin]; [done|exfalso].
  assert (role_lba total (js_options s) (js_geometry s) (RVendor k (l - base)) = Some l) as Hj.
  { cbn. pose proof (Hb k) as Hbk. unfold vendor_data_base_lba in Hbk. rewrite Hv in Hbk.
    rewrite Hbk, (proj2 (Z.ltb_lt (Z.of_nat k) _)) by lia. cbn. fold base.
    unfold vendor_data_sector_count in Hc. rewrite Hc.
    rewrite (proj2 (Z.leb_le 0 (l - base))), (proj2 (Z.ltb_lt (l - base) (rs - 1))) by lia.
    cbn. f_equal. lia. }
  pose proof (role_lba_inj _ _ _ _ H32 H64 Ho Hg _ _ _ Hl Hj) as ->.
  destruct (Hne (l - base) eq_refl); lia.
Qed.

Lemma vendor_read_run {RL : SectorIoReads io inv} k rel n w :
  inv w -> Z.of_nat k < uh + uf -> 0 <= rel -> (0 < n)%nat -> rel + Z.of_nat n <= rs - 1 ->
  exists w', read_vendor_data s k rel (n * Z.to_nat ss) w =
    (w', Ok (concat (read_run (view w) (vendor_lba total rs uh uf (Z.of_nat k) + rel) n))).
Proof using S IL.
  intros Hi Hk Hr Hn Hend. unfold read_vendor_data.
  destruct (vendor_checked_ok k rel n Hk Hr ltac:(lia) Hend) as (E & H1 & H2 & H3).
  rewrite mbind_run. unfold lift. rewrite E, (sw_io _ _ _ _ S).
  pose proof (io_reads_ok w _ n Hi H1 H2 H3) as Hok.
  destruct (read_sectors io _ _ w) as [w' r] eqn:Er. cbn in Hok.
  destruct (io_read w _ n w' r Hi H1 H2 Er) as (_ & _ & Hr'). destruct r; [|done..].
  subst. exists w'. done.
Qed.
End Vendor.

(** ** Creation *)

Section Create.
Context `{C : CryptoApi} {W : Type} (RNG : option (RandomSource W)).
Context (io : SectorIo W) (inv : W -> Prop) (view : W -> Z -> bytes).
Context {IL : SectorIoLaws io inv view}.
Context {FL : FillLaws RNG inv view (total_sectors io)}.

(** The store [create] builds before it writes the replicas. *)
Definition created (vmk : bytes) (o : JvckMetadataOptions) (key1 key2 volume_id : bytes)
    (codec : MetadataCodec W) (g : Geometry) : JvckMetadataStore W :=
  mkStore io o vmk g (total_sectors io)
    (mkHeader 0 1 0 (opt_metadata_size o) (sector_size io) (wrap 8 (use_header o))
       (wrap 8 (use_footer o)) volume_id (replicate VENDOR_RESERVED_SIZE Byte.x00))
    (mkSecrets key1 key2) 0 (as_u16 Encrypt) codec.

Lemma create_eq vmk o key1 key2 volume_id codec g w :
  validate_options o = Ok tt ->
  compute_geometry (sector_size io) (total_sectors io) o = Ok g ->
  create RNG io vmk o key1 key2 volume_id codec w =
  let s := created vmk o key1 key2 volume_id codec g in
  match write_all_replicas RNG s w with
  | (w', Ok _) => (w', Ok s)
  | (w', Err e) => (w', Err e)
  | (w', Panic) => (w', Panic)
  end.
Proof using Type.
  intros Hv Hg. unfold create. rewrite mbind_run. unfold lift at 1. rewrite Hv. cbv zeta.
  rewrite mbind_run. unfold lift at 1. rewrite Hg. rewrite mbind_run. reflexivity.
Qed.

Lemma created_wf vmk o key1 key2 volume_id codec g :
  options_wf o -> validate_options o = Ok tt ->
  compute_geometry (sector_size io) (total_sectors io) o = Ok g ->
  length key1 = 32%nat -> length key2 = 32%nat -> length volume_id = 16%nat ->
  CodecLaws codec inv view (total_sectors io) ->
  store_wf io inv view (created vmk o key1 key2 volume_id codec g).
Proof using IL.
  intros Ho Hv Hg H1 H2 H3 HC. apply validate_options_ok in Hv as [_ Hv]. pose proof Ho as [].
  unfold replica_count in Hv. rewrite wrap_id in Hv by (unfold in_u; lia).
  constructor; cbn; try done; [lia|]. constructor; cbn; try done.
  - apply (ss_32 io inv view).
  - apply wrap_range. done.
  - apply wrap_range. done.
Qed.
End Create.

(** ** A concrete volume *)

Module StoreDemo.
Import ToyCrypto.
Definition ss : Z := 512.
Definition len : nat := Z.to_nat 307200.
Definition io : SectorIo MemVolume := MemVolume_io ss len.
Definition RNG : option (RandomSource MemVolume) :=
  Some (fun n w => (w, Ok (replicate n Byte.x5a))).
Definition options : JvckMetadataOptions := mkOptions 1 1 131072.
Definition disk : MemVolume := replicate len Byte.x00.
Definition inv : MemVolume -> Prop := mem_inv len.
Definition view : MemVolume -> Z -> bytes := mem_view ss.

Lemma len_z : Z.of_nat len = 307200.
Proof. apply Z2Nat.id. lia. Qed.
Lemma total_600 : total_sectors io = 600.
Proof. unfold io, MemVolume_io. cbn [total_sectors]. rewrite len_z. reflexivity. Qed.

#[export] Instance io_laws : SectorIoLaws io inv view.
Proof. apply mem_laws; rewrite ?len_z; unfold ss; lia. Qed.
#[export] Instance io_reliable : SectorIoReliable io inv.
Proof. apply mem_reliable; rewrite ?len_z; unfold ss; lia. Qed.
#[export] Instance fill_laws total : FillLaws RNG inv view total.
Proof.
  constructor.
  - intros n w w' r Hi H. cbn in H. simplify_eq. done.
  - intros n w w' b _ H. cbn in H. simplify_eq. apply length_replicate.
Qed.
#[export] Instance fill_reliable : FillReliable RNG inv.
Proof. intros n w _. done. Qed.

Lemma disk_ok : inv disk.
Proof. apply length_replicate. Qed.
Lemma options_ok : options_wf options.
Proof. constructor; cbn; unfold in_u; lia. Qed.
Lemma validated : validate_options options = Ok tt.
Proof. reflexivity. Qed.

Definition geometry : Geometry := mkGeometry 256 88 512.
Lemma geometry_ok : compute_geometry (sector_size io) (total_sectors io) options = Ok geometry.
Proof. rewrite total_600. reflexivity. Qed.

Definition key1 : bytes := replicate 32 Byte.x33.
Definition key2 : bytes := replicate 32 Byte.x44.
Definition volume_id : bytes := replicate 16 Byte.x11.
Definition store : JvckMetadataStore MemVolume :=
  created io vmk options key1 key2 volume_id JvckCbcCodec geometry.

Lemma store_ok : store_wf io inv view store.
Proof.
  apply created_wf; first [exact options_ok|exact geometry_ok|reflexivity|apply _].
Qed.
Lemma store_matches : header_matches store.
Proof. constructor; reflexivity. Qed.
Lemma offset_ok : in_u 64 77.
Proof. unfold in_u. lia. Qed.
Lemma footer_found w : last_sector_clear io view store w.
Proof. left. cbn. lia. Qed.
End StoreDemo.

(** ** Recovery *)

Lemma take_max_bound os best :
  match foldl take_max best os with
  | Some m =>
      (best = Some m \/ Some m ∈ os) /\ (forall b, best = Some b -> b <= m) /\
      forall o, Some o ∈ os -> o <= m
  | None => best = None /\ forall o, Some o ∉ os
  end.
Proof.
  revert best. induction os as [|[o|] os IH]; intros best; cbn [foldl take_max].
  - destruct best as [b|]; [|split; [done|intros o Ho; inversion Ho]].
    split_and!; [by left| |]; [intros; simplify_eq; lia|]. intros o Ho. inversion Ho.
  - specialize (IH (Some (match best with Some b => Z.max b o | None => o end))).
    destruct (foldl _ _ _) as [m|]; [|destruct IH; done].
    destruct IH as (H1 & H2 & H3). specialize (H2 _ eq_refl). split_and!.
    + destruct H1 as [H1|H1]; [|right; by right]. injection H1 as H1.
      destruct best as [b|]; [|right; subst; left].
      destruct (Z.max_spec b o) as [[_ He]|[_ He]]; rewrite He in H1; subst; [right; left|by left].
    + intros b ->. lia.
    + intros o' [He|Ho]%elem_of_cons; [|auto]. injection He as ->. destruct best; lia.
  - specialize (IH best). destruct (foldl _ _ _) as [m|].
    + destruct IH as (H1 & H2 & H3). split_and!; [|done|].
      * destruct H1; [by left|right; by right].
      * intros o' [He|Ho]%elem_of_cons; [done|auto].
    + destruct IH as [H1 H2]. split; [done|]. intros o' [He|Ho]%elem_of_cons; [done|].
      apply (H2 o'). done.
Qed.

Section Recovery.
Context `{C : CryptoApi} {W : Type} (RNG : option (RandomSource W)).
Context (io : SectorIo W) (inv : W -> Prop) (view : W -> Z -> bytes).
Context {IL : SectorIoLaws io inv view}.
Context {FL : FillLaws RNG inv view (total_sectors io)}.
Context {RL : SectorIoReads io inv}.

(** Where the data region lies. *)
Lemma store_region s :
  store_wf io inv view s ->
  0 <= g_offset_sector (js_geometry s) /\ 0 <= g_data_sectors (js_geometry s) /\
  g_offset_sector (js_geometry s) + g_data_sectors (js_geometry s) <= total_sectors io.
Proof using IL.
  intros S. pose proof S as [_ _ Ho _ Hg _ _ _]. pose proof (io_ss (io:=io) (inv:=inv) (view:=view)).
  destruct (geometry_facts _ _ _ _ (ss_32 io inv view) (total_64 io inv view) Ho Hg)
    as (_ & [] & H3 & H4 & _). rewrite H3, H4. nia.
Qed.

(** After an update of the replicas from [s] to [s'] that may have stopped part
    way, each replica reads as one that fails its CRC, as it was, or as the new
    block. *)
Definition detectably_torn (s' : JvckMetadataStore W) (w w' : W) : Prop :=
  Forall (fun l => is_err (verify_crc (block_of (view w' l))) = true \/ view w' l = view w l \/
                   exists block, sealed_store inv s' block /\ block_of (view w' l) = block)
    (js_lbas s').

Lemma interrupted_load s o w w' r :
  store_wf io inv view s -> synced io inv view s w -> in_u 64 (js_offset s) -> in_u 64 o ->
  (2 <= length (js_lbas s))%nat -> inv w ->
  write_all_replicas RNG (set_js_offset o s) w = (w', r) ->
  detectably_torn (set_js_offset o s) w w' ->
  exists m w'', load_offset s w' = (w'', Ok m) /\ (m = js_offset s \/ m = o) /\
    ((exists l, l ∈ js_lbas s /\ view w' l = view w l) -> js_offset s <= m).
Proof using IL FL RL.
  intros S Hs Ho Ho' Hlen Hi Hw Htorn. set (s' := set_js_offset o s) in *.
  pose proof (store_wf_offset io inv view s o S) as S'. fold s' in S'.
  destruct (store_ss io inv view s S) as [Hss _].
  destruct (write_all_run RNG io inv view s' S' w w' r Hi Hw) as (Hi' & _ & _ & Hcase).
  assert (js_lbas s' = js_lbas s) as Hlb by done. unfold detectably_torn in Htorn.
  assert (Forall (fun l => exists oo, offers inv s (view w' l) oo /\
            (oo = None \/ oo = Some (js_offset s) \/ oo = Some o) /\
            (view w' l = view w l -> oo = Some (js_offset s))) (js_lbas s)) as Hch.
  { rewrite Hlb in Htorn. rewrite Forall_forall in Htorn |- *. intros l Hl.
    destruct (synced_block io inv view s w l S Hs Hl) as (b & Hb & Hsl).
    destruct (decide (view w' l = view w l)) as [He|Hne].
    - exists (Some (js_offset s)). split_and!; auto. eapply offers_some. rewrite He, Hb. apply Hsl.
    - destruct (Htorn l Hl) as [Hbad|[He|(b' & Hb' & He)]]; [| |].
      + exists None. split_and!; [by constructor|by left|done].
      + done.
      + exists (Some o). split_and!; [|auto|done]. eapply offers_some. rewrite He. apply Hb'. }
  apply Forall_choose in Hch as [os Hos].
  assert (Forall2 (fun l => offers inv s (view w' l)) (js_lbas s) os) as Hof.
  { eapply Forall2_impl; [done|]. intros l oo (? & _). done. }
  destruct (load_offset_run io inv view s S w' os Hi' Hof) as (w'' & E & _ & _).
  pose proof (take_max_bound os None) as Hmax.
  destruct (foldl take_max None os) as [m|].
  - exists m, w''. split; [done|]. destruct Hmax as ([|Hin] & _ & Hge); [done|]. split.
    + apply list_elem_of_lookup_1 in Hin as [i Hin].
      destruct (Forall2_lookup_r _ _ _ _ _ Hos Hin) as (l & _ & _ & [?|[?|?]] & _);
        simplify_eq; auto.
    + intros (l & Hl & He). apply list_elem_of_lookup_1 in Hl as [i Hl].
      destruct (Forall2_lookup_l _ _ _ _ _ Hos Hl) as (oo & Hoo & _ & _ & Hold).
      apply Hge. rewrite <- (Hold He). eapply list_elem_of_lookup_2. done.
  - exfalso. destruct Hmax as [_ Hnone].
    assert (exists l, l ∈ js_lbas s /\ exists o', offers inv s (view w' l) (Some o') /\
              is_err (verify_crc (block_of (view w' l))) = false) as (l & Hl & o' & Hof' & Hok).
    { assert (forall l, l ∈ js_lbas s -> view w' l = view w l -> exists o',
               offers inv s (view w' l) (Some o') /\
               is_err (verify_crc (block_of (view w' l))) = false) as Hold.
      { intros l Hl He. destruct (synced_block io inv view s w l S Hs Hl) as (b & Hb & Hsl).
        exists (js_offset s). rewrite He, Hb. split; [eapply offers_some; rewrite Hb; apply Hsl|].
        destruct Hsl as (-> & _). done. }
      pose proof (js_lbas_range io inv view s S) as Hr. rewrite Forall_forall in Hr.
      destruct (js_lbas s) as [|l0 [|l1 ls]] eqn:El; [cbn in Hlen; lia..|].
      destruct Hcase as [[_ Hsame]|(block & n & Hbl & Hsl & (Hn & Hd & Hk) & _)].
      - exists l0. split; [left|]. apply Hold; [left|]. apply Hsame, Hr. left.
      - rewrite Hlb in Hd, Hk. destruct n as [|n].
        + exists l1. split; [right; left|]. apply Hold; [right; left|]. apply (Hk 1%nat); [done|lia].
        + exists l0. split; [left|]. exists o.
          assert (block_of (view w' l0) = block) as Hb.
          { rewrite (Hd 0%nat l0) by (done || lia). apply block_of_padded; done. }
          specialize (Hsl Ho'). rewrite Hb. split.
          * eapply offers_some. rewrite Hb. apply Hsl.
          * destruct Hsl as (-> & _). done. }
    apply list_elem_of_lookup_1 in Hl as [i Hl].
    destruct (Forall2_lookup_l _ _ _ _ _ Hos Hl) as (oo & Hoo & Hof2 & _).
    destruct Hof2 as [Hbad|h sec o2 st Hse]; [congruence|].
    apply (Hnone o2). eapply list_elem_of_lookup_2. done.
Qed.
End Recovery.

(** A volume for 257 header replicas and a footer, of 256 sectors each. *)

Module WideDemo.
Import ToyCrypto.
Definition ss : Z := 512.
Definition len : nat := Z.to_nat 33867776.
Definition io : SectorIo MemVolume := MemVolume_io ss len.
Definition RNG : option (RandomSource MemVolume) := StoreDemo.RNG.
Definition options : JvckMetadataOptions := mkOptions 257 1 131072.
Definition geometry : Geometry := mkGeometry 65792 100 512.
Definition disk : MemVolume := replicate len Byte.x00.
Definition inv : MemVolume -> Prop := mem_inv len.
Definition view : MemVolume -> Z -> bytes := mem_view ss.

Lemma wide_len_z : Z.of_nat len = 33867776.
Proof. apply Z2Nat.id. lia. Qed.
Lemma total_66148 : total_sectors io = 66148.
Proof. unfold io, MemVolume_io. cbn [total_sectors]. rewrite wide_len_z. reflexivity. Qed.
#[export] Instance io_laws : SectorIoLaws io inv view.
Proof. apply mem_laws; rewrite ?wide_len_z; unfold ss; lia. Qed.
#[export] Instance io_reliable : SectorIoReliable io inv.
Proof. apply mem_reliable; rewrite ?wide_len_z; unfold ss; lia. Qed.
#[export] Instance fill_laws total : FillLaws RNG inv view total.
Proof.
  constructor.
  - intros n w w' r Hi H. cbn in H. simplify_eq. done.
  - intros n w w' b _ H. cbn in H. simplify_eq. apply length_replicate.
Qed.
#[export] Instance fill_reliable : FillReliable RNG inv.
Proof. intros n w _. done. Qed.
Lemma wide_disk_ok : inv disk.
Proof. apply length_replicate. Qed.
Lemma wide_options_ok : options_wf options.
Proof. constructor; cbn; unfold in_u; lia. Qed.
Lemma wide_validated : validate_options options = Ok tt.
Proof. reflexivity. Qed.
Lemma wide_geometry_ok : compute_geometry (sector_size io) (total_sectors io) options = Ok geometry.
Proof. rewrite total_66148. reflexivity. Qed.
Lemma footer_range : 0 < use_footer options < 256.
Proof. cbn. lia. Qed.
Lemma header_wide : 256 <= use_header options.
Proof. cbn. lia. Qed.
End WideDemo.

(** ** A device whose last sector cannot be written *)

Module TornDemo.
Import ToyCrypto.
Definition ss : Z := 512.
Definition len : nat := 2048.
Definition good : SectorIo MemVolume := MemVolume_io ss len.
Definition io : SectorIo MemVolume := {|
  sector_size := ss;
  total_sectors := total_sectors good;
  read_sectors := read_sectors good;
  write_sectors lba buf :=
    if (lba <=? 3) && (3 <? lba + Z.of_nat (length buf) / ss) then mfail (Io "bad sector")
    else write_sectors good lba buf;
|}.
Definition inv : MemVolume -> Prop := mem_inv len.
Definition view : MemVolume -> Z -> bytes := mem_view ss.

#[export] Instance good_laws : SectorIoLaws good inv view.
Proof. apply mem_laws; unfold ss, len; lia. Qed.
#[export] Instance good_reliable : SectorIoReliable good inv.
Proof. apply mem_reliable; unfold ss, len; lia. Qed.

#[export] Instance io_laws : SectorIoLaws io inv view.
Proof.
  constructor; cbn [sector_size total_sectors read_sectors write_sectors io].
  - apply (io_ss (io:=good)).
  - apply (io_total (io:=good)).
  - apply (io_len (io:=good)).
  - apply (io_read (io:=good)).
  - intros w lba ls w' r Hi Hl Hk Hs H. destruct (_ && _).
    + unfold mfail in H. simplify_eq. done.
    + apply (io_write (io:=good) w lba ls w' r Hi Hl Hk Hs H).
Qed.
#[export] Instance io_reads : SectorIoReads io inv.
Proof. intros w lba k. apply (io_read_ok (io:=good)). Qed.

Definition options : JvckMetadataOptions := mkOptions 1 1 512.
Definition geometry : Geometry := mkGeometry 1 2 512.
Definition key1 : bytes := replicate 32 Byte.x33.
Definition key2 : bytes := replicate 32 Byte.x44.
Definition volume_id : bytes := replicate 16 Byte.x11.

(** The decrypting store at boundary 2, over either device. *)
Definition store (d : SectorIo MemVolume) : JvckMetadataStore MemVolume :=
  set_js_state (as_u16 Decrypt) (set_js_offset 2
    (created d vmk options key1 key2 volume_id JvckCbcCodec geometry)).

Lemma torn_store_ok d : sector_size d = 512 -> total_sectors d = 4 -> SectorIoLaws d inv view ->
  store_wf d inv view (store d).
Proof.
  intros Hs Ht HL. apply store_wf_state, store_wf_offset. constructor; cbn; rewrite ?Hs, ?Ht;
    first [reflexivity|lia|apply _|constructor; (reflexivity || (cbn; unfold in_u; lia))|idtac].
  constructor; cbn; first [reflexivity|rewrite ?Hs; unfold in_u; vm_compute; split; [discriminate|reflexivity]].
Qed.

Definition RNG : option (RandomSource MemVolume) :=
  Some (fun n w => (w, Ok (replicate n Byte.x5a))).
#[export] Instance fill_laws total : FillLaws RNG inv view total.
Proof.
  constructor.
  - intros n w w' r Hi H. cbn in H. simplify_eq. done.
  - intros n w w' b _ H. cbn in H. simplify_eq. apply length_replicate.
Qed.

(** The disk with both replicas at boundary 2, and after the update to boundary 0
    that cannot write the last sector. *)
Definition disk2 : MemVolume := (write_all_replicas RNG (store good) (replicate len Byte.x00)).1.
Definition disk0 : MemVolume := (write_all_replicas RNG (set_js_offset 0 (store io)) disk2).1.

Lemma disk2_run : write_all_replicas RNG (store good) (replicate len Byte.x00) = (disk2, Ok tt).
Proof. vm_compute. reflexivity. Qed.
Lemma disk0_run :
  write_all_replicas RNG (set_js_offset 0 (store io)) disk2 = (disk0, Err (Io "bad sector")).
Proof. vm_compute. reflexivity. Qed.

Lemma good_ok : store_wf good inv view (store good).
Proof. apply torn_store_ok; [reflexivity|reflexivity|apply _]. Qed.
Lemma io_ok : store_wf io inv view (store io).
Proof. apply torn_store_ok; [reflexivity|reflexivity|apply _]. Qed.
Lemma torn_disk_ok : inv (replicate len Byte.x00).
Proof. apply length_replicate. Qed.

Lemma disk2_synced : inv disk2 /\ synced io inv view (store io) disk2.
Proof.
  destruct (write_all_synced RNG good inv view (store good) _ _ good_ok torn_disk_ok
              (conj (proj1 (Z.leb_le 0 2) eq_refl) eq_refl) disk2_run) as (H1 & H2 & _).
  split; [exact H1|exact H2].
Qed.

Lemma lbas : js_lbas (store io) = [0; 3].
Proof. vm_compute. reflexivity. Qed.
Lemma last_kept : view disk0 3 = view disk2 3.
Proof. vm_compute. reflexivity. Qed.

(** A disk whose first replica holds the new block and whose last one is as it was. *)
Lemma torn_at w d :
  block_of (view d 0) =
    (encode (js_header (store io)) (js_secrets (store io)) 0 Decrypt (replicate 16 Byte.x5a) vmk
       (replicate METADATA_BLOCK_SIZE Byte.x00)).1 ->
  view d 3 = view w 3 -> detectably_torn inv view (set_js_offset 0 (store io)) w d.
Proof.
  intros Hb Hl. unfold detectably_torn.
  change (js_lbas (set_js_offset 0 (store io))) with (js_lbas (store io)).
  rewrite lbas. constructor; [|constructor; [by right; left|constructor]].
  right. right. exists (block_of (view d 0)). split; [|done].
  pose proof (store_wf_offset _ _ _ _ 0 io_ok) as S.
  destruct (cd_seal (CodecLaws:=sw_codec _ _ _ _ S) (js_header (store io)) (js_secrets (store io)) 0
              Decrypt (replicate 16 Byte.x5a) vmk (replicate METADATA_BLOCK_SIZE Byte.x00)
              (sw_header _ _ _ _ S) (sw_secrets _ _ _ _ S) eq_refl (length_replicate _ _))
    as (block & Hrun & _ & Hsl).
  apply (f_equal fst) in Hrun. cbn [fst] in Hrun. rewrite Hb.
  match goal with |- sealed_store _ _ ?x => replace x with block by (symmetry; exact Hrun) end.
  apply Hsl. unfold in_u. lia.
Qed.
Lemma torn : detectably_torn inv view (set_js_offset 0 (store io)) disk2 disk0.
Proof. apply torn_at; [vm_compute; reflexivity|exact last_kept]. Qed.

Lemma in_lbas : exists l, l ∈ js_lbas (store io) /\ view disk0 l = view disk2 l.
Proof. exists 3. split; [rewrite lbas; right; left|exact last_kept]. Qed.
Lemma two_replicas : (2 <= length (js_lbas (store io)))%nat.
Proof. rewrite lbas. cbn. lia. Qed.
Lemma z02 : in_u 64 2.
Proof. unfold in_u. lia. Qed.
Lemma z00 : in_u 64 0.
Proof. unfold in_u. lia. Qed.
End TornDemo.

(** ** Properties *)

(** C23: The replica layout partitions the volume. Whenever [compute_geometry]
    accepts, every sector of the volume has exactly one role (a sector of the
    data region, the metadata block of one replica, or a vendor sector of one
    replica), and the addresses the code computes for the roles never leave the
    volume; the last footer's block is the volume's last sector and the first
    header's block its first. *)
Theorem layout_is_partition ss vs o g :
  in_u 32 ss -> in_u 64 vs -> options_wf o -> compute_geometry ss vs o = Ok g ->
  (forall l, 0 <= l < vs -> exists r, role_lba vs o g r = Some l) /\
  (forall r l, role_lba vs o g r = Some l -> 0 <= l < vs) /\
  (forall r1 r2 l, role_lba vs o g r1 = Some l -> role_lba vs o g r2 = Some l -> r1 = r2) /\
  (0 < use_footer o -> (vs - 1) ∈ layout_lbas vs o g) /\
  (0 < use_header o -> 0 ∈ layout_lbas vs o g).
Proof.
  intros Hss Hvs Ho Hg. split_and!.
  - intros l. apply (role_lba_total ss); done.
  - intros r l H. apply (role_lba_region ss vs o g Hss Hvs Ho Hg r l H).
  - intros r1 r2 l. apply (role_lba_inj ss); done.
  - apply (layout_last ss); done.
  - apply (layout_first ss); done.
Qed.

Lemma layout_is_partition_witness :
  role_lba 600 StoreDemo.options StoreDemo.geometry (RBlock 1) = Some 599 /\
  forall l, 0 <= l < 600 ->
    exists r, role_lba 600 StoreDemo.options StoreDemo.geometry r = Some l.
Proof.
  split; [reflexivity|].
  refine (proj1 (layout_is_partition 512 600 StoreDemo.options StoreDemo.geometry _ _
                   StoreDemo.options_ok _)); [unfold in_u; lia|unfold in_u; lia|reflexivity].
Defined.

(** C7: The JVCK store meets the contract the sweep engine and the volume are
    verified against: over any device, randomness source and codec that keep
    their contracts, no operation of the store changes a sector of the data
    region or panics, whether it succeeds or fails; and on a working device every
    update succeeds. *)
Theorem jvck_store_meets_contract {C : CryptoApi} {W} (RNG : option (RandomSource W)) io inv view
    (IL : SectorIoLaws io inv view) (FL : FillLaws RNG inv view (total_sectors io)) g :
  OffsetStoreLaws (Jvck_OffsetStore RNG) (store_inv io inv view g) (store_view view)
    (g_offset_sector g) (g_offset_sector g + g_data_sectors g) /\
  (SectorIoReliable io inv -> FillReliable RNG inv ->
   OffsetStoreReliable (Jvck_OffsetStore RNG) (store_inv io inv view g)).
Proof. split; [apply _|]. intros. apply _. Qed.

Lemma jvck_store_meets_contract_witness :
  store_inv (C:=ToyCrypto.api) StoreDemo.io StoreDemo.inv StoreDemo.view StoreDemo.geometry
    (StoreDemo.store, StoreDemo.disk) /\
  OffsetStoreLaws (Jvck_OffsetStore (C:=ToyCrypto.api) StoreDemo.RNG)
    (store_inv (C:=ToyCrypto.api) StoreDemo.io StoreDemo.inv StoreDemo.view StoreDemo.geometry)
    (store_view StoreDemo.view) 256 344.
Proof.
  split; [exact (conj StoreDemo.store_ok (conj eq_refl StoreDemo.disk_ok))|].
  exact (proj1 (jvck_store_meets_contract (C:=ToyCrypto.api) StoreDemo.RNG StoreDemo.io
    StoreDemo.inv StoreDemo.view StoreDemo.io_laws (StoreDemo.fill_laws _) StoreDemo.geometry)).
Defined.

(** C16: Updates survive a reopen. On a working device, storing a boundary,
    storing a direction and setting the vendor area each succeed, change only
    metadata blocks, and leave a volume that [JvckMetadataStore::open] reads back
    as exactly the updated store: same options, geometry, header, volume keys,
    boundary and direction. *)
Theorem updates_survive_reopen {C : CryptoApi} {W} (RNG : option (RandomSource W)) io inv view
    (IL : SectorIoLaws io inv view) (FL : FillLaws RNG inv view (total_sectors io))
    (RL : SectorIoReliable io inv) (FR : FillReliable RNG inv) s w st :
  store_wf io inv view s -> header_matches s -> js_codec s = JvckCbcCodec ->
  js_state s = as_u16 st -> in_u 64 (js_offset s) -> inv w -> last_sector_clear io view s w ->
  let reopens (m : M VckError (JvckMetadataStore W * W) unit) s' :=
    exists w', m (s, w) = ((s', w'), Ok tt) /\
      (forall i, 0 <= i < total_sectors io -> i ∉ js_lbas s -> view w' i = view w i) /\
      exists w'', open io (js_vmk s) w' = (w'', Ok s') in
  (forall o, in_u 64 (eo_sector o) ->
     reopens (st_store (Jvck_OffsetStore RNG) o) (set_js_offset (eo_sector o) s)) /\
  (forall st', reopens (st_store_state (Jvck_OffsetStore RNG) st') (set_js_state (as_u16 st') s)) /\
  (forall r, length r = VENDOR_RESERVED_SIZE ->
     reopens (set_vendor_reserved RNG r) (set_js_header (with_vendor_reserved r (js_header s)) s)).
Proof.
  intros S Hm Hc Hst Ho Hi Hlast. cbv zeta.
  assert (forall f st', store_wf io inv view (f s) -> header_matches (f s) ->
            js_codec (f s) = js_codec s -> js_state (f s) = as_u16 st' ->
            in_u 64 (js_offset (f s)) -> js_lbas (f s) = js_lbas s -> js_vmk (f s) = js_vmk s ->
            js_options (f s) = js_options s ->
            exists w', update RNG f (s, w) = ((f s, w'), Ok tt) /\
              (forall i, 0 <= i < total_sectors io -> i ∉ js_lbas s -> view w' i = view w i) /\
              exists w'', open io (js_vmk s) w' = (w'', Ok (f s))) as Hgen.
  { intros f st' S' Hm' Hc' Hst' Ho' Hl Hk Hop.
    destruct (update_reopens RNG io inv view f s w st') as (w' & E & _ & Hv & w'' & E2 & _);
      try done; [rewrite Hc'; done|unfold last_sector_clear in *; rewrite Hop; done|].
    rewrite Hl in Hv. rewrite Hk in E2. eauto 10. }
  pose proof Hm as []. split_and!.
  - intros o Hr. apply (Hgen (set_js_offset (eo_sector o)) st); try done.
    apply store_wf_offset. done.
  - intros st'. apply (Hgen (set_js_state (as_u16 st')) st'); try done.
    apply store_wf_state. done.
  - intros r Hr. apply (Hgen (fun s => set_js_header (with_vendor_reserved r (js_header s)) s) st);
      try done. apply store_wf_reserved; done.
Qed.

Lemma updates_survive_reopen_witness :
  exists w', st_store (Jvck_OffsetStore (C:=ToyCrypto.api) StoreDemo.RNG) (mkEncryptedOffset 77 88)
      (StoreDemo.store, StoreDemo.disk) = ((set_js_offset 77 StoreDemo.store, w'), Ok tt) /\
    (forall i, 0 <= i < total_sectors StoreDemo.io -> i ∉ js_lbas StoreDemo.store ->
       StoreDemo.view w' i = StoreDemo.view StoreDemo.disk i) /\
    exists w'', open (C:=ToyCrypto.api) StoreDemo.io (js_vmk StoreDemo.store) w' =
      (w'', Ok (set_js_offset 77 StoreDemo.store)).
Proof.
  exact (proj1 (updates_survive_reopen (C:=ToyCrypto.api) StoreDemo.RNG StoreDemo.io StoreDemo.inv
    StoreDemo.view StoreDemo.io_laws (StoreDemo.fill_laws _) StoreDemo.io_reliable
    StoreDemo.fill_reliable StoreDemo.store StoreDemo.disk Encrypt StoreDemo.store_ok
    StoreDemo.store_matches eq_refl eq_refl (conj (Z.le_refl 0) eq_refl) StoreDemo.disk_ok
    (StoreDemo.footer_found _)) (mkEncryptedOffset 77 88) StoreDemo.offset_ok).
Defined.

(** C29: A new volume opens. With valid options whose replica counts fit the
    header's bytes, [create] on a working device succeeds, writes only metadata
    blocks, and [open] under the same master key gives the created store back,
    with boundary 0 and direction Encrypt. *)
Theorem create_then_open {C : CryptoApi} {HC : CryptoLaws C} {W} (RNG : option (RandomSource W))
    io inv view (IL : SectorIoLaws io inv view) (FL : FillLaws RNG inv view (total_sectors io))
    (RL : SectorIoReliable io inv) (FR : FillReliable RNG inv)
    vmk o key1 key2 volume_id g w :
  options_wf o -> use_header o < 256 -> use_footer o < 256 -> validate_options o = Ok tt ->
  compute_geometry (sector_size io) (total_sectors io) o = Ok g ->
  length key1 = 32%nat -> length key2 = 32%nat -> length volume_id = 16%nat -> inv w ->
  (0 < use_footer o \/ is_err (verify_crc (block_of (view w (total_sectors io - 1)))) = true) ->
  exists s w' w'',
    create RNG io vmk o key1 key2 volume_id JvckCbcCodec w = (w', Ok s) /\
    open io vmk w' = (w'', Ok s) /\
    js_options s = o /\ js_geometry s = g /\ js_offset s = 0 /\ from_u16 (js_state s) = Encrypt /\
    fvek_keys s = (key1, key2) /\ js_volume_id s = volume_id /\
    forall i, 0 <= i < total_sectors io -> i ∉ layout_lbas (total_sectors io) o g ->
      view w' i = view w i.
Proof.
  intros Ho Hh Hf Hv Hg H1 H2 H3 Hi Hlast. pose proof Ho as [].
  set (s := created io vmk o key1 key2 volume_id JvckCbcCodec g).
  assert (store_wf io inv view s) as S by (apply created_wf; try done; apply _).
  assert (header_matches s) as Hm.
  { constructor; cbn; try done; apply wrap_id; unfold in_u; lia. }
  destruct (update_reopens RNG io inv view (fun _ => s) s w Encrypt S Hm) as
    (w' & E & _ & Hv' & w'' & E2 & _); try done.
  exists s, w', w''. split_and!; try done.
  rewrite (create_eq _ _ _ _ _ _ _ _ g) by done. cbv zeta. fold s.
  rewrite update_run in E. cbn [fst snd] in E. destruct (write_all_replicas RNG s w).
  simplify_eq. done.
Qed.

Lemma create_then_open_witness :
  exists s w' w'',
    create StoreDemo.RNG StoreDemo.io ToyCrypto.vmk StoreDemo.options
      StoreDemo.key1 StoreDemo.key2 StoreDemo.volume_id (JvckCbcCodec (C:=ToyCrypto.api))
      StoreDemo.disk = (w', Ok s) /\
    open (C:=ToyCrypto.api) StoreDemo.io ToyCrypto.vmk w' = (w'', Ok s) /\
    js_options s = StoreDemo.options /\ js_geometry s = StoreDemo.geometry /\ js_offset s = 0 /\
    from_u16 (js_state s) = Encrypt /\ fvek_keys s = (StoreDemo.key1, StoreDemo.key2) /\
    js_volume_id s = StoreDemo.volume_id /\
    forall i, 0 <= i < total_sectors StoreDemo.io ->
      i ∉ layout_lbas (total_sectors StoreDemo.io) StoreDemo.options StoreDemo.geometry ->
      StoreDemo.view w' i = StoreDemo.view StoreDemo.disk i.
Proof.
  exact (create_then_open (C:=ToyCrypto.api) (HC:=ToyCrypto.laws) StoreDemo.RNG StoreDemo.io
    StoreDemo.inv StoreDemo.view StoreDemo.io_laws (StoreDemo.fill_laws _) StoreDemo.io_reliable
    StoreDemo.fill_reliable ToyCrypto.vmk StoreDemo.options StoreDemo.key1 StoreDemo.key2
    StoreDemo.volume_id StoreDemo.geometry StoreDemo.disk StoreDemo.options_ok eq_refl eq_refl
    StoreDemo.validated StoreDemo.geometry_ok eq_refl eq_refl eq_refl StoreDemo.disk_ok
    (or_introl eq_refl)).
Defined.

(** The recovery scan. On a device that reads, [load_offset] skips every
    replica whose CRC is wrong and returns the largest boundary among the replicas
    that open, or [NotFound] if none does, and changes no sector. *)
Theorem recovery_takes_largest {C : CryptoApi} {W} io inv view
    (IL : SectorIoLaws io inv view) (RL : SectorIoReads io inv)
    (s : JvckMetadataStore W) w os :
  store_wf io inv view s -> inv w ->
  Forall2 (fun l => offers inv s (view w l)) (js_lbas s) os ->
  exists w' r, load_offset s w = (w', r) /\
    (forall i, 0 <= i < total_sectors io -> view w' i = view w i) /\
    match r with
    | Ok m => Some m ∈ os /\ forall o, Some o ∈ os -> o <= m
    | Err e => e = NotFound "no valid JVCK metadata replica" /\ forall o, Some o ∉ os
    | Panic => False
    end.
Proof.
  intros S Hi Hof. destruct (load_offset_run io inv view s S w os Hi Hof) as (w' & E & _ & Hv).
  eexists w', _. split; [exact E|]. split; [done|].
  pose proof (take_max_bound os None) as H. destruct (foldl take_max None os) as [m|]; cbn.
  - destruct H as ([|H1] & _ & H2); done.
  - destruct H. done.
Qed.

(** The zeroed disk holds no valid replica. *)
Lemma zero_block_bad :
  is_err (verify_crc (C:=ToyCrypto.api) (replicate METADATA_BLOCK_SIZE Byte.x00)) = true.
Proof. vm_compute. reflexivity. Qed.

Lemma slice_replicate {A} off n k (x : A) :
  (off + n <= k)%nat -> slice off n (replicate k x) = replicate n x.
Proof.
  intros H. apply list_eq. intros i. rewrite lookup_slice. case_decide as Hd.
  - rewrite !lookup_replicate_2 by lia. done.
  - symmetry. apply lookup_ge_None. rewrite length_replicate. lia.
Qed.

Lemma demo_blank :
  Forall2 (fun l => offers (C:=ToyCrypto.api) StoreDemo.inv StoreDemo.store
             (StoreDemo.view StoreDemo.disk l)) (js_lbas StoreDemo.store) [None; None].
Proof.
  assert (js_lbas StoreDemo.store = [0; 599]) as ->.
  { unfold js_lbas, StoreDemo.store, created. cbn [js_volume_sectors js_options js_geometry].
    rewrite StoreDemo.total_600. reflexivity. }
  assert (forall l, 0 <= l < 600 ->
    block_of (StoreDemo.view StoreDemo.disk l) = replicate METADATA_BLOCK_SIZE Byte.x00) as H.
  { intros l Hl. unfold StoreDemo.view, mem_view, StoreDemo.ss, block_of.
    pose proof StoreDemo.len_z as Hz.
    rewrite slice_slice by (unfold METADATA_BLOCK_SIZE; lia). unfold StoreDemo.disk.
    apply slice_replicate. unfold METADATA_BLOCK_SIZE. lia. }
  repeat constructor; rewrite H by lia; exact zero_block_bad.
Qed.

Lemma recovery_takes_largest_witness :
  exists w' r, load_offset (C:=ToyCrypto.api) StoreDemo.store StoreDemo.disk = (w', r) /\
    (forall i, 0 <= i < total_sectors StoreDemo.io ->
       StoreDemo.view w' i = StoreDemo.view StoreDemo.disk i) /\
    match r with
    | Ok m => Some m ∈ [None; None] /\ forall o : Z, Some o ∈ [None; None] -> o <= m
    | Err e => e = NotFound "no valid JVCK metadata replica" /\ forall o : Z, Some o ∉ [None; None]
    | Panic => False
    end.
Proof.
  exact (recovery_takes_largest (C:=ToyCrypto.api) StoreDemo.io StoreDemo.inv StoreDemo.view
    StoreDemo.io_laws (reliable_reads _ _ StoreDemo.io_reliable) StoreDemo.store
    StoreDemo.disk [None; None]
    StoreDemo.store_ok StoreDemo.disk_ok demo_blank).
Defined.

(** An interrupted update loses no consistency. Start from replicas that all
    hold one boundary and interrupt the rewrite with a new one anywhere (after any
    number of replicas, with any outcome). If a torn sector fails its CRC, then
    with two replicas or more a boundary is still recovered, and it is the old one
    or the new one; while some replica still holds the old block, it is at least
    the old boundary. *)
Theorem interrupted_update_recovers {C : CryptoApi} {W} (RNG : option (RandomSource W))
    io inv view (IL : SectorIoLaws io inv view) (FL : FillLaws RNG inv view (total_sectors io))
    (RL : SectorIoReads io inv) s o w w' r :
  store_wf io inv view s -> synced io inv view s w -> in_u 64 (js_offset s) -> in_u 64 o ->
  (2 <= length (js_lbas s))%nat -> inv w ->
  write_all_replicas RNG (set_js_offset o s) w = (w', r) ->
  detectably_torn inv view (set_js_offset o s) w w' ->
  exists m w'', load_offset s w' = (w'', Ok m) /\ (m = js_offset s \/ m = o) /\
    ((exists l, l ∈ js_lbas s /\ view w' l = view w l) -> js_offset s <= m).
Proof. intros. eapply interrupted_load; done. Qed.

(** C35: The recovery scan is wrong for a decryption. While decrypting, the
    boundary falls, so the up-to-date boundary is the smallest one. If the update
    from [js_offset s] down to [o] stops after some replicas but leaves one with the old
    block, the scan returns the old, larger boundary: the sectors decrypted since
    are taken for ciphertext again. *)
Theorem stale_replica_wins_while_decrypting {C : CryptoApi} {W} (RNG : option (RandomSource W))
    io inv view (IL : SectorIoLaws io inv view) (FL : FillLaws RNG inv view (total_sectors io))
    (RL : SectorIoReads io inv) s o w w' r :
  store_wf io inv view s -> synced io inv view s w -> in_u 64 (js_offset s) -> in_u 64 o ->
  (2 <= length (js_lbas s))%nat -> inv w ->
  js_state s = as_u16 Decrypt -> o < js_offset s ->
  write_all_replicas RNG (set_js_offset o s) w = (w', r) ->
  detectably_torn inv view (set_js_offset o s) w w' ->
  (exists l, l ∈ js_lbas s /\ view w' l = view w l) ->
  exists w'', load_offset s w' = (w'', Ok (js_offset s)).
Proof.
  intros S Hs Ho Ho' Hlen Hi _ Hlt Hw Ht Hstale.
  destruct (interrupted_load RNG io inv view s o w w' r S Hs Ho Ho' Hlen Hi Hw Ht)
    as (m & w'' & E & [->| ->] & Hge); [exists w''; done|]. specialize (Hge Hstale). lia.
Qed.

Lemma interrupted_update_recovers_witness :
  exists m w'', load_offset (C:=ToyCrypto.api) (TornDemo.store TornDemo.io) TornDemo.disk0 = (w'', Ok m) /\
    (m = 2 \/ m = 0) /\
    ((exists l, l ∈ js_lbas (TornDemo.store TornDemo.io) /\
        TornDemo.view TornDemo.disk0 l = TornDemo.view TornDemo.disk2 l) -> 2 <= m).
Proof.
  exact (interrupted_update_recovers (C:=ToyCrypto.api) TornDemo.RNG TornDemo.io TornDemo.inv TornDemo.view
    TornDemo.io_laws (TornDemo.fill_laws _) TornDemo.io_reads (TornDemo.store TornDemo.io) 0
    TornDemo.disk2 TornDemo.disk0 (Err (Io "bad sector")) TornDemo.io_ok
    (proj2 TornDemo.disk2_synced) TornDemo.z02 TornDemo.z00 TornDemo.two_replicas
    (proj1 TornDemo.disk2_synced) TornDemo.disk0_run TornDemo.torn).
Defined.

Lemma stale_replica_wins_while_decrypting_witness :
  exists w'', load_offset (C:=ToyCrypto.api) (TornDemo.store TornDemo.io) TornDemo.disk0 = (w'', Ok 2).
Proof.
  exact (stale_replica_wins_while_decrypting (C:=ToyCrypto.api) TornDemo.RNG TornDemo.io TornDemo.inv TornDemo.view
    TornDemo.io_laws (TornDemo.fill_laws _) TornDemo.io_reads (TornDemo.store TornDemo.io) 0
    TornDemo.disk2 TornDemo.disk0 (Err (Io "bad sector")) TornDemo.io_ok
    (proj2 TornDemo.disk2_synced) TornDemo.z02 TornDemo.z00 TornDemo.two_replicas
    (proj1 TornDemo.disk2_synced) eq_refl (eq_refl : (0 ?= 2) = Lt) TornDemo.disk0_run
    TornDemo.torn TornDemo.in_lbas).
Defined.

(** C33: Vendor data. On a working device, writing whole sectors inside a
    replica's vendor area succeeds, reads back as written, and changes no sector
    of any other role: not the data region, not a metadata block, not the rest of
    the vendor areas. A buffer that is not whole sectors, an unknown replica and a
    range past the area are refused before the device is touched, in that
    order. *)
Theorem vendor_data_roundtrip {C : CryptoApi} {W} io inv view (IL : SectorIoLaws io inv view)
    (RL : SectorIoReliable io inv) (s : JvckMetadataStore W) w k :
  store_wf io inv view s -> inv w ->
  let count := vendor_data_sector_count s in
  let replicas := use_header (js_options s) + use_footer (js_options s) in
  let n := Z.of_nat in
  (forall rel ls, Z.of_nat k < replicas -> 0 <= rel -> ls <> [] ->
     rel + n (length ls) <= count -> sectors_of (Z.to_nat (sector_size io)) ls ->
     exists w', write_vendor_data s k rel (concat ls) w = (w', Ok tt) /\
       (exists w'', read_vendor_data s k rel (length (concat ls)) w' = (w'', Ok (concat ls))) /\
       forall r l, role_lba (total_sectors io) (js_options s) (js_geometry s) r = Some l ->
         (forall j, r = RVendor k j -> j < rel \/ rel + n (length ls) <= j) ->
         view w' l = view w l) /\
  (forall rel buf, in_u 64 rel ->
     let whole := (0 < length buf)%nat /\ n (length buf) mod sector_size io = 0 in
     (~ whole -> write_vendor_data s k rel buf w = (w, Err bad_vendor_buffer)) /\
     (whole -> replicas <= n k -> write_vendor_data s k rel buf w =
        (w, Err (NotFound "vendor data replica index out of range"))) /\
     (whole -> n k < replicas -> count < rel + n (length buf) / sector_size io ->
        write_vendor_data s k rel buf w = (w, Err bad_vendor_range))).
Proof.
  intros S Hi. cbv zeta. destruct (vendor_facts io inv view s S) as (Hss & HL & Hgs & Hc & Hb).
  rewrite Hc. split.
  - intros rel ls Hk Hr Hls Hend Hs.
    assert (0 < length ls)%nat as Hpos by (destruct ls; cbn; [done|lia]).
    destruct (write_vendor_data s k rel (concat ls) w) as [w' r] eqn:Ew.
    destruct (vendor_write_run io inv view s S k rel ls w w' r Hi Hk Hr Hls Hend Hs Ew)
      as (Hi' & _ & Hother & Hrun).
    assert (r = Ok tt) as ->.
    { pose proof (vendor_write_ok io inv view s S k rel ls w Hi Hk Hr Hls Hend Hs) as Hok.
      rewrite Ew in Hok. destruct r as [[]| |]; done. }
    exists w'. split; [done|]. split.
    + rewrite (length_concat_sectors _ _ Hs).
      destruct (vendor_read_run io inv view s S k rel (length ls) w' Hi' Hk Hr Hpos Hend)
        as (w'' & E2).
      exists w''. rewrite E2. do 3 f_equal. rewrite <- (read_write_run (view w) (vendor_lba (total_sectors io)
        (opt_metadata_size (js_options s) / sector_size io) (use_header (js_options s))
        (use_footer (js_options s)) (Z.of_nat k) + rel) ls) at 2.
      destruct (vendor_checked_ok io inv view s S k rel (length ls) Hk Hr ltac:(lia) Hend)
        as (_ & H1 & H2).
      apply read_run_ext. intros i Hin. apply Hrun; [done|lia].
    + intros ro l Hl Hne.
      destruct (vendor_frame io inv view s S k rel (length ls) ro l) as [Hr2 Ho]; try done.
      apply Hother; done.
  - intros rel buf Hrel.
    destruct (vendor_checked_err io inv view s S k rel (length buf) Hrel) as (E1 & E2 & E3).
    unfold write_vendor_data. rewrite mbind_run. unfold lift.
    split_and!; intros; [rewrite E1|rewrite E2|rewrite E3]; done.
Qed.

Lemma vendor_data_roundtrip_witness :
  vendor_data_sector_count StoreDemo.store = 255 /\
  exists w', write_vendor_data StoreDemo.store 1 3 (concat [replicate 512 Byte.x77])
      StoreDemo.disk = (w', Ok tt).
Proof.
  split; [reflexivity|].
  destruct (vendor_data_roundtrip (C:=ToyCrypto.api) StoreDemo.io StoreDemo.inv StoreDemo.view
    StoreDemo.io_laws StoreDemo.io_reliable StoreDemo.store StoreDemo.disk 1 StoreDemo.store_ok
    StoreDemo.disk_ok) as [H _].
  destruct (H 3 [replicate 512 Byte.x77]) as (w' & E & _).
  - reflexivity.
  - lia.
  - discriminate.
  - vm_compute. discriminate.
  - repeat constructor.
  - exists w'. exact E.
Defined.

(** Finding: [create] truncates the replica counts to a byte. For a layout of
    256 header replicas or more it still succeeds and writes every replica, but
    the header it seals announces the counts modulo 256, so opening the new volume
    gives a reader whose data region starts inside the header replicas. *)
Theorem create_truncates_counts {C : CryptoApi} {HC : CryptoLaws C} {W}
    (RNG : option (RandomSource W)) io inv view
    (IL : SectorIoLaws io inv view) (FL : FillLaws RNG inv view (total_sectors io))
    (RL : SectorIoReliable io inv) (FR : FillReliable RNG inv)
    vmk o key1 key2 volume_id g w :
  options_wf o -> 256 <= use_header o -> 0 < use_footer o < 256 -> validate_options o = Ok tt ->
  compute_geometry (sector_size io) (total_sectors io) o = Ok g ->
  length key1 = 32%nat -> length key2 = 32%nat -> length volume_id = 16%nat -> inv w ->
  exists s w' r w'',
    create RNG io vmk o key1 key2 volume_id JvckCbcCodec w = (w', Ok s) /\
    js_geometry s = g /\
    Reader_open io w' = (w'', Ok r) /\
    use_header (jr_options r) = use_header o mod 256 /\
    g_offset_sector (jr_geometry r) < g_offset_sector g /\
    exists l, l ∈ layout_lbas (total_sectors io) o g /\
      g_offset_sector (jr_geometry r) <= l <
        g_offset_sector (jr_geometry r) + g_data_sectors (jr_geometry r).
Proof.
  intros Ho Hh Hf Hv Hg H1 H2 H3 Hi. pose proof Ho as [].
  set (s := created io vmk o key1 key2 volume_id JvckCbcCodec g).
  assert (store_wf io inv view s) as S by (apply created_wf; try done; apply _).
  pose proof (ss_32 io inv view) as H32. pose proof (total_64 io inv view) as H64.
  destruct (geometry_facts _ _ _ _ H32 H64 Ho Hg) as (Hss & HL & Hgo & Hgd & _). pose proof HL as [].
  pose proof (write_all_ok RNG io inv view s S w Hi) as Hok.
  destruct (write_all_replicas RNG s w) as [w' [[]| |]] eqn:E; [|done..].
  destruct (write_all_synced RNG io inv view s w w' S Hi ltac:(split; done) E) as (Hi' & Hs & _).
  set (rs := opt_metadata_size o / sector_size io) in *.
  assert (0 <= use_header o mod 256 < 256) as Hm by (apply Z.mod_pos_bound; lia).
  pose proof (Z.mod_le (use_header o) 256 ltac:(lia) ltac:(lia)) as Hle.
  assert (header_options (js_header s) = mkOptions (use_header o mod 256) (use_footer o)
            (opt_metadata_size o)) as Hho.
  { unfold header_options. cbn. rewrite (wrap_id 8 (use_footer o)) by (unfold in_u; lia). done. }
  assert (compute_geometry (sector_size io) (total_sectors io) (header_options (js_header s)) =
    Ok (mkGeometry (use_header o mod 256 * rs)
          (total_sectors io - (use_header o mod 256 + use_footer o) * rs) (sector_size io))) as Hg'.
  { assert (options_wf (mkOptions (use_header o mod 256) (use_footer o) (opt_metadata_size o)))
      as Ho' by (split; cbn [use_header use_footer opt_metadata_size]; first [done|lia]).
    rewrite Hho. refine (compute_geometry_intro _ _ _ Hss H64 Ho' _ _); cbn; fold rs; nia. }
  edestruct (candidate_header io inv view s w' (total_sectors io - 1) [0]) as
    (w'' & E2 & _); [exact S|exact Hi'|exact Hs| |exact Hg'|].
  { rewrite (js_lbas_layout io inv view s S). apply (layout_last _ _ _ _ H32 H64 Ho Hg). lia. }
  eexists s, w', _, w''. split_and!; [|done| | | |].
  - rewrite (create_eq _ _ _ _ _ _ _ _ g) by done. cbv zeta. fold s. rewrite E. done.
  - unfold Reader_open. cbv zeta. change (Z.of_nat METADATA_BLOCK_SIZE) with 512.
    rewrite (proj2 (Z.ltb_ge _ _)), (proj2 (Z.eqb_neq _ 0)) by nia. exact E2.
  - cbn [jr_options]. change (use_header (header_options (js_header s)) = use_header o mod 256). rewrite Hho. done.
  - cbn. rewrite Hgo. nia.
  - cbn [jr_geometry g_offset_sector g_data_sectors].
    exists (block_lba (total_sectors io) rs (use_header o) (use_footer o) (use_header o - 1)).
    split.
    + apply (list_elem_of_lookup_2 _ (Z.to_nat (use_header o - 1))).
      rewrite (layout_lbas_lookup _ _ _ _ H32 H64 Ho Hg), Z2Nat.id by lia.
      rewrite (proj2 (Z.ltb_lt _ _)) by lia. done.
    + unfold block_lba, region. rewrite (proj2 (Z.ltb_lt _ _)) by lia. nia.
Qed.

Lemma create_truncates_counts_witness :
  exists s w' r w'',
    create WideDemo.RNG WideDemo.io ToyCrypto.vmk WideDemo.options StoreDemo.key1 StoreDemo.key2
      StoreDemo.volume_id (JvckCbcCodec (C:=ToyCrypto.api)) WideDemo.disk = (w', Ok s) /\
    js_geometry s = WideDemo.geometry /\
    Reader_open (C:=ToyCrypto.api) WideDemo.io w' = (w'', Ok r) /\
    use_header (jr_options r) = 1 /\ g_offset_sector (jr_geometry r) < 65792 /\
    exists l, l ∈ layout_lbas (total_sectors WideDemo.io) WideDemo.options WideDemo.geometry /\
      g_offset_sector (jr_geometry r) <= l <
        g_offset_sector (jr_geometry r) + g_data_sectors (jr_geometry r).
Proof.
  exact (create_truncates_counts (C:=ToyCrypto.api) (HC:=ToyCrypto.laws) WideDemo.RNG WideDemo.io
    WideDemo.inv WideDemo.view WideDemo.io_laws (WideDemo.fill_laws _) WideDemo.io_reliable
    WideDemo.fill_reliable ToyCrypto.vmk WideDemo.options StoreDemo.key1 StoreDemo.key2
    StoreDemo.volume_id WideDemo.geometry WideDemo.disk WideDemo.wide_options_ok WideDemo.header_wide
    WideDemo.footer_range WideDemo.wide_validated WideDemo.wide_geometry_ok eq_refl eq_refl eq_refl
    WideDemo.wide_disk_ok).
Defined.
