(* ===== verification/Interrupted.v ===== *)
(** * A sweep batch interrupted by a power loss

    A batch of the sweep writes the transformed sectors and then the boundary, replica
    by replica. The device may stop taking writes at any point of it, in the middle of a
    sector included; what the recovery scan then finds, and what the disk presents at
    the boundary found, is this file's subject. *)

From S2P Require Import Prelude Types Sectors Engine Metadata Codec Store StoreLaws.

(** The boundary a batch moves to, when it is not interrupted. *)
Definition next_boundary (e : EncryptionEngine) (batch : Z) : Z :=
  let b := eo_sector (en_encrypted_offset e) in
  match en_state e with
  | Encrypting => b + batch_size (eo_total_sectors (en_encrypted_offset e) - b) batch
  | Decrypting => b - batch_size b batch
  | _ => b
  end.

Section Interrupted.
Context {C : CryptoApi} {W : Type} (RNG : option (RandomSource W)).
Context (io : SectorIo W) (inv : W -> Prop) (view : W -> Z -> bytes).
Context {IL : SectorIoLaws io inv view} {FL : FillLaws RNG inv view (total_sectors io)}.
Context {RL : SectorIoReads io inv}.
Context (cipher : VolumeCipher) (enc dec : Z -> bytes -> bytes).
Context {CL : CipherLaws cipher (sector_size io) enc dec}.
Context (s : JvckMetadataStore W) (S0 : store_wf io inv view s).

Abbreviation ss := (sector_size io).
Abbreviation off := (g_offset_sector (js_geometry s)).
Abbreviation total := (g_data_sectors (js_geometry s)).
Abbreviation b := (js_offset s).
Abbreviation here w := ((s, w) : JvckMetadataStore W * W).

(** The device keeps the store beside it. *)
Definition beside (sw : JvckMetadataStore W * W) : Prop := sw.1 = s /\ inv sw.2.
#[local] Instance beside_io : SectorIoLaws (lift_io io) beside (fun sw => view sw.2).
Proof using IL.
  constructor; cbn [sector_size total_sectors read_sectors write_sectors lift_io].
  - apply io_ss.
  - apply io_total.
  - intros w i [_ Hi]. apply io_len. done.
  - intros [s1 w] lba k t r [Hs Hi] Hl Hk H. unfold on_snd, zoom in H. cbn [fst snd] in *.
    destruct (read_sectors io lba _ w) as [w' r'] eqn:E. simplify_eq.
    destruct (io_read (io:=io) w lba k w' r Hi Hl Hk E) as (? & ? & ?). done.
  - intros [s1 w] lba ls t r [Hs Hi] Hl Hk Hsec H. unfold on_snd, zoom in H. cbn [fst snd] in *.
    destruct (write_sectors io lba _ w) as [w' r'] eqn:E. simplify_eq.
    destruct (io_write (io:=io) w lba ls w' r Hi Hl Hk Hsec E) as (? & ?). done.
Qed.

(** How far a batch over sectors [first, first + n) that moves the boundary to [target]
    got: not past its own sectors, or into the update of the replicas. *)
Inductive batch_cut (e : EncryptionEngine) (w : W) (f : Z -> bytes -> bytes)
    (first n target : Z) :
    (EncryptionEngine * (JvckMetadataStore W * W)) * outcome VckError bool -> Prop :=
| cut_in_batch w' err :
    inv w' ->
    (forall i, 0 <= i < total_sectors io -> i < off + first \/ off + first + n <= i ->
       view w' i = view w i) ->
    batch_cut e w f first n target ((e, (s, w')), Err err)
| cut_in_update e' w1 w2 q r :
    inv w1 ->
    (forall i, 0 <= i < total_sectors io ->
       view w1 i = rewrite_run f (view w) off first (Z.to_nat n) i) ->
    write_all_replicas RNG (set_js_offset target s) w1 = (w2, q) -> is_ok r = is_ok q ->
    batch_cut e w f first n target ((e', (set_js_offset target s, w2)), r).

Lemma store_bounds : 0 <= off /\ 0 <= total /\ off + total <= total_sectors io.
Proof using IL S0. exact (store_region io inv view s S0). Qed.

Lemma batch_cut_run area f e w first n target
    (k : EncryptionEngine -> M VckError (EncryptionEngine * (JvckMetadataStore W * W)) bool) :
  (forall ls, sectors_of (Z.to_nat ss) ls -> length ls = n ->
     area (concat ls) = Ok (concat (number_map f first ls)) /\
     sectors_of (Z.to_nat ss) (number_map f first ls)) ->
  inv w -> 0 <= first -> first + Z.of_nat n <= total ->
  (forall e1 t, exists e' v, k e1 t = ((e', t.2), Ok v)) ->
  batch_cut e w f first (Z.of_nat n) target
    ((buf ← on_snd (read_sectors (lift_io io) (off + first) (n * Z.to_nat ss));
      buf ← lift (area buf);
      _ ← on_snd (write_sectors (lift_io io) (off + first) buf);
      _ ← set_sector target;
      e ← engine;
      _ ← on_snd (st_store (Jvck_OffsetStore RNG) (en_encrypted_offset e));
      _ ← on_snd (st_flush (Jvck_OffsetStore RNG)); k e) (e, here w)).
Proof using All.
  intros Harea Hi Hf Hn Hk. destruct store_bounds as (H0 & Ht & Hend).
  match goal with |- context [_ ≫= (fun _ => _ ≫= (fun _ => _ ≫= ?rest))] => set (k1 := rest tt) end.
  destruct (batch_cases (reach := total_sectors io) (lift_io io) (Jvck_OffsetStore RNG) beside (fun sw => view sw.2) off total 0
              (total_sectors io) ltac:(lia) area f e (here w) first n k1 Harea (conj eq_refl Hi) Hf Hn)
    as ([s1 w1] & [Hs1 Hi1] & _ & Hrun). cbn [fst snd] in Hs1, Hi1. subst s1. cbv zeta in Hrun.
  change (sector_size (lift_io io)) with ss in Hrun.
  destruct Hrun as [([err ->] & Hv & _)|[-> Hv]].
  - constructor; [done|]. intros i Hr. apply Hv. lia.
  - subst k1. cbv beta. rewrite (mbind_step _ _ _ (with_sector target e, here w1) tt) by done.
    rewrite (mbind_step _ _ _ (with_sector target e, here w1) (with_sector target e)) by done.
    destruct (write_all_replicas RNG (set_js_offset target s) w1) as [w2 q] eqn:E.
    assert (on_snd (st_store (Jvck_OffsetStore RNG) (en_encrypted_offset (with_sector target e)))
              (with_sector target e, here w1) = ((with_sector target e, (set_js_offset target s, w2)), q)) as Es.
    { change (st_store _ _) with (update RNG (set_js_offset target)). unfold on_snd, zoom.
      rewrite update_run. cbn [fst snd]. rewrite E. done. }
    rewrite mbind_run, Es.
    pose proof (fun e' r H => cut_in_update e w f first (Z.of_nat n) target e' w1 w2 q r Hi1
                  ltac:(intros; rewrite Nat2Z.id; apply Hv; lia) E H) as Hcut.
    destruct q as [[]|err|]; [|apply Hcut; done..].
    destruct (Hk (with_sector target e) (with_sector target e, (set_js_offset target s, w2))) as (e' & v & Ek).
    rewrite (mbind_step _ _ _ (with_sector target e, (set_js_offset target s, w2)) tt) by done.
    rewrite Ek. apply Hcut. done.
Qed.

Abbreviation step e batch w :=
  (progress_step (lift_io io) cipher (Jvck_OffsetStore RNG) batch (e, here w)).

(** A step leaves everything as it was, or is a batch over the sectors between the two
    boundaries that keeps the plaintext when it is complete. *)
Lemma step_cut e w batch :
  engine_wf off total e -> eo_sector (en_encrypted_offset e) = b -> inv w ->
  total * ss < 2 ^ 64 ->
  let t := next_boundary e batch in
  0 <= t <= total /\
  ((t = b /\ exists e', step e batch w = ((e', here w), Ok false)) \/
   exists f, t <> b /\ Z.abs (t - b) <= Z.max batch 1 /\
     batch_cut e w f (Z.min b t) (Z.abs (t - b)) t (step e batch w) /\
     forall rel, 0 <= rel < total ->
       plaintext dec (rewrite_run f (view w) off (Z.min b t) (Z.to_nat (Z.abs (t - b)))) off t rel =
       plaintext dec (view w) off b rel).
Proof using All.
  intros Hwf Hb Hi Hbig. pose proof Hwf as [Ho Ht Hs]. rewrite Hb in Hs.
  destruct store_bounds as (H0 & H1 & Hend). pose proof (io_total (io:=io) (view:=view)).
  pose proof (io_ss (io:=io) (view:=view)).
  unfold next_boundary, progress_step. rewrite Hb, Ht.
  rewrite (mbind_step _ _ _ (e, here w) e) by done.
  destruct (en_state e).
  all: try (split; [lia|left; split; [done|]; eexists; done]).
  - unfold encrypt_step. rewrite (mbind_step _ _ _ (e, here w) e) by done.
    assert (is_fully_encrypted (en_encrypted_offset e) = (total <=? b)) as ->
      by (unfold is_fully_encrypted; rewrite Ht, Hb; done).
    rewrite Ht, Hb, Ho. destruct (Z.leb_spec total b).
    { unfold batch_size. split; [lia|]. left. split; [lia|]. eexists. done. }
    set (n := batch_size (total - b) batch). assert (0 < n <= total - b) by (unfold n, batch_size; lia).
    assert (n <= Z.max batch 1) by (unfold n, batch_size; lia).
    split; [lia|]. right. exists enc. rewrite Z.min_l, Z.abs_eq by lia. replace (b + n - b) with n by lia.
    split; [lia|]. split; [done|]. cbn [sector_size lift_io].
    rewrite u64_sub_id by lia. fold (batch_size (total - b) batch). fold n.
    rewrite (u64_add_id off b), (u64_add_id b n) by lia.
    rewrite (batch_bytes io inv view total) by lia. split.
    + rewrite <- (Z2Nat.id n) at 1 by lia. apply batch_cut_run; [|done|lia..|].
      * intros ls Hls Hlen. apply (encrypt_area_run io cipher enc dec total); done || lia.
      * intros e2 [e1 t1]. cbn. unfold is_fully_encrypted. destruct (_ <=? _); eexists _, _; done.
    + intros rel Hr. apply (plaintext_encrypted io cipher enc dec off total); [lia..|].
      apply io_len; [done|lia].
  - unfold decrypt_step. rewrite (mbind_step _ _ _ (e, here w) e) by done. rewrite Hb, Ho.
    destruct (Z.eqb_spec b 0) as [->|Hne].
    { unfold batch_size. split; [lia|]. left. split; [lia|]. eexists. done. }
    set (n := batch_size b batch). assert (0 < n <= b) by (unfold n, batch_size; lia).
    assert (n <= Z.max batch 1) by (unfold n, batch_size; lia).
    split; [lia|]. right. exists dec. rewrite Z.min_r, Z.abs_neq by lia. replace (- (b - n - b)) with n by lia.
    split; [lia|]. split; [done|]. cbn [sector_size lift_io].
    fold (batch_size b batch). fold n. rewrite u64_sub_id by lia. rewrite u64_add_id by lia.
    rewrite (batch_bytes io inv view total) by lia. split.
    + replace n with (Z.of_nat (Z.to_nat n)) at 2 by lia.
      apply batch_cut_run; [|done|lia..|].
      * intros ls Hls Hlen. apply (decrypt_area_run io cipher enc dec total); done || lia.
      * intros e2 [e1 t1]. cbn. destruct (_ =? _); eexists _, _; done.
    + intros rel Hr. apply plaintext_decrypted. lia.
Qed.

Lemma synced_on w w' :
  (forall l, l ∈ js_lbas s -> view w' l = view w l) -> synced io inv view s w -> synced io inv view s w'.
Proof using Type.
  intros Hv (block & Hl & Hs & Hr). exists block. split_and!; [done..|]. intros l Hin. rewrite Hv by done.
  apply Hr. done.
Qed.

Lemma outside_data l : l ∈ js_lbas s -> 0 <= l < total_sectors io /\ ~ (off <= l < off + total).
Proof using IL S0.
  intros Hl. pose proof (js_lbas_range io inv view s S0) as Hr. rewrite Forall_forall in Hr.
  split; [apply Hr; done|]. intros Hx. destruct (js_lbas_data io inv view s S0 l Hx). done.
Qed.

(** What the recovery scan finds after a batch cut short. *)
Lemma cut_recovers e w f first n t e' s' w' r :
  batch_cut e w f first n t ((e', (s', w')), r) -> synced io inv view s w ->
  in_u 64 b -> in_u 64 t -> (2 <= length (js_lbas s))%nat -> 0 <= first -> 0 <= n -> first + n <= total ->
  detectably_torn inv view s' w w' ->
  exists m w'', load_offset s w' = (w'', Ok m) /\ ((m = b /\ is_ok r = false) \/ m = t) /\
    (m = b \/ forall i, off <= i < off + total ->
       view w' i = rewrite_run f (view w) off first (Z.to_nat n) i) /\
    (forall i, off <= i < off + total -> i < off + first \/ off + first + n <= i -> view w' i = view w i).
Proof using All.
  intros Hcut Hs Hb Ht Hlen Hf Hn Hend Htorn. destruct store_bounds as (H0 & H1 & H2).
  assert (forall i, off + first <= i < off + first + n -> i ∉ js_lbas s) as Hout.
  { intros i Hx Hl. destruct (outside_data i Hl). lia. }
  inversion Hcut as [w1 err Hi1 Hv|e1 w1 w2 q r1 Hi1 Hv Hw Hq]; subst; clear Hcut.
  - assert (synced io inv view s w') as Hs'.
    { apply (synced_on w); [|done]. intros l Hl. destruct (outside_data l Hl). apply Hv; lia. }
    destruct (synced_load io inv view s w' S0 Hi1 Hs') as (w'' & E & _).
    exists b, w''. split; [done|]. split; [by left|]. split; [by left|]. intros i Hx Ho. apply Hv; lia.
  - assert (forall i, 0 <= i < total_sectors io -> i < off + first \/ off + first + n <= i ->
      view w1 i = view w i) as Hv1.
    { intros i Hx Ho. rewrite Hv by done. replace i with (off + (i - off)) at 1 by lia.
      rewrite rewrite_run_at, Z2Nat.id by lia. replace (off + (i - off)) with i by lia.
      destruct (Z.leb_spec first (i - off)), (Z.ltb_spec (i - off) (first + n)); done || lia. }
    assert (forall l, l ∈ js_lbas s -> view w1 l = view w l) as Hvl.
    { intros l Hl. destruct (outside_data l Hl). apply Hv1; lia. }
    pose proof (synced_on w w1 Hvl Hs) as Hs1.
    pose proof (store_wf_offset io inv view s t S0) as S1.
    destruct (write_all_run RNG io inv view _ S1 w1 w' q Hi1 Hw) as (Hi2 & _ & Hv2 & _).
    assert (forall i, off <= i < off + total -> view w' i = view w1 i) as Hd.
    { intros i Hx. destruct (js_lbas_data io inv view s S0 i Hx). apply Hv2; done. }
    assert (detectably_torn inv view (set_js_offset t s) w1 w') as Htorn1.
    { unfold detectably_torn in *. rewrite Forall_forall in Htorn |- *. intros l Hl.
      rewrite (Hvl l Hl). apply Htorn. exact Hl. }
    destruct (interrupted_load RNG io inv view s t w1 w' q S0 Hs1 Hb Ht Hlen Hi1 Hw Htorn1)
      as (m & w'' & E & Hm & _).
    exists m, w''. split; [done|]. split_and!.
    + destruct (is_ok r) eqn:Er; [right|destruct Hm; auto]. destruct q as [[]| |]; [|done..].
      destruct (write_all_synced RNG io inv view _ w1 w' S1 Hi1 Ht Hw) as (_ & Hs2 & _).
      destruct (synced_load io inv view _ w' S1 Hi2 Hs2) as (w3 & E3 & _).
      rewrite load_offset_set, E in E3. simplify_eq. done.
    + right. intros i Hx. rewrite Hd, Hv by lia. done.
    + intros i Hx Ho. rewrite Hd by done. apply Hv1; lia.
Qed.
Lemma step_store e w batch e' s' w' r :
  engine_wf off total e -> eo_sector (en_encrypted_offset e) = b -> inv w ->
  total * ss < 2 ^ 64 -> step e batch w = ((e', (s', w')), r) ->
  s' = s \/ s' = set_js_offset (next_boundary e batch) s.
Proof using All.
  intros Hwf Hb Hi Hbig E.
  destruct (step_cut e w batch Hwf Hb Hi Hbig) as (_ & [[_ (e1 & E1)]|(f & _ & _ & Hc & _)]).
  - rewrite E1 in E. simplify_eq. by left.
  - rewrite E in Hc. inversion Hc; auto.
Qed.
End Interrupted.

(** ** A batch on the disk whose last sector cannot be written *)

Module CutDemo.
Import ToyCrypto.
Definition engine : EncryptionEngine := mkEngine 1 (mkEncryptedOffset 2 2) Decrypting.
Abbreviation io := TornDemo.io.
Definition store : JvckMetadataStore MemVolume := TornDemo.store io.
#[export] Instance cut_cipher_laws :
  CipherLaws ShiftCipher.cipher (sector_size io) ShiftCipher.enc ShiftCipher.dec.
Proof. apply ShiftCipher.laws. unfold io, TornDemo.io, TornDemo.ss. cbn. lia. Qed.
Lemma engine_ok : engine_wf 1 2 engine.
Proof. constructor; [done..|cbn; lia]. Qed.
(** The batch is written and the first replica, but not the last one. *)
Lemma cut_run : exists e' disk,
  progress_step (lift_io io) ShiftCipher.cipher (Jvck_OffsetStore TornDemo.RNG) 5
    (engine, (store, TornDemo.disk2)) = ((e', (set_js_offset 0 store, disk)), Err (Io "bad sector")) /\
  detectably_torn TornDemo.inv TornDemo.view (set_js_offset 0 store) TornDemo.disk2 disk.
Proof.
  assert (match progress_step (lift_io io) ShiftCipher.cipher (Jvck_OffsetStore TornDemo.RNG) 5
                  (engine, (store, TornDemo.disk2)) with
          | ((_, (s', d)), r) =>
              js_offset s' = 0 /\ r = Err (Io "bad sector") /\
              block_of (TornDemo.view d 0) =
                (encode (js_header store) (js_secrets store) 0 Decrypt (replicate 16 Byte.x5a) vmk
                   (replicate METADATA_BLOCK_SIZE Byte.x00)).1 /\
              TornDemo.view d 3 = TornDemo.view TornDemo.disk2 3
          end) as H by (vm_compute; split_and!; reflexivity).
  destruct (progress_step _ _ _ _ _) as [[e' [s' d]] r] eqn:E. destruct H as (H1 & H2 & H3 & H4).
  exists e', d. subst r. split; [|exact (TornDemo.torn_at _ _ H3 H4)].
  destruct (step_store (IL := TornDemo.io_laws) (FL := TornDemo.fill_laws _) (RL := TornDemo.io_reads)
              TornDemo.RNG io TornDemo.inv TornDemo.view ShiftCipher.cipher ShiftCipher.enc
              ShiftCipher.dec store TornDemo.io_ok engine TornDemo.disk2 5 _ _ _ _ engine_ok eq_refl
              (proj1 TornDemo.disk2_synced) eq_refl E) as [-> | ->]; [discriminate H1|done].
Qed.
End CutDemo.

(** C17: A power loss costs at most the batch in flight. While the sweep moves the
    boundary of a volume with two replicas or more, let the device stop at any point of
    a step - before the batch, inside it, before, inside or after the update of the
    replicas, with sectors torn so that their CRC fails - or not at all. Then the recovery
    scan finds a boundary, the old one or the one the batch moves to, at most one batch
    away; every sector outside the batch presents the same plaintext at the boundary
    found; if that is the new one, or the step succeeded, the whole volume does. *)
Theorem interrupted_batch_is_confined {C : CryptoApi} {W} (RNG : option (RandomSource W)) io inv view
    cipher enc dec s e w batch e' s' w' r
    (IL : SectorIoLaws io inv view) (FL : FillLaws RNG inv view (total_sectors io))
    (RL : SectorIoReads io inv) (CL : CipherLaws cipher (sector_size io) enc dec) :
  let off := g_offset_sector (js_geometry s) in
  let total := g_data_sectors (js_geometry s) in
  store_wf io inv view s -> synced io inv view s w -> (2 <= length (js_lbas s))%nat -> inv w ->
  engine_wf off total e -> eo_sector (en_encrypted_offset e) = js_offset s ->
  total * sector_size io < 2 ^ 64 ->
  progress_step (lift_io io) cipher (Jvck_OffsetStore RNG) batch (e, (s, w)) = ((e', (s', w')), r) ->
  detectably_torn inv view s' w w' ->
  let b := js_offset s in let t := next_boundary e batch in
  0 <= t <= total /\ Z.abs (t - b) <= Z.max batch 1 /\
  exists m w'', load_offset s w' = (w'', Ok m) /\ (m = b \/ m = t) /\ (is_ok r = true -> m = t) /\
    forall rel, 0 <= rel < total -> m = t \/ rel < Z.min b t \/ Z.max b t <= rel ->
      plaintext dec (view w') off m rel = plaintext dec (view w) off b rel.
Proof.
  intros off total S Hs Hlen Hi Hwf Hb Hbig E Htorn b t. pose proof Hwf as [_ _ Hr]. rewrite Hb in Hr.
  pose proof (io_total (io:=io) (view:=view)). destruct (store_region io inv view s S) as (H1 & H2 & H3).
  destruct (step_cut RNG io inv view cipher enc dec s S e w batch Hwf Hb Hi Hbig)
    as (Ht & [[Heq (e1 & E1)]|(f & Hne & Hbatch & Hcut & Hplain)]).
  { fold t in Heq, Ht. rewrite E1 in E. simplify_eq. split; [done|]. split; [lia|].
    destruct (synced_load io inv view s' w' S Hi Hs) as (w'' & E2 & _).
    exists b, w''. rewrite Heq. split_and!; auto. }
  fold t off total b in Ht, Hne, Hbatch, Hcut, Hplain, Hr, H1, H2, H3. split; [done|]. split; [done|].
  rewrite E in Hcut.
  destruct (cut_recovers RNG io inv view cipher enc dec s S e w f _ _ t e' s' w' r Hcut Hs
              ltac:(unfold in_u; lia) ltac:(unfold in_u; lia) Hlen ltac:(lia) ltac:(lia) ltac:(lia) Htorn)
    as (m & w'' & El & Hm & Hnew & Hout).
  exists m, w''. split; [done|]. split; [tauto|]. split; [intros Hk; destruct Hm as [[_ Hk']|]; congruence|].
  intros rel Hrel [Hmt|Ho].
  - subst m. destruct Hnew as [|Hnew]; [done|]. rewrite <- Hplain by done. apply plaintext_ext. apply Hnew. lia.
  - rewrite (plaintext_ext dec (view w') (view w)) by (apply Hout; lia).
    unfold plaintext. destruct Hm as [[-> _]| ->]; [done|].
    destruct (Z.ltb_spec rel t), (Z.ltb_spec rel b); done || lia.
Qed.

Lemma interrupted_batch_is_confined_witness :
  exists disk m w'', load_offset (C := ToyCrypto.api) CutDemo.store disk = (w'', Ok m) /\ (m = 2 \/ m = 0) /\
    (m = 0 -> forall rel, 0 <= rel < 2 ->
       plaintext ShiftCipher.dec (TornDemo.view disk) 1 m rel =
       plaintext ShiftCipher.dec (TornDemo.view TornDemo.disk2) 1 2 rel).
Proof.
  destruct CutDemo.cut_run as (e' & disk & Erun & Htorn).
  destruct (interrupted_batch_is_confined (C := ToyCrypto.api) TornDemo.RNG TornDemo.io TornDemo.inv
    TornDemo.view ShiftCipher.cipher ShiftCipher.enc ShiftCipher.dec CutDemo.store CutDemo.engine
    TornDemo.disk2 5 _ _ disk _
    TornDemo.io_laws (TornDemo.fill_laws _) TornDemo.io_reads CutDemo.cut_cipher_laws
    TornDemo.io_ok (proj2 TornDemo.disk2_synced) TornDemo.two_replicas (proj1 TornDemo.disk2_synced)
    CutDemo.engine_ok eq_refl eq_refl Erun Htorn)
    as (_ & _ & m & w'' & E & Hm & _ & Hp).
  exists disk, m, w''. split; [exact E|]. split; [exact Hm|]. intros -> rel Hr. apply Hp; [exact Hr|by left].
Defined.
