(* ===== verification/Filter.v ===== *)
(** * The filter device's request interception ([lib/windrv/src/filter/io.rs])

    Every request on a filter device is forwarded, queued to the volume's thread,
    or completed on the spot. The lower driver is not part of the program: the
    entry point returns what it does with the request, and a completion routine
    is a function of the request the lower driver completed. *)

From S2P Require Import Prelude Types Sectors Engine Nt Pipeline Volume Thread.

(** ** Device objects ([device.rs]) *)

(* src: lib/windrv/src/device.rs:65-70 DEVICE_KIND_* *)
Definition DEVICE_KIND_CONTROL : Z := 0.
Definition DEVICE_KIND_FILTER : Z := 1.

(** [de_volume] is the address of the bound volume; [None] is null. *)
(* src: lib/windrv/src/device.rs:72-85 DeviceExtension *)
Record DeviceExtension : Type := mkExt {
  de_kind : Z;
  de_lower_device : PDEVICE_OBJECT;
  de_volume : option nat;
  de_vthread : option VolumeThread;
}.

(** ** Requests on a filter device *)

Definition IRP_MJ_READ : Z := 3.
Definition IRP_MJ_WRITE : Z := 4.
Definition IRP_MJ_DEVICE_CONTROL : Z := 14.
Definition IRP_MJ_PNP : Z := 27.
Definition IRP_MN_START_DEVICE : Z := 0.

(** A request with its stack location: [fi_requestor_mode] is 0 for the kernel,
    [fi_sysbuf] the buffered-I/O buffer. *)
Record FilterIrp : Type := mkFilterIrp {
  fi_irp : IRP;
  fi_major : Z;
  fi_minor : Z;
  fi_code : Z;
  fi_requestor_mode : Z;
  fi_sysbuf : option bytes;
}.

Definition set_fi_irp (i : IRP) (f : FilterIrp) : FilterIrp :=
  mkFilterIrp i (fi_major f) (fi_minor f) (fi_code f) (fi_requestor_mode f) (fi_sysbuf f).
Definition set_sysbuf (b : bytes) (f : FilterIrp) : FilterIrp :=
  mkFilterIrp (fi_irp f) (fi_major f) (fi_minor f) (fi_code f) (fi_requestor_mode f) (Some b).

(** ** Size queries *)

(* src: lib/windrv/src/filter/io.rs:37-39 IOCTL_DISK_* *)
Definition IOCTL_DISK_GET_LENGTH_INFO : Z := 0x0007405C.
Definition IOCTL_DISK_GET_PARTITION_INFO : Z := 0x00074004.
Definition IOCTL_DISK_GET_PARTITION_INFO_EX : Z := 0x00070048.

(* src: lib/windrv/src/filter/io.rs:41-48 size_field_offset *)
Definition size_field_offset (code : Z) : option nat :=
  if code =? IOCTL_DISK_GET_LENGTH_INFO then Some 0%nat
  else if code =? IOCTL_DISK_GET_PARTITION_INFO then Some 8%nat
  else if code =? IOCTL_DISK_GET_PARTITION_INFO_EX then Some 16%nat
  else None.

(* src: lib/windrv/src/filter/io.rs:67-71 SizeCtx *)
Record SizeCtx : Type := mkSizeCtx { data_bytes : Z }.

(** [u64::saturating_mul]. *)
Definition saturating_mul64 (a b : Z) : Z := Z.min (a * b) (2 ^ 64 - 1).

(** What a forwarded request comes back through. *)
Inductive completion : Type :=
| NoCompletion
| SizeCompletion (ctx : SizeCtx)
| StartCompletion.

(** What the driver does with a request. *)
Inductive disposition : Type :=
| Completed (irp : FilterIrp) (status : Z)
| Forwarded (irp : FilterIrp) (c : completion)
| Queued (done : list IRP) (status : Z).

(** The stack-location bookkeeping has no counterpart here. *)
(* src: lib/windrv/src/filter/irp.rs:19-40 pass_through *)
Definition pass_through (irp : FilterIrp) : disposition := Forwarded irp NoCompletion.

(* src: lib/windrv/src/filter/io.rs:166-171 block_irp *)
Definition block_irp (irp : FilterIrp) (status : Z) : FilterIrp :=
  set_fi_irp (complete_irp status 0 (fi_irp irp)) irp.

Section Filter.
Context {W : Type}.
Implicit Types v : AttachedVolume W.

(** [alloc_ctx] is whether [ExAllocatePool2] finds memory for the context. *)
(* src: lib/windrv/src/filter/io.rs:73-98 intercept_size_ioctl *)
Definition intercept_size_ioctl (alloc_ctx : bool) v (irp : FilterIrp) : disposition :=
  if negb alloc_ctx then pass_through irp
  else Forwarded irp
         (SizeCompletion (mkSizeCtx (saturating_mul64 (data_sectors v) (av_sector_size v)))).

(** The 8 bytes at the size field are overwritten when the lower driver filled
    them; [irp_information] counts the bytes it returned. *)
(* src: lib/windrv/src/filter/io.rs:100-134 size_ioctl_completion *)
Definition size_ioctl_completion (ctx : SizeCtx) (irp : FilterIrp) : FilterIrp :=
  if nt_success (irp_status (fi_irp irp)) then
    match size_field_offset (fi_code irp) with
    | Some field_off =>
        match fi_sysbuf irp with
        | Some sysbuf =>
            if Z.of_nat field_off + 8 <=? irp_information (fi_irp irp)
            then set_sysbuf (splice field_off (le_encode 8 (data_bytes ctx)) sysbuf) irp
            else irp
        | None => irp
        end
    | None => irp
    end
  else irp.

(** ** PnP *)

(* src: lib/windrv/src/filter/io.rs:140-161 handle_filter_pnp *)
Definition handle_filter_pnp (irp : FilterIrp) : disposition :=
  if negb (fi_minor irp =? IRP_MN_START_DEVICE) then pass_through irp
  else Forwarded irp StartCompletion.

(** ** Reads and writes *)

(* src: lib/windrv/src/filter/io.rs:181-185 data_relative *)
Definition data_relative v (abs_lba : Z) : option Z :=
  let offset := offset_sector v in
  let total := data_sectors v in
  rel ← (if offset <=? abs_lba then Some (abs_lba - offset) else None);
  if rel <? total then Some rel else None.

(* src: lib/windrv/src/filter/io.rs:173-179 is_metadata_sector *)
Definition is_metadata_sector v (byte_offset ss : Z) : bool :=
  if ss =? 0 then false
  else
    let lba := byte_offset / ss in
    match data_relative v lba with None => true | Some _ => false end.

(* src: lib/windrv/src/filter/io.rs:187-196 shift_offset *)
Definition shift_offset v (irp : IRP) : IRP :=
  let shift := saturating_mul64 (offset_sector v) (av_sector_size v) in
  if shift =? 0 then irp
  else set_byte_offset (as_i64 (irp_byte_offset irp + as_i64 shift)) irp.

(** A READ or WRITE on a bound filter, and the thread afterwards. *)
Definition filter_rw v (ext : DeviceExtension) (irp : FilterIrp) (is_write : bool) :
    DeviceExtension * disposition :=
  let irp := set_fi_irp (shift_offset v (fi_irp irp)) irp in
  let byte_off := wrap 64 (irp_byte_offset (fi_irp irp)) in
  if is_metadata_sector v byte_off (av_sector_size v) && negb (fi_requestor_mode irp =? 0)
  then (ext, Completed (block_irp irp STATUS_ACCESS_DENIED) STATUS_ACCESS_DENIED)
  else
    match de_vthread ext with
    | Some vt =>
        let '(vt, done, status) := enqueue vt (fi_irp irp) is_write in
        (mkExt (de_kind ext) (de_lower_device ext) (de_volume ext) (Some vt),
         Queued done status)
    | None => (ext, pass_through irp)
    end.

(** The bound volume is looked up at its address; [None] for the whole call is
    the undefined behaviour of a dangling one. *)
(* src: lib/windrv/src/filter/io.rs:202-274 handle_filter_irp *)
Definition handle_filter_irp (heap : gmap nat (AttachedVolume W)) (alloc_ctx : bool)
    (ext : DeviceExtension) (irp : FilterIrp) : option (DeviceExtension * disposition) :=
  let major := fi_major irp in
  if major =? IRP_MJ_PNP then Some (ext, handle_filter_pnp irp)
  else
    match de_volume ext with
    | None => Some (ext, pass_through irp)
    | Some addr =>
        v ← heap !! addr;
        if major =? IRP_MJ_READ then Some (filter_rw v ext irp false)
        else if major =? IRP_MJ_WRITE then Some (filter_rw v ext irp true)
        else if major =? IRP_MJ_DEVICE_CONTROL then
          match size_field_offset (fi_code irp) with
          | Some _ => Some (ext, intercept_size_ioctl alloc_ctx v irp)
          | None => Some (ext, pass_through irp)
          end
        else Some (ext, pass_through irp)
    end.

(** ** The mount after START_DEVICE ([handover_mount.rs]) *)

(** Where the mount runs: directly at PASSIVE_LEVEL, else through a work item,
    which needs two allocations. [mount] is [try_mount_handover_volume]. *)
(* src: lib/windrv/src/filter/handover_mount.rs:75-131 on_start_device_completed *)
Definition on_start_device_completed {S} (passive work_item_alloc ctx_alloc : bool)
    (mount : S -> S) (s : S) : S :=
  if passive then mount s
  else if negb work_item_alloc then s
  else if negb ctx_alloc then s
  else mount s.
End Filter.

(** ** What reaches the volume *)

(** The geometry of a bound volume, as the filter sees it. *)
Record filter_geometry {W} (ss off total : Z) (v : AttachedVolume W) : Prop := {
  fg_ss : av_sector_size v = ss;
  fg_ss_pos : 0 < ss < 2 ^ 32;
  fg_off : offset_sector v = off;
  fg_off_pos : 0 <= off;
  fg_total : data_sectors v = total;
  fg_total_pos : 0 <= total;
  fg_fits : (off + total) * ss < 2 ^ 63;
}.

Section Reach.
Context {W : Type} (ss off total : Z) (v : AttachedVolume W).
Hypothesis G : filter_geometry ss off total v.

(** Byte offsets a file system may use: non-negative and, after the shift,
    still an [i64]. *)
Definition os_offset (b : Z) : Prop := 0 <= b /\ b + off * ss < 2 ^ 63.

Lemma shift_run i :
  os_offset (irp_byte_offset i) ->
  shift_offset v i = set_byte_offset (irp_byte_offset i + off * ss) i.
Proof using G.
  destruct G. intros [Hb Hs]. unfold shift_offset, saturating_mul64.
  rewrite fg_ss0, fg_off0. assert (0 <= off * ss) by nia.
  rewrite Z.min_l by nia. destruct (Z.eqb_spec (off * ss) 0) as [->|Hne].
  - rewrite Z.add_0_r. destruct i. done.
  - unfold as_i64. rewrite (wrap_id 64 (off * ss)) by (unfold in_u; lia).
    rewrite (proj2 (Z.ltb_lt (off * ss) _)) by lia.
    rewrite wrap_id by (unfold in_u; lia). rewrite (proj2 (Z.ltb_lt _ _)) by lia. done.
Qed.

(** The absolute sector of a shifted offset. *)
Lemma shifted_lba b : os_offset b -> wrap 64 (b + off * ss) / ss = off + b / ss.
Proof using G.
  destruct G. intros [Hb Hs]. rewrite wrap_id by (unfold in_u; nia).
  rewrite Z.div_add by lia. lia.
Qed.

Lemma metadata_sector_run b :
  os_offset b -> is_metadata_sector v (wrap 64 (b + off * ss)) ss = negb (b / ss <? total).
Proof using G.
  intros Hb. pose proof (shifted_lba b Hb) as Hl. destruct G. unfold is_metadata_sector.
  rewrite (proj2 (Z.eqb_neq _ _)) by lia. cbv zeta. rewrite Hl. unfold data_relative.
  rewrite fg_off0, fg_total0. destruct Hb as [Hb _].
  assert (0 <= b / ss) by (apply Z.div_pos; lia).
  rewrite (proj2 (Z.leb_le off (off + b / ss))) by lia. cbn.
  replace (off + b / ss - off) with (b / ss) by lia. destruct (b / ss <? total); done.
Qed.

(** The request as the thread or the lower driver gets it. *)
Definition shifted (f : FilterIrp) : FilterIrp :=
  set_fi_irp (set_byte_offset (irp_byte_offset (fi_irp f) + off * ss) (fi_irp f)) f.

Lemma filter_rw_run ext f w :
  os_offset (irp_byte_offset (fi_irp f)) ->
  filter_rw v ext f w =
  if negb (irp_byte_offset (fi_irp f) / ss <? total) && negb (fi_requestor_mode f =? 0)
  then (ext, Completed (block_irp (shifted f) STATUS_ACCESS_DENIED) STATUS_ACCESS_DENIED)
  else
    match de_vthread ext with
    | Some vt =>
        let '(vt, done, status) := enqueue vt (fi_irp (shifted f)) w in
        (mkExt (de_kind ext) (de_lower_device ext) (de_volume ext) (Some vt), Queued done status)
    | None => (ext, Forwarded (shifted f) NoCompletion)
    end.
Proof using G.
  intros Hb. unfold filter_rw. rewrite shift_run by done. cbv zeta. fold (shifted f).
  cbn [fi_irp set_fi_irp shifted set_byte_offset irp_byte_offset fi_requestor_mode].
  rewrite (fg_ss _ _ _ _ G), metadata_sector_run by done. done.
Qed.

(** A request inside the data region meets the contract of the volume. *)
Lemma shifted_request_ok f buf :
  os_offset (irp_byte_offset (fi_irp f)) ->
  irp_mdl (fi_irp f) = Some buf -> Z.of_nat (length buf) = irp_length (fi_irp f) ->
  ss <= irp_length (fi_irp f) < 2 ^ 32 ->
  irp_byte_offset (fi_irp f) / ss + irp_length (fi_irp f) / ss <= total ->
  request_ok ss off total (fi_irp (shifted f)) buf /\
  req_lba ss (fi_irp (shifted f)) - off = irp_byte_offset (fi_irp f) / ss.
Proof using G.
  intros Hb Hm Hl Hr Hend. pose proof (shifted_lba _ Hb) as Hs. destruct G. destruct Hb as [Hb _].
  assert (req_lba ss (fi_irp (shifted f)) = off + irp_byte_offset (fi_irp f) / ss) as Hlba by exact Hs.
  assert (1 <= irp_length (fi_irp f) / ss) by (apply Z.div_le_lower_bound; lia).
  assert (0 <= irp_byte_offset (fi_irp f) / ss) by (apply Z.div_pos; lia).
  assert (Z.of_nat (req_count ss (fi_irp (shifted f))) = irp_length (fi_irp f) / ss) as Hc.
  { unfold req_count. cbn. lia. }
  split; [|rewrite Hlba; lia]. constructor; rewrite ?Hlba, ?Hc; cbn; (done || lia).
Qed.
End Reach.

(** Size queries. *)
Lemma size_completion_run {W} ss off total (v : AttachedVolume W) f sysbuf o :
  filter_geometry ss off total v -> size_field_offset (fi_code f) = Some o ->
  fi_sysbuf f = Some sysbuf -> nt_success (irp_status (fi_irp f)) = true ->
  Z.of_nat o + 8 <= irp_information (fi_irp f) <= Z.of_nat (length sysbuf) ->
  size_ioctl_completion (mkSizeCtx (saturating_mul64 (data_sectors v) (av_sector_size v))) f =
    set_sysbuf (splice o (le_encode 8 (total * ss)) sysbuf) f /\
  le_decode (slice o 8 (splice o (le_encode 8 (total * ss)) sysbuf)) = total * ss.
Proof.
  intros [] Ho Hs Hn Hi. unfold size_ioctl_completion. rewrite Hn, Ho, Hs.
  rewrite (proj2 (Z.leb_le _ _)) by lia. cbn [data_bytes]. rewrite fg_total0, fg_ss0.
  unfold saturating_mul64. rewrite Z.min_l by nia. split; [done|].
  rewrite slice_splice_same by len.
  apply le_decode_encode_id. change (256 ^ Z.of_nat 8) with (2 ^ 64). nia.
Qed.

(** ** A request that starts in the data region and ends past it *)

Section Spill.
Context {W : Type} (io : SectorIo W) (cipher : VolumeCipher) (store : EncryptedOffsetStore W).
Context (enc dec : Z -> bytes -> bytes) (inv : W -> Prop) (view : W -> Z -> bytes).
Context (off total : Z).
Context `{!SectorIoLaws io inv view} `{!CipherLaws cipher (sector_size io) enc dec}.
Context `{!SectorIoReliable io inv}.
Context (alloc : Z -> bool).
Hypothesis Halloc : forall n, alloc n = true.
Abbreviation ss := (sector_size io).

(** A write of whole sectors that starts in the data region is carried out in
    full, wherever it ends on the device. *)
Lemma process_write_anywhere v w irp buf burst :
  volume_wf io cipher store off total v -> inv w -> burst_ok cipher burst ->
  irp_mdl irp = Some buf -> Z.of_nat (length buf) = irp_length irp ->
  irp_length irp < 2 ^ 32 -> 0 < Z.of_nat (req_count ss irp) -> irp_length irp mod ss = 0 ->
  0 <= off -> off <= req_lba ss irp < off + total ->
  req_lba ss irp + Z.of_nat (req_count ss irp) <= total_sectors io ->
  exists w' burst',
    process_write alloc irp burst (v, w) =
      ((v, w'), Ok (complete_irp STATUS_SUCCESS (irp_length irp) irp, burst')) /\
    inv w' /\
    forall i, 0 <= i < total_sectors io ->
      view w' i = write_run (view w) (req_lba ss irp)
        (number_map (below enc (av_encrypted_boundary v)) (req_lba ss irp - off)
           (chunks (Z.to_nat ss) buf)) i.
Proof using All.
  intros Hwf Hi Hb Hm Hl Hu Hpos Hmod Hoff Hlba Hend.
  pose proof (io_ss (n:=total_sectors io) (io:=io) (view:=view)) as Hss.
  pose proof (io_total (n:=total_sectors io) (io:=io) (view:=view)) as Htot.
  set (k := req_count ss irp) in *. set (lba := req_lba ss irp) in *.
  assert (irp_length irp = Z.of_nat k * ss) as Hlen.
  { unfold k, req_count in *. pose proof (Z.div_mod (irp_length irp) ss ltac:(lia)). nia. }
  unfold process_write. rewrite (mbind_step _ _ _ (v, w) v) by reflexivity.
  rewrite (vw_ss _ _ _ _ _ v Hwf), (vw_io _ _ _ _ _ v Hwf).
  rewrite (proj2 (Z.eqb_neq _ _)), (proj2 (Z.eqb_neq (irp_length irp) 0)) by nia.
  cbn [orb]. rewrite Hlen, Z.div_mul by lia. rewrite (proj2 (Z.eqb_neq (Z.of_nat k) 0)) by lia.
  rewrite Hm, (u64_mul_id (Z.of_nat k)), Halloc by nia. cbn [negb].
  change (wrap 64 (irp_byte_offset irp) / ss) with lba. rewrite take_ge by nia.
  destruct (concat_chunks (Z.to_nat ss) k buf) as (Hsec & Hcat & Hcl); [lia|nia|].
  set (ls := chunks (Z.to_nat ss) buf) in *. rewrite <- Hcat.
  replace lba with (off + (lba - off)) by lia. set (first := lba - off).
  edestruct (crypt_frag io cipher store off total encrypt_write enc v w burst first ls)
    as (burst' & Hb' & Hc); [|done|done|unfold first; lia|].
  { intros b. apply (encrypt_write_sectors _ _ enc dec); [done|unfold first; lia|].
    rewrite Hcl. unfold first. lia. }
  rewrite (vw_ss _ _ _ _ _ v Hwf) in Hc. rewrite (mbind_step _ _ _ _ _ Hc).
  rewrite mbind_run. unfold attempt, on_snd, zoom. cbn [fst snd].
  set (out := number_map (below enc (av_encrypted_boundary v)) first ls).
  assert (sectors_of (Z.to_nat ss) out) as Hout.
  { apply sectors_of_number_map; [done|]. intros i s _ Hs. unfold below.
    destruct (i <? _); [|done]. eapply cl_enc_len. done. }
  assert (length out = k) as Hol by (unfold out; rewrite length_number_map; done).
  pose proof (io_write_ok (n:=total_sectors io) (io:=io) w (off + first) out Hi ltac:(lia) ltac:(lia)
                ltac:(rewrite Hol; nia) Hout) as Hok.
  destruct (write_sectors io (off + first) (concat out) w) as [w' r] eqn:Hr. cbn in Hok.
  destruct (io_write (n:=total_sectors io) (io:=io) (view:=view) w (off + first) out w' r Hi ltac:(lia) ltac:(lia) Hout Hr)
    as [Hi' Hv]. destruct r as [[]| |]; [|done..].
  exists w', burst'. split; [done|]. split; [done|]. intros i Hr2. rewrite Hv by done.
  unfold out. replace (off + first - off) with first by lia. done.
Qed.
End Spill.

(** ** A concrete bound filter *)

Module FilterDemo.
Definition vt : VolumeThread := vt_start true 0.
Definition ext : DeviceExtension := mkExt DEVICE_KIND_FILTER (Some 9%nat) (Some 0%nat) (Some vt).
Definition vol : AttachedVolume MemVolume := VolumeDemo.volume_at 2 Idle.
Definition heap : gmap nat (AttachedVolume MemVolume) := {[0%nat := vol]}.
(** A user-mode write of [buf] at OS byte offset [b]. *)
Definition write (b : Z) (buf : list Z) : FilterIrp :=
  mkFilterIrp (mkIRP 5 b (Z.of_nat (length buf)) (Some (byte_of <$> buf)) false false 0 0 0)
    IRP_MJ_WRITE 0 0 1 None.
Lemma filter_geometry_ok : filter_geometry 2 1 4 vol.
Proof. constructor; cbn; (reflexivity || lia). Qed.
(** A completed GET_LENGTH_INFO. *)
Definition length_info : FilterIrp :=
  mkFilterIrp (mkIRP 6 0 0 None false false 0 8 0) IRP_MJ_DEVICE_CONTROL 0
    IOCTL_DISK_GET_LENGTH_INFO 1 (Some (replicate 8 Byte.x00)).
End FilterDemo.

(** ** Properties *)

(** What a bound filter does with a READ or WRITE. The byte offset is moved by
    the size of the header region; a user-mode request whose first sector is past
    the data region is refused and completed once, with no other effect; every
    other request goes, with the moved offset, to the volume's thread if there is
    one and to the lower device if not. A request that covers whole sectors inside
    the data region reaches the thread as one that meets the volume's contract, at
    the same relative sector. *)
Theorem filter_routes_requests {W} (ss off total : Z) (v : AttachedVolume W) heap alloc_ctx ext addr
    f (is_write : bool) :
  filter_geometry ss off total v -> de_volume ext = Some addr -> heap !! addr = Some v ->
  fi_major f = (if is_write then IRP_MJ_WRITE else IRP_MJ_READ) ->
  os_offset ss off (irp_byte_offset (fi_irp f)) ->
  let g := shifted ss off f in
  handle_filter_irp heap alloc_ctx ext f = Some
    (if negb (irp_byte_offset (fi_irp f) / ss <? total) && negb (fi_requestor_mode f =? 0)
     then (ext, Completed (block_irp g STATUS_ACCESS_DENIED) STATUS_ACCESS_DENIED)
     else
       match de_vthread ext with
       | Some vt =>
           let '(vt, done, status) := enqueue vt (fi_irp g) is_write in
           (mkExt (de_kind ext) (de_lower_device ext) (de_volume ext) (Some vt), Queued done status)
       | None => (ext, Forwarded g NoCompletion)
       end) /\
  forall buf,
    irp_mdl (fi_irp f) = Some buf -> Z.of_nat (length buf) = irp_length (fi_irp f) ->
    ss <= irp_length (fi_irp f) < 2 ^ 32 ->
    irp_byte_offset (fi_irp f) / ss + irp_length (fi_irp f) / ss <= total ->
    request_ok ss off total (fi_irp g) buf /\
    req_lba ss (fi_irp g) - off = irp_byte_offset (fi_irp f) / ss.
Proof.
  intros G Hv Hh Hm Hb. cbv zeta. split.
  - unfold handle_filter_irp. rewrite Hv, Hm.
    destruct is_write; cbn; rewrite Hh; cbn [mbind option_bind];
      rewrite (filter_rw_run ss off total v G), ?Hv by done; reflexivity.
  - intros. eapply shifted_request_ok; done.
Qed.

Lemma filter_routes_requests_witness :
  handle_filter_irp FilterDemo.heap true FilterDemo.ext (FilterDemo.write 8 [1; 2]) =
    Some (FilterDemo.ext,
      Completed (block_irp (shifted 2 1 (FilterDemo.write 8 [1; 2])) STATUS_ACCESS_DENIED)
        STATUS_ACCESS_DENIED).
Proof.
  exact (proj1 (filter_routes_requests 2 1 4 FilterDemo.vol FilterDemo.heap true FilterDemo.ext 0
    (FilterDemo.write 8 [1; 2]) true FilterDemo.filter_geometry_ok eq_refl eq_refl eq_refl
    (conj (proj1 (Z.leb_le 0 8) eq_refl) eq_refl))).
Defined.

(** C32: Size queries hide the metadata. For the three size IOCTLs on a bound
    filter, once the lower driver has filled the size field, the completion
    routine overwrites exactly that field with the size of the data region in
    bytes; a failed or short answer is left alone, and so is every other
    control code. *)
Theorem size_query_reports_data_region {W} ss off total (v : AttachedVolume W) heap ext addr f :
  filter_geometry ss off total v -> de_volume ext = Some addr -> heap !! addr = Some v ->
  fi_major f = IRP_MJ_DEVICE_CONTROL ->
  match size_field_offset (fi_code f) with
  | None => handle_filter_irp heap true ext f = Some (ext, Forwarded f NoCompletion)
  | Some o =>
      exists ctx, handle_filter_irp heap true ext f = Some (ext, Forwarded f (SizeCompletion ctx)) /\
      forall g, fi_code g = fi_code f ->
        (forall sysbuf, fi_sysbuf g = Some sysbuf -> nt_success (irp_status (fi_irp g)) = true ->
           Z.of_nat o + 8 <= irp_information (fi_irp g) <= Z.of_nat (length sysbuf) ->
           exists sysbuf', size_ioctl_completion ctx g = set_sysbuf sysbuf' g /\
             length sysbuf' = length sysbuf /\ le_decode (slice o 8 sysbuf') = total * ss /\
             forall i n, (i + n <= o \/ o + 8 <= i)%nat -> slice i n sysbuf' = slice i n sysbuf) /\
        (nt_success (irp_status (fi_irp g)) = false \/
         irp_information (fi_irp g) < Z.of_nat o + 8 \/ fi_sysbuf g = None ->
         size_ioctl_completion ctx g = g)
  end.
Proof.
  intros G Hv Hh Hm. unfold handle_filter_irp. rewrite Hv, Hm. cbn. rewrite Hh. cbn.
  destruct (size_field_offset (fi_code f)) as [o|] eqn:Ho; [|done].
  eexists. split; [reflexivity|]. intros g Hc. rewrite <- Hc in Ho. split.
  - intros sysbuf Hs Hn Hi.
    destruct (size_completion_run ss off total v g sysbuf o G Ho Hs Hn Hi) as [E Hd].
    eexists. split; [exact E|]. split_and!; [|done|].
    + apply length_splice. rewrite length_le_encode. lia.
    + intros i n Hin. apply slice_splice_other; rewrite length_le_encode; lia.
  - intros Hno. unfold size_ioctl_completion. rewrite Ho.
    destruct (nt_success _); [|done]. destruct (fi_sysbuf g); [|done].
    destruct Hno as [?|[Hi|?]]; [done| |done]. rewrite (proj2 (Z.leb_gt _ _)) by lia. done.
Qed.

Lemma size_query_reports_data_region_witness :
  exists ctx, handle_filter_irp FilterDemo.heap true FilterDemo.ext FilterDemo.length_info =
      Some (FilterDemo.ext, Forwarded FilterDemo.length_info (SizeCompletion ctx)) /\
    exists sysbuf', size_ioctl_completion ctx FilterDemo.length_info =
        set_sysbuf sysbuf' FilterDemo.length_info /\ le_decode (slice 0 8 sysbuf') = 8.
Proof.
  destruct (size_query_reports_data_region 2 1 4 FilterDemo.vol FilterDemo.heap FilterDemo.ext 0
    FilterDemo.length_info FilterDemo.filter_geometry_ok eq_refl eq_refl eq_refl) as (ctx & E & H).
  exists ctx. split; [exact E|].
  destruct (proj1 (H FilterDemo.length_info eq_refl) (replicate 8 Byte.x00) eq_refl eq_refl)
    as (b & E2 & _ & E3 & _).
  - split; vm_compute; discriminate.
  - exists b. split; [exact E2|exact E3].
Defined.

(** C39: Finding: the guard looks at the first sector only. A user-mode write of
    two sectors that starts at the last sector of the data region is accepted,
    and the thread then writes the caller's second sector, in the clear, over the
    sector after the data region, which holds the first footer replica. *)
Theorem write_spills_into_footer {W} (io : SectorIo W) cipher store enc dec inv view off total
    alloc (v : AttachedVolume W) w heap ext addr vt f s1 s2 :
  SectorIoLaws io inv view -> CipherLaws cipher (sector_size io) enc dec ->
  SectorIoReliable io inv -> (forall n, alloc n = true) ->
  volume_wf io cipher store off total v -> inv w ->
  0 <= off -> 0 < total -> off + total < total_sectors io ->
  total_sectors io * sector_size io < 2 ^ 63 -> 2 * sector_size io < 2 ^ 32 ->
  de_volume ext = Some addr -> heap !! addr = Some v -> de_vthread ext = Some vt ->
  vt_shutdown vt = false ->
  fi_major f = IRP_MJ_WRITE -> fi_requestor_mode f = 1 ->
  irp_byte_offset (fi_irp f) = (total - 1) * sector_size io ->
  irp_length (fi_irp f) = 2 * sector_size io -> irp_mdl (fi_irp f) = Some (s1 ++ s2) ->
  length s1 = Z.to_nat (sector_size io) -> length s2 = Z.to_nat (sector_size io) ->
  exists ext' irp w' burst irp',
    handle_filter_irp heap true ext f = Some (ext', Queued [] STATUS_PENDING) /\
    de_vthread ext' = Some (vt_signal (mkThread (vt_queue vt ++ [mkEntry irp true])
      (vt_current vt) (vt_wake vt) (vt_shutdown vt) (vt_thread vt))) /\
    process_irp alloc irp true None (v, w) = ((v, w'), Ok (irp', burst)) /\
    irp_status irp' = STATUS_SUCCESS /\ view w' (off + total) = s2.
Proof.
  intros HL HC HR Hal Hwf Hi Hoff Htot Hend Hbig Hss2 Hv Hh Hvt Hsd Hm Hr Hbo Hlen Hmdl H1 H2.
  pose proof (io_ss (n:=total_sectors io) (io:=io) (view:=view)) as Hss.
  set (ss := sector_size io) in *.
  destruct (wf_geometry _ _ _ _ _ v Hwf) as [Ho Ht].
  assert (filter_geometry ss off total v) as G.
  { constructor; try done; try lia; [apply Hwf|nia]. }
  assert (os_offset ss off (irp_byte_offset (fi_irp f))) as Hos by (rewrite Hbo; split; nia).
  assert (irp_byte_offset (fi_irp f) / ss = total - 1) as Hq by (rewrite Hbo; apply Z.div_mul; lia).
  set (irp := set_pending (fi_irp (shifted ss off f))).
  assert (req_lba ss irp = off + (total - 1)) as Hlba.
  { rewrite <- Hq. apply (shifted_lba ss off total v G). done. }
  assert (req_count ss irp = 2%nat) as Hk.
  { unfold req_count. cbn. rewrite Hlen, Z.div_mul by lia. done. }
  destruct (process_write_anywhere io cipher store enc dec inv view off total alloc Hal v w irp
              (s1 ++ s2) None) as (w' & burst & E & _ & Hview); try done.
  - by left.
  - cbn. rewrite length_app, H1, H2, Hlen. lia.
  - cbn. rewrite Hlen. done.
  - fold ss. rewrite Hk. lia.
  - cbn. fold ss. rewrite Hlen. apply Z_mod_mult.
  - fold ss. rewrite Hlba. lia.
  - fold ss. rewrite Hlba, Hk. lia.
  - eexists _, irp, w', burst, _. split_and!; [| |exact E|done|].
    + unfold handle_filter_irp. rewrite Hv, Hm. cbn. rewrite Hh. cbn.
      rewrite (filter_rw_run ss off total v G) by done. rewrite Hq, Hvt.
      rewrite (proj2 (Z.ltb_lt (total - 1) total)) by lia. cbn [negb andb].
      unfold enqueue. rewrite Hsd. reflexivity.
    + rewrite Hsd. reflexivity.
    + fold ss in Hview. rewrite Hview by lia. rewrite Hlba.
      replace (off + total) with (off + (total - 1) + Z.of_nat 1) by lia.
      apply write_run_lookup. rewrite lookup_number_map.
      rewrite (chunks_app (Z.to_nat ss)) by lia.
      rewrite <- (app_nil_r s2), (chunks_app (Z.to_nat ss)) by lia. cbn. f_equal. unfold below.
      pose proof (wf_boundary _ _ _ _ _ v Hwf). rewrite (proj2 (Z.ltb_ge _ _)) by lia.
      rewrite ?app_nil_r. done.
Qed.

Lemma write_spills_into_footer_witness :
  exists ext' irp w' burst irp',
    handle_filter_irp FilterDemo.heap true FilterDemo.ext (FilterDemo.write 6 [1; 2; 3; 4]) =
      Some (ext', Queued [] STATUS_PENDING) /\
    de_vthread ext' = Some (vt_signal (mkThread [mkEntry irp true] 0 false false true)) /\
    process_irp (fun _ => true) irp true None (FilterDemo.vol, EngineDemo.disk) =
      ((FilterDemo.vol, w'), Ok (irp', burst)) /\
    irp_status irp' = STATUS_SUCCESS /\ mem_view 2 w' 5 = byte_of <$> [3; 4].
Proof.
  exact (write_spills_into_footer EngineDemo.io ShiftCipher.cipher EngineDemo.store
    ShiftCipher.enc ShiftCipher.dec (mem_inv 12) (mem_view 2) 1 4 (fun _ => true) FilterDemo.vol
    EngineDemo.disk FilterDemo.heap FilterDemo.ext 0 FilterDemo.vt (FilterDemo.write 6 [1; 2; 3; 4])
    (byte_of <$> [1; 2]) (byte_of <$> [3; 4]) EngineDemo.io_laws EngineDemo.cipher_laws
    EngineDemo.io_reliable (fun _ => eq_refl) (VolumeDemo.volume_at_wf 2 Idle EngineDemo.z24)
    eq_refl (proj1 (Z.leb_le 0 1) eq_refl) eq_refl eq_refl eq_refl eq_refl eq_refl eq_refl eq_refl
    eq_refl eq_refl eq_refl eq_refl eq_refl eq_refl eq_refl eq_refl).
Defined.
