(* ===== verification/DataPath.v ===== *)
(** * From the filter's dispatch to the completed request

    A filter device, the thread of its volume and the volume itself as one system:
    requests come in at the filter ([lib/windrv/src/filter/io.rs]), wait in the
    thread's queue ([lib/windrv/src/filter/volume_thread.rs]) and are completed by
    its sections, between which sweep batches, control operations and cancellations
    fall. The specification is a disk that answers the accepted requests one after
    the other, at the addresses the file system used. *)

From S2P Require Import Prelude Types Sectors Engine Nt Pipeline Volume Thread Filter.

(** ** The system *)

(** The filter's extension, whose thread is [pa_thread]'s, and what the filter did
    with each request so far. *)
Record PathState (W : Type) : Type := mkPath {
  pa_ext : DeviceExtension;
  pa_thread : ThreadState W;
  pa_log : list disposition;
}.
Arguments mkPath {W}.
Arguments pa_ext {W}.
Arguments pa_thread {W}.
Arguments pa_log {W}.

(** [PeCancel] is [IoCancelIrp]: it sets the flag the thread looks at. [PeStop] is the
    first step of [unbind_filter] and [detach_filter], which then wait for the thread. *)
Inductive path_event : Type :=
| PeRequest (alloc_ctx : bool) (f : FilterIrp)
| PeThread
| PeControl (op : vop)
| PeCancel (id : nat)
| PeStop.

Definition set_cancel (i : IRP) : IRP :=
  mkIRP (irp_id i) (irp_byte_offset i) (irp_length i) (irp_mdl i) true
    (irp_pending i) (irp_status i) (irp_information i) (irp_completed i).
Definition cancel_entry (id : nat) (ep : IrpEntry) : IrpEntry :=
  if (irp_id (ie_irp ep) =? id)%nat then mkEntry (set_cancel (ie_irp ep)) (ie_is_write ep) else ep.

Section Path.
Context {W : Type} (alloc : Z -> bool).
Abbreviation PM := (M VckError (PathState W * W)).
Implicit Types s : PathState W.

Definition ext_now s : DeviceExtension :=
  mkExt (de_kind (pa_ext s)) (de_lower_device (pa_ext s)) (de_volume (pa_ext s))
    (Some (ts_vt (pa_thread s))).
Definition set_thread (th : ThreadState W) s : PathState W := mkPath (pa_ext s) th (pa_log s).
Definition log_disposition (r : disposition) s : PathState W :=
  mkPath (pa_ext s) (pa_thread s) (pa_log s ++ [r]).

(** Requests completed by the dispatch routine itself. *)
Definition path_request (alloc_ctx : bool) (f : FilterIrp) : PM unit := fun t =>
  let th := pa_thread t.1 in
  match handle_filter_irp (ts_heap th) alloc_ctx (ext_now t.1) f with
  | None => (t, Panic)
  | Some (ext, r) =>
      let done := match r with Queued done _ => done | _ => [] end in
      let th := mkTS (default (ts_vt th) (de_vthread ext)) (ts_pc th) (ts_vol th) (ts_burst th)
                  (ts_heap th) (ts_done th ++ done) in
      ((log_disposition r (set_thread th t.1), t.2), Ok tt)
  end.

(** A section of the thread, if there is one. *)
Definition path_thread : PM unit := fun t =>
  if vt_thread (ts_vt (pa_thread t.1))
  then let '((th, w), r) := thread_step alloc (pa_thread t.1, t.2) in ((set_thread th t.1, w), r)
  else (t, Ok tt).

(** A control operation of another thread on the bound volume. *)
Definition path_control (op : vop) : PM unit := fun t =>
  let th := pa_thread t.1 in
  match de_volume (pa_ext t.1) ≫= fun a => pair a <$> ts_heap th !! a with
  | None => (t, Panic)
  | Some (a, v) =>
      let '((v, w), r) := run_vop alloc op None (v, t.2) in
      ((set_thread (set_heap (<[a := v]> (ts_heap th)) th) t.1, w), _ ← r; mret tt)
  end.

Definition run_path_event (ev : path_event) : PM unit :=
  match ev with
  | PeRequest alloc_ctx f => path_request alloc_ctx f
  | PeThread => path_thread
  | PeControl op => path_control op
  | PeCancel id =>
      mmodify (fun t => (set_thread (set_queue (cancel_entry id <$> vt_queue (ts_vt (pa_thread t.1)))
                                       (pa_thread t.1)) t.1, t.2))
  | PeStop => mmodify (fun t => (set_thread (set_vt (vt_stop (ts_vt (pa_thread t.1))) (pa_thread t.1)) t.1, t.2))
  end.

Definition run_path (evs : list path_event) : PM unit := miter run_path_event evs.
End Path.

(** A filter with the thread [vt] at the top of its loop. *)
Definition path_start {W} (ext : DeviceExtension) (vt : VolumeThread)
    (heap : gmap nat (AttachedVolume W)) : PathState W :=
  mkPath ext (mkTS vt AtTop (vt_current vt) None heap []) [].

(** ** The specification *)

Definition is_rw (f : FilterIrp) : bool :=
  (fi_major f =? IRP_MJ_READ) || (fi_major f =? IRP_MJ_WRITE).
Definition is_write (f : FilterIrp) : bool := fi_major f =? IRP_MJ_WRITE.

(** What the issuer of a request sees. *)
Definition answer (i : IRP) : nat * Z * Z * option bytes :=
  (irp_id i, irp_status i, irp_information i, irp_mdl i).

(** The plain disk's answer, at the file system's addresses; a cancelled request
    has no effect. *)
Definition disk_answer (ss : Z) (P : Z -> bytes) (f : FilterIrp) :
    (Z -> bytes) * (nat * Z * Z * option bytes) :=
  if irp_cancel (fi_irp f) then (P, answer (complete_irp STATUS_CANCELLED 0 (fi_irp f)))
  else
    let '(P', r) := spec_vop ss 0 P (if is_write f then VWrite (fi_irp f) else VRead (fi_irp f)) in
    (P', answer (default (fi_irp f) r)).

Fixpoint disk_answers (ss : Z) (P : Z -> bytes) (fs : list FilterIrp) :
    (Z -> bytes) * list (nat * Z * Z * option bytes) :=
  match fs with
  | [] => (P, [])
  | f :: fs =>
      let '(P, r) := disk_answer ss P f in
      let '(P, rs) := disk_answers ss P fs in (P, r :: rs)
  end.

(** A READ or WRITE of whole sectors in the data region, as a file system that
    sees [total] sectors issues it. *)
Record disk_request (ss off total : Z) (f : FilterIrp) : Prop := {
  dr_rw : is_rw f = true;
  dr_offset : os_offset ss off (irp_byte_offset (fi_irp f));
  dr_buffer : exists buf, irp_mdl (fi_irp f) = Some buf /\ Z.of_nat (length buf) = irp_length (fi_irp f);
  dr_length : ss <= irp_length (fi_irp f) < 2 ^ 32;
  dr_end : irp_byte_offset (fi_irp f) / ss + irp_length (fi_irp f) / ss <= total;
}.

(** A user-mode request past the end. *)
Definition past_end (ss total : Z) (f : FilterIrp) : bool :=
  negb (irp_byte_offset (fi_irp f) / ss <? total) && negb (fi_requestor_mode f =? 0).

Definition is_control (op : vop) : bool :=
  match op with VRead _ | VWrite _ | VSweep _ => false | _ => true end.

Definition path_event_ok (ss off total : Z) (ev : path_event) : Prop :=
  match ev with
  | PeRequest _ f =>
      is_rw f = false \/ disk_request ss off total f \/
      (os_offset ss off (irp_byte_offset (fi_irp f)) /\ past_end ss total f = true)
  | PeControl op => is_control op = true
  | PeStop => False
  | _ => True
  end.

(** What the filter answers at once. *)
Definition disposed (ss off total : Z) (f : FilterIrp) (r : disposition) : Prop :=
  if is_rw f then
    r = if past_end ss total f
        then Completed (block_irp (shifted ss off f) STATUS_ACCESS_DENIED) STATUS_ACCESS_DENIED
        else Queued [] STATUS_PENDING
  else exists c, r = Forwarded f c.

Definition requests (evs : list path_event) : list FilterIrp :=
  omap (fun ev => match ev with PeRequest _ f => Some f | _ => None end) evs.
Definition accepted_requests (ss total : Z) (evs : list path_event) : list FilterIrp :=
  filter (fun f => is_rw f && negb (past_end ss total f) = true) (requests evs).
Definition cancels (evs : list path_event) : list nat :=
  omap (fun ev => match ev with PeCancel id => Some id | _ => None end) evs.

(** A request, possibly cancelled meanwhile. *)
Definition cancelled (f : FilterIrp) : FilterIrp := set_fi_irp (set_cancel (fi_irp f)) f.
Definition request_of (ids : list nat) (f0 f : FilterIrp) : Prop :=
  f = f0 \/ f = cancelled f0 /\ irp_id (fi_irp f0) ∈ ids.

(** Nothing queued for [volume]; the thread was [created] or not. *)
Record idle_thread (created : bool) (volume : nat) (vt : VolumeThread) : Prop := {
  it_created : vt_thread vt = created;
  it_current : vt_current vt = volume;
  it_queue : vt_queue vt = [];
  it_running : vt_shutdown vt = false;
}.

(** Every request was answered at once or, in the order of arrival, as a disk
    holding [P] answers [fs], the accepted requests with those cancelled. *)
Record answered_as_disk {W} (ss off total : Z) (P : Z -> bytes) (evs : list path_event)
    (fs : list FilterIrp) (s : PathState W) : Prop := {
  ad_log : Forall2 (disposed ss off total) (requests evs) (pa_log s);
  ad_requests : Forall2 (request_of (cancels evs)) (accepted_requests ss total evs) fs;
  ad_queue : vt_queue (ts_vt (pa_thread s)) = [];
  ad_answers : answer <$> ts_done (pa_thread s) = (disk_answers ss P fs).2;
}.

(** Enough sections for the requests of [evs]. *)
Definition catch_up (ss total : Z) (evs : list path_event) : list path_event :=
  evs ++ replicate (4 + 5 * length (accepted_requests ss total evs)) PeThread.

(** A request the exiting thread gives back. *)
Definition given_back (f : FilterIrp) : nat * Z * Z * option bytes :=
  answer (complete_irp STATUS_CANCELLED 0 (fi_irp f)).

(** The stop, and enough sections for the thread to exit. *)
Definition stopped (ss total : Z) (evs : list path_event) : list path_event :=
  evs ++ PeStop :: replicate (5 + length (accepted_requests ss total evs)) PeThread.

(** The accepted requests [fs] were answered as a disk holding [P] answers them, those
    after them, [gs], given back; the thread is gone. *)
Record stopped_as_disk {W} (ss off total : Z) (P : Z -> bytes) (evs : list path_event)
    (fs gs : list FilterIrp) (s : PathState W) : Prop := {
  sd_log : Forall2 (disposed ss off total) (requests evs) (pa_log s);
  sd_requests : Forall2 (request_of (cancels evs)) (accepted_requests ss total evs) (fs ++ gs);
  sd_exited : ts_pc (pa_thread s) = Exited;
  sd_queue : vt_queue (ts_vt (pa_thread s)) = [];
  sd_answers : answer <$> ts_done (pa_thread s) = (disk_answers ss P fs).2 ++ (given_back <$> gs);
}.

(** The machine went down after [evs]: [fs] had been answered, [gs] were waiting. *)
Record cut_as_disk {W} (ss off total : Z) (P : Z -> bytes) (evs : list path_event)
    (fs gs : list FilterIrp) (s : PathState W) : Prop := {
  cu_log : Forall2 (disposed ss off total) (requests evs) (pa_log s);
  cu_requests : Forall2 (request_of (cancels evs)) (accepted_requests ss total evs) (fs ++ gs);
  cu_waiting : length (vt_queue (ts_vt (pa_thread s))) = length gs;
  cu_answers : answer <$> ts_done (pa_thread s) = (disk_answers ss P fs).2;
}.

(** ** The refinement *)

Lemma disk_answers_snoc ss P fs f :
  disk_answers ss P (fs ++ [f]) =
  let '(Q, rs) := disk_answers ss P fs in
  let '(Q, r) := disk_answer ss Q f in (Q, rs ++ [r]).
Proof.
  revert P. induction fs as [|g fs IH]; intros P; cbn.
  - destruct (disk_answer ss P f). done.
  - destruct (disk_answer ss P g) as [Q r]. rewrite IH. destruct (disk_answers ss Q fs) as [Q1 rs].
    destruct (disk_answer ss Q1 f). done.
Qed.

(** Only the data region of the plain disk matters. *)
Lemma disk_answer_same ss off total P Q f :
  0 < ss -> 0 <= off -> disk_request ss off total f -> same_disk total P Q ->
  (disk_answer ss P f).2 = (disk_answer ss Q f).2 /\
  same_disk total (disk_answer ss P f).1 (disk_answer ss Q f).1.
Proof.
  intros Hss Hoff [_ [Hb Ho] _ Hl He] HPQ. unfold disk_answer.
  destruct (irp_cancel (fi_irp f)); [done|]. destruct (is_write f); cbn.
  - split; [done|]. intros rel Hrel. unfold write_run. rewrite HPQ by done. done.
  - split; [|done]. rewrite (read_run_ext P Q); [done|]. intros i Hi. apply HPQ.
    unfold req_lba, req_count in *. rewrite wrap_id in * by (unfold in_u; nia).
    pose proof (Z.div_pos _ ss Hb Hss). pose proof (Z.div_pos (irp_length (fi_irp f)) ss). lia.
Qed.

Lemma disk_answers_same ss off total P Q fs :
  0 < ss -> 0 <= off -> Forall (disk_request ss off total) fs -> same_disk total P Q ->
  (disk_answers ss P fs).2 = (disk_answers ss Q fs).2 /\
  same_disk total (disk_answers ss P fs).1 (disk_answers ss Q fs).1.
Proof.
  intros Hss Hoff Hfs. revert P Q. induction Hfs as [|f fs Hf _ IH]; intros P Q HPQ; [done|].
  cbn. destruct (disk_answer_same ss off total P Q f Hss Hoff Hf HPQ) as [H1 H2].
  destruct (disk_answer ss P f) as [P1 r1], (disk_answer ss Q f) as [Q1 r2]. cbn in *.
  destruct (IH P1 Q1 H2) as [H3 H4].
  destruct (disk_answers ss P1 fs), (disk_answers ss Q1 fs). cbn in *. split; [congruence|done].
Qed.

(** The accepted requests are requests to the disk. *)
Lemma accepted_ok ss off total evs ids fs :
  Forall (path_event_ok ss off total) evs ->
  Forall2 (request_of ids) (accepted_requests ss total evs) fs ->
  Forall (disk_request ss off total) fs.
Proof.
  intros Hev HF. assert (Forall (disk_request ss off total) (accepted_requests ss total evs)) as Ha.
  { unfold accepted_requests. clear HF. induction Hev as [|ev evs Hok _ IH]; [constructor|].
    destruct ev as [ac f| | | |]; try exact IH. cbn [requests omap list_omap].
    destruct (is_rw f && negb (past_end ss total f)) eqn:Hb.
    - rewrite filter_cons_True by done. constructor; [|exact IH].
      apply andb_prop in Hb as [H1 H2]. cbn in Hok.
      destruct Hok as [?|[?|[_ Hr]]]; [congruence|done|rewrite Hr in H2; done].
    - rewrite filter_cons_False by congruence. exact IH. }
  induction HF as [|f0 f fs0 fs Hr HF IH]; [constructor|]. apply Forall_cons in Ha as [H1 H2].
  constructor; [|apply IH; exact H2]. destruct Hr as [->|[-> _]]; [done|]. destruct H1. done.
Qed.

Lemma answered_same {W} ss off total P Q evs fs (s : PathState W) :
  0 < ss -> 0 <= off -> Forall (path_event_ok ss off total) evs -> same_disk total P Q ->
  answered_as_disk ss off total P evs fs s -> answered_as_disk ss off total Q evs fs s.
Proof.
  intros Hss Hoff Hev HPQ []. constructor; try done.
  rewrite ad_answers0. eapply (disk_answers_same ss off total); [done..|eapply accepted_ok; done|done].
Qed.

Lemma stopped_same {W} ss off total P Q evs fs gs (s : PathState W) :
  0 < ss -> 0 <= off -> Forall (path_event_ok ss off total) evs -> same_disk total P Q ->
  stopped_as_disk ss off total P evs fs gs s -> stopped_as_disk ss off total Q evs fs gs s.
Proof.
  intros Hss Hoff Hev HPQ []. constructor; try done.
  pose proof (accepted_ok ss off total evs _ _ Hev sd_requests0) as [Hfs _]%Forall_app.
  rewrite sd_answers0. f_equal. eapply (disk_answers_same ss off total); done.
Qed.

Lemma cut_same {W} ss off total P Q evs fs gs (s : PathState W) :
  0 < ss -> 0 <= off -> Forall (path_event_ok ss off total) evs -> same_disk total P Q ->
  cut_as_disk ss off total P evs fs gs s ->
  cut_as_disk ss off total Q evs fs gs s /\
  same_disk total (disk_answers ss P fs).1 (disk_answers ss Q fs).1.
Proof.
  intros Hss Hoff Hev HPQ [].
  pose proof (accepted_ok ss off total evs _ _ Hev cu_requests0) as [Hfs _]%Forall_app.
  destruct (disk_answers_same ss off total P Q fs Hss Hoff Hfs HPQ) as [H1 H2].
  split; [|exact H2]. constructor; try done. congruence.
Qed.

Section DataPath.
Context {W : Type} (io : SectorIo W) (cipher : VolumeCipher) (store : EncryptedOffsetStore W).
Context (enc dec : Z -> bytes -> bytes) (inv : W -> Prop) (view : W -> Z -> bytes).
Context (off total lo hi : Z).
Context {reach : Z} `{!SectorIoUpto reach io inv view} `{!CipherLaws cipher (sector_size io) enc dec}.
Context `{!OffsetStoreLaws store inv view lo hi}.
Context `{!SectorIoReliableUpto reach io inv} `{!OffsetStoreReliable store inv}.
Hypothesis Hregion : 0 <= lo <= off /\ off + total <= hi <= reach.
Hypothesis Hfits : (off + total) * sector_size io < 2 ^ 63.
Hypothesis Hbatch : BATCH_SECTORS * sector_size io < 2 ^ 32.
Context (alloc : Z -> bool).
Hypothesis Halloc : forall n, alloc n = true.
Context (start : Z * W).
Abbreviation ss := (sector_size io).
Abbreviation wf := (volume_wf io cipher store off total).
Abbreviation shows v w := (presents dec view off v w).
Abbreviation same := (same_disk total).
Abbreviation does := (accesses io store off total).
Implicit Types (v : AttachedVolume W) (w : W) (s : PathState W).

(** The entry the filter queues for a request. *)
Definition entry_of (f : FilterIrp) : IrpEntry :=
  mkEntry (set_pending (fi_irp (shifted ss off f))) (is_write f).

Lemma total_nonneg v : wf v -> 0 <= total.
Proof using Type. intros Hwf. pose proof (wf_boundary _ _ _ _ _ v Hwf). lia. Qed.

Lemma wf_filter_geometry v : wf v -> filter_geometry ss off total v.
Proof using SectorIoUpto0 Hregion Hfits.
  intros Hwf. destruct (wf_geometry _ _ _ _ _ v Hwf). pose proof (io_ss (n:=reach) (io:=io) (view:=view)).
  pose proof (total_nonneg v Hwf). constructor; try done; [apply Hwf|lia].
Qed.

Lemma disk_request_ok v f :
  wf v -> disk_request ss off total f ->
  (exists buf, request_ok ss off total (ie_irp (entry_of f)) buf) /\
  req_lba ss (ie_irp (entry_of f)) - off = req_lba ss (fi_irp f) - 0.
Proof using SectorIoUpto0 Hregion Hfits.
  intros Hwf [_ Ho (buf & Hm & Hl) Hlen Hend].
  destruct (shifted_request_ok ss off total v (wf_filter_geometry v Hwf) f buf Ho Hm Hl Hlen Hend)
    as [[] Hlba].
  split; [exists buf; constructor; done|].
  change (req_lba ss (ie_irp (entry_of f))) with (req_lba ss (fi_irp (shifted ss off f))).
  rewrite Hlba. unfold req_lba. pose proof (io_ss (n:=reach) (io:=io) (view:=view)). destruct Ho.
  rewrite wrap_id by (unfold in_u; nia). lia.
Qed.

(** The operation of the volume for a request. *)
Definition vop_of (f : FilterIrp) : vop :=
  if is_write f then VWrite (ie_irp (entry_of f)) else VRead (ie_irp (entry_of f)).

Lemma vop_of_ok v f : wf v -> disk_request ss off total f -> op_ok io off total (vop_of f).
Proof using SectorIoUpto0 Hregion Hfits.
  intros Hwf Hf. destruct (disk_request_ok v f Hwf Hf) as [Hok _].
  unfold vop_of. destruct (is_write f); exact Hok.
Qed.

(** The disk at the file system's addresses answers as the region does. *)
Lemma disk_answer_shifted v P f :
  wf v -> disk_request ss off total f -> irp_cancel (fi_irp f) = false ->
  exists i, spec_vop ss off P (vop_of f) = ((disk_answer ss P f).1, Some i) /\
    answer i = (disk_answer ss P f).2.
Proof using SectorIoUpto0 Hregion Hfits.
  intros Hwf Hf Hc. destruct (disk_request_ok v f Hwf Hf) as [_ Hlba].
  unfold disk_answer, vop_of. rewrite Hc. destruct (is_write f); cbn [spec_vop];
    rewrite Hlba; eexists; (split; [reflexivity|]); done.
Qed.

(** The invariant: [served] requests are answered, [waiting] ones are queued; [b]
    tells whether the thread was created, [sd] whether it is to stop; [start] is the
    boundary and the world the volume began with. *)
Record path_inv (b sd : bool) (a : nat) (P : Z -> bytes) (served waiting : list FilterIrp) s w : Prop := {
  pi_bound : de_volume (pa_ext s) = Some a;
  pi_current : vt_current (ts_vt (pa_thread s)) = a;
  pi_running : vt_shutdown (ts_vt (pa_thread s)) = sd /\ vt_thread (ts_vt (pa_thread s)) = b;
  pi_pc : ts_pc (pa_thread s) <> AtDrain /\ ts_pc (pa_thread s) <> Exited;
  pi_vol : ts_vol (pa_thread s) = a;
  pi_burst : burst_ok cipher (ts_burst (pa_thread s));
  pi_world : inv w;
  pi_volume : exists v, ts_heap (pa_thread s) !! a = Some v /\ wf v /\
    same (shows v w) (disk_answers ss P served).1 /\ does start (av_encrypted_boundary v, w);
  pi_waiting : Forall (disk_request ss off total) waiting;
  pi_queue : vt_queue (ts_vt (pa_thread s)) = entry_of <$> waiting;
  pi_done : answer <$> ts_done (pa_thread s) = (disk_answers ss P served).2;
}.

(** Sections left until the queue is empty, if nothing else arrives. *)
Definition pc_rank (pc : thread_pc) : nat :=
  match pc with
  | AtBurst n _ => if (n <? MAX_IRP_BURST)%nat then 0 else 4
  | AtTop => 1
  | AtWait => 2
  | AtSweep _ => 3
  | _ => 0
  end.
Definition path_left s : nat :=
  5 * length (vt_queue (ts_vt (pa_thread s))) + pc_rank (ts_pc (pa_thread s)).

(** Sections left until a thread that is to stop has exited. *)
Definition stop_rank (pc : thread_pc) : nat :=
  match pc with
  | AtBurst _ _ => 5
  | AtSweep _ => 4
  | AtWait => 3
  | AtTop => 2
  | AtDrain => 1
  | Exited => 0
  end.
Definition stop_left s : nat := length (vt_queue (ts_vt (pa_thread s))) + stop_rank (ts_pc (pa_thread s)).

Lemma region_64 : total * ss < 2 ^ 64.
Proof using SectorIoUpto0 Hregion Hfits. pose proof (io_ss (n:=reach) (io:=io) (view:=view)). nia. Qed.

(** One request taken from the queue. *)
Lemma serve_run b sd a v P served f waiting s w :
  path_inv b sd a P served (f :: waiting) s w -> ts_heap (pa_thread s) !! a = Some v -> wf v ->
  same (shows v w) (disk_answers ss P served).1 -> irp_cancel (fi_irp f) = false ->
  exists v' w' i burst,
    process_irp alloc (ie_irp (entry_of f)) (is_write f) (ts_burst (pa_thread s)) (v, w) =
      ((v', w'), Ok (i, burst)) /\
    wf v' /\ inv w' /\ burst_ok cipher burst /\
    same (shows v' w') (disk_answers ss P (served ++ [f])).1 /\
    (disk_answers ss P (served ++ [f])).2 = (disk_answers ss P served).2 ++ [answer i] /\
    does (av_encrypted_boundary v, w) (av_encrypted_boundary v', w').
Proof using All.
  intros [_ _ _ _ _ Hb Hi _ Hw _ _] Hv Hwf Hs Hc. apply Forall_cons in Hw as [Hf _].
  pose proof (vop_of_ok v f Hwf Hf) as Hok.
  destruct (run_vop_ok io cipher store enc dec inv view off total lo hi Hregion region_64 alloc v w
              (vop_of f) (ts_burst (pa_thread s)) _ _ Halloc Hwf Hi Hb Hok)
    as (v' & w' & burst & E & Hwf' & Hi' & Hb' & Hs' & Hd').
  destruct (disk_answer_shifted v (shows v w) f Hwf Hf Hc) as (i & Es & _).
  destruct (disk_answer_shifted v (disk_answers ss P served).1 f Hwf Hf Hc) as (i2 & Es2 & Ha).
  destruct (spec_vop_same io off total _ _ (vop_of f) Hok Hs) as [H1 H2].
  rewrite Es, Es2 in H1, H2. cbn [fst snd] in H1, H2. injection H1 as <-.
  rewrite Es in E, Hs'. cbn [fst snd] in E, Hs'.
  exists v', w', i, burst. split_and!; [|done..| | |exact Hd'].
  - unfold vop_of in E. destruct (is_write f); cbn [run_vop] in E;
      apply mbind_ok in E as (t & [i' b'] & E & E'); unfold mret, M_ret in E'; simplify_eq; exact E.
  - rewrite disk_answers_snoc. destruct (disk_answers ss P served) as [Q rs]. cbn in *.
    destruct (disk_answer ss Q f). cbn in *. rewrite Hs'. exact H2.
  - rewrite disk_answers_snoc. destruct (disk_answers ss P served) as [Q rs]. cbn in *.
    destruct (disk_answer ss Q f). cbn in *. subst. done.
Qed.

(** The thread with another counter, cipher or completed requests. *)
Lemma path_inv_thread b sd a P served waiting s w th :
  path_inv b sd a P served waiting s w -> ts_vt th = ts_vt (pa_thread s) -> ts_vol th = a ->
  ts_heap th = ts_heap (pa_thread s) -> ts_done th = ts_done (pa_thread s) ->
  ts_pc th <> AtDrain -> ts_pc th <> Exited -> burst_ok cipher (ts_burst th) ->
  path_inv b sd a P served waiting (set_thread th s) w.
Proof using Type.
  intros [] Hvt Hvol Hh Hd H1 H2 Hb. constructor; cbn; rewrite ?Hvt, ?Hh, ?Hd; done.
Qed.

(** A request completed at the head of the queue. *)
Lemma path_inv_served b sd a P served f waiting s w v' w' i th :
  path_inv b sd a P served (f :: waiting) s w -> wf v' -> inv w' ->
  same (shows v' w') (disk_answers ss P (served ++ [f])).1 ->
  (disk_answers ss P (served ++ [f])).2 = (disk_answers ss P served).2 ++ [answer i] ->
  does start (av_encrypted_boundary v', w') -> vt_queue (ts_vt th) = entry_of <$> waiting ->
  vt_current (ts_vt th) = a -> vt_shutdown (ts_vt th) = sd -> vt_thread (ts_vt th) = b ->
  ts_vol th = a -> ts_heap th !! a = Some v' -> ts_done th = ts_done (pa_thread s) ++ [i] ->
  ts_pc th <> AtDrain -> ts_pc th <> Exited -> burst_ok cipher (ts_burst th) ->
  path_inv b sd a P (served ++ [f]) waiting (set_thread th s) w'.
Proof using Type.
  intros [] Hwf Hi Hs Ha Ht0 Hq Hc Hsd Ht Hvol Hh Hd H1 H2 Hb.
  apply Forall_cons in pi_waiting0 as [_ Hw].
  constructor; cbn; [done..| |done|done|]; [exists v'; done|].
  rewrite Hd, fmap_app, pi_done0, Ha. done.
Qed.

Lemma disk_answers_cancelled P served f :
  irp_cancel (fi_irp f) = true ->
  disk_answers ss P (served ++ [f]) =
  ((disk_answers ss P served).1,
   (disk_answers ss P served).2 ++ [answer (complete_irp STATUS_CANCELLED 0 (ie_irp (entry_of f)))]).
Proof using Type.
  intros Hc. rewrite disk_answers_snoc. destruct (disk_answers ss P served) as [Q rs].
  unfold disk_answer. rewrite Hc. done.
Qed.

(** Without a thread nothing happens. *)
Lemma path_threadless_run sd a P served waiting s w :
  path_inv false sd a P served waiting s w ->
  exists s' w' now later,
    path_thread alloc (s, w) = ((s', w'), Ok tt) /\ pa_log s' = pa_log s /\
    waiting = now ++ later /\ path_inv false sd a P (served ++ now) later s' w' /\
    now = [].
Proof using Type.
  intros I. exists s, w, [], waiting. unfold path_thread. cbn [fst snd].
  rewrite (proj2 (pi_running _ _ _ _ _ _ _ _ I)), app_nil_r. done.
Qed.

(** A section of the thread. *)
Lemma path_thread_run b sd a P served waiting s w :
  path_inv b sd a P served waiting s w -> (b = true -> sd = true -> ts_pc (pa_thread s) <> AtTop) ->
  exists s' w' now later,
    path_thread alloc (s, w) = ((s', w'), Ok tt) /\ pa_log s' = pa_log s /\
    waiting = now ++ later /\ path_inv b sd a P (served ++ now) later s' w' /\
    (if b then (waiting <> [] -> (path_left s' < path_left s)%nat) /\
       (ts_pc (pa_thread s) <> AtTop -> (stop_left s' < stop_left s)%nat)
     else now = []).
Proof using All.
  intros I Htop. destruct b; [|apply (path_threadless_run sd); done]. specialize (Htop eq_refl).
  pose proof I as [Hbd Hcur [Hsd Hth] [Hpc1 Hpc2] Hvol Hb Hi (v & Hv & Hwf & Hs & Ht0) Hw Hq Hd].
  unfold path_thread. cbn [fst snd]. rewrite Hth. unfold thread_step.
  rewrite (mbind_step _ _ _ (pa_thread s, w) (pa_thread s)) by done.
  destruct (ts_pc (pa_thread s)) as [|n did|did| | |] eqn:Hpc; [| | | |done|done].
  - destruct sd; [destruct (Htop eq_refl); done|].
    rewrite Hsd. exists (set_thread (set_pc (AtBurst 0 false) (set_burst None
      (set_vol (vt_current (ts_vt (pa_thread s))) (pa_thread s)))) s), w, [], waiting.
    split; [done|]. split; [done|]. split; [done|]. rewrite app_nil_r. split.
    + apply path_inv_thread; try done. by left.
    + split; [|done]. intros _. unfold path_left. cbn. rewrite Hpc. cbn. lia.
  - destruct (n <? MAX_IRP_BURST)%nat eqn:Hn.
    2: { exists (set_thread (set_pc (AtSweep did) (set_burst None (pa_thread s))) s), w, [], waiting.
      split; [done|]. split; [done|]. split; [done|]. rewrite app_nil_r. split.
      - apply path_inv_thread; try done. by left.
      - unfold path_left, stop_left. cbn -[Nat.ltb]. rewrite Hpc. cbn -[Nat.ltb]. rewrite Hn.
        split; intros _; lia. }
    rewrite Hq. destruct waiting as [|f waiting]; cbn [fmap list_fmap].
    { exists (set_thread (set_pc (AtSweep did) (set_burst None (pa_thread s))) s), w, [], [].
      split; [done|]. split; [done|]. split; [done|]. rewrite app_nil_r. split.
      - apply path_inv_thread; try done. by left.
      - split; [done|]. intros _. unfold stop_left. cbn. rewrite Hpc. cbn. lia. }
    rewrite (mbind_step _ _ _ (set_queue (entry_of <$> waiting) (pa_thread s), w) tt) by done.
    assert (Hleft : forall th, vt_queue (ts_vt th) = entry_of <$> waiting ->
              ts_pc th = AtBurst (S n) true ->
              (f :: waiting <> [] -> (path_left (set_thread th s) < path_left s)%nat) /\
              (ts_pc (pa_thread s) <> AtTop -> (stop_left (set_thread th s) < stop_left s)%nat)).
    { intros th Hthq Hthp. unfold path_left, stop_left. cbn [pa_thread set_thread].
      rewrite Hthq, Hthp, Hq, Hpc. cbn [length fmap list_fmap pc_rank stop_rank]. rewrite Hn.
      destruct (S n <? MAX_IRP_BURST)%nat; split; intros _; lia. }
    unfold claim_cancelled. change (irp_cancel (ie_irp (entry_of f))) with (irp_cancel (fi_irp f)).
    destruct (irp_cancel (fi_irp f)) eqn:Hc.
    + eexists (set_thread _ s), w, [f], waiting.
      split; [reflexivity|]. split; [done|]. split; [done|].
      pose proof (disk_answers_cancelled P served f Hc) as Ha.
      split; [|rewrite <- Hpc; apply Hleft; done].
      eapply path_inv_served; try done; rewrite ?Ha; done.
    + destruct (serve_run true sd a v P served f waiting s w I Hv Hwf Hs Hc)
        as (v' & w' & i & burst & E & Hwf' & Hi' & Hb' & Hs' & Ha & Hd').
      eexists (set_thread _ s), w', [f], waiting. split.
      { change (ie_is_write (entry_of f)) with (is_write f). rewrite !mbind_run. unfold on_vol. cbn [fst snd ts_heap set_queue ts_vol ts_burst].
        rewrite Hvol, Hv, E. reflexivity. }
      split; [done|]. split; [done|].
      split; [|rewrite <- Hpc; apply Hleft; done].
      eapply (path_inv_served true sd a P served f waiting s w v'); try done; [etransitivity; done|]. cbn. apply lookup_insert_eq.
  - rewrite mbind_run. unfold attempt, on_vol. cbn [fst snd]. rewrite Hvol, Hv.
    destruct (sweep_step_run io cipher store enc dec inv view off total lo hi Hregion region_64 alloc v w
                BATCH_SECTORS Hwf Hi) as (v' & w' & r & E & Hi' & Hp & Hok & Herr).
    rewrite E. destruct r as [more|e|]; [|destruct (Herr eq_refl); done|done].
    destruct (Hok eq_refl) as (Hwf' & Hs' & Hd').
    eexists (set_thread _ s), w', [], waiting. split; [reflexivity|]. split; [done|].
    split; [done|]. rewrite app_nil_r. split.
    + constructor; cbn; try done.
      * destruct more, did; done.
      * exists v'. split; [apply lookup_insert_eq|]. split; [done|]. split; [rewrite Hs'; done|].
        etransitivity; done.
    + unfold path_left, stop_left. cbn. rewrite Hpc. destruct more, did; cbn; split; intros _; lia.
  - exists (set_thread (set_pc AtTop (clear_wake (pa_thread s))) s), w, [], waiting.
    split; [done|]. split; [done|]. split; [done|]. rewrite app_nil_r. split.
    + destruct I. constructor; done.
    + unfold path_left, stop_left. cbn. rewrite Hpc. cbn. split; intros _; lia.
Qed.

(** A request at the filter. *)
Lemma handle_rw_run ac v s f a :
  de_volume (pa_ext s) = Some a -> ts_heap (pa_thread s) !! a = Some v -> wf v -> is_rw f = true ->
  os_offset ss off (irp_byte_offset (fi_irp f)) ->
  handle_filter_irp (ts_heap (pa_thread s)) ac (ext_now s) f = Some
    (if past_end ss total f
     then (ext_now s, Completed (block_irp (shifted ss off f) STATUS_ACCESS_DENIED) STATUS_ACCESS_DENIED)
     else let '(vt, done, status) := enqueue (ts_vt (pa_thread s)) (fi_irp (shifted ss off f)) (is_write f) in
          (mkExt (de_kind (pa_ext s)) (de_lower_device (pa_ext s)) (de_volume (pa_ext s)) (Some vt),
           Queued done status)).
Proof using SectorIoUpto0 Hregion Hfits.
  intros Hbd Hv Hwf Hrw Ho. unfold handle_filter_irp. cbn [ext_now de_volume]. rewrite Hbd.
  cbn [mbind option_bind]. rewrite Hv. cbn [mbind option_bind].
  pose proof (filter_rw_run ss off total v (wf_filter_geometry v Hwf) (ext_now s) f) as E.
  unfold is_rw, is_write in *. apply orb_prop in Hrw.
  destruct Hrw as [Hm|Hm]; apply Z.eqb_eq in Hm; rewrite Hm; cbn; rewrite E by done;
    cbn; rewrite Hbd; done.
Qed.

Lemma handle_other_run ac v s f a :
  de_volume (pa_ext s) = Some a -> ts_heap (pa_thread s) !! a = Some v -> is_rw f = false ->
  exists c, handle_filter_irp (ts_heap (pa_thread s)) ac (ext_now s) f = Some (ext_now s, Forwarded f c).
Proof using Type.
  intros Hbd Hv Hrw. unfold handle_filter_irp, handle_filter_pnp, intercept_size_ioctl, pass_through.
  cbn [ext_now de_volume]. rewrite Hbd. cbn [mbind option_bind]. rewrite Hv. cbn [mbind option_bind].
  unfold is_rw in Hrw. apply orb_false_elim in Hrw as [-> ->].
  repeat case_match; simplify_eq; eauto.
Qed.

Lemma path_request_run b a P served waiting s w ac f :
  path_inv b false a P served waiting s w -> path_event_ok ss off total (PeRequest ac f) ->
  exists s' r, path_request ac f (s, w) = ((s', w), Ok tt) /\
    pa_log s' = pa_log s ++ [r] /\ disposed ss off total f r /\
    path_inv b false a P served
      (waiting ++ if is_rw f && negb (past_end ss total f) then [f] else []) s' w.
Proof using SectorIoUpto0 Hregion Hfits.
  intros I Hok. pose proof I as [Hbd Hcur [Hsd Hth] Hpc Hvol Hb Hi (v & Hv & Hwf & Hs & Ht0) Hw Hq Hd].
  unfold path_request, disposed. cbn [fst snd]. cbn [path_event_ok] in Hok.
  destruct (is_rw f) eqn:Hrw; cbn [andb].
  - assert (os_offset ss off (irp_byte_offset (fi_irp f))) as Ho by (destruct Hok as [?|[[]|[? _]]]; done).
    rewrite (handle_rw_run ac v s f a) by done. destruct (past_end ss total f) eqn:Hrf; cbn [negb].
    + eexists _, _. split; [reflexivity|]. split; [reflexivity|]. split; [done|].
      destruct I. constructor; cbn; rewrite ?app_nil_r; done.
    + unfold enqueue. rewrite Hsd.
      eexists _, _. split; [reflexivity|]. split; [reflexivity|]. split; [done|].
      assert (disk_request ss off total f) as Hf by (destruct Hok as [?|[?|[_ ?]]]; congruence || done).
      destruct I. constructor; cbn; rewrite ?app_nil_r; try done.
      * apply Forall_app. split; [done|]. repeat constructor; apply Hf.
      * rewrite Hq, fmap_app. done.
  - destruct (handle_other_run ac v s f a Hbd Hv Hrw) as [c ->].
    eexists _, _. split; [reflexivity|]. split; [reflexivity|]. split; [eauto|].
    destruct I. constructor; cbn; rewrite ?app_nil_r; done.
Qed.

(** A control operation. *)
Lemma path_control_run b a P served waiting s w op :
  path_inv b false a P served waiting s w -> is_control op = true ->
  exists s' w', path_control alloc op (s, w) = ((s', w'), Ok tt) /\ pa_log s' = pa_log s /\
    path_left s' = path_left s /\ path_inv b false a P served waiting s' w'.
Proof using All.
  intros I Hop. pose proof I as [Hbd Hcur [Hsd Hth] Hpc Hvol Hb Hi (v & Hv & Hwf & Hs & Ht0) Hw Hq Hd].
  unfold path_control. cbn [fst snd]. rewrite Hbd. cbn [mbind option_bind]. rewrite Hv. cbn [fmap option_fmap option_map].
  destruct (run_vop_ok io cipher store enc dec inv view off total lo hi Hregion region_64 alloc v w
              op None _ _ Halloc Hwf Hi (or_introl eq_refl) ltac:(destruct op; done))
    as (v' & w' & burst & E & Hwf' & Hi' & _ & Hs' & Hd').
  rewrite E. eexists _, w'. split; [reflexivity|]. split; [done|]. split; [done|].
  destruct I. constructor; cbn; try done.
  exists v'. split; [apply lookup_insert_eq|]. split; [done|].
  split; [rewrite Hs', <- Hs; destruct op; done|]. etransitivity; done.
Qed.

(** A cancellation. *)
Definition cancel_waiting (id : nat) (f : FilterIrp) : FilterIrp :=
  if (irp_id (fi_irp f) =? id)%nat then cancelled f else f.

Lemma path_cancel_run b a P served waiting s w id :
  path_inv b false a P served waiting s w ->
  exists s', run_path_event alloc (PeCancel id) (s, w) = ((s', w), Ok tt) /\ pa_log s' = pa_log s /\
    path_left s' = path_left s /\ path_inv b false a P served (cancel_waiting id <$> waiting) s' w.
Proof using Type.
  intros []. eexists. split; [reflexivity|]. split; [done|]. split.
  - unfold path_left. cbn. rewrite length_fmap. done.
  - constructor; cbn; try done.
    + apply Forall_fmap. eapply Forall_impl; [exact pi_waiting0|]. intros f [].
      unfold cancel_waiting, compose. case_match; constructor; done.
    + rewrite pi_queue0, <- !list_fmap_compose. apply list_fmap_ext. intros _ f _.
      unfold compose, cancel_entry, cancel_waiting, entry_of. cbn. case_match; done.
Qed.

(** Any sequence of events. *)
Lemma request_of_refl ids f : request_of ids f f.
Proof using Type. by left. Qed.
Lemma request_of_all ids fs : Forall2 (request_of ids) fs fs.
Proof using Type. induction fs; constructor; [apply request_of_refl|done]. Qed.

Lemma request_of_cancel id ids f0 f :
  request_of ids (cancel_waiting id f0) f -> request_of (id :: ids) f0 f.
Proof using Type.
  unfold request_of, cancel_waiting. destruct (Nat.eqb_spec (irp_id (fi_irp f0)) id) as [->|].
  - intros [->|[-> _]]; right; (split; [done|]); apply list_elem_of_here.
  - intros [->|[-> ?]]; [by left|right]. split; [done|]. apply list_elem_of_further. done.
Qed.

Lemma Forall2_cancel id ids fs gs acc :
  Forall2 (request_of ids) ((cancel_waiting id <$> fs) ++ acc) gs ->
  Forall2 (request_of (id :: ids)) (fs ++ acc) gs.
Proof using Type.
  intros H. apply Forall2_app_inv_l in H as (g1 & g2 & H1 & H2 & ->).
  apply (Forall2_fmap_l (cancel_waiting id)) in H1. apply Forall2_app.
  - eapply Forall2_impl; [exact H1|]. intros f g. apply request_of_cancel.
  - eapply Forall2_impl; [exact H2|]. intros f g [->|[-> ?]]; [by left|right].
    split; [done|]. apply list_elem_of_further. done.
Qed.

Lemma run_path_ok b a P evs : forall served waiting s w,
  path_inv b false a P served waiting s w -> Forall (path_event_ok ss off total) evs ->
  exists s' w' now later rs,
    run_path alloc evs (s, w) = ((s', w'), Ok tt) /\ path_inv b false a P (served ++ now) later s' w' /\
    Forall2 (request_of (cancels evs)) (waiting ++ accepted_requests ss total evs) (now ++ later) /\
    pa_log s' = pa_log s ++ rs /\ Forall2 (disposed ss off total) (requests evs) rs /\
    (b = false -> now = []).
Proof using All.
  induction evs as [|ev evs IH]; intros served waiting s w I Hev.
  { exists s, w, [], waiting, []. rewrite !app_nil_r. split; [done|]. split; [done|].
    split; [apply request_of_all|]. done. }
  apply Forall_cons in Hev as [Hok Hev]. destruct ev as [ac f| |op|id|]; [| | | |done].
  - destruct (path_request_run b a P served waiting s w ac f I Hok) as (s1 & r & E1 & Hl1 & Hr & I1).
    destruct (IH _ _ _ _ I1 Hev) as (s2 & w2 & now & later & rs & E2 & I2 & HF & Hl2 & HR & Hn).
    exists s2, w2, now, later, (r :: rs). split; [|split; [done|split; [|split; [|split; [|]]]]].
    + unfold run_path. cbn [miter run_path_event]. rewrite (mbind_step _ _ _ _ _ E1). exact E2.
    + rewrite <- app_assoc in HF. unfold accepted_requests. cbn [requests omap list_omap].
      destruct (is_rw f && negb (past_end ss total f)) eqn:Hb.
      * rewrite filter_cons_True by done. exact HF.
      * rewrite filter_cons_False by congruence. exact HF.
    + rewrite Hl2, Hl1, <- app_assoc. done.
    + constructor; done.
    + done.
  - destruct (path_thread_run b false a P served waiting s w I ltac:(done)) as (s1 & w1 & n1 & l1 & E1 & Hl1 & -> & I1 & Hless).
    destruct (IH _ _ _ _ I1 Hev) as (s2 & w2 & now & later & rs & E2 & I2 & HF & Hl2 & HR & Hn).
    exists s2, w2, (n1 ++ now), later, rs. split; [|split; [rewrite app_assoc; done|split; [|split; [|split]]]].
    + unfold run_path. cbn [miter run_path_event]. rewrite (mbind_step _ _ _ _ _ E1). exact E2.
    + rewrite <- !app_assoc. apply Forall2_app; [apply request_of_all|exact HF].
    + rewrite Hl2, Hl1. done.
    + done.
    + intros Hb. rewrite (Hn Hb). subst b. rewrite Hless. done.
  - destruct (path_control_run b a P served waiting s w op I Hok) as (s1 & w1 & E1 & Hl1 & _ & I1).
    destruct (IH _ _ _ _ I1 Hev) as (s2 & w2 & now & later & rs & E2 & I2 & HF & Hl2 & HR & Hn).
    exists s2, w2, now, later, rs. split; [|split; [done|split; [done|split; [congruence|split; [done|]]]]].
    2: done.
    unfold run_path. cbn [miter run_path_event]. rewrite (mbind_step _ _ _ _ _ E1). exact E2.
  - destruct (path_cancel_run b a P served waiting s w id I) as (s1 & E1 & Hl1 & _ & I1).
    destruct (IH _ _ _ _ I1 Hev) as (s2 & w2 & now & later & rs & E2 & I2 & HF & Hl2 & HR & Hn).
    exists s2, w2, now, later, rs. split; [|split; [done|split; [|split; [congruence|split; [done|]]]]].
    + unfold run_path. cbn [miter]. rewrite (mbind_step _ _ _ _ _ E1). exact E2.
    + apply Forall2_cancel. exact HF.
    + done.
Qed.

(** An idle path stays answered. *)
Lemma path_idle a P n : forall served s w,
  path_inv true false a P served [] s w ->
  exists s' w', run_path alloc (replicate n PeThread) (s, w) = ((s', w'), Ok tt) /\
    pa_log s' = pa_log s /\ path_inv true false a P (served ++ []) [] s' w'.
Proof using All.
  induction n as [|n IH]; intros served s w I.
  - exists s, w. rewrite app_nil_r. done.
  - destruct (path_thread_run true false a P served [] s w I ltac:(done)) as (s1 & w1 & now & later & E1 & Hl1 & Hnl & I1 & _).
    symmetry in Hnl. apply app_nil in Hnl as [-> ->].
    destruct (IH _ _ _ I1) as (s2 & w2 & E2 & Hl2 & I2). exists s2, w2.
    split; [|split; [congruence|rewrite !app_nil_r in *; done]].
    unfold run_path. cbn [replicate miter run_path_event]. rewrite (mbind_step _ _ _ _ _ E1). exact E2.
Qed.

(** Sections alone empty the queue. *)
Lemma path_drain a P n : forall served waiting s w,
  path_inv true false a P served waiting s w -> (path_left s <= n)%nat ->
  exists s' w', run_path alloc (replicate n PeThread) (s, w) = ((s', w'), Ok tt) /\
    pa_log s' = pa_log s /\ path_inv true false a P (served ++ waiting) [] s' w'.
Proof using All.
  induction n as [|n IH]; intros served waiting s w I Hn.
  - exists s, w. split; [done|]. split; [done|]. destruct waiting; [rewrite app_nil_r; done|].
    pose proof (pi_queue _ _ _ _ _ _ _ _ I) as Hq. unfold path_left in Hn. rewrite Hq in Hn. cbn in Hn. lia.
  - destruct (path_thread_run true false a P served waiting s w I ltac:(done))
      as (s1 & w1 & now & later & E1 & Hl1 & -> & I1 & Hless & _).
    assert (exists s' w', run_path alloc (replicate n PeThread) (s1, w1) = ((s', w'), Ok tt) /\
      pa_log s' = pa_log s1 /\ path_inv true false a P ((served ++ now) ++ later) [] s' w') as (s2 & w2 & E2 & Hl2 & I2).
    { destruct (decide ((now ++ later)%list = [])) as [[-> ->]%app_nil|Hne].
      - apply (path_idle a P n); done.
      - apply IH; [done|]. specialize (Hless Hne). lia. }
    exists s2, w2. split; [|split; [congruence|rewrite app_assoc; done]].
    unfold run_path. cbn [replicate miter run_path_event]. rewrite (mbind_step _ _ _ _ _ E1). exact E2.
Qed.

(** *** Stopping *)

(** A thread past its loop: [served] requests are answered, [gone] ones given back,
    [waiting] ones queued. *)
Record drained (a : nat) (P : Z -> bytes) (served gone waiting : list FilterIrp) s w : Prop := {
  dn_thread : vt_thread (ts_vt (pa_thread s)) = true;
  dn_volume : exists v, ts_heap (pa_thread s) !! a = Some v /\ wf v /\
    same (shows v w) (disk_answers ss P served).1 /\ does start (av_encrypted_boundary v, w);
  dn_queue : vt_queue (ts_vt (pa_thread s)) = entry_of <$> waiting;
  dn_done : answer <$> ts_done (pa_thread s) = (disk_answers ss P served).2 ++ (given_back <$> gone);
  dn_pc : ts_pc (pa_thread s) = AtDrain \/ ts_pc (pa_thread s) = Exited /\ waiting = [];
}.

Lemma path_stop_run a P served waiting s w :
  path_inv true false a P served waiting s w ->
  exists s', run_path_event alloc PeStop (s, w) = ((s', w), Ok tt) /\ pa_log s' = pa_log s /\
    stop_left s' = stop_left s /\ path_inv true true a P served waiting s' w.
Proof using Type.
  intros []. eexists. split; [reflexivity|]. split; [done|]. split; [done|].
  destruct pi_running0. constructor; done.
Qed.

Lemma drained_run a P served gone waiting s w :
  drained a P served gone waiting s w ->
  exists s' gone' waiting', path_thread alloc (s, w) = ((s', w), Ok tt) /\ pa_log s' = pa_log s /\
    gone ++ waiting = gone' ++ waiting' /\ drained a P served gone' waiting' s' w /\
    (stop_left s' <= stop_left s - 1)%nat.
Proof using Type.
  intros [Ht Hv Hq Hd Hpc]. unfold path_thread. cbn [fst snd]. rewrite Ht. unfold thread_step.
  rewrite (mbind_step _ _ _ (pa_thread s, w) (pa_thread s)) by done.
  destruct Hpc as [Hpc|[Hpc ->]]; rewrite Hpc.
  - rewrite Hq. destruct waiting as [|f waiting]; cbn [fmap list_fmap].
    + eexists (set_thread _ s), gone, []. split; [reflexivity|]. split; [done|]. split; [done|]. split.
      * constructor; cbn; try done. by right.
      * unfold stop_left. cbn. rewrite Hpc, Hq. cbn. lia.
    + eexists (set_thread _ s), (gone ++ [f]), waiting. split; [reflexivity|]. split; [done|].
      split; [rewrite <- app_assoc; done|]. split.
      * constructor; cbn; try done; [|by left]. rewrite !fmap_app, Hd, <- app_assoc. done.
      * unfold stop_left. cbn. rewrite Hpc, Hq. cbn. lia.
  - eexists (set_thread _ s), gone, []. split; [reflexivity|]. split; [done|]. split; [done|]. split.
    + constructor; try done. by right.
    + unfold stop_left. cbn. rewrite Hpc, Hq. cbn. lia.
Qed.

Lemma drained_exits a P served n : forall gone waiting s w,
  drained a P served gone waiting s w -> (stop_left s <= n)%nat ->
  exists s', run_path alloc (replicate n PeThread) (s, w) = ((s', w), Ok tt) /\ pa_log s' = pa_log s /\
    drained a P served (gone ++ waiting) [] s' w /\ ts_pc (pa_thread s') = Exited.
Proof using Type.
  induction n as [|n IH]; intros gone waiting s w D Hn.
  - exists s. pose proof (dn_pc _ _ _ _ _ _ _ D) as [Hpc|[Hpc ->]].
    + unfold stop_left in Hn. rewrite Hpc in Hn. cbn in Hn. lia.
    + rewrite app_nil_r. done.
  - destruct (drained_run a P served gone waiting s w D)
      as (s1 & g1 & w1 & E1 & Hl1 & Hg & D1 & Hless).
    destruct (IH g1 w1 s1 w D1) as (s2 & E2 & Hl2 & D2 & Hpc); [lia|].
    exists s2. rewrite Hg. split; [|split; [congruence|done]].
    unfold run_path. cbn [replicate miter run_path_event]. rewrite (mbind_step _ _ _ _ _ E1). exact E2.
Qed.

(** Sections alone end the thread that is to stop. *)
Lemma stopped_exits a P n : forall served waiting s w,
  path_inv true true a P served waiting s w -> (stop_left s <= n)%nat ->
  exists s' w' now later,
    run_path alloc (replicate n PeThread) (s, w) = ((s', w'), Ok tt) /\ pa_log s' = pa_log s /\
    waiting = now ++ later /\ drained a P (served ++ now) later [] s' w' /\
    ts_pc (pa_thread s') = Exited.
Proof using All.
  induction n as [|n IH]; intros served waiting s w I Hn.
  { pose proof (pi_pc _ _ _ _ _ _ _ _ I) as [? ?]. unfold stop_left in Hn.
    destruct (ts_pc (pa_thread s)); cbn in Hn; done || lia. }
  assert (ts_pc (pa_thread s) = AtTop \/ ts_pc (pa_thread s) <> AtTop) as [Hpc|Hpc]
    by (destruct (ts_pc (pa_thread s)); (by left) || by right).
  - set (s1 := set_thread (set_pc AtDrain (pa_thread s)) s).
    assert (path_thread alloc (s, w) = ((s1, w), Ok tt)) as E1.
    { unfold path_thread. cbn [fst snd]. pose proof (pi_running _ _ _ _ _ _ _ _ I) as [Hsd Ht].
      rewrite Ht. unfold thread_step. rewrite (mbind_step _ _ _ (pa_thread s, w) (pa_thread s)) by done.
      rewrite Hpc, Hsd. done. }
    assert (drained a P served [] waiting s1 w) as D.
    { destruct I as [_ _ [_ Ht] _ _ _ _ Hv _ Hq Hd]. constructor; cbn; rewrite ?app_nil_r; try done.
      by left. }
    destruct (drained_exits a P served n [] waiting s1 w D) as (s2 & E2 & Hl2 & D2 & He).
    { unfold stop_left in *. cbn. rewrite Hpc in Hn. cbn in Hn. lia. }
    exists s2, w, [], waiting. rewrite app_nil_r. split; [|done].
    unfold run_path. cbn [replicate miter run_path_event]. rewrite (mbind_step _ _ _ _ _ E1). exact E2.
  - destruct (path_thread_run true true a P served waiting s w I (fun _ _ => Hpc))
      as (s1 & w1 & n1 & l1 & E1 & Hl1 & -> & I1 & _ & Hless).
    destruct (IH _ _ _ _ I1) as (s2 & w2 & now & later & E2 & Hl2 & -> & D2 & He);
      [specialize (Hless Hpc); lia|].
    exists s2, w2, (n1 ++ now), later. split; [|split; [congruence|rewrite !app_assoc; done]].
    unfold run_path. cbn [replicate miter run_path_event]. rewrite (mbind_step _ _ _ _ _ E1). exact E2.
Qed.

(** A path where nothing has happened yet. *)
Lemma path_inv_init b a v w ext vt heap :
  de_volume ext = Some a -> heap !! a = Some v -> wf v -> inv w -> idle_thread b a vt ->
  start = (av_encrypted_boundary v, w) ->
  path_inv b false a (shows v w) [] [] (path_start ext vt heap) w.
Proof using Type.
  intros ? ? ? ? [] H3. constructor; cbn; try done; [by left|].
  exists v. split; [done|]. split; [done|]. split; [done|]. rewrite H3. reflexivity.
Qed.

Lemma path_left_accepted b a P served waiting s w evs fs :
  path_inv b false a P served waiting s w ->
  Forall2 (request_of (cancels evs)) (accepted_requests ss total evs) fs ->
  (length waiting <= length fs)%nat ->
  (path_left s <= 4 + 5 * length (accepted_requests ss total evs))%nat.
Proof using Type.
  intros I HF%Forall2_length Hl. pose proof (pi_queue _ _ _ _ _ _ _ _ I) as Hq.
  unfold path_left. rewrite Hq, length_fmap.
  assert (pc_rank (ts_pc (pa_thread s)) <= 4)%nat by (unfold pc_rank; repeat case_match; lia).
  lia.
Qed.

Lemma path_serves a v w ext vt heap evs :
  de_volume ext = Some a -> heap !! a = Some v -> wf v -> inv w -> idle_thread true a vt ->
  start = (av_encrypted_boundary v, w) -> Forall (path_event_ok ss off total) evs ->
  exists s' w' fs v',
    run_path alloc (catch_up ss total evs) (path_start ext vt heap, w) = ((s', w'), Ok tt) /\
    answered_as_disk ss off total (shows v w) evs fs s' /\
    ts_heap (pa_thread s') !! a = Some v' /\ wf v' /\
    same (shows v' w') (disk_answers ss (shows v w) fs).1.
Proof using All.
  intros Hbd Hv Hwf Hi Hvt Hst Hev.
  destruct (run_path_ok true a (shows v w) evs [] [] _ w
              (path_inv_init true a v w ext vt heap Hbd Hv Hwf Hi Hvt Hst) Hev)
    as (s1 & w1 & now & later & rs & E1 & I1 & HF & Hl1 & HR & _). cbn [app] in *.
  destruct (path_drain a (shows v w) (4 + 5 * length (accepted_requests ss total evs)) now later s1 w1 I1)
    as (s2 & w2 & E2 & Hl2 & I2).
  { eapply path_left_accepted; [done..|]. rewrite length_app. lia. }
  destruct I2 as [_ _ _ _ _ _ _ (v' & Hv' & Hwf' & Hs' & _) _ Hq Hd].
  exists s2, w2, (now ++ later), v'. split; [|done || split; [|done]].
  - unfold run_path, catch_up. rewrite (miter_app _ _ _ _ _ E1). exact E2.
  - constructor; try done. rewrite Hl2, Hl1. exact HR.
Qed.

(** The state after any events, whatever is still waiting. *)
Lemma path_cut a v w ext vt heap evs :
  de_volume ext = Some a -> heap !! a = Some v -> wf v -> inv w -> idle_thread true a vt ->
  start = (av_encrypted_boundary v, w) -> Forall (path_event_ok ss off total) evs ->
  exists s' w' fs gs v',
    run_path alloc evs (path_start ext vt heap, w) = ((s', w'), Ok tt) /\
    cut_as_disk ss off total (shows v w) evs fs gs s' /\ inv w' /\ wf v' /\
    same (shows v' w') (disk_answers ss (shows v w) fs).1 /\ does start (av_encrypted_boundary v', w').
Proof using All.
  intros Hbd Hv Hwf Hi Hvt Hst Hev.
  destruct (run_path_ok true a (shows v w) evs [] [] _ w
              (path_inv_init true a v w ext vt heap Hbd Hv Hwf Hi Hvt Hst) Hev)
    as (s1 & w1 & now & later & rs & E1 & I1 & HF & Hl1 & HR & _). cbn [app] in *.
  destruct I1 as [_ _ _ _ _ _ Hi1 (v' & Hv' & Hwf' & Hs' & Hd') _ Hq Hd].
  exists s1, w1, now, later, v'. split; [exact E1|]. split; [|done].
  constructor; try done; [rewrite Hl1; exact HR|]. rewrite Hq, length_fmap. done.
Qed.

(** The stop, as [unbind_filter] does it: the sections that follow it end the thread. *)
Lemma path_stops a v w ext vt heap evs :
  de_volume ext = Some a -> heap !! a = Some v -> wf v -> inv w -> idle_thread true a vt ->
  start = (av_encrypted_boundary v, w) -> Forall (path_event_ok ss off total) evs ->
  exists s' w' fs gs,
    run_path alloc (stopped ss total evs) (path_start ext vt heap, w) = ((s', w'), Ok tt) /\
    stopped_as_disk ss off total (shows v w) evs fs gs s' /\
    exists v', ts_heap (pa_thread s') !! a = Some v' /\ wf v' /\
      same (shows v' w') (disk_answers ss (shows v w) fs).1 /\ does start (av_encrypted_boundary v', w').
Proof using All.
  intros Hbd Hv Hwf Hi Hvt Hst Hev.
  destruct (run_path_ok true a (shows v w) evs [] [] _ w
              (path_inv_init true a v w ext vt heap Hbd Hv Hwf Hi Hvt Hst) Hev)
    as (s1 & w1 & now & later & rs & E1 & I1 & HF & Hl1 & HR & _). cbn [app] in *.
  destruct (path_stop_run a _ now later s1 w1 I1) as (s2 & E2 & Hl2 & Hleft & I2).
  destruct (stopped_exits a (shows v w) (5 + length (accepted_requests ss total evs)) now later s2 w1 I2)
    as (s3 & w3 & n3 & l3 & E3 & Hl3 & -> & D & Hpc).
  { pose proof (Forall2_length _ _ _ HF) as Hlen. rewrite length_app in Hlen.
    rewrite Hleft. unfold stop_left. rewrite (pi_queue _ _ _ _ _ _ _ _ I1), length_fmap.
    assert (stop_rank (ts_pc (pa_thread s1)) <= 5)%nat by (unfold stop_rank; case_match; lia). lia. }
  destruct D as [_ Hv3 Hq Hd _]. rewrite app_assoc in HF.
  exists s3, w3, (now ++ n3), l3. split; [|split; [|exact Hv3]].
  - unfold run_path, stopped. rewrite (miter_app _ _ _ _ _ E1). cbn [miter].
    rewrite (mbind_step _ _ _ _ _ E2). exact E3.
  - constructor; try done. rewrite Hl3, Hl2, Hl1. exact HR.
Qed.
End DataPath.

(** ** Properties *)

Module PathDemo.
Definition request (id : nat) (major b : Z) (buf : list Z) : FilterIrp :=
  mkFilterIrp (mkIRP id b (Z.of_nat (length buf)) (Some (byte_of <$> buf)) false false 0 0 0)
    major 0 0 1 None.
(** A write, a read of what it wrote while the sweep starts, a read cancelled in
    the queue and a write past the data region. *)
Definition evs : list path_event :=
  [PeRequest true (request 1 IRP_MJ_WRITE 2 [50; 51; 52; 53]); PeThread;
   PeRequest true (request 2 IRP_MJ_READ 4 [0; 0]); PeThread; PeControl VStartEncrypt;
   PeRequest true (request 3 IRP_MJ_READ 0 [0; 0; 0; 0]); PeCancel 3;
   PeRequest true (request 4 IRP_MJ_WRITE 8 [1; 2])].

Lemma path_request_in id major b buf :
  is_rw (request id major b buf) = true -> os_offset 2 1 b ->
  2 <= Z.of_nat (length buf) < 2 ^ 32 -> b / 2 + Z.of_nat (length buf) / 2 <= 4 ->
  disk_request 2 1 4 (request id major b buf).
Proof.
  intros Hrw Ho Hl He. constructor; [done..| |done|done].
  exists (byte_of <$> buf). rewrite length_fmap. done.
Qed.

Lemma path_evs_ok : Forall (path_event_ok 2 1 4) evs.
Proof.
  repeat apply Forall_cons_2; try exact I; try apply Forall_nil_2;
    cbn [path_event_ok]; try done.
  1-3: right; left; apply path_request_in; done || (split; vm_compute; done).
  right; right. split; [split; vm_compute; done|done].
Qed.

Lemma path_fits : (1 + 4) * sector_size EngineDemo.io < 2 ^ 63.
Proof. vm_compute. done. Qed.
Lemma path_batch_fits : BATCH_SECTORS * sector_size EngineDemo.io < 2 ^ 32.
Proof. vm_compute. done. Qed.
Lemma idle created : idle_thread created 0 (vt_start created 0).
Proof. done. Qed.
End PathDemo.

(** C4: a bound filter, its thread and its volume are together a plaintext disk of
    [total] sectors. Requests of any kind, sections of the thread (each at most one
    request or one sweep batch), control operations on the volume and cancellations
    interleave in any order. On working hardware nothing fails; a user-mode
    request past the end is refused and the other READs and WRITEs are queued at
    once, everything else is forwarded; five sections a request then empty the
    queue, and the requests have been completed once each, in the order of their
    arrival, with exactly what a plain disk with the volume's plaintext answers one
    after the other at the addresses the file system used. A request cancelled while
    it waited had no effect. At the end the volume presents that disk's content. *)
Theorem filter_is_plaintext_disk {W} (io : SectorIo W) cipher store enc dec inv view
    off total lo hi alloc a (v : AttachedVolume W) w ext vt heap evs :
  SectorIoLaws io inv view -> CipherLaws cipher (sector_size io) enc dec ->
  OffsetStoreLaws store inv view lo hi ->
  SectorIoReliable io inv -> OffsetStoreReliable store inv -> (forall n, alloc n = true) ->
  0 <= lo <= off /\ off + total <= hi <= total_sectors io ->
  (off + total) * sector_size io < 2 ^ 63 -> BATCH_SECTORS * sector_size io < 2 ^ 32 ->
  de_volume ext = Some a -> heap !! a = Some v ->
  volume_wf io cipher store off total v -> inv w -> idle_thread true a vt ->
  Forall (path_event_ok (sector_size io) off total) evs ->
  exists s' w' fs v',
    run_path alloc (catch_up (sector_size io) total evs) (path_start ext vt heap, w) =
      ((s', w'), Ok tt) /\
    answered_as_disk (sector_size io) off total (presents dec view off v w) evs fs s' /\
    ts_heap (pa_thread s') !! a = Some v' /\ volume_wf io cipher store off total v' /\
    same_disk total (presents dec view off v' w')
      (disk_answers (sector_size io) (presents dec view off v w) fs).1.
Proof.
  intros. apply (path_serves io cipher store enc dec inv view off total lo hi)
    with (start := (av_encrypted_boundary v, w)); done.
Qed.

Lemma filter_is_plaintext_disk_witness :
  exists s' w' fs v',
    run_path VolumeDemo.alloc (catch_up 2 4 PathDemo.evs)
      (path_start FilterDemo.ext FilterDemo.vt FilterDemo.heap, EngineDemo.disk) =
      ((s', w'), Ok tt) /\
    answered_as_disk 2 1 4
      (presents ShiftCipher.dec (mem_view 2) 1 FilterDemo.vol EngineDemo.disk) PathDemo.evs fs s' /\
    ts_heap (pa_thread s') !! 0%nat = Some v' /\
    volume_wf EngineDemo.io ShiftCipher.cipher EngineDemo.store 1 4 v' /\
    same_disk 4 (presents ShiftCipher.dec (mem_view 2) 1 v' w')
      (disk_answers 2 (presents ShiftCipher.dec (mem_view 2) 1 FilterDemo.vol EngineDemo.disk) fs).1.
Proof.
  exact (filter_is_plaintext_disk EngineDemo.io ShiftCipher.cipher EngineDemo.store
    ShiftCipher.enc ShiftCipher.dec (mem_inv 12) (mem_view 2) 1 4 0 6 VolumeDemo.alloc 0
    FilterDemo.vol EngineDemo.disk FilterDemo.ext FilterDemo.vt FilterDemo.heap PathDemo.evs
    EngineDemo.io_laws EngineDemo.cipher_laws EngineDemo.store_laws
    EngineDemo.io_reliable EngineDemo.store_reliable (fun _ => eq_refl)
    EngineDemo.region PathDemo.path_fits PathDemo.path_batch_fits eq_refl eq_refl
    (VolumeDemo.volume_at_wf 2 Idle EngineDemo.z24) eq_refl (PathDemo.idle true) PathDemo.path_evs_ok).
Defined.

(** C9: unbinding a filter under load loses no request and no data. Whatever requests,
    sections, control operations and cancellations came before, in any order, when
    [unbind_filter] or [detach_filter] stops the thread it exits after one section a
    waiting request and five more, with an empty queue; the accepted requests have been
    completed once each, in the order of their arrival: the first ones with what a plain
    disk answers them, the rest given back as cancelled; and the volume presents the
    disk as the answered ones left it. *)
Theorem stopped_filter_loses_nothing {W} (io : SectorIo W) cipher store enc dec inv view
    off total lo hi alloc a (v : AttachedVolume W) w ext vt heap evs :
  SectorIoLaws io inv view -> CipherLaws cipher (sector_size io) enc dec ->
  OffsetStoreLaws store inv view lo hi ->
  SectorIoReliable io inv -> OffsetStoreReliable store inv -> (forall n, alloc n = true) ->
  0 <= lo <= off /\ off + total <= hi <= total_sectors io ->
  (off + total) * sector_size io < 2 ^ 63 -> BATCH_SECTORS * sector_size io < 2 ^ 32 ->
  de_volume ext = Some a -> heap !! a = Some v ->
  volume_wf io cipher store off total v -> inv w -> idle_thread true a vt ->
  Forall (path_event_ok (sector_size io) off total) evs ->
  exists s' w' fs gs,
    run_path alloc (stopped (sector_size io) total evs) (path_start ext vt heap, w) =
      ((s', w'), Ok tt) /\
    stopped_as_disk (sector_size io) off total (presents dec view off v w) evs fs gs s' /\
    exists v', ts_heap (pa_thread s') !! a = Some v' /\ volume_wf io cipher store off total v' /\
      same_disk total (presents dec view off v' w')
        (disk_answers (sector_size io) (presents dec view off v w) fs).1.
Proof.
  intros. destruct (path_stops io cipher store enc dec inv view off total lo hi ltac:(done) ltac:(done)
    ltac:(done) alloc ltac:(done) (av_encrypted_boundary v, w) a v w ext vt heap evs)
    as (s' & w' & fs & gs & E & Hs & v' & ? & ? & ? & _); [done..|]. eauto 10.
Qed.

Lemma stopped_filter_loses_nothing_witness :
  exists s' w' fs gs,
    run_path VolumeDemo.alloc (stopped 2 4 PathDemo.evs)
      (path_start FilterDemo.ext FilterDemo.vt FilterDemo.heap, EngineDemo.disk) =
      ((s', w'), Ok tt) /\
    stopped_as_disk 2 1 4
      (presents ShiftCipher.dec (mem_view 2) 1 FilterDemo.vol EngineDemo.disk) PathDemo.evs fs gs s' /\
    exists v', ts_heap (pa_thread s') !! 0%nat = Some v' /\
      volume_wf EngineDemo.io ShiftCipher.cipher EngineDemo.store 1 4 v' /\
      same_disk 4 (presents ShiftCipher.dec (mem_view 2) 1 v' w')
        (disk_answers 2 (presents ShiftCipher.dec (mem_view 2) 1 FilterDemo.vol EngineDemo.disk) fs).1.
Proof.
  exact (stopped_filter_loses_nothing EngineDemo.io ShiftCipher.cipher EngineDemo.store
    ShiftCipher.enc ShiftCipher.dec (mem_inv 12) (mem_view 2) 1 4 0 6 VolumeDemo.alloc 0
    FilterDemo.vol EngineDemo.disk FilterDemo.ext FilterDemo.vt FilterDemo.heap PathDemo.evs
    EngineDemo.io_laws EngineDemo.cipher_laws EngineDemo.store_laws
    EngineDemo.io_reliable EngineDemo.store_reliable (fun _ => eq_refl)
    EngineDemo.region PathDemo.path_fits PathDemo.path_batch_fits eq_refl eq_refl
    (VolumeDemo.volume_at_wf 2 Idle EngineDemo.z24) eq_refl (PathDemo.idle true) PathDemo.path_evs_ok).
Defined.

(** C36: Finding: a filter whose thread could not be created answers no READ or WRITE.
    When [PsCreateSystemThread] fails, [bind] stores the thread's record all the same
    and [enqueue] does not look at it: each READ or WRITE is answered STATUS_PENDING.
    However requests, control operations and cancellations follow while the filter is
    bound, none of them is completed; and the unbind that ends it gives each of them
    back, in the order of their arrival, as cancelled with its buffer as it was sent. *)
Theorem threadless_filter_only_cancels {W} (io : SectorIo W) cipher store enc dec inv view
    off total lo hi alloc a (v : AttachedVolume W) w ext vt heap evs :
  SectorIoLaws io inv view -> CipherLaws cipher (sector_size io) enc dec ->
  OffsetStoreLaws store inv view lo hi ->
  SectorIoReliable io inv -> OffsetStoreReliable store inv -> (forall n, alloc n = true) ->
  0 <= lo <= off /\ off + total <= hi <= total_sectors io ->
  (off + total) * sector_size io < 2 ^ 63 -> BATCH_SECTORS * sector_size io < 2 ^ 32 ->
  de_volume ext = Some a -> heap !! a = Some v ->
  volume_wf io cipher store off total v -> inv w -> bind false None a true = Some vt ->
  Forall (path_event_ok (sector_size io) off total) evs ->
  exists s' w' fs,
    run_path alloc evs (path_start ext vt heap, w) = ((s', w'), Ok tt) /\
    Forall2 (disposed (sector_size io) off total) (requests evs) (pa_log s') /\
    ts_done (pa_thread s') = [] /\
    Forall2 (request_of (cancels evs)) (accepted_requests (sector_size io) total evs) fs /\
    answer <$> vt_drop (vt_stop (ts_vt (pa_thread s'))) =
      (fun f => (irp_id (fi_irp f), STATUS_CANCELLED, 0, irp_mdl (fi_irp f))) <$> fs.
Proof.
  intros HL HC HS HR HSR Hal Hreg Hfit Hbatch Hbd Hv Hwf Hi Hb Hev.
  assert (idle_thread false a vt) as Hvt by (cbn in Hb; injection Hb as <-; done).
  destruct (run_path_ok io cipher store enc dec inv view off total lo hi Hreg Hfit Hbatch alloc Hal
              (av_encrypted_boundary v, w) false a (presents dec view off v w) evs [] [] _ w
              (path_inv_init io cipher store dec inv view off total _ false a v w ext vt heap
                 Hbd Hv Hwf Hi Hvt eq_refl) Hev)
    as (s1 & w1 & now & later & rs & E1 & I1 & HF & Hl1 & HR1 & Hn).
  rewrite (Hn eq_refl) in HF, I1. cbn [app] in *. destruct I1 as [_ _ _ _ _ _ _ _ _ Hq Hd].
  exists s1, w1, later. split; [exact E1|]. split; [rewrite Hl1; exact HR1|].
  split; [exact (fmap_nil_inv _ _ Hd)|]. split; [exact HF|].
  unfold vt_drop. cbn [vt_stop vt_signal vt_queue]. rewrite Hq, <- !list_fmap_compose.
  apply list_fmap_ext. intros i f _. done.
Qed.

Lemma threadless_filter_only_cancels_witness :
  exists s' w' fs,
    run_path VolumeDemo.alloc PathDemo.evs
      (path_start FilterDemo.ext (vt_start false 0) FilterDemo.heap, EngineDemo.disk) = ((s', w'), Ok tt) /\
    Forall2 (disposed 2 1 4) (requests PathDemo.evs) (pa_log s') /\
    ts_done (pa_thread s') = [] /\
    Forall2 (request_of (cancels PathDemo.evs)) (accepted_requests 2 4 PathDemo.evs) fs /\
    answer <$> vt_drop (vt_stop (ts_vt (pa_thread s'))) =
      (fun f => (irp_id (fi_irp f), STATUS_CANCELLED, 0, irp_mdl (fi_irp f))) <$> fs.
Proof.
  exact (threadless_filter_only_cancels EngineDemo.io ShiftCipher.cipher EngineDemo.store
    ShiftCipher.enc ShiftCipher.dec (mem_inv 12) (mem_view 2) 1 4 0 6 VolumeDemo.alloc 0
    FilterDemo.vol EngineDemo.disk FilterDemo.ext (vt_start false 0) FilterDemo.heap PathDemo.evs
    EngineDemo.io_laws EngineDemo.cipher_laws EngineDemo.store_laws
    EngineDemo.io_reliable EngineDemo.store_reliable (fun _ => eq_refl)
    EngineDemo.region PathDemo.path_fits PathDemo.path_batch_fits eq_refl eq_refl
    (VolumeDemo.volume_at_wf 2 Idle EngineDemo.z24) eq_refl eq_refl PathDemo.path_evs_ok).
Defined.
