(* ===== verification/Io.v ===== *)
(** * Sector I/O of the driver ([lib/windrv/src/io.rs])

    [LowerDeviceIo] sends requests to one device object below the filter,
    [KernelVolumeIo] goes through a file handle, [OffsetSectorIo] shifts another
    device. The kernel's side of a request is a record of functions over the
    world [W]; the property is that the driver's wrappers then satisfy the
    [SectorIo] contract the sweep and the request path are verified against. *)

From S2P Require Import Prelude Types Sectors Nt.

(* src: lib/windrv/src/io.rs:35-42 IOCTL_DISK_*, FSCTL_ALLOW_EXTENDED_DASD_IO *)
Definition IOCTL_DISK_GET_DRIVE_GEOMETRY : Z := 0x00070000.
Definition IOCTL_DISK_GET_LENGTH_INFO : Z := 0x0007405C.
Definition IOCTL_DISK_GET_PARTITION_INFO_EX : Z := 0x00070048.
Definition FSCTL_ALLOW_EXTENDED_DASD_IO : Z := 0x00090083.
(* src: lib/windrv/src/io.rs:44-44 DISK_GEOMETRY_BYTES_PER_SECTOR_OFFSET *)
Definition DISK_GEOMETRY_BYTES_PER_SECTOR_OFFSET : nat := 20.

(** [IofCallDriver] on a request: the status it returns, the status of the I/O
    block once the request completed, and the caller's buffer afterwards. [None]:
    the request could not be built. *)
Definition DriverCall (W : Type) : Type := W -> W * option (Z * Z * bytes).

(** A device object: a METHOD_BUFFERED control request with no input, and READ and
    WRITE at a signed byte offset. *)
Record Device (W : Type) : Type := mkDevice {
  dev_ioctl : Z -> bytes -> DriverCall W;
  dev_read : Z -> bytes -> DriverCall W;
  dev_write : Z -> bytes -> DriverCall W;
}.
Arguments mkDevice {W}.
Arguments dev_ioctl {W}.
Arguments dev_read {W}.
Arguments dev_write {W}.

(** A file handle: the calls are synchronous, so there is one status. *)
Record FileHandle (W : Type) : Type := mkFileHandle {
  fh_ioctl : Z -> bytes -> W -> W * (Z * bytes);
  fh_fsctl : Z -> W -> W * Z;
  fh_read : Z -> bytes -> W -> W * (Z * bytes);
  fh_write : Z -> bytes -> W -> W * (Z * bytes);
}.
Arguments mkFileHandle {W}.
Arguments fh_ioctl {W}.
Arguments fh_fsctl {W}.
Arguments fh_read {W}.
Arguments fh_write {W}.

Section Io.
Context {W : Type}.
Abbreviation IM := (M VckError W).

(** Send a request and wait for it: a pended one ends with the status of its I/O
    block. *)
Definition call_driver (build_failed io_failed : string) (call : DriverCall W) : IM bytes :=
  fun w =>
    match call w with
    | (w, None) => (w, Err (Io build_failed))
    | (w, Some (status, iosb, buf)) =>
        let status := if status =? STATUS_PENDING then iosb else status in
        (w, if nt_success status then Ok buf else Err (Io io_failed))
    end.

(** ** [LowerDeviceIo] *)

(* src: lib/windrv/src/io.rs:412-416 LowerDeviceIo *)
Record LowerDeviceIo : Type := mkLowerDeviceIo {
  ld_device : Device W;
  ld_sector_size : Z;
  ld_total_sectors : Z;
}.

(* src: lib/windrv/src/io.rs:421-430 LowerDeviceIo::new *)
Definition LowerDeviceIo_new (d : Device W) (ss total : Z) : LowerDeviceIo := mkLowerDeviceIo d ss total.

(* src: lib/windrv/src/io.rs:437-477 LowerDeviceIo::device_ioctl *)
Definition ld_device_ioctl (l : LowerDeviceIo) (code : Z) (out : bytes) : IM bytes :=
  call_driver "IoBuildDeviceIoControlRequest(lower) failed" "lower device IOCTL failed"
    (dev_ioctl (ld_device l) code out).

(* src: lib/windrv/src/io.rs:479-497 LowerDeviceIo::query_geometry *)
Definition ld_query_geometry (l : LowerDeviceIo) : IM LowerDeviceIo :=
  geom ← ld_device_ioctl l IOCTL_DISK_GET_DRIVE_GEOMETRY (replicate 32 Byte.x00);
  let bps := le_decode (slice DISK_GEOMETRY_BYTES_PER_SECTOR_OFFSET 4 geom) in
  if bps =? 0 then mfail (Io "lower device reported zero sector size")
  else
    len ← ld_device_ioctl l IOCTL_DISK_GET_LENGTH_INFO (replicate 8 Byte.x00);
    let total_bytes := le_decode len in
    mret (mkLowerDeviceIo (ld_device l) bps (total_bytes / bps)).

(** [PARTITION_INFORMATION_EX]: the style at 0 and the GPT partition id at 48. *)
Definition gpt_partition_id (from_bytes_le : bytes -> Guid) (buf : bytes) : VckResult Guid :=
  let style := le_decode (slice 0 4 buf) in
  if negb (style =? 1) then Err (NotFound "device is not GPT-partitioned")
  else Ok (guid_from_windows_bytes from_bytes_le (slice 48 16 buf)).

(* src: lib/windrv/src/io.rs:499-513 LowerDeviceIo::read_gpt_partition_id *)
Definition ld_read_gpt_partition_id (from_bytes_le : bytes -> Guid) (l : LowerDeviceIo) : IM Guid :=
  buf ← ld_device_ioctl l IOCTL_DISK_GET_PARTITION_INFO_EX (replicate 144 Byte.x00);
  lift (gpt_partition_id from_bytes_le buf).

(** The checks before a request: no request for an empty buffer, the byte offset
    in 64 bits, the length in 32. *)
Definition run_checked (ss lba : Z) (buf : bytes) (k : Z -> IM bytes) : IM bytes :=
  if (length buf =? 0)%nat then mret buf
  else
    byte_offset ← lift (ok_or (checked 64 (lba * ss)) (Io "sector offset overflow"));
    _ ← lift (ok_or (checked 32 (Z.of_nat (length buf))) (Io "I/O length too large"));
    k (as_i64 byte_offset).

(* src: lib/windrv/src/io.rs:515-566 LowerDeviceIo::run_sync *)
Definition ld_run_sync (l : LowerDeviceIo) (is_write : bool) (lba : Z) (buf : bytes) : IM bytes :=
  run_checked (ld_sector_size l) lba buf (fun off =>
    call_driver "IoBuildSynchronousFsdRequest(lower) failed" "lower device I/O failed"
      ((if is_write then dev_write (ld_device l) else dev_read (ld_device l)) off buf)).

(** A read starts from the caller's buffer; its content before is not observed. *)
(* src: lib/windrv/src/io.rs:569-584 impl SectorIo for LowerDeviceIo *)
Definition LowerDevice_io (l : LowerDeviceIo) : SectorIo W := {|
  sector_size := ld_sector_size l;
  total_sectors := ld_total_sectors l;
  read_sectors lba n := ld_run_sync l false lba (replicate n Byte.x00);
  write_sectors lba buf := _ ← ld_run_sync l true lba buf; mret tt;
|}.

(** ** [KernelVolumeIo] *)

(* src: lib/windrv/src/io.rs:62-66 KernelVolumeIo *)
Record KernelVolumeIo : Type := mkKernelVolumeIo {
  kv_handle : FileHandle W;
  kv_sector_size : Z;
  kv_total_sectors : Z;
}.

(* src: lib/windrv/src/io.rs:223-240 KernelVolumeIo::allow_extended_dasd_io *)
Definition allow_extended_dasd_io (k : KernelVolumeIo) : IM unit := fun w =>
  (fst (fh_fsctl (kv_handle k) FSCTL_ALLOW_EXTENDED_DASD_IO w), Ok tt).

(* src: lib/windrv/src/io.rs:269-296 KernelVolumeIo::device_ioctl *)
Definition kv_device_ioctl (k : KernelVolumeIo) (code : Z) (out : bytes) : IM bytes := fun w =>
  let '(w, (status, out)) := fh_ioctl (kv_handle k) code out w in
  (w, if nt_success status then Ok out else Err (Io "volume geometry IOCTL failed")).

(* src: lib/windrv/src/io.rs:242-266 KernelVolumeIo::query_geometry *)
Definition kv_query_geometry (k : KernelVolumeIo) : IM KernelVolumeIo :=
  geom ← kv_device_ioctl k IOCTL_DISK_GET_DRIVE_GEOMETRY (replicate 32 Byte.x00);
  let bytes_per_sector := le_decode (slice DISK_GEOMETRY_BYTES_PER_SECTOR_OFFSET 4 geom) in
  if bytes_per_sector =? 0 then mfail (Io "volume reported zero sector size")
  else
    len ← kv_device_ioctl k IOCTL_DISK_GET_LENGTH_INFO (replicate 8 Byte.x00);
    let total_bytes := le_decode len in
    mret (mkKernelVolumeIo (kv_handle k) bytes_per_sector (total_bytes / bytes_per_sector)).

(** [zw_create_file] is [ZwCreateFile] on the path. *)
(* src: lib/windrv/src/io.rs:76-122 KernelVolumeIo::open *)
Definition kv_open (zw_create_file : string -> W -> W * option (FileHandle W)) (volume_id : VolumeId)
    (ss total : Z) : IM KernelVolumeIo := fun w =>
  match zw_create_file (vi_device_path volume_id) w with
  | (w, None) => (w, Err (Io "ZwCreateFile failed"))
  | (w, Some h) =>
      let me := mkKernelVolumeIo h ss total in
      (_ ← allow_extended_dasd_io me; mret me) w
  end.

(* src: lib/windrv/src/io.rs:124-130 KernelVolumeIo::open_query *)
Definition kv_open_query (zw_create_file : string -> W -> W * option (FileHandle W))
    (volume_id : VolumeId) : IM KernelVolumeIo :=
  me ← kv_open zw_create_file volume_id 0 0;
  kv_query_geometry me.

(* src: lib/windrv/src/io.rs:132-144 KernelVolumeIo::from_handle_query *)
Definition kv_from_handle_query (handle : FileHandle W) : IM KernelVolumeIo :=
  let me := mkKernelVolumeIo handle 0 0 in
  _ ← allow_extended_dasd_io me;
  kv_query_geometry me.

(* src: lib/windrv/src/io.rs:153-182 KernelVolumeIo::from_device_object *)
Definition kv_from_device_object (ob_open : W -> W * option (FileHandle W)) (ss total : Z) :
    IM KernelVolumeIo := fun w =>
  match ob_open w with
  | (w, None) => (w, Err (Io "ObOpenObjectByPointer(lower) failed"))
  | (w, Some h) => (w, Ok (mkKernelVolumeIo h ss total))
  end.

(* src: lib/windrv/src/io.rs:188-192 KernelVolumeIo::from_device_object_query *)
Definition kv_from_device_object_query (ob_open : W -> W * option (FileHandle W)) :
    IM KernelVolumeIo :=
  me ← kv_from_device_object ob_open 0 0;
  kv_query_geometry me.

(* src: lib/windrv/src/io.rs:202-221 KernelVolumeIo::read_gpt_partition_id *)
Definition kv_read_gpt_partition_id (from_bytes_le : bytes -> Guid) (k : KernelVolumeIo) : IM Guid :=
  buf ← kv_device_ioctl k IOCTL_DISK_GET_PARTITION_INFO_EX (replicate 144 Byte.x00);
  lift (gpt_partition_id from_bytes_le buf).

(* src: lib/windrv/src/io.rs:298-353 KernelVolumeIo::run_sync *)
Definition kv_run_sync (k : KernelVolumeIo) (is_write : bool) (lba : Z) (buf : bytes) : IM bytes :=
  run_checked (kv_sector_size k) lba buf (fun off w =>
    let '(w, (status, buf)) :=
      (if is_write then fh_write (kv_handle k) else fh_read (kv_handle k)) off buf w in
    (w, if nt_success status then Ok buf else Err (Io "volume I/O failed"))).

(* src: lib/windrv/src/io.rs:366-384 impl SectorIo for KernelVolumeIo *)
Definition KernelVolume_io (k : KernelVolumeIo) : SectorIo W := {|
  sector_size := kv_sector_size k;
  total_sectors := kv_total_sectors k;
  read_sectors lba n := kv_run_sync k false lba (replicate n Byte.x00);
  write_sectors lba buf := _ ← kv_run_sync k true lba buf; mret tt;
|}.

(** ** [OffsetSectorIo] *)

(* src: lib/windrv/src/io.rs:631-662 OffsetSectorIo, impl SectorIo for OffsetSectorIo *)
Definition OffsetSectorIo (inner : SectorIo W) (partition_start_lba : Z) : SectorIo W := {|
  sector_size := sector_size inner;
  total_sectors := total_sectors inner;
  read_sectors lba n := read_sectors inner (u64_add partition_start_lba lba) n;
  write_sectors lba buf := write_sectors inner (u64_add partition_start_lba lba) buf;
|}.
End Io.
Arguments LowerDeviceIo W : clear implicits.
Arguments KernelVolumeIo W : clear implicits.

(** ** The contract *)

(** Requests the kernel is asked for: [rd] and [wr] at a byte offset, [Err] when
    the request could not be built or ended with a failure status. A completed
    read filled the buffer with the sectors, a completed write stored them; a
    failed write leaves the sectors outside its range alone. *)
Class RequestLaws {W} (rd wr : Z -> bytes -> M VckError W bytes) (ss size : Z)
    (inv : W -> Prop) (view : W -> Z -> bytes) : Prop := {
  rq_ss : 0 < ss < 2 ^ 32;
  rq_size : 0 <= size /\ size * ss <= 2 ^ 63;
  rq_len w i : inv w -> 0 <= i < size -> length (view w i) = Z.to_nat ss;
  rq_read w lba k buf w' r :
    inv w -> 0 <= lba -> lba + Z.of_nat k <= size -> (0 < k)%nat ->
    length buf = (k * Z.to_nat ss)%nat -> rd (lba * ss) buf w = (w', r) ->
    inv w' /\ (forall i, 0 <= i < size -> view w' i = view w i) /\
    match r with Ok b => b = concat (read_run (view w) lba k) | Err _ => True | Panic => False end;
  rq_write w lba ls w' r :
    inv w -> 0 <= lba -> lba + Z.of_nat (length ls) <= size -> (0 < length ls)%nat ->
    sectors_of (Z.to_nat ss) ls -> wr (lba * ss) (concat ls) w = (w', r) ->
    inv w' /\
    match r with
    | Ok _ => forall i, 0 <= i < size -> view w' i = write_run (view w) lba ls i
    | Err _ => forall i, 0 <= i < size -> i < lba \/ lba + Z.of_nat (length ls) <= i ->
        view w' i = view w i
    | Panic => False
    end;
}.

(** Requests of less than 4 GiB inside the volume that all succeed. *)
Class RequestReliable {W} (rd wr : Z -> bytes -> M VckError W bytes) (ss size : Z)
    (inv : W -> Prop) : Prop := {
  rq_read_ok w lba k buf :
    inv w -> 0 <= lba -> lba + Z.of_nat k <= size -> (0 < k)%nat ->
    length buf = (k * Z.to_nat ss)%nat -> Z.of_nat (length buf) < 2 ^ 32 ->
    is_ok (rd (lba * ss) buf w).2 = true;
  rq_write_ok w lba ls :
    inv w -> 0 <= lba -> lba + Z.of_nat (length ls) <= size -> (0 < length ls)%nat ->
    sectors_of (Z.to_nat ss) ls -> Z.of_nat (length (concat ls)) < 2 ^ 32 ->
    is_ok (wr (lba * ss) (concat ls) w).2 = true;
}.

(** The same for the first [n] sectors. *)
Lemma request_laws_prefix {W} (rd wr : Z -> bytes -> M VckError W bytes) ss size inv view n :
  RequestLaws rd wr ss size inv view -> 0 <= n <= size -> RequestLaws rd wr ss n inv view.
Proof.
  intros H Hn. pose proof (rq_ss (ss:=ss)) as Hss. pose proof (rq_size (ss:=ss)) as [Hz Hm].
  constructor; [done|nia| | |].
  - intros w i Hi Hr. apply (rq_len (RequestLaws:=H)); [done|lia].
  - intros w lba k buf w' r Hi H0 Hk Hk0 Hb Hr.
    destruct (rq_read (RequestLaws:=H) w lba k buf w' r Hi H0 ltac:(lia) Hk0 Hb Hr) as (Hi' & Hv & Hd).
    split_and!; [done| |done]. intros i Hx. apply Hv. lia.
  - intros w lba ls w' r Hi H0 Hk Hk0 Hs Hr.
    destruct (rq_write (RequestLaws:=H) w lba ls w' r Hi H0 ltac:(lia) Hk0 Hs Hr) as (Hi' & Hd).
    split; [done|]. destruct r; [| |done]; intros; apply Hd; lia.
Qed.

Lemma request_reliable_prefix {W} (rd wr : Z -> bytes -> M VckError W bytes) ss size inv n :
  RequestReliable rd wr ss size inv -> 0 <= n <= size -> RequestReliable rd wr ss n inv.
Proof.
  intros [Hr Hw] Hn. constructor; intros.
  - eapply Hr; try done. lia.
  - eapply Hw; try done. lia.
Qed.

Section Contract.
Context {W : Type} (rd wr : Z -> bytes -> M VckError W bytes) (ss size : Z)
  (inv : W -> Prop) (view : W -> Z -> bytes).
Context `{!RequestLaws rd wr ss size inv view}.

(** The device the driver builds on such requests, with the size it was given. *)
Definition request_io (told : Z) : SectorIo W := {|
  sector_size := ss;
  total_sectors := told;
  read_sectors lba n :=
    run_checked ss lba (replicate n Byte.x00) (fun off => rd off (replicate n Byte.x00));
  write_sectors lba buf := _ ← run_checked ss lba buf (fun off => wr off buf); mret tt;
|}.

(** What the checks of a request inside the volume let through. *)
Lemma run_checked_cases lba k buf (f : Z -> bytes -> M VckError W bytes) w :
  0 <= lba -> lba + Z.of_nat k <= size -> length buf = (k * Z.to_nat ss)%nat ->
  (k = 0%nat /\ run_checked ss lba buf (fun off => f off buf) w = (w, Ok [])) \/
  (0 < k)%nat /\
    ((2 ^ 32 <= Z.of_nat (length buf) /\
      run_checked ss lba buf (fun off => f off buf) w = (w, Err (Io "I/O length too large"))) \/
     Z.of_nat (length buf) < 2 ^ 32 /\
      run_checked ss lba buf (fun off => f off buf) w = f (lba * ss) buf w).
Proof using All.
  intros H0 Hk Hb. pose proof (rq_ss (ss:=ss)) as Hss. pose proof (rq_size (ss:=ss)) as [Hz Hm].
  unfold run_checked. destruct (Nat.eqb_spec (length buf) 0) as [He|He].
  { left. assert (k = 0%nat) as -> by nia. destruct buf; done. }
  right. assert (0 < k)%nat as Hk0 by (destruct k; [cbn in Hb; lia|lia]). split; [done|].
  assert (lba * ss < 2 ^ 63) as Hlt by nia.
  rewrite mbind_run. unfold lift at 1.
  rewrite (proj2 (checked_some 64 (lba * ss) _)) by (split; [done|unfold in_u; nia]).
  cbn [ok_or]. rewrite mbind_run. unfold lift.
  destruct (Z.lt_ge_cases (Z.of_nat (length buf)) (2 ^ 32)).
  - right. split; [done|]. rewrite (proj2 (checked_some 32 _ _)) by (split; [done|unfold in_u; lia]).
    cbn [ok_or]. unfold as_i64. rewrite wrap_id by (unfold in_u; nia).
    rewrite (proj2 (Z.ltb_lt _ _)) by done. done.
  - left. split; [done|]. rewrite (proj2 (checked_none 32 _)) by (unfold in_u; lia). done.
Qed.

#[local] Instance request_io_laws told : SectorIoUpto size (request_io told) inv view.
Proof using RequestLaws0.
  pose proof (rq_ss (ss:=ss)) as Hss. pose proof (rq_size (ss:=ss)) as [Hz Hm].
  constructor; cbn [sector_size total_sectors request_io read_sectors write_sectors].
  - done.
  - nia.
  - apply rq_len.
  - intros w lba k w' r Hi H0 Hk Hr.
    set (buf := replicate (k * Z.to_nat ss) Byte.x00) in Hr.
    assert (length buf = (k * Z.to_nat ss)%nat) as Hb by apply length_replicate.
    destruct (run_checked_cases lba k buf rd w H0 Hk Hb)
      as [[-> Hc]|(Hk0 & [[_ Hc]|[_ Hc]])]; rewrite Hc in Hr; simplify_eq; try done.
    apply (rq_read w lba k buf w' r Hi H0 Hk Hk0 Hb Hr).
  - intros w lba ls w' r Hi H0 Hl Hs Hr.
    pose proof (length_concat_sectors _ _ Hs) as Hb. rewrite mbind_run in Hr.
    destruct (run_checked_cases lba (length ls) (concat ls) wr w H0 Hl Hb)
      as [[Hn Hc]|(Hk0 & [[_ Hc]|[_ Hc]])]; rewrite Hc in Hr; simplify_eq; try done.
    + unfold mret, M_ret in Hr. simplify_eq. split; [done|]. intros i Hx. apply nil_length_inv in Hn as ->.
      rewrite write_run_out by (cbn; lia). done.
    + destruct (wr _ _ w) as [w1 r1] eqn:E.
      destruct (rq_write w lba ls w1 r1 Hi H0 Hl Hk0 Hs E) as [Hi1 Hd].
      destruct r1; unfold mret, M_ret in Hr; simplify_eq; done.
Qed.

#[local] Instance request_io_reliable {HR : RequestReliable rd wr ss size inv} told :
  SectorIoReliableUpto size (request_io told) inv.
Proof using RequestLaws0.
  pose proof (rq_ss (ss:=ss)) as Hss.
  constructor; cbn [sector_size total_sectors request_io read_sectors write_sectors].
  - intros w lba k Hi H0 Hk Hsm.
    set (buf := replicate (k * Z.to_nat ss) Byte.x00).
    assert (length buf = (k * Z.to_nat ss)%nat) as Hb by apply length_replicate.
    destruct (run_checked_cases lba k buf rd w H0 Hk Hb)
      as [[-> Hc]|(Hk0 & [[Hbig _]|[_ Hc]])]; rewrite ?Hc; [done|nia|].
    apply (rq_read_ok w lba k buf Hi H0 Hk Hk0 Hb). nia.
  - intros w lba ls Hi H0 Hl Hsm Hs.
    pose proof (length_concat_sectors _ _ Hs) as Hb. rewrite mbind_run.
    destruct (run_checked_cases lba (length ls) (concat ls) wr w H0 Hl Hb)
      as [[Hn Hc]|(Hk0 & [[Hbig _]|[_ Hc]])]; rewrite ?Hc; [done|nia|].
    pose proof (rq_write_ok w lba ls Hi H0 Hl Hk0 Hs ltac:(nia)) as Hok.
    destruct (wr _ _ w) as [w1 [b| |]]; done.
Qed.
End Contract.

(** ** A device that is a disk *)

(** What the kernel documents for a working disk device: a READ or WRITE inside
    the disk either cannot be built or runs; its final status tells whether it
    transferred. *)
Definition device_request {W} (build io : string) (f : Z -> bytes -> DriverCall W) :
    Z -> bytes -> M VckError W bytes := fun off buf => call_driver build io (f off buf).
Definition handle_request {W} (f : Z -> bytes -> W -> W * (Z * bytes)) :
    Z -> bytes -> M VckError W bytes := fun off buf w =>
  let '(w, (status, buf)) := f off buf w in
  (w, if nt_success status then Ok buf else Err (Io "volume I/O failed")).

(** [pending] tells for each request whether the driver pends it first. *)
Definition disk_device {W} (io : SectorIo W) (pending : Z -> bool) : Device W := {|
  dev_ioctl _code out w := (w, Some (as_i32 0xC0000010, 0, out));
  dev_read off buf w :=
    match read_sectors io (off / sector_size io) (length buf) w with
    | (w, Ok b) => (w, Some (if pending off then (STATUS_PENDING, 0, b) else (0, 0, b)))
    | (w, _) => (w, Some (if pending off then (STATUS_PENDING, STATUS_UNSUCCESSFUL, buf)
                          else (STATUS_UNSUCCESSFUL, 0, buf)))
    end;
  dev_write off buf w :=
    match write_sectors io (off / sector_size io) buf w with
    | (w, Ok _) => (w, Some (if pending off then (STATUS_PENDING, 0, buf) else (0, 0, buf)))
    | (w, _) => (w, Some (if pending off then (STATUS_PENDING, STATUS_UNSUCCESSFUL, buf)
                          else (STATUS_UNSUCCESSFUL, 0, buf)))
    end;
|}.

Lemma disk_device_laws {W} (io : SectorIo W) pending inv view b f b' f' :
  SectorIoLaws io inv view -> total_sectors io * sector_size io <= 2 ^ 63 ->
  RequestLaws (device_request b f (dev_read (disk_device io pending)))
    (device_request b' f' (dev_write (disk_device io pending)))
    (sector_size io) (total_sectors io) inv view.
Proof.
  intros Hio Hm. pose proof (io_ss (io:=io)) as Hss. pose proof (io_total (io:=io)) as Ht.
  constructor; [done|lia|apply io_len| |].
  - intros w lba k buf w' r Hi H0 Hk Hk0 Hb Hr.
    unfold device_request, call_driver, disk_device in Hr. cbn [dev_read] in Hr.
    rewrite Z.div_mul, Hb in Hr by lia.
    destruct (read_sectors io lba _ w) as [w1 r1] eqn:E.
    destruct (io_read w lba k w1 r1 Hi H0 Hk E) as (Hi1 & Hv & Hd).
    destruct r1, (pending _); cbn in Hr; simplify_eq; done.
  - intros w lba ls w' r Hi H0 Hl Hk0 Hs Hr.
    unfold device_request, call_driver, disk_device in Hr. cbn [dev_write] in Hr.
    rewrite Z.div_mul in Hr by lia.
    destruct (write_sectors io lba _ w) as [w1 r1] eqn:E.
    destruct (io_write w lba ls w1 r1 Hi H0 Hl Hs E) as (Hi1 & Hd).
    destruct r1, (pending _); cbn in Hr; simplify_eq; done.
Qed.

Lemma disk_device_reliable {W} (io : SectorIo W) pending inv view b f b' f' :
  SectorIoLaws io inv view -> SectorIoReliable io inv ->
  RequestReliable (device_request b f (dev_read (disk_device io pending)))
    (device_request b' f' (dev_write (disk_device io pending)))
    (sector_size io) (total_sectors io) inv.
Proof.
  intros Hio Hr. pose proof (io_ss (io:=io)) as Hss. constructor.
  - intros w lba k buf Hi H0 Hk Hk0 Hb Hsm.
    unfold device_request, call_driver, disk_device. cbn [dev_read]. rewrite Z.div_mul, Hb by lia.
    pose proof (io_read_ok (io:=io) w lba k Hi H0 Hk ltac:(nia)) as Hok.
    destruct (read_sectors io lba _ w) as [w1 [| |]], (pending _); done.
  - intros w lba ls Hi H0 Hl Hl0 Hs Hsm. pose proof (length_concat_sectors _ _ Hs) as Hb.
    unfold device_request, call_driver, disk_device. cbn [dev_write]. rewrite Z.div_mul by lia.
    pose proof (io_write_ok (io:=io) w lba ls Hi H0 Hl ltac:(nia) Hs) as Hok.
    destruct (write_sectors io lba _ w) as [w1 [| |]], (pending _); done.
Qed.

(** A file handle that is a disk. *)
Definition disk_handle {W} (io : SectorIo W) (ioctl : Z -> bytes -> bytes) : FileHandle W := {|
  fh_ioctl code out w := (w, (0, ioctl code out));
  fh_fsctl _ w := (w, 0);
  fh_read off buf w :=
    match read_sectors io (off / sector_size io) (length buf) w with
    | (w, Ok b) => (w, (0, b))
    | (w, _) => (w, (STATUS_UNSUCCESSFUL, buf))
    end;
  fh_write off buf w :=
    match write_sectors io (off / sector_size io) buf w with
    | (w, Ok _) => (w, (0, buf))
    | (w, _) => (w, (STATUS_UNSUCCESSFUL, buf))
    end;
|}.

Lemma disk_handle_laws {W} (io : SectorIo W) ioctl inv view :
  SectorIoLaws io inv view -> total_sectors io * sector_size io <= 2 ^ 63 ->
  RequestLaws (handle_request (fh_read (disk_handle io ioctl)))
    (handle_request (fh_write (disk_handle io ioctl))) (sector_size io) (total_sectors io) inv view.
Proof.
  intros Hio Hm. pose proof (io_ss (io:=io)) as Hss. pose proof (io_total (io:=io)) as Ht.
  constructor; [done|lia|apply io_len| |].
  - intros w lba k buf w' r Hi H0 Hk Hk0 Hb Hr. unfold handle_request, disk_handle, fh_read in Hr.
    rewrite Z.div_mul, Hb in Hr by lia.
    destruct (read_sectors io lba _ w) as [w1 r1] eqn:E.
    destruct (io_read w lba k w1 r1 Hi H0 Hk E) as (Hi1 & Hv & Hd).
    destruct r1; cbn in Hr; simplify_eq; done.
  - intros w lba ls w' r Hi H0 Hl Hk0 Hs Hr. unfold handle_request, disk_handle, fh_write in Hr.
    rewrite Z.div_mul in Hr by lia.
    destruct (write_sectors io lba _ w) as [w1 r1] eqn:E.
    destruct (io_write w lba ls w1 r1 Hi H0 Hl Hs E) as (Hi1 & Hd).
    destruct r1; cbn in Hr; simplify_eq; done.
Qed.

Lemma disk_handle_reliable {W} (io : SectorIo W) ioctl inv view :
  SectorIoLaws io inv view -> SectorIoReliable io inv ->
  RequestReliable (handle_request (fh_read (disk_handle io ioctl)))
    (handle_request (fh_write (disk_handle io ioctl))) (sector_size io) (total_sectors io) inv.
Proof.
  intros Hio Hr. pose proof (io_ss (io:=io)) as Hss. constructor.
  - intros w lba k buf Hi H0 Hk Hk0 Hb Hsm. unfold handle_request, disk_handle, fh_read.
    rewrite Z.div_mul, Hb by lia.
    pose proof (io_read_ok (io:=io) w lba k Hi H0 Hk ltac:(nia)) as Hok.
    destruct (read_sectors io lba _ w) as [w1 [| |]]; done.
  - intros w lba ls Hi H0 Hl Hl0 Hs Hsm. pose proof (length_concat_sectors _ _ Hs) as Hb.
    unfold handle_request, disk_handle, fh_write. rewrite Z.div_mul by lia.
    pose proof (io_write_ok (io:=io) w lba ls Hi H0 Hl ltac:(nia) Hs) as Hok.
    destruct (write_sectors io lba _ w) as [w1 [| |]]; done.
Qed.

(** The driver's devices over such requests. *)
Abbreviation lower_reads l :=
  (device_request "IoBuildSynchronousFsdRequest(lower) failed" "lower device I/O failed"
     (dev_read (ld_device l))).
Abbreviation lower_writes l :=
  (device_request "IoBuildSynchronousFsdRequest(lower) failed" "lower device I/O failed"
     (dev_write (ld_device l))).

Lemma lower_laws {W} (l : LowerDeviceIo W) n inv view :
  RequestLaws (lower_reads l) (lower_writes l) (ld_sector_size l) n inv view ->
  SectorIoUpto n (LowerDevice_io l) inv view.
Proof. intros H. exact (request_io_laws _ _ _ n inv view _). Qed.

Lemma lower_reliable {W} (l : LowerDeviceIo W) n inv view :
  RequestLaws (lower_reads l) (lower_writes l) (ld_sector_size l) n inv view ->
  RequestReliable (lower_reads l) (lower_writes l) (ld_sector_size l) n inv ->
  SectorIoReliableUpto n (LowerDevice_io l) inv.
Proof. intros H HR. exact (request_io_reliable _ _ _ n inv view _). Qed.

Lemma handle_laws {W} (k : KernelVolumeIo W) n inv view :
  RequestLaws (handle_request (fh_read (kv_handle k))) (handle_request (fh_write (kv_handle k)))
    (kv_sector_size k) n inv view ->
  SectorIoUpto n (KernelVolume_io k) inv view.
Proof. intros H. exact (request_io_laws _ _ _ n inv view _). Qed.

Lemma handle_reliable {W} (k : KernelVolumeIo W) n inv view :
  RequestLaws (handle_request (fh_read (kv_handle k))) (handle_request (fh_write (kv_handle k)))
    (kv_sector_size k) n inv view ->
  RequestReliable (handle_request (fh_read (kv_handle k))) (handle_request (fh_write (kv_handle k)))
    (kv_sector_size k) n inv ->
  SectorIoReliableUpto n (KernelVolume_io k) inv.
Proof. intros H HR. exact (request_io_reliable _ _ _ n inv view _). Qed.

(** A device seen from sector [start] on. *)
Lemma offset_laws {W} (io : SectorIo W) inv view m start n :
  SectorIoUpto m io inv view -> 0 <= start -> 0 <= n -> start + n <= m ->
  SectorIoUpto n (OffsetSectorIo io start) inv (fun w i => view w (start + i)).
Proof.
  intros HL H0 Hn Hs. pose proof (io_ss (io:=io)) as Hss. pose proof (io_total (io:=io)) as Ht.
  constructor; cbn [sector_size OffsetSectorIo]; [done|lia| | |].
  - intros w i Hi Hx. apply (io_len (n:=m) (io:=io)); [done|lia].
  - intros w lba j w' r Hi H1 H2 Hr. cbn in Hr. rewrite u64_add_id in Hr by lia.
    destruct (io_read (n:=m) w (start + lba) j w' r Hi ltac:(lia) ltac:(lia) Hr) as (Hi' & Hv & Hd).
    split; [done|]. split; [intros; apply Hv; lia|].
    destruct r; [|done..]. rewrite Hd. f_equal. symmetry. apply read_run_shift.
  - intros w lba ls w' r Hi H1 H2 Hsec Hr. cbn in Hr. rewrite u64_add_id in Hr by lia.
    destruct (io_write (n:=m) w (start + lba) ls w' r Hi ltac:(lia) ltac:(lia) Hsec Hr) as (Hi' & Hd).
    split; [done|]. destruct r; [|intros i Hx Ho; apply Hd; lia|done].
    intros i Hx. rewrite Hd by lia. destruct (decide (lba <= i < lba + Z.of_nat (length ls))).
    + rewrite !write_run_in by lia. f_equal. lia.
    + rewrite !write_run_out by lia. done.
Qed.

Lemma offset_reliable {W} (io : SectorIo W) inv m start n :
  SectorIoReliableUpto m io inv -> 0 <= start -> start + n <= m < 2 ^ 64 ->
  SectorIoReliableUpto n (OffsetSectorIo io start) inv.
Proof.
  intros HR H0 Hm. constructor; cbn [sector_size OffsetSectorIo read_sectors write_sectors];
    intros; rewrite u64_add_id by lia; [apply (io_read_ok (n:=m))|apply (io_write_ok (n:=m))];
    done || lia.
Qed.

(** ** Properties *)

(** C30: the driver's sector devices keep the contract. Over a kernel whose READ
    and WRITE requests do what a disk's do, whether completed at once or pended,
    [LowerDeviceIo] and [KernelVolumeIo] satisfy everything the sweep, the
    request path and the metadata store assume of a [SectorIo]: whole sectors at
    the right place, errors that touch nothing outside the request, no panic, and
    success whenever the kernel's requests of less than 4 GiB succeed; and
    [OffsetSectorIo] over such a device is the device shifted by its start. All that
    counts is how far the requests reach, not the size a device was made with. *)
Theorem sector_devices_meet_contract {W} (l : LowerDeviceIo W) (k : KernelVolumeIo W)
    (inv : W -> Prop) view m1 m2 start n :
  RequestLaws (lower_reads l) (lower_writes l) (ld_sector_size l) m1 inv view ->
  RequestLaws (handle_request (fh_read (kv_handle k))) (handle_request (fh_write (kv_handle k)))
    (kv_sector_size k) m2 inv view ->
  0 <= start -> 0 <= n -> start + n <= m1 ->
  (SectorIoUpto m1 (LowerDevice_io l) inv view /\
   (RequestReliable (lower_reads l) (lower_writes l) (ld_sector_size l) m1 inv ->
    SectorIoReliableUpto m1 (LowerDevice_io l) inv)) /\
  (SectorIoUpto m2 (KernelVolume_io k) inv view /\
   (RequestReliable (handle_request (fh_read (kv_handle k))) (handle_request (fh_write (kv_handle k)))
      (kv_sector_size k) m2 inv ->
    SectorIoReliableUpto m2 (KernelVolume_io k) inv)) /\
  SectorIoUpto n (OffsetSectorIo (LowerDevice_io l) start) inv (fun w i => view w (start + i)).
Proof.
  intros Hl Hk H0 Hn Hs. pose proof (lower_laws l m1 inv view Hl) as HL.
  split; [split; [done|apply (lower_reliable l m1 inv view); done]|].
  split; [split; [apply handle_laws|apply (handle_reliable k m2 inv view)]; done|].
  apply offset_laws with m1; done.
Qed.

(** The small disk behind a device that pends every other request, and behind a
    handle. *)
Module IoDemo.
Definition pending (off : Z) : bool := Z.odd (off / 2).
Definition device : Device MemVolume := disk_device (MemVolume_io 2 12) pending.
Definition handle : FileHandle MemVolume := disk_handle (MemVolume_io 2 12) (fun _ out => out).

Lemma mem : SectorIoLaws (MemVolume_io 2 12) (mem_inv 12) (mem_view 2).
Proof. apply (mem_laws 2 12); lia. Qed.

Lemma mem_works : SectorIoReliable (MemVolume_io 2 12) (mem_inv 12).
Proof. apply (mem_reliable 2 12); lia. Qed.

Lemma handle_is_disk :
  RequestLaws (handle_request (fh_read handle)) (handle_request (fh_write handle)) 2 6
    (mem_inv 12) (mem_view 2).
Proof. exact (disk_handle_laws (MemVolume_io 2 12) _ _ _ mem ltac:(discriminate)). Qed.
End IoDemo.

Lemma sector_devices_meet_contract_witness :
  let l := LowerDeviceIo_new IoDemo.device 2 6 in
  let k := mkKernelVolumeIo IoDemo.handle 2 6 in
  SectorIoLaws (LowerDevice_io l) (mem_inv 12) (mem_view 2) /\
  SectorIoReliable (LowerDevice_io l) (mem_inv 12) /\
  SectorIoLaws (KernelVolume_io k) (mem_inv 12) (mem_view 2) /\
  SectorIoUpto 4 (OffsetSectorIo (LowerDevice_io l) 1) (mem_inv 12) (fun w i => mem_view 2 w (1 + i)).
Proof.
  destruct (sector_devices_meet_contract (LowerDeviceIo_new IoDemo.device 2 6)
    (mkKernelVolumeIo IoDemo.handle 2 6) (mem_inv 12) (mem_view 2) 6 6 1 4
    (disk_device_laws (MemVolume_io 2 12) IoDemo.pending _ _ _ _ _ _ IoDemo.mem ltac:(discriminate))
    IoDemo.handle_is_disk ltac:(lia) ltac:(lia) ltac:(cbn; lia)) as ([H1 H2] & [H3 _] & H4).
  split; [exact H1|]. split; [|split; [exact H3|exact H4]]. apply H2.
  exact (disk_device_reliable (MemVolume_io 2 12) IoDemo.pending _ _ _ _ _ _ IoDemo.mem
    IoDemo.mem_works).
Defined.
