(* ===== verification/Config.v ===== *)
(** * The loader's configuration file ([sample/common/src/config.rs])

    The flat JSON scanner, the base64 decoder and [VckConfig::parse_json]. A
    [&str] or [String] is its UTF-8 bytes. Indexed loops carry fuel; the length
    of the text bounds every one of them, and running out is [Panic], which is
    proved not to happen. *)

From S2P Require Import Prelude Types.

Definition lit (s : string) : bytes := bytes_of_string s.

(** ** UTF-8 *)

(** [char::encode_utf8] of a code point. *)
Definition encode_utf8 (cp : Z) : bytes :=
  if cp <? 0x80 then [byte_of cp]
  else if cp <? 0x800 then [byte_of (0xC0 + cp / 64); byte_of (0x80 + cp mod 64)]
  else if cp <? 0x10000 then
    [byte_of (0xE0 + cp / 4096); byte_of (0x80 + (cp / 64) mod 64); byte_of (0x80 + cp mod 64)]
  else
    [byte_of (0xF0 + cp / 262144); byte_of (0x80 + (cp / 4096) mod 64);
     byte_of (0x80 + (cp / 64) mod 64); byte_of (0x80 + cp mod 64)].

Definition in_range (lo hi : Z) (b : byte) : bool := (lo <=? byte_val b) && (byte_val b <=? hi).
Definition is_cont (b : byte) : bool := in_range 0x80 0xBF b.

(** [core::str::from_utf8] succeeds: well-formed UTF-8, without overlong forms,
    surrogates or code points past U+10FFFF. *)
Fixpoint utf8_fuel (fuel : nat) (l : bytes) : bool :=
  match fuel with
  | O => match l with [] => true | _ => false end
  | S fuel =>
      match l with
      | [] => true
      | a :: l =>
          if in_range 0 0x7F a then utf8_fuel fuel l
          else if in_range 0xC2 0xDF a then
            match l with b :: l => is_cont b && utf8_fuel fuel l | _ => false end
          else if in_range 0xE0 0xEF a then
            match l with
            | b :: c :: l =>
                (if byte_val a =? 0xE0 then in_range 0xA0 0xBF b
                 else if byte_val a =? 0xED then in_range 0x80 0x9F b else is_cont b)
                && is_cont c && utf8_fuel fuel l
            | _ => false
            end
          else if in_range 0xF0 0xF4 a then
            match l with
            | b :: c :: d :: l =>
                (if byte_val a =? 0xF0 then in_range 0x90 0xBF b
                 else if byte_val a =? 0xF4 then in_range 0x80 0x8F b else is_cont b)
                && is_cont c && is_cont d && utf8_fuel fuel l
            | _ => false
            end
          else false
      end
  end.

Definition is_utf8 (l : bytes) : bool := utf8_fuel (length l) l.

(** ** The scanner *)

(** [b'x'] of a one-character string. *)
Definition chr (s : string) : byte := match lit s with b :: _ => b | [] => Byte.x00 end.
Definition QUOTE : byte := Byte.x22.
Definition BACKSLASH : byte := Byte.x5c.

Definition is_ws (c : byte) : bool :=
  bool_decide (c = Byte.x20) || bool_decide (c = Byte.x09) || bool_decide (c = Byte.x0d)
  || bool_decide (c = Byte.x0a).

Fixpoint skip_ws_fuel (fuel : nat) (b : bytes) (i : nat) : nat :=
  match fuel with
  | O => i
  | S fuel =>
      match b !! i with
      | Some c => if is_ws c then skip_ws_fuel fuel b (S i) else i
      | None => i
      end
  end.

(* src: sample/common/src/config.rs:197-206 skip_ws *)
Definition skip_ws (b : bytes) (i : nat) : nat := skip_ws_fuel (length b) b i.

(** [char::to_digit(16)]. *)
Definition hex_digit (b : byte) : option Z :=
  if in_range 48 57 b then Some (byte_val b - 48)
  else if in_range 97 102 b then Some (byte_val b - 87)
  else if in_range 65 70 b then Some (byte_val b - 55)
  else None.

Fixpoint hex_value (cp : Z) (hex : bytes) : option Z :=
  match hex with
  | [] => Some cp
  | h :: hex => d ← hex_digit h; hex_value (wrap 32 (cp * 16 + d)) hex
  end.

(** [char::from_u32] of a 16-bit value. *)
Definition from_u32 (cp : Z) : option Z :=
  if (0xD800 <=? cp) && (cp <=? 0xDFFF) then None else Some cp.

Definition bad (msg : string) : VckError := InvalidData ("vck.json: " +:+ msg).

(** What a simple escape stands for. *)
Definition simple_escape (e : byte) : option byte :=
  match e with
  | Byte.x22 => Some Byte.x22
  | Byte.x5c => Some Byte.x5c
  | Byte.x2f => Some Byte.x2f
  | Byte.x6e => Some Byte.x0a
  | Byte.x72 => Some Byte.x0d
  | Byte.x74 => Some Byte.x09
  | Byte.x62 => Some Byte.x08
  | Byte.x66 => Some Byte.x0c
  | _ => None
  end.

(** The escape whose letter is at [i]: what it appends, and the index of its
    last byte. *)
Definition parse_escape (b : bytes) (i : nat) : VckResult (bytes * nat) :=
  match b !! i with
  | None => Err (bad "bad escape")
  | Some e =>
      match simple_escape e with
      | Some c => Ok ([c], i)
      | None =>
          if bool_decide (e = Byte.x75) then
            (* [bytes.get(i + 1..i + 5)] *)
            if (i + 5 <=? length b)%nat then
              cp ← ok_or (hex_value 0 (slice (i + 1) 4 b)) (bad "bad \u escape");
              c ← ok_or (from_u32 cp) (bad "bad code point");
              Ok (encode_utf8 c, (i + 4)%nat)
            else Err (bad "truncated \u escape")
          else Err (bad "bad escape")
      end
  end.

(** The loop of [parse_string] from index [i]. [c as char] is the code point
    with the byte's value. *)
Fixpoint parse_chars (fuel : nat) (b : bytes) (i : nat) (out : bytes) : VckResult (bytes * nat) :=
  match fuel with
  | O => Panic
  | S fuel =>
      match b !! i with
      | None => Err (bad "unterminated string")
      | Some c =>
          if bool_decide (c = QUOTE) then Ok (out, S i)
          else if bool_decide (c = BACKSLASH) then
            '(x, j) ← parse_escape b (S i);
            parse_chars fuel b (S j) (out ++ x)
          else parse_chars fuel b (S i) (out ++ encode_utf8 (byte_val c))
      end
  end.

(* src: sample/common/src/config.rs:208-259 parse_string *)
Definition parse_string (b : bytes) (start : nat) : VckResult (bytes * nat) :=
  parse_chars (S (length b)) b (start + 1) [].

(* src: sample/common/src/config.rs:143-146 JsonObject *)
Definition JsonObject : Type := list (bytes * bytes).

(* src: sample/common/src/config.rs:148-155 JsonObject::get *)
Definition json_get (entries : JsonObject) (key : bytes) : option bytes :=
  snd <$> (snd <$> list_find (fun kv => kv.1 = key) entries).

(** The loop of [JsonObject::parse], from the byte after ["{"] or [","]. *)
Fixpoint parse_entries (fuel : nat) (b : bytes) (i : nat) (entries : JsonObject) :
    VckResult JsonObject :=
  match fuel with
  | O => Panic
  | S fuel =>
      let i := skip_ws b i in
      if bool_decide (b !! i = Some (chr "}")) then Ok entries
      else if bool_decide (b !! i = Some QUOTE) then
        '(key, next) ← parse_string b i;
        let i := skip_ws b next in
        if negb (bool_decide (b !! i = Some (chr ":"))) then Err (bad "expected ':'")
        else
          let i := skip_ws b (i + 1) in
          if negb (bool_decide (b !! i = Some QUOTE)) then
            Err (bad "only string values supported")
          else
            '(value, next) ← parse_string b i;
            let entries := entries ++ [(key, value)] in
            let i := skip_ws b next in
            if bool_decide (b !! i = Some (chr ",")) then parse_entries fuel b (i + 1) entries
            else if bool_decide (b !! i = Some (chr "}")) then Ok entries
            else Err (bad "expected ',' or '}'")
      else Err (bad "expected key or '}'")
  end.

(* src: sample/common/src/config.rs:152-194 JsonObject::parse *)
Definition json_parse (text : bytes) : VckResult JsonObject :=
  let i := skip_ws text 0 in
  if negb (bool_decide (text !! i = Some (chr "{"))) then Err (bad "expected '{'")
  else parse_entries (length text) text (i + 1) [].

(** ** Base64 *)

(* src: sample/common/src/config.rs:266-275 val *)
Definition b64_val (c : byte) : option Z :=
  if in_range 65 90 c then Some (byte_val c - 65)
  else if in_range 97 122 c then Some (byte_val c - 97 + 26)
  else if in_range 48 57 c then Some (byte_val c - 48 + 52)
  else if bool_decide (c = chr "+") then Some 62
  else if bool_decide (c = chr "/") then Some 63
  else None.

(** The loop over the characters, on the 32-bit accumulator. *)
Fixpoint b64_loop (input : bytes) (acc nbits : Z) (out : bytes) : VckResult bytes :=
  match input with
  | [] => Ok out
  | c :: input =>
      if bool_decide (c = chr "=") then Ok out
      else if is_ws c then b64_loop input acc nbits out
      else
        v ← ok_or (b64_val c) (bad "invalid base64 in vmk");
        let acc := Z.lor (wrap 32 (Z.shiftl acc 6)) v in
        let nbits := nbits + 6 in
        if 8 <=? nbits then
          let nbits := nbits - 8 in
          b64_loop input acc nbits (out ++ [byte_of (Z.shiftr acc nbits)])
        else b64_loop input acc nbits out
  end.

(* src: sample/common/src/config.rs:261-294 base64_decode *)
Definition base64_decode (input : bytes) : VckResult bytes := b64_loop input 0 0 [].

(** ** The configuration *)

(* src: sample/common/src/config.rs:20-20 DEFAULT_OSLOADER *)
Definition DEFAULT_OSLOADER : bytes := lit "/EFI/Microsoft/Boot/msbootmgfw.os.efi".

(* src: sample/common/src/config.rs:22-27 VckConfig *)
Record VckConfig : Type := mkConfig {
  vc_partition_guid : Guid;
  vc_vmk : bytes;
  vc_osloader : bytes;
}.

(** [parse_str] is [uuid]'s GUID parser. *)
(* src: sample/common/src/config.rs:29-66 VckConfig::parse_json *)
Definition parse_json (parse_str : bytes -> option Guid) (text : bytes) : VckResult VckConfig :=
  if negb (is_utf8 text) then Err (InvalidData "vck.json is not valid UTF-8")
  else
    obj ← json_parse text;
    guid_str ← ok_or (json_get obj (lit "partition_guid")) (bad "missing partition_guid");
    partition_guid ← ok_or (parse_str guid_str) (bad "partition_guid is not a valid GUID");
    vmk_b64 ← ok_or (json_get obj (lit "vmk")) (bad "missing vmk");
    vmk ← base64_decode vmk_b64;
    if (length vmk =? 0)%nat then Err (bad "vmk is empty")
    else
      let osloader :=
        match json_get obj (lit "osloader") with
        | Some (c :: s) => c :: s
        | _ => DEFAULT_OSLOADER
        end in
      Ok (mkConfig partition_guid vmk osloader).

(** The path with ["/"] turned into ["\"], as the device path carries it. *)
(* src: sample/common/src/config.rs:112-117 VckConfig::osloader_device_path *)
Definition windows_path (c : VckConfig) : bytes :=
  (fun b => if bool_decide (b = chr "/") then BACKSLASH else b) <$> vc_osloader c.

(** ** The scanner terminates *)

Lemma skip_ws_fuel_ge fuel b i : (i <= skip_ws_fuel fuel b i)%nat.
Proof.
  revert i. induction fuel as [|fuel IH]; intros i; cbn; [lia|].
  destruct (b !! i) as [c|]; [|lia]. destruct (is_ws c); [|lia]. specialize (IH (S i)). lia.
Qed.

Lemma skip_ws_ge b i : (i <= skip_ws b i)%nat.
Proof. apply skip_ws_fuel_ge. Qed.

Lemma lookup_some_lt {A} (l : list A) i x : l !! i = Some x -> (i < length l)%nat.
Proof. apply lookup_lt_Some. Qed.

Lemma parse_escape_next b i x j : parse_escape b i = Ok (x, j) -> (i <= j < length b)%nat.
Proof.
  unfold parse_escape. destruct (b !! i) as [e|] eqn:E; [|done]. apply lookup_some_lt in E.
  destruct (simple_escape e); [intros; simplify_eq; lia|].
  case_bool_decide; [|done]. destruct (Nat.leb_spec (i + 5) (length b)); [|done].
  intros H1. minv H1. simplify_eq. lia.
Qed.

Lemma parse_escape_total b i : parse_escape b i <> Panic.
Proof.
  unfold parse_escape. destruct (b !! i); [|done]. destruct (simple_escape _); [done|].
  case_bool_decide; [|done]. destruct (_ <=? _)%nat; [|done].
  destruct (hex_value _ _); cbn; [|done]. destruct (from_u32 _); done.
Qed.

Lemma parse_chars_total fuel b i out :
  (length b < i + fuel)%nat -> (i <= length b)%nat ->
  parse_chars fuel b i out <> Panic /\
  forall s j, parse_chars fuel b i out = Ok (s, j) -> (i < j <= length b)%nat.
Proof.
  revert i out. induction fuel as [|fuel IH]; intros i out Hf Hi; [lia|].
  cbn [parse_chars]. destruct (b !! i) as [c|] eqn:E; [|done]. apply lookup_some_lt in E.
  case_bool_decide; [split; [done|]; intros; simplify_eq; lia|].
  case_bool_decide.
  - pose proof (parse_escape_total b (S i)). destruct (parse_escape b (S i)) as [[x j]| |] eqn:Ee;
      [|done..]. cbn. apply parse_escape_next in Ee.
    destruct (IH (S j) (out ++ x)) as [J1 J2]; [lia|lia|]. split; [done|].
    intros s k Hk. specialize (J2 s k Hk). lia.
  - destruct (IH (S i) (out ++ encode_utf8 (byte_val c))) as [J1 J2]; [lia|lia|]. split; [done|].
    intros s k Hk. specialize (J2 s k Hk). lia.
Qed.

Lemma parse_string_total b i :
  (i < length b)%nat ->
  parse_string b i <> Panic /\
  forall s j, parse_string b i = Ok (s, j) -> (i < j <= length b)%nat.
Proof.
  intros Hi. destruct (parse_chars_total (S (length b)) b (i + 1) []) as [H1 H2]; [lia|lia|].
  split; [done|]. intros s j H. specialize (H2 s j H). lia.
Qed.

Lemma parse_entries_total fuel b i entries :
  (0 < fuel)%nat -> (length b < i + fuel)%nat -> parse_entries fuel b i entries <> Panic.
Proof.
  revert i entries. induction fuel as [|fuel IH]; intros i entries Hp Hf; [lia|].
  cbn [parse_entries]. pose proof (skip_ws_ge b i) as G0. set (i0 := skip_ws b i) in *.
  case_bool_decide; [done|]. case_bool_decide as Hq; [|done]. apply lookup_some_lt in Hq.
  destruct (parse_string_total b i0 Hq) as [Hk Hkn].
  destruct (parse_string b i0) as [[key next]| |]; [|done..]. cbn [mbind outcome_bind].
  specialize (Hkn key next eq_refl). pose proof (skip_ws_ge b next) as H1.
  set (i1 := skip_ws b next) in *. case_bool_decide; cbn [negb]; [|done].
  pose proof (skip_ws_ge b (i1 + 1)) as G2. set (i2 := skip_ws b (i1 + 1)) in *.
  case_bool_decide as Hq2; cbn [negb]; [|done]. apply lookup_some_lt in Hq2.
  destruct (parse_string_total b i2 Hq2) as [Hv Hvn].
  destruct (parse_string b i2) as [[value next2]| |]; [|done..]. cbn [mbind outcome_bind].
  specialize (Hvn value next2 eq_refl). pose proof (skip_ws_ge b next2) as H3.
  set (i3 := skip_ws b next2) in *. case_bool_decide as Hc.
  - apply lookup_some_lt in Hc. apply IH; lia.
  - case_bool_decide; done.
Qed.

Lemma json_parse_total text : json_parse text <> Panic.
Proof.
  unfold json_parse. cbv zeta. case_bool_decide as Hb; cbn [negb]; [|done].
  apply lookup_some_lt in Hb. apply parse_entries_total; lia.
Qed.

Lemma b64_loop_total input acc nbits out : b64_loop input acc nbits out <> Panic.
Proof.
  revert acc nbits out. induction input as [|c input IH]; intros acc nbits out; [done|].
  cbn [b64_loop]. case_bool_decide; [done|]. destruct (is_ws c); [apply IH|].
  destruct (b64_val c); cbn; [|done]. case_match; apply IH.
Qed.

(** ** Base64 round trip *)

Definition b64_char (v : Z) : byte :=
  if v <? 26 then byte_of (65 + v)
  else if v <? 52 then byte_of (97 + v - 26)
  else if v <? 62 then byte_of (48 + v - 52)
  else if v =? 62 then chr "+"
  else chr "/".

Lemma b64_char_val v :
  0 <= v < 64 ->
  b64_val (b64_char v) = Some v /\ b64_char v <> chr "=" /\ is_ws (b64_char v) = false.
Proof.
  intros Hv.
  assert (forallb (fun n => bool_decide (b64_val (b64_char (Z.of_nat n)) = Some (Z.of_nat n)) &&
    negb (bool_decide (b64_char (Z.of_nat n) = chr "=")) && negb (is_ws (b64_char (Z.of_nat n))))
    (seq 0 64) = true) as H by (vm_compute; reflexivity).
  rewrite forallb_forall in H. specialize (H (Z.to_nat v)). rewrite Z2Nat.id in H by lia.
  rewrite !andb_true_iff, !negb_true_iff, bool_decide_eq_true, bool_decide_eq_false in H.
  destruct H as [[H1 H2] H3]; [|done]. apply in_seq. lia.
Qed.

(** The standard encoding, with padding. *)
Fixpoint base64_encode (l : bytes) : bytes :=
  match l with
  | a :: b :: c :: l =>
      let a := byte_val a in let b := byte_val b in let c := byte_val c in
      b64_char (a / 4) :: b64_char (a mod 4 * 16 + b / 16) ::
      b64_char (b mod 16 * 4 + c / 64) :: b64_char (c mod 64) :: base64_encode l
  | [a; b] =>
      let a := byte_val a in let b := byte_val b in
      [b64_char (a / 4); b64_char (a mod 4 * 16 + b / 16); b64_char (b mod 16 * 4); chr "="]
  | [a] =>
      let a := byte_val a in
      [b64_char (a / 4); b64_char (a mod 4 * 16); chr "="; chr "="]
  | [] => []
  end.

Lemma lor_shifted acc v :
  0 <= v < 64 -> Z.lor (wrap 32 (Z.shiftl acc 6)) v = wrap 32 (Z.shiftl acc 6) + v.
Proof.
  intros Hv. unfold wrap. rewrite Z.shiftl_mul_pow2 by lia.
  replace ((acc * 2 ^ 6) mod 2 ^ 32) with (2 ^ 6 * (acc mod 2 ^ 26)).
  - rewrite (Z.add_comm _ v), add_shift_lor, Z.shiftl_mul_pow2 by lia.
    rewrite Z.lor_comm. f_equal. lia.
  - change (2 ^ 32) with (2 ^ 26 * 2 ^ 6). rewrite Z.mul_mod_distr_r by lia. lia.
Qed.

(** One character, on the pending bits only. *)
Lemma b64_step v rest acc nbits out :
  0 <= v < 64 -> 0 <= nbits <= 6 ->
  let t := (acc mod 2 ^ nbits) * 64 + v in
  exists acc',
    b64_loop (b64_char v :: rest) acc nbits out =
      (if 8 <=? nbits + 6
       then b64_loop rest acc' (nbits - 2) (out ++ [byte_of (t / 2 ^ (nbits - 2))])
       else b64_loop rest acc' (nbits + 6) out) /\
    forall k, 0 <= k <= nbits + 6 -> acc' mod 2 ^ k = t mod 2 ^ k.
Proof.
  intros Hv Hn. cbv zeta. destruct (b64_char_val v Hv) as (Hval & Heq & Hws).
  set (acc' := Z.lor (wrap 32 (Z.shiftl acc 6)) v). exists acc'.
  assert (forall k, 0 <= k <= nbits + 6 ->
            acc' mod 2 ^ k = ((acc mod 2 ^ nbits) * 64 + v) mod 2 ^ k) as Hmod.
  { intros k Hk. unfold acc'. rewrite lor_shifted by done. unfold wrap.
    rewrite Z.shiftl_mul_pow2 by lia. change (2 ^ 6) with 64.
    pose proof (Z.div_mod acc (2 ^ nbits) ltac:(lia)) as Ha.
    pose proof (Z.div_mod (acc * 64) (2 ^ 32) ltac:(lia)) as Hb.
    set (p := acc mod 2 ^ nbits) in *. set (q := acc / 2 ^ nbits) in *.
    set (d := acc * 64 / 2 ^ 32) in *.
    replace ((acc * 64) mod 2 ^ 32 + v)
      with (p * 64 + v + (q * 2 ^ (nbits + 6 - k) - d * 2 ^ (32 - k)) * 2 ^ k).
    - apply Z_mod_plus_full.
    - rewrite Z.mul_sub_distr_r, <- !Z.mul_assoc, <- !Z.pow_add_r by lia.
      replace (nbits + 6 - k + k) with (nbits + 6) by lia. replace (32 - k + k) with 32 by lia.
      rewrite Z.pow_add_r by lia. change (2 ^ 6) with 64. lia. }
  split; [|exact Hmod]. cbn [b64_loop]. rewrite bool_decide_false by done. rewrite Hws, Hval.
  ostep. fold acc'. destruct (Z.leb_spec 8 (nbits + 6)) as [Hge|]; [|done].
  replace (nbits + 6 - 8) with (nbits - 2) by lia. do 3 f_equal.
  apply byte_val_inj. rewrite !byte_val_of, Z.shiftr_div_pow2 by lia.
  specialize (Hmod (nbits + 6) ltac:(lia)). replace (nbits + 6) with (nbits - 2 + 8) in Hmod by lia.
  change 256 with (2 ^ 8). rewrite <- !Z.shiftr_div_pow2 by lia.
  rewrite <- !(Z.land_ones _ 8) by lia. apply Z.bits_inj'. intros i Hi.
  rewrite !Z.land_spec, !Z.shiftr_spec by lia.
  destruct (Z.lt_ge_cases i 8) as [Hi8|Hi8].
  - f_equal. rewrite <- (Z.mod_pow2_bits_low acc' (nbits - 2 + 8)) by lia. rewrite Hmod.
    apply Z.mod_pow2_bits_low. lia.
  - rewrite Z.ones_spec_high by lia. rewrite !andb_false_r. done.
Qed.

(** The step at each number of pending bits. *)
Lemma b64_step0 v rest acc out :
  0 <= v < 64 ->
  exists acc', b64_loop (b64_char v :: rest) acc 0 out = b64_loop rest acc' 6 out /\
    acc' mod 64 = v.
Proof.
  intros Hv. destruct (b64_step v rest acc 0 out Hv ltac:(lia)) as (acc' & E & M).
  exists acc'. split; [exact E|]. specialize (M 6 ltac:(lia)). change (2 ^ 6) with 64 in M.
  rewrite M. change (2 ^ 0) with 1. rewrite Z.mod_1_r. apply Z.mod_small. lia.
Qed.

Lemma b64_step6 v p rest acc out :
  0 <= v < 64 -> acc mod 64 = p ->
  exists acc', b64_loop (b64_char v :: rest) acc 6 out =
      b64_loop rest acc' 4 (out ++ [byte_of ((p * 64 + v) / 16)]) /\ acc' mod 16 = v mod 16.
Proof.
  intros Hv <-. destruct (b64_step v rest acc 6 out Hv ltac:(lia)) as (acc' & E & M).
  exists acc'. split; [exact E|]. specialize (M 4 ltac:(lia)). change (2 ^ 4) with 16 in M.
  rewrite M. change (2 ^ 6) with 64. Z.to_euclidean_division_equations. lia.
Qed.

Lemma b64_step4 v p rest acc out :
  0 <= v < 64 -> acc mod 16 = p ->
  exists acc', b64_loop (b64_char v :: rest) acc 4 out =
      b64_loop rest acc' 2 (out ++ [byte_of ((p * 64 + v) / 4)]) /\ acc' mod 4 = v mod 4.
Proof.
  intros Hv <-. destruct (b64_step v rest acc 4 out Hv ltac:(lia)) as (acc' & E & M).
  exists acc'. split; [exact E|]. specialize (M 2 ltac:(lia)). change (2 ^ 2) with 4 in M.
  rewrite M. change (2 ^ 4) with 16. Z.to_euclidean_division_equations. lia.
Qed.

Lemma b64_step2 v p rest acc out :
  0 <= v < 64 -> acc mod 4 = p ->
  exists acc', b64_loop (b64_char v :: rest) acc 2 out =
      b64_loop rest acc' 0 (out ++ [byte_of (p * 64 + v)]).
Proof.
  intros Hv <-. destruct (b64_step v rest acc 2 out Hv ltac:(lia)) as (acc' & E & _).
  exists acc'. rewrite E. change (2 ^ (2 - 2)) with 1. rewrite Z.div_1_r. done.
Qed.

Ltac sixbit := Z.to_euclidean_division_equations; lia.

Lemma byte_of_eq z b : z = byte_val b -> byte_of z = b.
Proof. intros ->. apply byte_of_val. Qed.

Lemma b64_loop_encode l acc out : b64_loop (base64_encode l) acc 0 out = Ok (out ++ l).
Proof.
  revert acc out. induction l as [l IH] using (induction_ltof1 _ (@length byte)).
  unfold ltof in IH. intros acc out.
  assert (forall acc n out r, b64_loop (chr "=" :: r) acc n out = Ok out) as Hpad by done.
  destruct l as [|a [|b [|c l]]]; cbn [base64_encode]; [rewrite app_nil_r; done|..];
    pose proof (byte_val_range a) as Ha.
  - destruct (b64_step0 (byte_val a / 4) (b64_char (byte_val a mod 4 * 16) :: chr "=" :: [chr "="])
      acc out) as (a1 & -> & M1); [sixbit|].
    destruct (b64_step6 (byte_val a mod 4 * 16) _ (chr "=" :: [chr "="]) a1 out ltac:(sixbit) M1)
      as (a2 & -> & M2).
    rewrite Hpad. do 3 f_equal. apply byte_of_eq. sixbit.
  - pose proof (byte_val_range b) as Hb.
    destruct (b64_step0 (byte_val a / 4) (b64_char (byte_val a mod 4 * 16 + byte_val b / 16) ::
      b64_char (byte_val b mod 16 * 4) :: [chr "="]) acc out) as (a1 & -> & M1); [sixbit|].
    destruct (b64_step6 (byte_val a mod 4 * 16 + byte_val b / 16) _
      (b64_char (byte_val b mod 16 * 4) :: [chr "="]) a1 out ltac:(sixbit) M1) as (a2 & -> & M2).
    destruct (b64_step4 (byte_val b mod 16 * 4) _ [chr "="] a2
      (out ++ [byte_of ((byte_val a / 4 * 64 + (byte_val a mod 4 * 16 + byte_val b / 16)) / 16)])
      ltac:(sixbit) M2) as (a3 & -> & M3).
    rewrite Hpad, <- app_assoc. cbn [app]. do 3 f_equal; [|f_equal]; apply byte_of_eq; sixbit.
  - pose proof (byte_val_range b) as Hb. pose proof (byte_val_range c) as Hc.
    destruct (b64_step0 (byte_val a / 4) (b64_char (byte_val a mod 4 * 16 + byte_val b / 16) ::
      b64_char (byte_val b mod 16 * 4 + byte_val c / 64) :: b64_char (byte_val c mod 64) ::
      base64_encode l) acc out) as (a1 & -> & M1); [sixbit|].
    destruct (b64_step6 (byte_val a mod 4 * 16 + byte_val b / 16) _
      (b64_char (byte_val b mod 16 * 4 + byte_val c / 64) :: b64_char (byte_val c mod 64) ::
      base64_encode l) a1 out ltac:(sixbit) M1) as (a2 & -> & M2).
    match goal with |- context [b64_loop _ a2 4 ?o] =>
      destruct (b64_step4 (byte_val b mod 16 * 4 + byte_val c / 64) _
        (b64_char (byte_val c mod 64) :: base64_encode l) a2 o ltac:(sixbit) M2) as (a3 & -> & M3)
    end.
    match goal with |- context [b64_loop _ a3 2 ?o] =>
      destruct (b64_step2 (byte_val c mod 64) _ (base64_encode l) a3 o ltac:(sixbit) M3)
        as (a4 & ->)
    end.
    rewrite IH by (cbn; lia). rewrite <- !app_assoc. cbn [app].
    do 3 f_equal; [|f_equal; [|f_equal]]; apply byte_of_eq; sixbit.
Qed.

Lemma base64_roundtrip l : base64_decode (base64_encode l) = Ok l.
Proof. apply b64_loop_encode. Qed.

(** ** Printing *)

(** The writer's side: a quote and a backslash are escaped, every other byte is
    written as it is. *)
Definition escape (c : byte) : bytes :=
  if bool_decide (c = QUOTE) || bool_decide (c = BACKSLASH) then [BACKSLASH; c] else [c].
Definition escape_all (s : bytes) : bytes := concat (escape <$> s).
Definition quote (s : bytes) : bytes := QUOTE :: escape_all s ++ [QUOTE].
Definition render_entry (kv : bytes * bytes) : bytes := quote kv.1 ++ chr ":" :: quote kv.2.
Fixpoint render_entries (obj : JsonObject) : bytes :=
  match obj with
  | [] => []
  | [kv] => render_entry kv
  | kv :: obj => render_entry kv ++ chr "," :: render_entries obj
  end.
Definition render (obj : JsonObject) : bytes := chr "{" :: render_entries obj ++ [chr "}"].

(** What the scanner makes of a byte: the code point with its value. *)
Definition latin1 (s : bytes) : bytes := concat ((fun c => encode_utf8 (byte_val c)) <$> s).
Definition ascii (c : byte) : Prop := byte_val c < 0x80.

Lemma latin1_ascii s : Forall ascii s -> latin1 s = s.
Proof.
  unfold latin1. induction 1 as [|c s Hc _ IH]; [done|]. cbn [fmap list_fmap concat].
  unfold encode_utf8, ascii in *. rewrite (proj2 (Z.ltb_lt _ _)), byte_of_val by lia.
  cbn. f_equal. exact IH.
Qed.

Lemma length_encode_utf8 cp :
  (1 <= length (encode_utf8 cp))%nat /\ (0x80 <= cp -> (2 <= length (encode_utf8 cp))%nat).
Proof. unfold encode_utf8. destruct (Z.ltb_spec cp 0x80); repeat case_match; cbn; lia. Qed.

Lemma latin1_length s : Forall ascii s \/ (length s < length (latin1 s))%nat.
Proof.
  assert (forall t, (length t <= length (latin1 t))%nat) as Hge.
  { induction t as [|c t IH]; [done|]. unfold latin1 in *. cbn [fmap list_fmap concat length].
    rewrite length_app. pose proof (length_encode_utf8 (byte_val c)). lia. }
  induction s as [|c s IH]; [left; constructor|]. specialize (Hge s).
  unfold latin1 in *. cbn [fmap list_fmap concat length]. rewrite length_app.
  pose proof (length_encode_utf8 (byte_val c)) as [H1 H2].
  destruct (decide (byte_val c < 0x80)) as [Hc|Hc]; [|right; lia].
  destruct IH as [IH|IH]; [left; constructor; done|right; lia].
Qed.

Lemma lookup_mid {A} (pre : list A) x post : (pre ++ x :: post) !! length pre = Some x.
Proof. rewrite lookup_app_r, Nat.sub_diag by lia. done. Qed.

Lemma skip_ws_stop b i c : b !! i = Some c -> is_ws c = false -> skip_ws b i = i.
Proof.
  intros Hb Hc. unfold skip_ws. destruct (length b) as [|n] eqn:El.
  - apply lookup_some_lt in Hb. lia.
  - cbn. rewrite Hb, Hc. done.
Qed.

Lemma parse_chars_quoted s : forall pre post fuel out,
  (length (escape_all s) < fuel)%nat ->
  parse_chars fuel (pre ++ escape_all s ++ QUOTE :: post) (length pre) out =
  Ok (out ++ latin1 s, (length pre + length (escape_all s) + 1)%nat).
Proof.
  induction s as [|c s IH]; intros pre post fuel out Hf.
  - destruct fuel as [|fuel]; [cbn in Hf; lia|]. cbn [parse_chars]. unfold escape_all.
    cbn [fmap list_fmap concat app]. rewrite lookup_mid. cbn. rewrite app_nil_r.
    do 2 f_equal. lia.
  - unfold escape_all, latin1 in *. cbn [fmap list_fmap concat] in *. rewrite length_app in Hf.
    destruct fuel as [|fuel]; [lia|]. rewrite <- app_assoc.
    destruct (decide (c = QUOTE \/ c = BACKSLASH)) as [Hc|Hc].
    + assert (escape c = [BACKSLASH; c]) as He.
      { unfold escape. destruct Hc as [->| ->]; done. }
      assert (simple_escape c = Some c /\ encode_utf8 (byte_val c) = [c]) as [Hs Hl].
      { destruct Hc as [->| ->]; done. }
      rewrite He in *. cbn [length] in Hf. cbn [parse_chars app]. rewrite lookup_mid.
      rewrite bool_decide_false by done. rewrite bool_decide_true by done.
      unfold parse_escape.
      replace (pre ++ BACKSLASH :: c :: concat (escape <$> s) ++ QUOTE :: post)
        with ((pre ++ [BACKSLASH]) ++ c :: concat (escape <$> s) ++ QUOTE :: post)
        by (rewrite <- app_assoc; done).
      replace (S (length pre)) with (length (pre ++ [BACKSLASH])) by len.
      rewrite lookup_mid, Hs. cbn [mbind outcome_bind].
      replace ((pre ++ [BACKSLASH]) ++ c :: concat (escape <$> s) ++ QUOTE :: post)
        with ((pre ++ [BACKSLASH; c]) ++ concat (escape <$> s) ++ QUOTE :: post)
        by (rewrite <- !app_assoc; done).
      replace (S (length (pre ++ [BACKSLASH]))) with (length (pre ++ [BACKSLASH; c]))
        by len.
      rewrite IH by lia. rewrite Hl, <- app_assoc. do 2 f_equal. rewrite !length_app. cbn. lia.
    + assert (escape c = [c]) as He.
      { unfold escape. rewrite !bool_decide_false by tauto. done. }
      rewrite He in *. cbn [length] in Hf. cbn [parse_chars app]. rewrite lookup_mid.
      rewrite !bool_decide_false by tauto.
      replace (pre ++ c :: concat (escape <$> s) ++ QUOTE :: post)
        with ((pre ++ [c]) ++ concat (escape <$> s) ++ QUOTE :: post)
        by (rewrite <- app_assoc; done).
      replace (S (length pre)) with (length (pre ++ [c])) by len.
      rewrite IH by lia. rewrite <- app_assoc. do 2 f_equal. rewrite !length_app. cbn. lia.
Qed.

(** A quoted string reads back as its bytes taken for code points. *)
Lemma parse_string_quoted s pre post :
  parse_string (pre ++ quote s ++ post) (length pre) =
  Ok (latin1 s, (length pre + length (quote s))%nat).
Proof.
  unfold parse_string, quote.
  replace (pre ++ (QUOTE :: escape_all s ++ [QUOTE]) ++ post)
    with ((pre ++ [QUOTE]) ++ escape_all s ++ QUOTE :: post)
    by (rewrite <- !app_assoc; cbn; rewrite <- app_assoc; done).
  replace (length pre + 1)%nat with (length (pre ++ [QUOTE])) by (rewrite length_app; done).
  rewrite parse_chars_quoted by len.
  do 2 f_equal. cbn [length]. rewrite !length_app. cbn. lia.
Qed.

Definition latin1_entry (kv : bytes * bytes) : bytes * bytes := (latin1 kv.1, latin1 kv.2).

(** An entry of a rendered object, followed by a comma or a brace. *)
Lemma parse_entry kv pre post d fuel entries :
  is_ws d = false ->
  parse_entries (S fuel) (pre ++ render_entry kv ++ d :: post) (length pre) entries =
  let b := pre ++ render_entry kv ++ d :: post in
  let i := (length pre + length (render_entry kv))%nat in
  if bool_decide (d = chr ",") then parse_entries fuel b (i + 1) (entries ++ [latin1_entry kv])
  else if bool_decide (d = chr "}") then Ok (entries ++ [latin1_entry kv])
  else Err (bad "expected ',' or '}'").
Proof.
  intros Hd. set (b := pre ++ render_entry kv ++ d :: post). cbn [parse_entries].
  assert (b !! length pre = Some QUOTE) as H0.
  { unfold b, render_entry, quote. cbn [app]. apply lookup_mid. }
  rewrite (skip_ws_stop b (length pre) QUOTE) by done. rewrite H0.
  rewrite bool_decide_false by done. rewrite bool_decide_true by done.
  assert (b = pre ++ quote kv.1 ++ (chr ":" :: quote kv.2) ++ d :: post) as Hb.
  { unfold b, render_entry. rewrite <- app_assoc. done. }
  rewrite Hb at 1. rewrite parse_string_quoted. cbn [mbind outcome_bind].
  set (i1 := (length pre + length (quote kv.1))%nat).
  assert (b = (pre ++ quote kv.1) ++ chr ":" :: quote kv.2 ++ d :: post) as Hb1.
  { rewrite Hb, <- app_assoc. done. }
  assert (i1 = length (pre ++ quote kv.1)) as Hi1 by (unfold i1; rewrite length_app; done).
  assert (b !! i1 = Some (chr ":")) as H1 by (rewrite Hb1, Hi1; apply lookup_mid).
  rewrite (skip_ws_stop b i1 (chr ":")) by done. rewrite H1, bool_decide_true by done. cbn [negb].
  assert (b = (pre ++ quote kv.1 ++ [chr ":"]) ++ quote kv.2 ++ d :: post) as Hb2.
  { rewrite Hb1, <- !app_assoc. done. }
  assert ((i1 + 1)%nat = length (pre ++ quote kv.1 ++ [chr ":"])) as Hi2.
  { rewrite Hi1, !length_app. cbn. lia. }
  assert (b !! (i1 + 1)%nat = Some QUOTE) as H2.
  { rewrite Hb2, Hi2. unfold quote at 2. cbn [app]. apply lookup_mid. }
  rewrite (skip_ws_stop b (i1 + 1) QUOTE) by done. rewrite H2, bool_decide_true by done.
  cbn [negb]. rewrite Hb2 at 1. rewrite Hi2, parse_string_quoted. cbn [mbind outcome_bind].
  set (i3 := (_ + length (quote kv.2))%nat).
  assert (i3 = (length pre + length (render_entry kv))%nat) as Hi3.
  { unfold i3, render_entry. rewrite !length_app. cbn [length]. lia. }
  assert (b !! i3 = Some d) as H3.
  { rewrite Hi3. unfold b. rewrite app_assoc, <- length_app. apply lookup_mid. }
  rewrite (skip_ws_stop b i3 d) by done. rewrite H3, Hi3. cbv zeta. fold (latin1_entry kv).
  destruct (decide (d = chr ",")) as [->|Hn]; [rewrite !bool_decide_true; done|].
  rewrite (bool_decide_false (Some d = _)), (bool_decide_false (d = chr ",")) by congruence.
  destruct (decide (d = chr "}")) as [->|Hn2]; [rewrite !bool_decide_true; done|].
  rewrite !bool_decide_false by congruence. done.
Qed.

Lemma parse_rendered obj : forall pre fuel entries,
  obj <> [] -> (length obj <= fuel)%nat ->
  parse_entries fuel (pre ++ render_entries obj ++ [chr "}"]) (length pre) entries =
  Ok (entries ++ (latin1_entry <$> obj)).
Proof.
  induction obj as [|kv obj IH]; intros pre fuel entries Hne Hf; [done|].
  destruct fuel as [|fuel]; [cbn in Hf; lia|]. destruct obj as [|kv' obj].
  - cbn [render_entries]. rewrite parse_entry by done. cbv zeta.
    rewrite bool_decide_false by done. done.
  - change (render_entries (kv :: kv' :: obj))
      with (render_entry kv ++ chr "," :: render_entries (kv' :: obj)).
    rewrite <- app_assoc. cbn [app]. rewrite parse_entry by done. cbv zeta.
    rewrite bool_decide_true by done.
    replace (pre ++ render_entry kv ++ chr "," :: render_entries (kv' :: obj) ++ [chr "}"])
      with ((pre ++ render_entry kv ++ [chr ","]) ++ render_entries (kv' :: obj) ++ [chr "}"])
      by (rewrite <- !app_assoc; done).
    replace (length pre + length (render_entry kv) + 1)%nat
      with (length (pre ++ render_entry kv ++ [chr ","])) by len.
    rewrite IH by (done || (cbn in *; lia)). rewrite <- app_assoc. done.
Qed.

Lemma length_render_entries obj : (length obj <= length (render_entries obj))%nat.
Proof.
  induction obj as [|kv [|kv' obj] IH]; [done|cbn; lia|].
  change (render_entries (kv :: kv' :: obj))
    with (render_entry kv ++ chr "," :: render_entries (kv' :: obj)).
  rewrite length_app. cbn [length] in *. lia.
Qed.

Lemma json_parse_render obj : obj <> [] -> json_parse (render obj) = Ok (latin1_entry <$> obj).
Proof.
  intros Hne. unfold json_parse, render. cbv zeta.
  rewrite (skip_ws_stop _ 0 (chr "{")) by done. rewrite bool_decide_true by done. cbn [negb].
  change (chr "{" :: render_entries obj ++ [chr "}"])
    with ([chr "{"] ++ render_entries obj ++ [chr "}"]).
  apply (parse_rendered obj [chr "{"]); [done|].
  pose proof (length_render_entries obj). rewrite !length_app. lia.
Qed.

Lemma utf8_ascii l : Forall ascii l -> is_utf8 l = true.
Proof.
  unfold is_utf8. induction 1 as [|c l Hc _ IH]; [done|]. cbn [length utf8_fuel].
  unfold in_range at 1. pose proof (byte_val_range c). unfold ascii in Hc.
  rewrite (proj2 (Z.leb_le 0 _)), (proj2 (Z.leb_le _ 0x7F)) by lia. done.
Qed.

Lemma b64_char_ascii v : 0 <= v < 64 -> ascii (b64_char v).
Proof.
  intros Hv.
  assert (forallb (fun n => byte_val (b64_char (Z.of_nat n)) <? 0x80) (seq 0 64) = true) as H
    by (vm_compute; reflexivity).
  rewrite forallb_forall in H. specialize (H (Z.to_nat v)). rewrite Z2Nat.id in H by lia.
  apply Z.ltb_lt, H, in_seq. lia.
Qed.

Lemma base64_ascii l : Forall ascii (base64_encode l).
Proof.
  induction l as [l IH] using (induction_ltof1 _ (@length byte)). unfold ltof in IH.
  destruct l as [|a [|b [|c l]]]; cbn [base64_encode]; [constructor|..];
    pose proof (byte_val_range a) as Ha; try pose proof (byte_val_range b) as Hb;
    try pose proof (byte_val_range c) as Hc;
    repeat (apply Forall_cons; split);
    first [apply b64_char_ascii; sixbit|reflexivity|apply Forall_nil; done|apply IH; cbn; lia].
Qed.

Lemma quote_ascii s : Forall ascii s -> Forall ascii (quote s).
Proof.
  intros Hs. unfold quote. apply Forall_cons; split; [reflexivity|]. apply Forall_app; split.
  - unfold escape_all. induction Hs as [|c s Hc _ IH]; [constructor|].
    cbn [fmap list_fmap concat]. apply Forall_app; split; [|done]. unfold escape.
    destruct (_ || _); repeat constructor; done.
  - repeat constructor.
Qed.

Lemma render_entries_ascii obj :
  Forall (fun kv => Forall ascii kv.1 /\ Forall ascii kv.2) obj -> Forall ascii (render_entries obj).
Proof.
  assert (forall kv, Forall ascii kv.1 /\ Forall ascii kv.2 -> Forall ascii (render_entry kv)) as He.
  { intros kv [H1 H2]. unfold render_entry. apply Forall_app; split; [apply quote_ascii; done|].
    apply Forall_cons; split; [reflexivity|]. apply quote_ascii; done. }
  induction 1 as [|kv obj Hkv _ IH]; [constructor|]. destruct obj as [|kv' obj]; [apply He; done|].
  change (render_entries (kv :: kv' :: obj))
    with (render_entry kv ++ chr "," :: render_entries (kv' :: obj)).
  apply Forall_app; split; [apply He; done|]. apply Forall_cons; split; [reflexivity|done].
Qed.

Lemma render_ascii obj :
  Forall (fun kv => Forall ascii kv.1 /\ Forall ascii kv.2) obj -> Forall ascii (render obj).
Proof.
  intros H. unfold render. apply Forall_cons; split; [reflexivity|]. apply Forall_app; split.
  - apply render_entries_ascii. done.
  - repeat constructor.
Qed.

(** The configuration as the application writes it. *)
Definition config_object (guid vmk path : bytes) : JsonObject :=
  [(lit "partition_guid", guid); (lit "vmk", base64_encode vmk); (lit "osloader", path)].

Lemma lit_ascii (s : string) : forallb (fun c => byte_val c <? 0x80) (lit s) = true -> Forall ascii (lit s).
Proof.
  intros H. apply Forall_forall. intros c Hc. rewrite forallb_forall in H. apply Z.ltb_lt, H.
  apply list_elem_of_In. done.
Qed.

Lemma config_parse ps guid G vmk path :
  Forall ascii guid -> ps guid = Some G -> vmk <> [] -> path <> [] ->
  is_utf8 (render (config_object guid vmk path)) = true ->
  parse_json ps (render (config_object guid vmk path)) = Ok (mkConfig G vmk (latin1 path)).
Proof.
  intros Hg HG Hvmk Hpath Hutf. unfold parse_json. rewrite Hutf. cbn [negb].
  rewrite json_parse_render by done. cbn [mbind outcome_bind].
  assert (latin1_entry <$> config_object guid vmk path =
    [(lit "partition_guid", guid); (lit "vmk", base64_encode vmk); (lit "osloader", latin1 path)])
    as ->.
  { unfold config_object, latin1_entry. cbn [fmap list_fmap fst snd].
    rewrite !(latin1_ascii (lit _)) by (apply lit_ascii; vm_compute; reflexivity).
    rewrite (latin1_ascii guid), (latin1_ascii (base64_encode vmk)) by (done || apply base64_ascii).
    done. }
  assert (forall x y z, json_get [(lit "partition_guid", x); (lit "vmk", y); (lit "osloader", z)]
            (lit "partition_guid") = Some x /\
          json_get [(lit "partition_guid", x); (lit "vmk", y); (lit "osloader", z)] (lit "vmk") =
            Some y /\
          json_get [(lit "partition_guid", x); (lit "vmk", y); (lit "osloader", z)]
            (lit "osloader") = Some z) as Hget.
  { intros. split_and!; reflexivity. }
  destruct (Hget guid (base64_encode vmk) (latin1 path)) as (-> & -> & ->). cbn [ok_or mbind outcome_bind].
  rewrite HG. cbn [ok_or mbind outcome_bind]. rewrite base64_roundtrip. cbn [mbind outcome_bind].
  destruct vmk as [|v vmk]; [done|]. cbn [length Nat.eqb].
  destruct (latin1 path) as [|c s] eqn:El; [|done].
  exfalso. destruct (latin1_length path) as [Ha|Hl]; [|rewrite El in Hl; cbn in Hl; lia].
  rewrite latin1_ascii in El by done. done.
Qed.

(** ** Properties *)

(** The configuration round trips. The object the application writes, with an
    ASCII GUID string, any non-empty volume master key in base64 and an ASCII
    loader path (quotes and backslashes included), is read back by [parse_json]
    as exactly that GUID, key and path. *)
Theorem config_roundtrip ps guid G vmk path :
  Forall ascii guid -> Forall ascii path -> ps guid = Some G -> vmk <> [] -> path <> [] ->
  parse_json ps (render (config_object guid vmk path)) = Ok (mkConfig G vmk path).
Proof.
  intros Hg Hp HG Hv Hne. rewrite <- (latin1_ascii path) at 2 by done.
  apply config_parse; try done. apply utf8_ascii, render_ascii.
  repeat constructor; cbn [fst snd]; try done;
    first [apply lit_ascii; vm_compute; reflexivity|apply base64_ascii].
Qed.

Lemma config_roundtrip_witness :
  parse_json (fun g => Some g)
    (render (config_object (lit "0f77") [Byte.x00; Byte.xff] (lit "/EFI\x"))) =
  Ok (mkConfig (lit "0f77") [Byte.x00; Byte.xff] (lit "/EFI\x")).
Proof.
  apply (config_roundtrip (fun g => Some g) (lit "0f77") (lit "0f77") [Byte.x00; Byte.xff]
           (lit "/EFI\x"));
    [apply lit_ascii; reflexivity|apply lit_ascii; reflexivity|reflexivity|discriminate|discriminate].
Defined.

(** The parser is total. On any bytes whatever, [parse_json] returns a
    configuration or an error, never a panic or an endless loop, and a
    configuration always has a non-empty key and a non-empty loader path. *)
Theorem config_parser_total ps text :
  parse_json ps text <> Panic /\
  forall c, parse_json ps text = Ok c -> vc_vmk c <> [] /\ vc_osloader c <> [].
Proof.
  unfold parse_json. destruct (negb _); [done|].
  pose proof (json_parse_total text). destruct (json_parse text) as [obj| |]; [|done..].
  ostep. destruct (json_get obj (lit "partition_guid")) as [g|]; ostep; [|done].
  destruct (ps g) as [G|]; ostep; [|done].
  destruct (json_get obj (lit "vmk")) as [k|]; ostep; [|done].
  pose proof (b64_loop_total k 0 0 []) as Hb. unfold base64_decode.
  destruct (b64_loop k 0 0 []) as [vmk| |]; ostep; [|done..].
  destruct vmk as [|v vmk]; [done|]. cbn [length Nat.eqb]. split; [done|]. intros c H0.
  simplify_eq. cbn. split; [done|]. case_match; [|done]. case_match; done.
Qed.

(** Finding: bytes outside ASCII are mangled. The scanner appends each byte of
    a string value as the code point with the byte's number. For a non-ASCII
    loader path it returns a configuration whose path is longer than the one in
    the file, so the next loader is looked up under a wrong name. *)
Theorem config_mangles_non_ascii ps guid G vmk path :
  Forall ascii guid -> ps guid = Some G -> vmk <> [] -> path <> [] -> ~ Forall ascii path ->
  is_utf8 (render (config_object guid vmk path)) = true ->
  exists c, parse_json ps (render (config_object guid vmk path)) = Ok c /\
    (length path < length (vc_osloader c))%nat.
Proof.
  intros Hg HG Hv Hne Hna Hu. eexists. split; [apply config_parse; done|]. cbn.
  destruct (latin1_length path); done.
Qed.

Lemma not_ascii_c3 : ~ Forall ascii [Byte.xc3; Byte.xa9].
Proof. intros H. inversion H as [|? ? Hc]. vm_compute in Hc. discriminate. Qed.

Lemma config_mangles_non_ascii_witness :
  exists c, parse_json (fun g => Some g)
      (render (config_object (lit "0f77") [Byte.x00] [Byte.xc3; Byte.xa9])) = Ok c /\
    (2 < length (vc_osloader c))%nat.
Proof.
  apply (config_mangles_non_ascii (fun g => Some g) (lit "0f77") (lit "0f77") [Byte.x00]
           [Byte.xc3; Byte.xa9]);
    [apply lit_ascii; reflexivity|reflexivity|discriminate|discriminate|exact not_ascii_c3|].
  vm_compute. reflexivity.
Defined.
