(* ===== verification/Handover.v ===== *)
(** * The loader-to-driver handover

    The payload traits and the locator ([lib/common/src/handover/payload.rs]),
    the sample's payload ([sample/common/src/payload.rs]), the loader's side
    ([lib/loader/src/handover.rs]) and the driver's side
    ([lib/windrv/src/handover.rs]). MessagePack, the firmware variable services
    and physical memory are classes of operations with their documented
    behaviour as laws. *)

From S2P Require Import Prelude Types Nt.

(** ** MessagePack ([messagepack_serde]) *)

Class MsgPack (A : Type) := {
  to_vec : A -> outcome string bytes;
  from_slice : bytes -> outcome string A;
}.

(** Values round trip, an encoding has between one byte and 4 GiB, and neither
    direction panics. *)
Class MsgPackLaws (A : Type) `{MsgPack A} : Prop := {
  mp_roundtrip a b : to_vec a = Ok b -> from_slice b = Ok a;
  mp_length a b : to_vec a = Ok b -> 0 < Z.of_nat (length b) < 2 ^ 32;
  mp_to_total a : to_vec a <> Panic;
  mp_from_total b : from_slice b <> Panic (A := A);
}.

Lemma Ok_inj {E A} (a b : A) : Ok (E:=E) a = Ok b -> a = b.
Proof. congruence. Qed.

Definition map_err {E F A} (f : E -> F) (o : outcome E A) : outcome F A :=
  match o with Ok a => Ok a | Err e => Err (f e) | Panic => Panic end.

(** ** The payload trait *)

(* src: lib/common/src/handover/payload.rs:11-26 HandoverPayload *)
Class HandoverPayload (P : Type) := {
  VAR_NAME : string;
  VAR_GUID : bytes;
}.

(* src: lib/common/src/handover/payload.rs:28-31 encode_payload *)
Definition encode_payload {P} `{MsgPack P} (payload : P) : VckResult bytes :=
  map_err MsgpackEncode (to_vec payload).
(* src: lib/common/src/handover/payload.rs:33-36 decode_payload *)
Definition decode_payload {P} `{MsgPack P} (b : bytes) : VckResult P :=
  map_err MsgpackDecode (from_slice b).

(** ** The locator *)

(* src: lib/common/src/handover/payload.rs:38-40 HANDOVER_LOCATOR_MAGIC *)
Definition HANDOVER_LOCATOR_MAGIC : Z := le_decode (bytes_of_string "VCKL").
(* src: lib/common/src/handover/payload.rs:42-43 HANDOVER_LOCATOR_VERSION *)
Definition HANDOVER_LOCATOR_VERSION : Z := 1.

(* src: lib/common/src/handover/payload.rs:45-68 HandoverLocator *)
Record HandoverLocator : Type := mkLocator {
  hl_magic : Z;
  hl_version : Z;
  hl_address : Z;
  hl_length : Z;
}.

(* src: lib/common/src/handover/payload.rs:70-79 HandoverLocator::new *)
Definition locator_new (address length : Z) : HandoverLocator :=
  mkLocator HANDOVER_LOCATOR_MAGIC HANDOVER_LOCATOR_VERSION address length.

(* src: lib/common/src/handover/payload.rs:81-97 HandoverLocator::validate *)
Definition locator_validate (l : HandoverLocator) : VckResult unit :=
  if negb (hl_magic l =? HANDOVER_LOCATOR_MAGIC) then
    Err (InvalidData "handover locator: bad magic")
  else if negb (hl_version l =? HANDOVER_LOCATOR_VERSION) then
    Err (InvalidData "handover locator: unsupported version")
  else if (hl_address l =? 0) || (hl_length l =? 0) then
    Err (InvalidData "handover locator: empty address/length")
  else Ok tt.

Section Locator.
Context `{MsgPack HandoverLocator}.

(* src: lib/common/src/handover/payload.rs:100-103 encode_locator *)
Definition encode_locator (l : HandoverLocator) : VckResult bytes :=
  map_err MsgpackEncode (to_vec l).

(* src: lib/common/src/handover/payload.rs:105-110 decode_locator *)
Definition decode_locator (b : bytes) : VckResult HandoverLocator :=
  locator ← map_err MsgpackDecode (from_slice b);
  _ ← locator_validate locator;
  Ok locator.
End Locator.

(** ** The sample's payload *)

(* src: sample/common/src/payload.rs:21-31 HANDOVER_VAR_* *)
Definition HANDOVER_VAR_GUID : bytes :=
  [Byte.x43; Byte.x4b; Byte.x56; Byte.x59; Byte.x48; Byte.x44; Byte.x4f; Byte.x56;
   Byte.x31; Byte.x32; Byte.x2d; Byte.x56; Byte.x41; Byte.x52; Byte.x21; Byte.x21].

(* src: sample/common/src/payload.rs:33-39 VckHandoverPayload *)
Record VckHandoverPayload : Type := mkPayload {
  hp_partition_guid : Guid;
  hp_vmk : bytes;
}.

(* src: sample/common/src/payload.rs:41-44 impl HandoverPayload for VckHandoverPayload *)
Global Instance VckHandoverPayload_payload : HandoverPayload VckHandoverPayload := {|
  VAR_NAME := "VckHandover";
  VAR_GUID := HANDOVER_VAR_GUID;
|}.

(** ** The platform *)

(** The kernel's [GUID] of the raw bytes. *)
(* src: lib/windrv/src/handover.rs:56-65 handover_guid *)
Definition handover_guid (b : bytes) : Z * Z * Z * bytes :=
  (le_decode (slice 0 4 b), le_decode (slice 4 2 b), le_decode (slice 6 2 b), slice 8 8 b).

(** [allocate] is the firmware's pool, [mem_write] and [mem_read] physical
    memory, [map_ok] whether the range can be mapped, [pool_ok] whether the
    kernel pool has room, and the variable services take a capacity and return a
    status, a length and the data. *)
Class Platform (S : Type) := {
  allocate : Z -> S -> S * option Z;
  mem_write : Z -> bytes -> S -> S;
  mem_read : Z -> nat -> S -> bytes;
  map_ok : Z -> Z -> S -> bool;
  pool_ok : Z -> S -> bool;
  ucs2_ok : string -> bool;
  set_variable : string -> bytes -> bytes -> S -> S * bool;
  get_variable : string -> Z * Z * Z * bytes -> Z -> S -> Z * Z * bytes;
}.

(** A variable that was set can be read with enough room, and reports its length
    without; memory reads what was written; setting a variable and writing
    memory do not disturb each other. Pools hand out non-null 64-bit addresses. *)
Class PlatformLaws (S : Type) `{Platform S} : Prop := {
  pl_alloc n s s' a : allocate n s = (s', Some a) -> 0 < a < 2 ^ 64;
  pl_write a b s : mem_read a (length b) (mem_write a b s) = b;
  pl_set_mem n g d s s' a k :
    set_variable n g d s = (s', true) -> mem_read a k s' = mem_read a k s;
  pl_get_small n g d s s' cap :
    set_variable n g d s = (s', true) -> cap < Z.of_nat (length d) < 2 ^ 32 ->
    exists v, get_variable n (handover_guid g) cap s' = (STATUS_BUFFER_TOO_SMALL, Z.of_nat (length d), v);
  pl_get n g d s s' cap :
    set_variable n g d s = (s', true) -> Z.of_nat (length d) <= cap < 2 ^ 32 ->
    get_variable n (handover_guid g) cap s' = (STATUS_SUCCESS, Z.of_nat (length d), d);
}.

Section Handover.
Context {S P : Type} `{Platform S, MsgPack P, HandoverPayload P, MsgPack HandoverLocator}.
Abbreviation HM := (M VckError S).

(** ** The loader's side *)

Definition allocate_pool (len : Z) : HM Z := fun s =>
  let '(s, a) := allocate len s in (s, ok_or a (Io "allocate_pool(RUNTIME_SERVICES_DATA) failed")).
Definition publish (name : string) (guid data : bytes) : HM unit := fun s =>
  let '(s, ok) := set_variable name guid data s in
  (s, if ok then Ok tt else Err (Io "SetVariable(handover locator) failed")).

(* src: lib/loader/src/handover.rs:44-72 install_handover *)
Definition install_handover (payload : P) : HM unit :=
  data ← lift (encode_payload payload);
  let len := Z.of_nat (length data) in
  buf ← allocate_pool len;
  _ ← mmodify (mem_write buf data);
  let address := wrap 64 buf in
  let locator := locator_new address len in
  loc_bytes ← lift (encode_locator locator);
  _ ← (if ucs2_ok VAR_NAME then mret tt
       else mfail (InvalidData "handover variable name not valid UCS-2"));
  publish VAR_NAME VAR_GUID loc_bytes.

(** ** The driver's side *)

(* src: lib/windrv/src/handover.rs:42-43 MAX_PAYLOAD_LEN *)
Definition MAX_PAYLOAD_LEN : Z := 64 * 1024.

(** The mapped source is overwritten with zeros before it is unmapped. *)
(* src: lib/windrv/src/handover.rs:81-115 read_handover_payload *)
Definition read_handover_payload (locator : HandoverLocator) : HM bytes :=
  let len := hl_length locator in
  if (len =? 0) || (MAX_PAYLOAD_LEN <? hl_length locator) then
    mfail (InvalidData "handover payload length out of range")
  else
    s ← mget;
    if negb (map_ok (hl_address locator) len s) then
      mfail (Io "MmMapIoSpace(handover payload) failed")
    else
      let out := mem_read (hl_address locator) (Z.to_nat len) s in
      _ ← mmodify (mem_write (hl_address locator) (replicate (Z.to_nat len) Byte.x00));
      mret out.

(* src: lib/windrv/src/handover.rs:117-179 read_handover_variable *)
Definition read_handover_variable (var_name : string) (var_guid : bytes) : HM bytes :=
  s ← mget;
  let guid := handover_guid var_guid in
  let '(st, len, _) := get_variable var_name guid 0 s in
  if negb (st =? STATUS_BUFFER_TOO_SMALL) || (len =? 0) then
    mfail (NotFound "handover variable not present")
  else
    let total := len in
    if negb (pool_ok total s) then mfail (Io "ExAllocatePool2(handover var) failed")
    else
      let '(st, got, buf) := get_variable var_name guid len s in
      if st <? 0 then mfail (Io "ExGetFirmwareEnvironmentVariable(get) failed")
      else
        let copy_len := Z.min got total in
        mret (take (Z.to_nat copy_len) buf).

(* src: lib/windrv/src/handover.rs:67-79 read_handover *)
Definition read_handover : HM P :=
  loc_bytes ← read_handover_variable VAR_NAME VAR_GUID;
  locator ← lift (decode_locator loc_bytes);
  payload ← read_handover_payload locator;
  lift (decode_payload payload).
End Handover.

Lemma locator_validate_iff l :
  locator_validate l = Ok tt <->
  hl_magic l = HANDOVER_LOCATOR_MAGIC /\ hl_version l = HANDOVER_LOCATOR_VERSION /\
  hl_address l <> 0 /\ hl_length l <> 0.
Proof.
  unfold locator_validate.
  destruct (Z.eqb_spec (hl_magic l) HANDOVER_LOCATOR_MAGIC),
    (Z.eqb_spec (hl_version l) HANDOVER_LOCATOR_VERSION), (Z.eqb_spec (hl_address l) 0),
    (Z.eqb_spec (hl_length l) 0); cbn [negb orb]; split; intros; destruct_and?; done.
Qed.

(** ** What the loader leaves behind *)

(** The variable holds a locator of the payload's encoding at [addr]. *)
Record published {S P} `{Platform S, MsgPack P, HandoverPayload P, MsgPack HandoverLocator}
    (payload : P) (data : bytes) (addr : Z) (s : S) : Prop := {
  pb_data : to_vec payload = Ok data;
  pb_address : 0 < addr < 2 ^ 64;
  pb_memory : mem_read addr (length data) s = data;
  pb_variable : exists lb,
    to_vec (locator_new addr (Z.of_nat (length data))) = Ok lb /\
    (exists v, get_variable VAR_NAME (handover_guid VAR_GUID) 0 s =
       (STATUS_BUFFER_TOO_SMALL, Z.of_nat (length lb), v)) /\
    get_variable VAR_NAME (handover_guid VAR_GUID) (Z.of_nat (length lb)) s =
      (STATUS_SUCCESS, Z.of_nat (length lb), lb);
}.

Section Delivery.
Context {S P : Type} {PF : Platform S} {MP : MsgPack P} {HP : HandoverPayload P}
  {ML : MsgPack HandoverLocator}.
Context {LP : MsgPackLaws P} {LL : MsgPackLaws HandoverLocator}.

Lemma install_publishes {PL : PlatformLaws S} (payload : P) data (s s' : S) :
  encode_payload payload = Ok data -> install_handover payload s = (s', Ok tt) ->
  exists addr, published payload data addr s'.
Proof using LL.
  intros Henc Hinst. unfold install_handover in Hinst.
  rewrite Henc in Hinst. rewrite mbind_run in Hinst. unfold lift at 1 in Hinst. cbv zeta in Hinst.
  unfold encode_payload in Henc. destruct (to_vec payload) as [d| |] eqn:Ed; [|done..].
  cbn in Henc. simplify_eq.
  rewrite mbind_run in Hinst. unfold allocate_pool in Hinst.
  destruct (allocate _ _) as [s1 oa] eqn:Ea. destruct oa as [addr|]; [|done]. cbn [ok_or] in Hinst.
  pose proof (pl_alloc _ _ _ _ Ea) as Haddr. rewrite wrap_id in Hinst by (unfold in_u; lia).
  rewrite mbind_run in Hinst. unfold mmodify at 1 in Hinst.
  rewrite mbind_run in Hinst. unfold lift, encode_locator in Hinst.
  destruct (to_vec (locator_new addr _)) as [lb| |] eqn:El; [|done..]. cbn [map_err] in Hinst.
  pose proof (mp_length _ _ El) as Hll.
  destruct (ucs2_ok VAR_NAME); [|done]. rewrite mbind_run in Hinst. cbn [mret M_ret] in Hinst.
  unfold publish in Hinst. destruct (set_variable _ _ _ _) as [s2 ok] eqn:Es.
  destruct ok; [|done]. simplify_eq. exists addr. constructor; [done|done| |].
  - rewrite (pl_set_mem _ _ _ _ _ addr (length data) Es). apply pl_write.
  - exists lb. split; [done|]. split.
    + apply (pl_get_small _ _ _ _ _ 0 Es). lia.
    + apply (pl_get _ _ _ _ _ _ Es). lia.
Qed.

Lemma published_read (payload : P) data addr (s : S) :
  published payload data addr s -> Z.of_nat (length data) <= MAX_PAYLOAD_LEN ->
  (forall a n, map_ok a n s = true) -> (forall n, pool_ok n s = true) ->
  read_handover s = (mem_write addr (replicate (length data) Byte.x00) s, Ok payload).
Proof using LP LL.
  intros [Ed Haddr Hmem (lb & El & [v Hv] & Hlb)] Hmax Hmap Hpool.
  pose proof (mp_length _ _ Ed) as Hlen. pose proof (mp_length _ _ El) as Hll.
  set (loc := locator_new addr (Z.of_nat (length data))) in *.
  unfold read_handover, read_handover_variable. rewrite !mbind_run. unfold mget at 1. rewrite Hv.
  rewrite Z.eqb_refl, (proj2 (Z.eqb_neq _ 0)) by lia. cbn [negb orb]. rewrite Hpool. cbn [negb].
  rewrite Hlb.
  change (STATUS_SUCCESS <? 0) with false. cbv iota zeta. unfold mret at 1, M_ret at 1.
  rewrite Z.min_id, Nat2Z.id, take_ge by lia.
  rewrite mbind_run. unfold lift at 1, decode_locator. rewrite (mp_roundtrip _ _ El).
  cbn [map_err mbind outcome_bind].
  rewrite (proj2 (locator_validate_iff loc)) by (split_and!; cbn; (done || lia)).
  change (Ok (E:=VckError) () ≫= (fun _ => Ok loc)) with (Ok (E:=VckError) loc). cbv iota beta.
  rewrite mbind_run. unfold read_handover_payload. cbn [hl_length hl_address loc locator_new].
  rewrite (proj2 (Z.eqb_neq _ 0)), (proj2 (Z.ltb_ge _ _)) by lia. cbn [orb].
  rewrite mbind_run. unfold mget. rewrite Hmap. cbn [negb]. rewrite mbind_run. unfold mmodify.
  unfold mret, M_ret. rewrite Nat2Z.id, Hmem.
  unfold lift, decode_payload. rewrite (mp_roundtrip _ _ Ed). done.
Qed.
End Delivery.

(** ** A concrete platform *)

Module HandoverDemo.
(** Memory by address, the variables, and the address the pool gives next. *)
Record Machine : Type := mkMachine {
  memory : list (Z * bytes);
  vars : list (string * bytes * bytes);
  next : Z;
}.

Fixpoint read_at (m : list (Z * bytes)) (a : Z) (n : nat) : bytes :=
  match m with
  | [] => replicate n Byte.x00
  | (a', b) :: m => if (a' =? a) && (length b =? n)%nat then b else read_at m a n
  end.

Fixpoint var_at (vs : list (string * bytes * bytes)) (n : string) (g : Z * Z * Z * bytes) : option bytes :=
  match vs with
  | [] => None
  | (n', g', d) :: vs =>
      if bool_decide (n' = n) && bool_decide (handover_guid g' = g) then Some d else var_at vs n g
  end.

#[export] Instance platform : Platform Machine := {|
  allocate n s := (mkMachine (memory s) (vars s) (next s + n), Some (1 + next s mod 2 ^ 40));
  mem_write a b s := mkMachine ((a, b) :: memory s) (vars s) (next s);
  mem_read a n s := read_at (memory s) a n;
  map_ok _ _ _ := true;
  pool_ok _ _ := true;
  ucs2_ok _ := true;
  set_variable n g d s := (mkMachine (memory s) ((n, g, d) :: vars s) (next s), true);
  get_variable n g cap s :=
    match var_at (vars s) n g with
    | None => (as_i32 0xC0000100, 0, [])
    | Some d =>
        let len := Z.of_nat (length d) in
        if cap <? len then (STATUS_BUFFER_TOO_SMALL, len, []) else (STATUS_SUCCESS, len, d)
    end;
|}.

#[export] Instance laws : PlatformLaws Machine.
Proof.
  constructor; cbn [allocate mem_write mem_read set_variable get_variable platform memory vars read_at];
    intros; simplify_eq; cbn [vars var_at].
  - pose proof (Z.mod_pos_bound (next s) (2 ^ 40) ltac:(lia)). lia.
  - rewrite Z.eqb_refl, Nat.eqb_refl. done.
  - done.
  - rewrite !bool_decide_true by done. cbn. rewrite (proj2 (Z.ltb_lt _ _)) by lia. eauto.
  - rewrite !bool_decide_true by done. cbn. rewrite (proj2 (Z.ltb_ge _ _)) by lia. done.
Qed.

(** A length-prefixed stand-in for MessagePack. *)
#[export] Instance pack_locator : MsgPack HandoverLocator := {|
  to_vec l :=
    if decide (0 <= hl_magic l < 2 ^ 32 /\ 0 <= hl_version l < 2 ^ 16 /\
               0 <= hl_address l < 2 ^ 64 /\ 0 <= hl_length l < 2 ^ 64)
    then Ok (le_encode 4 (hl_magic l) ++ le_encode 2 (hl_version l) ++
             le_encode 8 (hl_address l) ++ le_encode 8 (hl_length l))
    else Err "range"%string;
  from_slice b :=
    Ok (mkLocator (le_decode (slice 0 4 b)) (le_decode (slice 4 2 b)) (le_decode (slice 6 8 b))
          (le_decode (slice 14 8 b)));
|}.
#[export] Instance pack_payload : MsgPack VckHandoverPayload := {|
  to_vec p :=
    if (256 <=? length (hp_partition_guid p))%nat || (65536 <=? Z.of_nat (length (hp_vmk p))) then Err "range"%string else Ok (byte_of (Z.of_nat (length (hp_partition_guid p))) :: hp_partition_guid p ++ hp_vmk p);
  from_slice b :=
    match b with
    | [] => Err "empty"%string
    | n :: b => Ok (mkPayload (take (Z.to_nat (byte_val n)) b) (drop (Z.to_nat (byte_val n)) b))
    end;
|}.

Lemma pack_locator_laws : MsgPackLaws HandoverLocator.
Proof.
  constructor; [| |intros a; cbn; case_decide; done|done].
  2: { intros l b H. cbn [to_vec pack_locator] in H. case_decide; [|done].
       apply Ok_inj in H as <-. rewrite !length_app, !length_le_encode. cbn. lia. }
  intros [m v a l] b H.
  cbn [to_vec from_slice pack_locator hl_magic hl_version hl_address hl_length] in *.
  case_decide as Hr; [|done]. apply Ok_inj in H as <-.
  destruct Hr as (H1 & H2 & H3 & H4). do 2 f_equal.
  - rewrite slice_app_l by len.
    rewrite slice_full by (rewrite length_le_encode; done). apply le_decode_encode_id. done.
  - rewrite slice_app_mid by (rewrite length_le_encode; done). apply le_decode_encode_id. done.
  - rewrite (app_assoc (le_encode 4 m)), slice_app_mid
      by (rewrite ?length_app, ?length_le_encode; done). apply le_decode_encode_id. done.
  - rewrite !app_assoc. rewrite <- (app_nil_r (_ ++ le_encode 8 l)), <- (app_assoc _ (le_encode 8 l)).
    rewrite slice_app_mid by (rewrite ?length_app, ?length_le_encode; done).
    apply le_decode_encode_id. done.
Qed.

Lemma pack_payload_laws : MsgPackLaws VckHandoverPayload.
Proof.
  constructor; [| |intros a; cbn; case_match; done|intros [|]; done].
  2: { intros p b H. cbn [to_vec pack_payload] in H.
       destruct (Nat.leb_spec 256 (length (hp_partition_guid p))); [done|].
       destruct (Z.leb_spec 65536 (Z.of_nat (length (hp_vmk p)))); [done|].
       apply Ok_inj in H as <-. cbn [length]. rewrite length_app. lia. }
  intros [g k] b H. cbn [to_vec pack_payload hp_partition_guid hp_vmk] in H. destruct (Nat.leb_spec 256 (length g)) as [|Hl]; [done|].
  destruct (_ <=? _); [done|]. apply Ok_inj in H as <-. cbn [from_slice pack_payload]. rewrite byte_val_of, Z.mod_small, Nat2Z.id by lia.
  rewrite take_app_length, drop_app_length. done.
Qed.

Definition payload : VckHandoverPayload :=
  mkPayload (replicate 16 Byte.x5a) (replicate 32 Byte.x77).
Definition start : Machine := mkMachine [] [] 4096.
Definition encoded : bytes := Byte.x10 :: hp_partition_guid payload ++ hp_vmk payload.
Definition ran : Machine := fst (install_handover payload start).
End HandoverDemo.

(** ** Properties *)

(** C31: The handover is delivered and wiped. If the loader's [install_handover]
    succeeds with an encoding of at most 64 KiB, then on a platform where the
    buffer can be mapped the driver's [read_handover] returns exactly the
    payload, and the buffer that held the plaintext key is zero afterwards. *)
Theorem handover_delivered_and_wiped {S P} {PF : Platform S} {MP : MsgPack P}
    {HP : HandoverPayload P} {ML : MsgPack HandoverLocator}
    (PL : PlatformLaws S) (LP : MsgPackLaws P) (LL : MsgPackLaws HandoverLocator)
    (payload : P) data s s' :
  encode_payload payload = Ok data -> Z.of_nat (length data) <= MAX_PAYLOAD_LEN ->
  install_handover payload s = (s', Ok tt) ->
  (forall a n, map_ok a n s' = true) -> (forall n, pool_ok n s' = true) ->
  exists a s'', mem_read a (length data) s' = data /\
    read_handover s' = (s'', Ok payload) /\
    mem_read a (length data) s'' = replicate (length data) Byte.x00.
Proof.
  intros Henc Hmax Hinst Hmap Hpool.
  destruct (install_publishes payload data s s' Henc Hinst) as (addr & Hp).
  exists addr. rewrite (published_read payload data addr s' Hp Hmax Hmap Hpool).
  eexists. split; [apply Hp|]. split; [done|].
  rewrite <- (length_replicate (length data) Byte.x00) at 1. apply pl_write.
Qed.

Import HandoverDemo.
Lemma handover_delivered_and_wiped_witness :
  exists a s'', mem_read a 49 HandoverDemo.ran
      = HandoverDemo.encoded /\
    read_handover HandoverDemo.ran = (s'', Ok HandoverDemo.payload) /\
    mem_read a 49 s'' = replicate 49 Byte.x00.
Proof.
  exact (handover_delivered_and_wiped HandoverDemo.laws HandoverDemo.pack_payload_laws
    HandoverDemo.pack_locator_laws HandoverDemo.payload HandoverDemo.encoded HandoverDemo.start
    HandoverDemo.ran ltac:(reflexivity) ltac:(vm_compute; discriminate) ltac:(reflexivity)
    ltac:(reflexivity) ltac:(reflexivity)).
Defined.
