(* ===== verification/Loader.v ===== *)
(** * The UEFI loader ([lib/loader/src], [sample/loader/src/main.rs])

    The Block I/O hook that decrypts the OS volume during boot: the engine, the
    table the callbacks find it through, the patched protocol instances, and the
    sample's boot flow. A protocol instance is addressed by its pointer; its two
    function fields hold either the firmware's function or the hook. Firmware
    functions, the handle database and the memory of the disk are what the
    machine supplies. *)

From S2P Require Import Prelude Types Sectors Engine Nt Pipeline Xts.
From S2P Require Import Metadata Codec Store Config Handover.

(** ** Control registers ([cpu.rs]) *)

(* src: lib/loader/src/cpu.rs:23-26 CR0_MP, CR0_EM, CR4_OSFXSR, CR4_OSXMMEXCPT *)
Definition CR0_MP : Z := Z.shiftl 1 1.
Definition CR0_EM : Z := Z.shiftl 1 2.
Definition CR4_OSFXSR : Z := Z.shiftl 1 9.
Definition CR4_OSXMMEXCPT : Z := Z.shiftl 1 10.

(** The two 64-bit registers, and [mov] to them when the value changes. *)
(* src: lib/loader/src/cpu.rs:74-109 report_and_enable_xmm *)
Definition report_and_enable_xmm (aes : bool) (cr : Z * Z) : Z * Z :=
  let '(cr0, cr4) := cr in
  if negb aes then (cr0, cr4)
  else
    let new_cr0 := Z.land (Z.lor cr0 CR0_MP) (Z.lxor CR0_EM (Z.ones 64)) in
    let new_cr4 := Z.lor (Z.lor cr4 CR4_OSFXSR) CR4_OSXMMEXCPT in
    (if new_cr0 =? cr0 then cr0 else new_cr0, if new_cr4 =? cr4 then cr4 else new_cr4).

(** ** The hook engine ([hook/mod.rs]) *)

(* src: lib/loader/src/provider.rs:22-30 HookGeometry *)
Record HookGeometry : Type := mkHookGeometry {
  hg_partition_guid : Guid;
  hg_offset_sector : Z;
  hg_encrypted_offset : EncryptedOffset;
}.

(** [eng_block_io] is the pointer of the hooked protocol instance. *)
(* src: lib/loader/src/hook/mod.rs:51-62 BlockIoHookEngine *)
Record BlockIoHookEngine : Type := mkHookEngine {
  eng_geometry : HookGeometry;
  eng_cipher_supplier : VolumeCipherSupplier;
  eng_block_io : option nat;
  eng_block_io2 : option unit;
}.

(* src: lib/loader/src/hook/mod.rs:67-77 BlockIoHookEngine::new *)
Definition BlockIoHookEngine_new (g : HookGeometry) (s : VolumeCipherSupplier) :
    VckResult BlockIoHookEngine :=
  Ok (mkHookEngine g s None None).

(** Whether the sector at absolute address [abs] is ciphertext, and its number. *)
Definition hooked_sector (g : HookGeometry) (abs : Z) : option Z :=
  rel ← checked 64 (abs - hg_offset_sector g);
  if eo_total_sectors (hg_encrypted_offset g) <=? rel then None
  else if is_encrypted (hg_encrypted_offset g) rel then Some rel else None.

(** The loop over the sectors of a buffer; [None] is a panic of the cipher. *)
Fixpoint hook_loop (f : Z -> bytes -> option bytes) (g : HookGeometry) (lba i : Z)
    (sectors : list bytes) : option bytes :=
  match sectors with
  | [] => Some []
  | sector :: sectors =>
      sector ← match hooked_sector g (u64_add lba i) with
               | Some rel => f rel sector
               | None => Some sector
               end;
      rest ← hook_loop f g lba (i + 1) sectors;
      Some (sector ++ rest)
  end.

(* src: lib/loader/src/hook/mod.rs:160-189 BlockIoHookEngine::decrypt_after_read *)
Definition decrypt_after_read (e : BlockIoHookEngine) (lba sector_size : Z) (buf : bytes) :
    VckResult bytes :=
  if sector_size =? 0 then Ok buf
  else
    match get_cipher (eng_cipher_supplier e) with
    | None => Ok buf
    | Some cipher =>
        unwrap (hook_loop (decrypt_sector cipher) (eng_geometry e) lba 0
                  (chunks (Z.to_nat sector_size) buf))
    end.

(* src: lib/loader/src/hook/mod.rs:197-227 BlockIoHookEngine::encrypt_before_write *)
Definition encrypt_before_write (e : BlockIoHookEngine) (lba sector_size : Z) (buf : bytes) :
    VckResult bytes :=
  let out := buf in
  if sector_size =? 0 then Ok out
  else
    match get_cipher (eng_cipher_supplier e) with
    | None => Ok out
    | Some cipher =>
        unwrap (hook_loop (encrypt_sector cipher) (eng_geometry e) lba 0
                  (chunks (Z.to_nat sector_size) out))
    end.

(** ** Protocol instances and the hook table ([hook/block_io.rs]) *)

Definition Status : Type := Z.
Definition SUCCESS : Status := 0.
Definition DEVICE_ERROR : Status := 2 ^ 63 + 7.

(** A firmware function takes the media id, the address, the size and the memory
    at [buffer] ([None]: a null pointer). A read also gives that memory back. *)
Definition ReadBlocks (W : Type) : Type :=
  Z -> Z -> nat -> option bytes -> W -> W * (Status * option bytes).
Definition WriteBlocks (W : Type) : Type := Z -> Z -> nat -> option bytes -> W -> W * Status.

(* src: lib/loader/src/hook/block_io.rs:33-47 ReadBlocksFn, WriteBlocksFn *)
Inductive ReadBlocksFn (W : Type) : Type :=
| FirmwareRead (f : ReadBlocks W)
| hooked_read_blocks.
Inductive WriteBlocksFn (W : Type) : Type :=
| FirmwareWrite (f : WriteBlocks W)
| hooked_write_blocks.
Arguments FirmwareRead {W}.
Arguments hooked_read_blocks {W}.
Arguments FirmwareWrite {W}.
Arguments hooked_write_blocks {W}.

(** [media] is the block size of the media record, [None] for a null pointer. *)
Record BlockIoProtocol (W : Type) : Type := mkProtocol {
  read_blocks : ReadBlocksFn W;
  write_blocks : WriteBlocksFn W;
  media : option Z;
}.
Arguments mkProtocol {W}.
Arguments read_blocks {W}.
Arguments write_blocks {W}.
Arguments media {W}.

(** [he_engine] is a pointer, [None] when null. *)
(* src: lib/loader/src/hook/block_io.rs:49-57 HookEntry *)
Record HookEntry (W : Type) : Type := mkHookEntry {
  he_protocol : nat;
  he_original_read : ReadBlocksFn W;
  he_original_write : WriteBlocksFn W;
  he_engine : option nat;
}.
Arguments mkHookEntry {W}.
Arguments he_protocol {W}.
Arguments he_original_read {W}.
Arguments he_original_write {W}.
Arguments he_engine {W}.

(* src: lib/loader/src/hook/block_io.rs:59-59 MAX_HOOKS *)
Definition MAX_HOOKS : nat := 8.

(* src: lib/loader/src/hook/block_io.rs:66-73 HookTable, HOOK_TABLE *)
Definition HookTable (W : Type) : Type := list (option (HookEntry W)).
Definition HOOK_TABLE {W} : HookTable W := replicate MAX_HOOKS None.

(** The machine before [ExitBootServices]: protocol instances and leaked engines
    by address, the table, and the disks behind the firmware. *)
Record Machine (W : Type) : Type := mkMachine {
  protocols : gmap nat (BlockIoProtocol W);
  engines : gmap nat BlockIoHookEngine;
  table : HookTable W;
  disk : W;
}.
Arguments mkMachine {W}.
Arguments protocols {W}.
Arguments engines {W}.
Arguments table {W}.
Arguments disk {W}.

Section Hook.
Context {W : Type}.
Abbreviation LM := (M VckError (Machine W)).

Definition set_protocol (p : nat) (x : BlockIoProtocol W) (m : Machine W) : Machine W :=
  mkMachine (<[p := x]> (protocols m)) (engines m) (table m) (disk m).
Definition set_table (t : HookTable W) (m : Machine W) : Machine W :=
  mkMachine (protocols m) (engines m) t (disk m).
Definition set_engine (a : nat) (e : BlockIoHookEngine) (m : Machine W) : Machine W :=
  mkMachine (protocols m) (<[a := e]> (engines m)) (table m) (disk m).
Definition set_disk (w : W) (m : Machine W) : Machine W :=
  mkMachine (protocols m) (engines m) (table m) w.

(** Follow a pointer the caller promises is live. *)
Definition deref {A} (get : Machine W -> gmap nat A) (p : nat) : LM A :=
  m ← mget; lift (unwrap (get m !! p)).

(* src: lib/loader/src/hook/block_io.rs:76-83 find_entry *)
Fixpoint find_entry (t : HookTable W) (protocol : nat) : option (HookEntry W) :=
  match t with
  | [] => None
  | Some e :: t => if bool_decide (he_protocol e = protocol) then Some e else find_entry t protocol
  | None :: t => find_entry t protocol
  end.

(** Write [e] into the first free slot. *)
Fixpoint fill_slot (e : HookEntry W) (t : HookTable W) : option (HookTable W) :=
  match t with
  | [] => None
  | None :: t => Some (Some e :: t)
  | Some e' :: t => t ← fill_slot e t; Some (Some e' :: t)
  end.

(* src: lib/loader/src/hook/block_io.rs:99-123 BlockIoHook::install *)
Definition BlockIoHook_install (protocol : nat) (engine : option nat) : LM nat :=
  x ← deref protocols protocol;
  let original_read := read_blocks x in
  let original_write := write_blocks x in
  m ← mget;
  t ← lift (ok_or (fill_slot (mkHookEntry protocol original_read original_write engine) (table m))
              (Io "Block IO hook table is full"));
  _ ← mmodify (set_table t);
  _ ← mmodify (set_protocol protocol (mkProtocol hooked_read_blocks hooked_write_blocks (media x)));
  mret protocol.

Definition clear_slots (protocol : nat) (t : HookTable W) : HookTable W :=
  (fun slot => match slot with
               | Some e => if bool_decide (he_protocol e = protocol) then None else Some e
               | None => None
               end) <$> t.

(* src: lib/loader/src/hook/block_io.rs:127-141 BlockIoHook::uninstall *)
Definition BlockIoHook_uninstall (protocol : nat) : LM unit :=
  m ← mget;
  match find_entry (table m) protocol with
  | None => mret tt
  | Some entry =>
      x ← deref protocols protocol;
      _ ← mmodify (set_protocol protocol
                     (mkProtocol (he_original_read entry) (he_original_write entry) (media x)));
      mmodify (fun m => set_table (clear_slots protocol (table m)) m)
  end.

(** Block I/O 2 is a stub: every operation is [todo!()]. *)
(* src: lib/loader/src/hook/block_io2.rs:26-30 BlockIo2Hook::install *)
Definition BlockIo2Hook_install : LM unit := mpanic.
(* src: lib/loader/src/hook/block_io2.rs:33-37 BlockIo2Hook::uninstall *)
Definition BlockIo2Hook_uninstall : LM unit := mpanic.
(* src: lib/loader/src/hook/block_io2.rs:49-51 hooked_read_blocks_ex *)
Definition hooked_read_blocks_ex : LM unit := mpanic.

(** ** Calls through the function fields

    [this] is the protocol pointer. The memory at [buffer] has [buffer_size]
    bytes. The hook calls the function it saved, which is itself the hook if the
    instance was already patched when it was recorded: [depth] bounds the nesting,
    and running out of it is the stack overflow of that cycle. *)

(* src: lib/loader/src/hook/block_io.rs:153-184 hooked_read_blocks *)
Fixpoint call_read (depth : nat) (fn : ReadBlocksFn W) (this : nat) (media_id lba : Z)
    (buffer_size : nat) (buffer : option bytes) : LM (Status * option bytes) :=
  match fn, depth with
  | FirmwareRead f, _ => fun m =>
      let '(w, r) := f media_id lba buffer_size buffer (disk m) in (set_disk w m, Ok r)
  | hooked_read_blocks, O => mpanic
  | hooked_read_blocks, S depth =>
      m ← mget;
      match find_entry (table m) this with
      | None => mret (DEVICE_ERROR, buffer)
      | Some entry =>
          '(status, buffer) ←
            call_read depth (he_original_read entry) this media_id lba buffer_size buffer;
          if negb (status =? SUCCESS) then mret (status, buffer)
          else
            x ← deref protocols this;
            match media x, buffer with
            | Some block_size, Some buf =>
                if (buffer_size =? 0)%nat then mret (status, Some buf)
                else
                  match he_engine entry with
                  | Some engine =>
                      if block_size =? 0 then mret (status, Some buf)
                      else
                        engine ← deref engines engine;
                        buf ← lift (decrypt_after_read engine lba block_size buf);
                        mret (status, Some buf)
                  | None => mret (status, Some buf)
                  end
            | _, _ => mret (status, buffer)
            end
      end
  end.

(* src: lib/loader/src/hook/block_io.rs:196-230 hooked_write_blocks *)
Fixpoint call_write (depth : nat) (fn : WriteBlocksFn W) (this : nat) (media_id lba : Z)
    (buffer_size : nat) (buffer : option bytes) : LM Status :=
  match fn, depth with
  | FirmwareWrite f, _ => fun m =>
      let '(w, status) := f media_id lba buffer_size buffer (disk m) in (set_disk w m, Ok status)
  | hooked_write_blocks, O => mpanic
  | hooked_write_blocks, S depth =>
      m ← mget;
      match find_entry (table m) this with
      | None => mret DEVICE_ERROR
      | Some entry =>
          x ← deref protocols this;
          let original := call_write depth (he_original_write entry) this media_id lba in
          match media x, buffer, he_engine entry with
          | Some block_size, Some buf, Some engine =>
              if (buffer_size =? 0)%nat || (block_size =? 0) then original buffer_size buffer
              else
                engine ← deref engines engine;
                encrypted ← lift (encrypt_before_write engine lba block_size buf);
                original (length encrypted) (Some encrypted)
          | _, _, _ => original buffer_size buffer
          end
      end
  end.

(** The OS loader's calls: whatever function the instance holds now. *)
Definition ReadBlocks_call (this : nat) (media_id lba : Z) (buffer_size : nat)
    (buffer : option bytes) : LM (Status * option bytes) :=
  x ← deref protocols this;
  call_read MAX_HOOKS (read_blocks x) this media_id lba buffer_size buffer.
Definition WriteBlocks_call (this : nat) (media_id lba : Z) (buffer_size : nat)
    (buffer : option bytes) : LM Status :=
  x ← deref protocols this;
  call_write MAX_HOOKS (write_blocks x) this media_id lba buffer_size buffer.

(** ** Installing the engine

    A handle with a Block I/O interface: its GPT partition GUID, if its
    [PartitionInfo] opens and it is a GPT partition; whether Block I/O can be
    opened on it; the interface pointer. *)
Record HookHandle : Type := mkHookHandle {
  hh_gpt_guid : option bytes;
  hh_opens : bool;
  hh_interface : option nat;
}.

Definition handle_matches (from_bytes_le : bytes -> Guid) (target : Guid) (h : HookHandle) : bool :=
  match hh_gpt_guid h with
  | Some g => bool_decide (guid_from_windows_bytes from_bytes_le g = target)
  | None => false
  end.

(* src: lib/loader/src/hook/mod.rs:85-136 BlockIoHookEngine::install *)
Definition engine_install (from_bytes_le : bytes -> Guid)
    (handles : outcome string (list HookHandle)) (self : nat) : LM unit :=
  e ← deref engines self;
  let target := hg_partition_guid (eng_geometry e) in
  handles ← lift (match handles with
                  | Ok hs => Ok hs
                  | Err e => Err (Io ("locate BlockIO handles failed: " +:+ e))
                  | Panic => Panic
                  end);
  match list_find (fun h => handle_matches from_bytes_le target h = true) handles with
  | Some (_, h) =>
      if negb (hh_opens h) then mfail (Io "open BlockIO for hook failed")
      else
        proto ← lift (ok_or (hh_interface h) (Io "BlockIO interface is null"));
        hook ← BlockIoHook_install proto (Some self);
        mmodify (set_engine self (mkHookEngine (eng_geometry e) (eng_cipher_supplier e)
                                    (Some hook) (eng_block_io2 e)))
  | None => mfail (NotFound "no Block IO partition matched the target GUID for hooking")
  end.

(* src: lib/loader/src/hook/mod.rs:143-151 BlockIoHookEngine::uninstall *)
Definition engine_uninstall (self : nat) : LM unit :=
  e ← deref engines self;
  _ ← mmodify (set_engine self (mkHookEngine (eng_geometry e) (eng_cipher_supplier e)
                                  None (eng_block_io2 e)));
  _ ← match eng_block_io e with
      | Some hook => BlockIoHook_uninstall hook
      | None => mret tt
      end;
  _ ← mmodify (fun m => match engines m !! self with
                        | Some e => set_engine self (mkHookEngine (eng_geometry e)
                            (eng_cipher_supplier e) (eng_block_io e) None) m
                        | None => m
                        end);
  match eng_block_io2 e with
  | Some _ => BlockIo2Hook_uninstall
  | None => mret tt
  end.
End Hook.

(** ** The sample loader ([sample/loader/src/main.rs])

    The boot state: the machine, the platform services the handover uses, and the
    control registers. What the firmware gives is an argument: the handle
    database, the content of [vck.json], and whether the next image's device path
    can be built, loaded and started. *)

Record Boot (W S : Type) : Type := mkBoot {
  b_machine : Machine W;
  b_platform : S;
  b_cr : Z * Z;
  b_chainloaded : bool;
}.
Arguments mkBoot {W S}.
Arguments b_machine {W S}.
Arguments b_platform {W S}.
Arguments b_cr {W S}.
Arguments b_chainloaded {W S}.

Record Firmware (W : Type) : Type := mkFirmware {
  fw_aes : bool;
  fw_vck_json : VckResult bytes;
  fw_volumes : outcome string (list (UefiHandle W));
  fw_handles : outcome string (list HookHandle);
  fw_device_path : bytes -> VckResult unit;
  fw_load_image : bool;
  fw_start_image : bool;
  fw_from_bytes_le : bytes -> Guid;
  fw_parse_str : bytes -> option Guid;
}.
Arguments fw_aes {W}.
Arguments fw_vck_json {W}.
Arguments fw_volumes {W}.
Arguments fw_handles {W}.
Arguments fw_device_path {W}.
Arguments fw_load_image {W}.
Arguments fw_start_image {W}.
Arguments fw_from_bytes_le {W}.
Arguments fw_parse_str {W}.

Section Sample.
Context {W S : Type} `{A : AesApi, C : CryptoApi, Platform S, MsgPack VckHandoverPayload,
  MsgPack HandoverLocator}.
Context (fw : Firmware W).
Abbreviation BM := (M VckError (Boot W S)).

Definition on_machine {A} : M VckError (Machine W) A -> BM A :=
  zoom b_machine (fun m b => mkBoot m (b_platform b) (b_cr b) (b_chainloaded b)).
Definition on_platform {A} : M VckError S A -> BM A :=
  zoom b_platform (fun s b => mkBoot (b_machine b) s (b_cr b) (b_chainloaded b)).
Definition on_disk {A} : M VckError W A -> M VckError (Machine W) A :=
  zoom disk set_disk.

(* src: lib/loader/src/lib.rs:45-48 init *)
Definition init : BM unit :=
  mmodify (fun b => mkBoot (b_machine b) (b_platform b)
                      (report_and_enable_xmm (fw_aes fw) (b_cr b)) (b_chainloaded b)).

(** The engine is leaked at an address no other engine has. *)
Definition leak (e : BlockIoHookEngine) : M VckError (Machine W) nat :=
  m ← mget;
  let a := fresh (dom (engines m)) in
  _ ← mmodify (set_engine a e);
  mret a.

(* src: sample/loader/src/main.rs:87-129 install_decrypt_hook *)
Definition install_decrypt_hook (partition_guid : Guid) (vmk : bytes) :
    M VckError (Machine W) unit :=
  io ← lift (locate_block_io_volume (fw_from_bytes_le fw) (fw_volumes fw) partition_guid);
  reader ← on_disk (Reader_open io);
  store ← on_disk (into_store reader vmk (default_select vmk));
  sector ← on_disk (load_offset store);
  let geometry := {|
    hg_partition_guid := partition_guid;
    hg_offset_sector := js_offset_sector store;
    hg_encrypted_offset := mkEncryptedOffset sector (js_data_sector_count store)
  |} in
  let '(key1, key2) := fvek_keys store in
  e ← lift (BlockIoHookEngine_new geometry (static_supplier (static_supplier_new key1 key2)));
  engine ← leak e;
  engine_install (fw_from_bytes_le fw) (fw_handles fw) engine.

(* src: lib/loader/src/chainload.rs:27-42 chainload_next *)
Definition chainload_next : BM unit :=
  if negb (fw_load_image fw) then mfail (Io "LoadImage(next loader) failed")
  else if negb (fw_start_image fw) then mfail (Io "StartImage(next loader) failed")
  else mmodify (fun b => mkBoot (b_machine b) (b_platform b) (b_cr b) true).

(* src: sample/common/src/config.rs:70-85 VckConfig::load_from_esp *)
Definition load_from_esp : VckResult VckConfig :=
  text ← fw_vck_json fw;
  parse_json (fw_parse_str fw) text.

(* src: sample/loader/src/main.rs:55-78 run *)
Definition run : BM unit :=
  _ ← init;
  config ← lift load_from_esp;
  let payload := mkPayload (vc_partition_guid config) (vc_vmk config) in
  _ ← lift (fw_device_path fw (windows_path config));
  _ ← ignore (on_machine (install_decrypt_hook (vc_partition_guid config) (vc_vmk config)));
  _ ← on_platform (install_handover payload);
  chainload_next.

(* src: sample/loader/src/main.rs:36-51 efi_main *)
Definition LOAD_ERROR : Status := 2 ^ 63 + 1.
Definition efi_main (b : Boot W S) : Boot W S * outcome VckError Status :=
  match run b with
  | (b, Ok _) => (b, Ok SUCCESS)
  | (b, Err _) => (b, Ok LOAD_ERROR)
  | (b, Panic) => (b, Panic)
  end.
End Sample.

(** ** The hook's decision, sector by sector *)

(** What the hook does to the sector at absolute address [abs]. *)
Definition hook_one (f : Z -> bytes -> bytes) (g : HookGeometry) (abs : Z) (s : bytes) : bytes :=
  match hooked_sector g abs with Some rel => f rel s | None => s end.

Lemma hooked_sector_iff g abs rel :
  hooked_sector g abs = Some rel <->
  rel = abs - hg_offset_sector g /\ in_u 64 rel /\
  rel < eo_sector (hg_encrypted_offset g) /\ rel < eo_total_sectors (hg_encrypted_offset g).
Proof.
  unfold hooked_sector, is_encrypted. destruct (checked _ _) as [r|] eqn:E; cbn [mbind option_bind].
  - apply checked_some in E as [-> Hr]. zcase; split; intros Hx; simplify_eq; try (split_and!; done || lia); try (f_equal; lia); exfalso; lia.
  - apply checked_none in E. split; [done|]. intros (-> & ? & _). done.
Qed.

Lemma hook_loop_run f F g n sectors :
  (forall rel s, in_u 64 rel -> length s = n -> f rel s = Some (F rel s)) ->
  sectors_of n sectors -> forall lba i, 0 <= lba + i -> lba + i + Z.of_nat (length sectors) <= 2 ^ 64 ->
  hook_loop f g lba i sectors = Some (concat (number_map (hook_one F g) (lba + i) sectors)).
Proof.
  intros Hf. induction 1 as [|s sectors Hs _ IH]; intros lba i H0 Hl; [done|].
  cbn [hook_loop length] in *. rewrite number_map_cons, u64_add_id by lia.
  replace (match hooked_sector g (lba + i) with Some rel => f rel s | None => Some s end)
    with (Some (hook_one F g (lba + i) s)).
  - cbn [mbind option_bind]. rewrite IH by lia. cbn. rewrite Z.add_assoc. done.
  - unfold hook_one. destruct (hooked_sector _ _) as [rel|] eqn:E; [|done].
    apply hooked_sector_iff in E as (_ & Hr & _). rewrite Hf by done. done.
Qed.

Section HookLaws.
Context (c : VolumeCipher) (ss : Z) (enc dec : Z -> bytes -> bytes).
Context `{!CipherLaws c ss enc dec}.
Context (e : BlockIoHookEngine) (Hsup : get_cipher (eng_cipher_supplier e) = Some c).
Let g := eng_geometry e.

Lemma decrypt_after_read_run lba ls :
  sectors_of (Z.to_nat ss) ls -> 0 <= lba -> lba + Z.of_nat (length ls) <= 2 ^ 64 ->
  decrypt_after_read e lba ss (concat ls) = Ok (concat (number_map (hook_one dec g) lba ls)).
Proof using All.
  intros Hs H0 Hl. pose proof (cl_ss (ss:=ss)). unfold decrypt_after_read.
  rewrite (proj2 (Z.eqb_neq _ _)), Hsup, chunks_concat by (done || lia).
  rewrite (hook_loop_run _ dec _ (Z.to_nat ss)); [rewrite Z.add_0_r; done| |done|lia..].
  intros. apply cl_decrypt_sector; done.
Qed.

Lemma encrypt_before_write_run lba ls :
  sectors_of (Z.to_nat ss) ls -> 0 <= lba -> lba + Z.of_nat (length ls) <= 2 ^ 64 ->
  encrypt_before_write e lba ss (concat ls) = Ok (concat (number_map (hook_one enc g) lba ls)).
Proof using All.
  intros Hs H0 Hl. pose proof (cl_ss (ss:=ss)). unfold encrypt_before_write.
  rewrite (proj2 (Z.eqb_neq _ _)), Hsup, chunks_concat by (done || lia).
  rewrite (hook_loop_run _ enc _ (Z.to_nat ss)); [rewrite Z.add_0_r; done| |done|lia..].
  intros. apply cl_encrypt_sector; done.
Qed.

Lemma hook_one_dec_enc abs s :
  length s = Z.to_nat ss -> hook_one dec g abs (hook_one enc g abs s) = s.
Proof using CipherLaws0.
  intros Hs. unfold hook_one. destruct (hooked_sector g abs) as [rel|] eqn:E; [|done].
  apply hooked_sector_iff in E as (_ & Hr & _). apply cl_dec_enc; done.
Qed.

Lemma sectors_of_hook_enc lba ls :
  sectors_of (Z.to_nat ss) ls -> sectors_of (Z.to_nat ss) (number_map (hook_one enc g) lba ls).
Proof using CipherLaws0.
  intros Hs. apply sectors_of_number_map; [done|]. intros i s _ Hl. unfold hook_one.
  destruct (hooked_sector g i); [apply cl_enc_len|]; done.
Qed.

(** Inside the data region the decision is the pipeline's. *)
Lemma hook_one_below f first ls off b :
  hg_offset_sector g = off -> eo_sector (hg_encrypted_offset g) = b -> 0 <= off -> off <= first ->
  first + Z.of_nat (length ls) <= off + eo_total_sectors (hg_encrypted_offset g) ->
  off + eo_total_sectors (hg_encrypted_offset g) <= 2 ^ 64 ->
  number_map (hook_one f g) first ls = number_map (below f b) (first - off) ls.
Proof using.
  intros Ho Hb H0 H1 H2 H3. apply list_eq. intros i. rewrite !lookup_number_map.
  destruct (ls !! i) as [s|] eqn:E; [|done]. apply lookup_lt_Some in E. cbn. f_equal.
  unfold hook_one, below. destruct (hooked_sector g _) as [rel|] eqn:Eh.
  - apply hooked_sector_iff in Eh as (-> & _ & ? & _). rewrite (proj2 (Z.ltb_lt _ _)) by lia.
    f_equal. lia.
  - destruct (Z.ltb_spec (first - off + Z.of_nat i) b); [|done]. exfalso.
    assert (hooked_sector g (first + Z.of_nat i) = Some (first + Z.of_nat i - off)) as Hh; [|congruence].
    apply hooked_sector_iff. unfold in_u. lia.
Qed.
End HookLaws.

(** ** The table *)

Section Table.
Context {W : Type}.
Implicit Types (t : HookTable W) (e : HookEntry W).

Lemma fill_slot_find e t t' p :
  fill_slot e t = Some t' -> find_entry t p = None ->
  find_entry t' p = if bool_decide (he_protocol e = p) then Some e else None.
Proof.
  revert t'. induction t as [|[e'|] t IH]; intros t' Hf Hn; cbn in *; [done| |].
  - destruct (fill_slot e t) as [t1|]; [|done]. cbn in Hf. simplify_eq. cbn.
    case_bool_decide; [done|]. apply IH; done.
  - simplify_eq. cbn. rewrite Hn. done.
Qed.

Lemma fill_slot_none e t : fill_slot e t = None <-> Forall (fun s => is_Some s) t.
Proof.
  induction t as [|[e'|] t IH]; cbn.
  - split; [constructor|intros; done].
  - rewrite Forall_cons. destruct (fill_slot e t); cbn; split; intros Hx; try done.
    + destruct Hx as [_ Hx]. apply IH in Hx. done.
    + split; [eauto|]. apply IH. done.
  - rewrite Forall_cons. split; [done|]. intros [[? ?] _]. done.
Qed.

Lemma clear_slots_id t p : find_entry t p = None -> clear_slots p t = t.
Proof.
  intros Hn. unfold clear_slots. induction t as [|[e|] t IH]; [done| |]; cbn in *.
  - case_bool_decide; [done|]. rewrite IH; done.
  - rewrite IH; done.
Qed.

(** Clearing what was just filled restores the table. *)
Lemma clear_fill e t t' :
  fill_slot e t = Some t' -> find_entry t (he_protocol e) = None ->
  clear_slots (he_protocol e) t' = t.
Proof.
  revert t'. induction t as [|[e'|] t IH]; intros t' Hf Hn; cbn in *; [done| |].
  - destruct (fill_slot e t) as [t1|]; [|done]. cbn in Hf. simplify_eq. cbn.
    case_bool_decide; [done|]. f_equal. apply IH; done.
  - simplify_eq. cbn. rewrite bool_decide_true by done. f_equal. apply clear_slots_id. done.
Qed.

Lemma find_clear p t : find_entry (clear_slots p t) p = None.
Proof.
  unfold clear_slots. induction t as [|[e|] t IH]; [done| |]; cbn; [|done].
  case_bool_decide; cbn; [done|]. rewrite bool_decide_false by done. done.
Qed.

Lemma find_entry_protocol t p e : find_entry t p = Some e -> he_protocol e = p.
Proof.
  induction t as [|[e'|] t IH]; cbn; [done| |done]. case_bool_decide; [|done].
  intros. simplify_eq. done.
Qed.
End Table.

(** ** Firmware over a disk *)

(** Requests inside the disk, with the media's own id, succeed; they read and
    write whole sectors. *)
Class FirmwareLaws {W} (rd : ReadBlocks W) (wr : WriteBlocks W) (media_id ss total : Z)
    (inv : W -> Prop) (view : W -> Z -> bytes) : Prop := {
  fl_total : 0 <= total <= 2 ^ 64;
  fl_len w i : inv w -> 0 <= i < total -> length (view w i) = Z.to_nat ss;
  fl_read w lba k buf :
    inv w -> 0 <= lba -> lba + Z.of_nat k <= total -> length buf = (k * Z.to_nat ss)%nat ->
    exists w', rd media_id lba (k * Z.to_nat ss)%nat (Some buf) w =
        (w', (SUCCESS, Some (concat (read_run (view w) lba k)))) /\
      inv w' /\ forall i, 0 <= i < total -> view w' i = view w i;
  fl_write w lba ls :
    inv w -> 0 <= lba -> lba + Z.of_nat (length ls) <= total -> sectors_of (Z.to_nat ss) ls ->
    exists w', wr media_id lba (length (concat ls)) (Some (concat ls)) w = (w', SUCCESS) /\
      inv w' /\ forall i, 0 <= i < total -> view w' i = write_run (view w) lba ls i;
}.

(** Firmware functions over any sector device. *)
Definition firmware_read {W} (io : SectorIo W) (media : Z) : ReadBlocks W :=
  fun media_id lba n buf w =>
    if negb (media_id =? media) then (w, (DEVICE_ERROR, buf))
    else match read_sectors io lba n w with
         | (w, Ok b) => (w, (SUCCESS, Some b))
         | (w, _) => (w, (DEVICE_ERROR, buf))
         end.
Definition firmware_write {W} (io : SectorIo W) (media : Z) : WriteBlocks W :=
  fun media_id lba _n buf w =>
    if negb (media_id =? media) then (w, DEVICE_ERROR)
    else match buf with
         | None => (w, DEVICE_ERROR)
         | Some b =>
             match write_sectors io lba b w with
             | (w, Ok _) => (w, SUCCESS)
             | (w, _) => (w, DEVICE_ERROR)
             end
         end.

Global Instance firmware_laws {W} (io : SectorIo W) media inv view :
  SectorIoLaws io inv view -> SectorIoReliable io inv ->
  total_sectors io * sector_size io < 2 ^ 32 ->
  FirmwareLaws (firmware_read io media) (firmware_write io media) media (sector_size io)
    (total_sectors io) inv view.
Proof.
  intros Hio Hr Hsm. pose proof (io_ss (io:=io)) as Hss. constructor.
  - pose proof (io_total (io:=io)). lia.
  - apply io_len.
  - intros w lba k buf Hi H0 Hl Hb. unfold firmware_read. rewrite Z.eqb_refl. cbn [negb].
    pose proof (io_read_ok (n:=total_sectors io) (io:=io) w lba k Hi H0 Hl ltac:(nia)) as Hok.
    destruct (read_sectors io lba _ w) as [w' r] eqn:E.
    destruct (io_read (n:=total_sectors io) (io:=io) w lba k w' r Hi H0 Hl E) as (Hi' & Hv & Hd).
    destruct r; [|done..]. subst. eauto.
  - intros w lba ls Hi H0 Hl Hs. unfold firmware_write. rewrite Z.eqb_refl. cbn [negb].
    pose proof (io_write_ok (n:=total_sectors io) (io:=io) w lba ls Hi H0 Hl ltac:(nia) Hs) as Hok.
    destruct (write_sectors io lba _ w) as [w' r] eqn:E.
    destruct (io_write (n:=total_sectors io) (io:=io) w lba ls w' r Hi H0 Hl Hs E) as (Hi' & Hd).
    destruct r; [|done..]. eauto.
Qed.

(** ** A hooked disk *)

(** What a reader of the hooked instance sees at absolute address [abs]. *)
Definition boot_view (dec : Z -> bytes -> bytes) (g : HookGeometry) (v : Z -> bytes) (abs : Z) :
    bytes := hook_one dec g abs (v abs).

Lemma boot_view_data dec g v rel :
  let off := hg_offset_sector g in
  let n := eo_total_sectors (hg_encrypted_offset g) in
  0 <= rel < n -> 0 <= off -> off + n <= 2 ^ 64 ->
  boot_view dec g v (off + rel) = plaintext dec v off (eo_sector (hg_encrypted_offset g)) rel.
Proof.
  intros off n Hr H0 H64. unfold off, n in *. unfold boot_view, hook_one, plaintext.
  destruct (hooked_sector g _) as [r|] eqn:E.
  - apply hooked_sector_iff in E as (-> & _ & ? & _). rewrite (proj2 (Z.ltb_lt _ _)) by lia.
    f_equal. lia.
  - destruct (Z.ltb_spec rel (eo_sector (hg_encrypted_offset g))); [|done]. exfalso.
    assert (hooked_sector g (hg_offset_sector g + rel) = Some rel) as Hx; [|congruence].
    apply hooked_sector_iff. unfold in_u. lia.
Qed.

Lemma boot_view_outside dec g v i :
  let off := hg_offset_sector g in
  i < off \/ off + eo_total_sectors (hg_encrypted_offset g) <= i -> boot_view dec g v i = v i.
Proof.
  intros off Hx. unfold off in *. unfold boot_view, hook_one.
  destruct (hooked_sector g i) as [r|] eqn:E; [|done].
  apply hooked_sector_iff in E as (-> & [? _] & _ & ?). lia.
Qed.

(** Requests the OS loader makes, and what a plain disk answers. *)
Inductive bop : Type :=
| BRead (lba : Z) (buf : bytes)
| BWrite (lba : Z) (sectors : list bytes).

Definition spec_bop (ss : nat) (P : Z -> bytes) (op : bop) : (Z -> bytes) * (Status * option bytes) :=
  match op with
  | BRead lba buf => (P, (SUCCESS, Some (concat (read_run P lba (length buf / ss)))))
  | BWrite lba ls => (write_run P lba ls, (SUCCESS, None))
  end.

Definition bop_ok (ss : nat) (total : Z) (op : bop) : Prop :=
  match op with
  | BRead lba buf => exists k, length buf = (S k * ss)%nat /\ 0 <= lba /\ lba + Z.of_nat (S k) <= total
  | BWrite lba ls =>
      (0 < length ls)%nat /\ sectors_of ss ls /\ 0 <= lba /\ lba + Z.of_nat (length ls) <= total
  end.

Fixpoint spec_bops (ss : nat) (P : Z -> bytes) (ops : list bop) :
    (Z -> bytes) * list (Status * option bytes) :=
  match ops with
  | [] => (P, [])
  | op :: ops =>
      let '(P, r) := spec_bop ss P op in
      let '(P, rs) := spec_bops ss P ops in (P, r :: rs)
  end.

Section Run.
Context {W : Type}.
Definition run_bop (this : nat) (media_id : Z) (op : bop) : M VckError (Machine W) (Status * option bytes) :=
  match op with
  | BRead lba buf => ReadBlocks_call this media_id lba (length buf) (Some buf)
  | BWrite lba ls =>
      st ← WriteBlocks_call this media_id lba (length (concat ls)) (Some (concat ls));
      mret (st, None)
  end.
Fixpoint run_bops (this : nat) (media_id : Z) (ops : list bop) :
    M VckError (Machine W) (list (Status * option bytes)) :=
  match ops with
  | [] => mret []
  | op :: ops =>
      r ← run_bop this media_id op;
      rs ← run_bops this media_id ops;
      mret (r :: rs)
  end.
End Run.

Lemma deref_run {W A B} (get : Machine W -> gmap nat A) p x m (k : A -> M VckError (Machine W) B) :
  get m !! p = Some x -> (deref get p ≫= k) m = k x m.
Proof. intros Hx. unfold deref. rewrite !mbind_run. cbn [mget]. rewrite Hx. done. Qed.

Lemma mget_run {W B} (m : Machine W) (k : Machine W -> M VckError (Machine W) B) :
  (mget ≫= k) m = k m m.
Proof. done. Qed.

(** The firmware's own function runs at any depth. *)
Lemma call_write_firmware {W} d (f : WriteBlocks W) this media_id lba n buf m :
  call_write d (FirmwareWrite f) this media_id lba n buf m =
  let '(w, status) := f media_id lba n buf (disk m) in (set_disk w m, Ok status).
Proof. destruct d; done. Qed.

Lemma call_read_firmware {W} d (f : ReadBlocks W) this media_id lba n buf m :
  call_read d (FirmwareRead f) this media_id lba n buf m =
  let '(w, r) := f media_id lba n buf (disk m) in (set_disk w m, Ok r).
Proof. destruct d; done. Qed.

Section Hooked.
Context {W : Type} (rd : ReadBlocks W) (wr : WriteBlocks W) (media_id ss total : Z)
  (inv : W -> Prop) (view : W -> Z -> bytes).
Context `{!FirmwareLaws rd wr media_id ss total inv view}.
Context (c : VolumeCipher) (enc dec : Z -> bytes -> bytes) `{!CipherLaws c ss enc dec}.
Context (p a : nat) (e : BlockIoHookEngine) (Hsup : get_cipher (eng_cipher_supplier e) = Some c).
Let g := eng_geometry e.

(** The instance at [p] is patched and recorded with engine [a]. [block_io] of
    the engine plays no part in the callbacks. *)
Record hooked (m : Machine W) : Prop := {
  hk_proto : protocols m !! p = Some (mkProtocol hooked_read_blocks hooked_write_blocks (Some ss));
  hk_entry : find_entry (table m) p =
    Some (mkHookEntry p (FirmwareRead rd) (FirmwareWrite wr) (Some a));
  hk_engine : engines m !! a = Some e;
}.

Lemma hooked_set_disk m w : hooked m -> hooked (set_disk w m).
Proof using. intros []. constructor; done. Qed.

Lemma hooked_read m lba k buf :
  hooked m -> inv (disk m) -> 0 <= lba -> lba + Z.of_nat (S k) <= total ->
  length buf = (S k * Z.to_nat ss)%nat ->
  exists w', ReadBlocks_call p media_id lba (length buf) (Some buf) m =
      (set_disk w' m, Ok (SUCCESS,
         Some (concat (read_run (boot_view dec g (view (disk m))) lba (S k))))) /\
    inv w' /\ forall i, 0 <= i < total -> view w' i = view (disk m) i.
Proof using All.
  intros [Hp He Ha] Hi H0 Hl Hb. pose proof (cl_ss (ss:=ss)) as Hss.
  pose proof (fl_total (view:=view)) as Ht.
  destruct (fl_read (disk m) lba (S k) buf Hi H0 Hl Hb) as (w' & Hrd & Hi' & Hv).
  exists w'. split; [|done]. unfold ReadBlocks_call. rewrite (deref_run _ _ _ _ _ Hp).
  change MAX_HOOKS with (S 7). generalize 7%nat as d. intros d. cbn [read_blocks call_read].
  rewrite mget_run, He, mbind_run. cbn [he_original_read].
  rewrite call_read_firmware, Hb, Hrd. change (negb (SUCCESS =? SUCCESS)) with false. cbv iota.
  rewrite (deref_run _ _ _ (set_disk w' m) _ Hp). cbn [media he_engine].
  rewrite (proj2 (Nat.eqb_neq _ 0)), (proj2 (Z.eqb_neq ss 0)) by lia.
  rewrite (deref_run _ _ _ (set_disk w' m) _ Ha), mbind_run. unfold lift at 1.
  rewrite (decrypt_after_read_run c ss enc dec e Hsup); [|  |lia|rewrite length_read_run; lia].
  - unfold mret, M_ret. do 5 f_equal. apply list_eq. intros i. rewrite lookup_number_map.
    destruct (decide (i < S k)%nat); [rewrite !lookup_read_run by done; done|].
    rewrite !(proj2 (lookup_ge_None _ _)); [done|rewrite length_read_run; lia..].
  - apply sectors_of_read_run. intros i Hx. apply fl_len; [done|lia].
Qed.

Lemma hooked_write m lba ls :
  hooked m -> inv (disk m) -> 0 <= lba -> lba + Z.of_nat (length ls) <= total ->
  (0 < length ls)%nat -> sectors_of (Z.to_nat ss) ls ->
  exists w', WriteBlocks_call p media_id lba (length (concat ls)) (Some (concat ls)) m =
      (set_disk w' m, Ok SUCCESS) /\
    inv w' /\ forall i, 0 <= i < total ->
      boot_view dec g (view w') i = write_run (boot_view dec g (view (disk m))) lba ls i.
Proof using All.
  intros [Hp He Ha] Hi H0 Hl Hne Hs. pose proof (cl_ss (ss:=ss)) as Hss.
  pose proof (fl_total (view:=view)) as Ht.
  set (ct := number_map (hook_one enc g) lba ls).
  assert (sectors_of (Z.to_nat ss) ct) as Hct by (apply (sectors_of_hook_enc c ss enc dec e); done).
  assert (length ct = length ls) as Hlc by apply length_number_map.
  destruct (fl_write (disk m) lba ct Hi H0 ltac:(rewrite Hlc; done) Hct) as (w' & Hwr & Hi' & Hv).
  exists w'. split; [|split; [done|]].
  - assert (length (concat ls) <> 0%nat) as Hnz.
    { rewrite (length_concat_sectors _ _ Hs). apply Nat.neq_mul_0. lia. }
    unfold WriteBlocks_call. rewrite (deref_run _ _ _ _ _ Hp).
    change MAX_HOOKS with (S 7). generalize 7%nat as d. intros d. cbn [write_blocks call_write].
    rewrite mget_run, He, (deref_run _ _ _ _ _ Hp). cbn [media he_engine he_original_write].
    rewrite (proj2 (Nat.eqb_neq _ 0)), (proj2 (Z.eqb_neq ss 0))
      by (done || lia).
    cbn [orb]. rewrite (deref_run _ _ _ _ _ Ha), mbind_run. unfold lift.
    rewrite (encrypt_before_write_run c ss enc dec e Hsup) by (done || lia).
    fold g. fold ct. rewrite call_write_firmware, Hwr. done.
  - intros i Hx. unfold boot_view. rewrite Hv by done. unfold write_run. rewrite Hlc.
    destruct ((lba <=? i) && _) eqn:Hin; [|done].
    apply andb_prop in Hin as [H1 H2]. apply Z.leb_le in H1. apply Z.ltb_lt in H2.
    destruct (lookup_lt_is_Some_2 ls (Z.to_nat (i - lba)) ltac:(lia)) as [s Hls].
    assert (ct !! Z.to_nat (i - lba) = Some (hook_one enc g i s)) as Hc.
    { unfold ct. rewrite lookup_number_map, Hls. cbn. do 2 f_equal. lia. }
    rewrite (list_lookup_total_correct _ _ _ Hc), (list_lookup_total_correct _ _ _ Hls).
    apply (hook_one_dec_enc c ss enc dec e). apply (Forall_lookup_1 _ _ _ _ Hs Hls).
Qed.

Definition same_view (P Q : Z -> bytes) : Prop := forall i, 0 <= i < total -> P i = Q i.

Lemma spec_bop_same P Q op :
  bop_ok (Z.to_nat ss) total op -> same_view P Q ->
  (spec_bop (Z.to_nat ss) P op).2 = (spec_bop (Z.to_nat ss) Q op).2 /\
  same_view (spec_bop (Z.to_nat ss) P op).1 (spec_bop (Z.to_nat ss) Q op).1.
Proof using CipherLaws0.
  pose proof (cl_ss (ss:=ss)). intros Hop Hs. destruct op as [lba buf|lba ls];
    cbn [spec_bop bop_ok fst snd] in *.
  - destruct Hop as (k & Hk & H0 & Hl). split; [|done]. rewrite Hk, Nat.div_mul by lia.
    rewrite (read_run_ext P Q); [done|]. intros i Hi. apply Hs. lia.
  - split; [done|]. intros i Hi. unfold write_run. destruct (_ && _); [done|]. apply Hs. done.
Qed.

Lemma spec_bops_same P Q ops :
  Forall (bop_ok (Z.to_nat ss) total) ops -> same_view P Q ->
  (spec_bops (Z.to_nat ss) P ops).2 = (spec_bops (Z.to_nat ss) Q ops).2 /\
  same_view (spec_bops (Z.to_nat ss) P ops).1 (spec_bops (Z.to_nat ss) Q ops).1.
Proof using CipherLaws0.
  intros Hops. revert P Q. induction Hops as [|op ops Hop _ IH]; intros P Q Hs; [done|].
  cbn [spec_bops]. destruct (spec_bop_same P Q op Hop Hs) as [Hr Hs1].
  destruct (spec_bop _ P op) as [P1 r1], (spec_bop _ Q op) as [Q1 r2]. cbn in Hr, Hs1. subst r2.
  destruct (IH P1 Q1 Hs1) as [Hrs Hs2].
  destruct (spec_bops _ P1 ops), (spec_bops _ Q1 ops). cbn in *. subst. done.
Qed.

Lemma hooked_bops ops m :
  hooked m -> inv (disk m) -> Forall (bop_ok (Z.to_nat ss) total) ops ->
  exists w', run_bops p media_id ops m =
      (set_disk w' m, Ok (spec_bops (Z.to_nat ss) (boot_view dec g (view (disk m))) ops).2) /\
    inv w' /\ same_view (boot_view dec g (view w'))
                (spec_bops (Z.to_nat ss) (boot_view dec g (view (disk m))) ops).1.
Proof using All.
  intros Hh Hi Hops. revert m Hh Hi. induction Hops as [|op ops Hop Hops IH]; intros m Hh Hi.
  { exists (disk m). split; [destruct m; done|]. done. }
  assert (exists w1, run_bop p media_id op m =
      (set_disk w1 m, Ok (spec_bop (Z.to_nat ss) (boot_view dec g (view (disk m))) op).2) /\
    inv w1 /\ same_view (boot_view dec g (view w1))
                (spec_bop (Z.to_nat ss) (boot_view dec g (view (disk m))) op).1)
    as (w1 & Hr & Hi1 & Hs1).
  { pose proof (cl_ss (ss:=ss)). destruct op as [lba buf|lba ls]; cbn [bop_ok] in Hop.
    - destruct Hop as (k & Hk & H0 & Hl).
      destruct (hooked_read m lba k buf Hh Hi H0 Hl Hk) as (w1 & Hr & Hi1 & Hv).
      exists w1. cbn [run_bop spec_bop fst snd]. rewrite Hr, Hk, Nat.div_mul by lia.
      split; [done|]. split; [done|]. intros i Hx. unfold boot_view. rewrite Hv; done.
    - destruct Hop as (Hne & Hs & H0 & Hl).
      destruct (hooked_write m lba ls Hh Hi H0 Hl Hne Hs) as (w1 & Hr & Hi1 & Hv).
      exists w1. cbn [run_bop spec_bop fst snd]. rewrite mbind_run, Hr. done. }
  destruct (IH (set_disk w1 m) (hooked_set_disk _ _ Hh) Hi1) as (w2 & Hr2 & Hi2 & Hs2).
  cbn [disk set_disk] in Hr2, Hs2. exists w2. cbn [run_bops spec_bops].
  rewrite mbind_run, Hr, mbind_run, Hr2.
  destruct (spec_bop _ _ op) as [P1 r1]. cbn [fst snd] in *.
  destruct (spec_bops_same _ _ ops Hops Hs1) as [He' Hs'].
  destruct (spec_bops _ P1 ops) as [P2 rs]. cbn [fst snd] in *.
  split; [rewrite He'; destruct m; done|]. split; [done|].
  intros i Hx. rewrite Hs2 by done. apply Hs'. done.
Qed.
End Hooked.

(** ** Installing *)

Section Install.
Context {W : Type} (from_bytes_le : bytes -> Guid) (handles : list HookHandle).
Implicit Types (m : Machine W) (e : BlockIoHookEngine).

(** The handle the engine hooks: the first that matches. *)
Definition target_handle (e : BlockIoHookEngine) : option HookHandle :=
  snd <$> list_find (fun h => handle_matches from_bytes_le (hg_partition_guid (eng_geometry e)) h = true)
            handles.

Definition with_block_io (b : option nat) (e : BlockIoHookEngine) : BlockIoHookEngine :=
  mkHookEngine (eng_geometry e) (eng_cipher_supplier e) b (eng_block_io2 e).

(** The machine after instance [p], now holding [x], is hooked by engine [a]. *)
Definition patched (p a : nat) (x : BlockIoProtocol W) (e : BlockIoHookEngine) (t : HookTable W)
    (m : Machine W) : Machine W :=
  mkMachine (<[p := mkProtocol hooked_read_blocks hooked_write_blocks (media x)]> (protocols m))
    (<[a := with_block_io (Some p) e]> (engines m)) t (disk m).

Lemma engine_install_run m a e :
  engines m !! a = Some e ->
  engine_install from_bytes_le (Ok handles) a m =
  match target_handle e with
  | None => (m, Err (NotFound "no Block IO partition matched the target GUID for hooking"))
  | Some h =>
      if negb (hh_opens h) then (m, Err (Io "open BlockIO for hook failed"))
      else match hh_interface h with
           | None => (m, Err (Io "BlockIO interface is null"))
           | Some p =>
               match protocols m !! p with
               | None => (m, Panic)
               | Some x =>
                   match fill_slot (mkHookEntry p (read_blocks x) (write_blocks x) (Some a)) (table m) with
                   | None => (m, Err (Io "Block IO hook table is full"))
                   | Some t => (patched p a x e t m, Ok tt)
                   end
               end
           end
  end.
Proof.
  intros Ha. unfold engine_install. rewrite (deref_run _ _ _ _ _ Ha), mbind_run.
  unfold lift at 1. unfold target_handle. destruct (list_find _ _) as [[i h]|]; [|done].
  cbn [fmap option_fmap option_map snd]. destruct (hh_opens h); [|done]. cbn [negb].
  rewrite mbind_run. unfold lift at 1. destruct (hh_interface h) as [p|]; [|done]. cbn [ok_or].
  rewrite mbind_run. unfold BlockIoHook_install.
  destruct (protocols m !! p) as [x|] eqn:Hp.
  - rewrite (deref_run _ _ _ _ _ Hp), mget_run, mbind_run. unfold lift.
    destruct (fill_slot _ _) as [t|]; [|done]. done.
  - unfold deref. rewrite !mbind_run. cbn [mget]. rewrite Hp. done.
Qed.

Lemma engine_uninstall_run m a e p x entry :
  engines m !! a = Some e -> eng_block_io e = Some p -> eng_block_io2 e = None ->
  find_entry (table m) p = Some entry -> protocols m !! p = Some x ->
  engine_uninstall a m =
  (mkMachine
     (<[p := mkProtocol (he_original_read entry) (he_original_write entry) (media x)]> (protocols m))
     (<[a := with_block_io None e]> (engines m)) (clear_slots p (table m)) (disk m), Ok tt).
Proof.
  intros Ha Hb Hb2 Hf Hp. unfold engine_uninstall. rewrite (deref_run _ _ _ _ _ Ha), mbind_run.
  cbn [mmodify]. rewrite Hb, mbind_run. unfold BlockIoHook_uninstall. rewrite mget_run.
  cbn [table set_engine]. rewrite Hf. rewrite (deref_run _ _ x) by done.
  rewrite mbind_run. cbn [mmodify]. rewrite mbind_run. cbn [mmodify]. rewrite Hb2.
  unfold mret, M_ret. cbn [engines set_table set_protocol set_engine protocols table disk].
  rewrite lookup_insert_eq. unfold set_engine. cbn [engines protocols table disk set_table set_protocol].
  rewrite insert_insert_eq. unfold with_block_io. rewrite Hb2. done.
Qed.
End Install.

(** ** A small machine *)

Module LoaderDemo.
(** Six sectors of two bytes, data region [1, 5), encrypted up to sector 2. *)
Definition guid : Guid := [Byte.x07].
Definition geometry : HookGeometry := mkHookGeometry guid 1 (mkEncryptedOffset 2 4).
Definition engine : BlockIoHookEngine :=
  mkHookEngine geometry (mkSupplier (Some ShiftCipher.cipher)) None None.
Definition proto : BlockIoProtocol MemVolume :=
  mkProtocol (FirmwareRead (firmware_read EngineDemo.io 3)) (FirmwareWrite (firmware_write EngineDemo.io 3)) (Some 2).
Definition handles : list HookHandle :=
  [mkHookHandle None true (Some 4%nat); mkHookHandle (Some guid) true (Some 5%nat)].
Definition start : Machine MemVolume :=
  mkMachine {[5%nat := proto]} {[9%nat := engine]} HOOK_TABLE EngineDemo.disk.
Definition installed : Machine MemVolume := fst (engine_install id (Ok handles) 9 start).

Lemma firmware : FirmwareLaws (firmware_read EngineDemo.io 3) (firmware_write EngineDemo.io 3) 3 2 6
  (mem_inv 12) (mem_view 2).
Proof. exact (firmware_laws EngineDemo.io 3 _ _ EngineDemo.io_laws EngineDemo.io_reliable eq_refl). Qed.
Lemma start_live h p :
  target_handle id handles engine = Some h -> hh_interface h = Some p ->
  is_Some (protocols start !! p) /\ find_entry (table start) p = None.
Proof.
  intros H1 H2. change (Some (mkHookHandle (Some guid) true (Some 5%nat)) = Some h) in H1.
  simplify_eq. cbn in H2. simplify_eq. split; [by eexists|done].
Qed.
Definition ops : list bop :=
  [BRead 0 (replicate 12 Byte.x00);
   BWrite 1 [[byte_of 21; byte_of 22]; [byte_of 31; byte_of 32]; [byte_of 41; byte_of 42]];
   BRead 1 (replicate 8 Byte.x00)].
Lemma boot_ops_ok : Forall (bop_ok 2 6) ops.
Proof.
  repeat constructor; cbn; try lia.
  - exists 5%nat. cbn. lia.
  - exists 3%nat. cbn. lia.
Qed.
End LoaderDemo.

(** ** Properties *)

(** The boot hook and the running driver agree. For any request, the hook
    decrypts after a read and encrypts before a write exactly the sectors whose
    data-relative number is below the boundary, and touches no other; on a
    request inside the data region this is the result of the driver's pipeline at
    the same boundary. *)
Theorem hook_agrees_with_driver (c : VolumeCipher) ss enc dec (e : BlockIoHookEngine) lba ls :
  CipherLaws c ss enc dec -> get_cipher (eng_cipher_supplier e) = Some c ->
  sectors_of (Z.to_nat ss) ls -> 0 <= lba -> lba + Z.of_nat (length ls) <= 2 ^ 64 ->
  let g := eng_geometry e in
  let off := hg_offset_sector g in
  let b := eo_sector (hg_encrypted_offset g) in
  let total := eo_total_sectors (hg_encrypted_offset g) in
  decrypt_after_read e lba ss (concat ls) = Ok (concat (number_map (hook_one dec g) lba ls)) /\
  encrypt_before_write e lba ss (concat ls) = Ok (concat (number_map (hook_one enc g) lba ls)) /\
  (0 <= off <= lba -> lba + Z.of_nat (length ls) <= off + total -> off + total <= 2 ^ 64 ->
   decrypt_after_read e lba ss (concat ls) =
     unwrap (decrypt_read (mkPipeline c) (lba - off) b (concat ls) ss) /\
   encrypt_before_write e lba ss (concat ls) =
     unwrap (encrypt_write (mkPipeline c) (lba - off) b (concat ls) ss)).
Proof.
  intros Hc Hsup Hs H0 Hl g off b total.
  rewrite (decrypt_after_read_run c ss enc dec e Hsup) by done.
  rewrite (encrypt_before_write_run c ss enc dec e Hsup) by done.
  split; [done|]. split; [done|]. intros Ho Hin Ht.
  rewrite (decrypt_read_sectors (mkPipeline c) ss enc dec) by (done || lia).
  rewrite (encrypt_write_sectors (mkPipeline c) ss enc dec) by (done || lia).
  cbn [unwrap]. split; f_equal; f_equal; apply (hook_one_below e); done || lia.
Qed.

Lemma hook_agrees_with_driver_witness :
  let ls := [[Byte.x01; Byte.x02]; [Byte.x03; Byte.x04]; [Byte.x05; Byte.x06]] in
  let e := LoaderDemo.engine in
  let g := LoaderDemo.geometry in
  decrypt_after_read e 2 2 (concat ls) = Ok (concat (number_map (hook_one ShiftCipher.dec g) 2 ls)) /\
  encrypt_before_write e 2 2 (concat ls) = Ok (concat (number_map (hook_one ShiftCipher.enc g) 2 ls)) /\
  (0 <= 1 <= 2 -> 2 + 3 <= 1 + 4 -> 1 + 4 <= 2 ^ 64 ->
   decrypt_after_read e 2 2 (concat ls) =
     unwrap (decrypt_read (mkPipeline ShiftCipher.cipher) (2 - 1) 2 (concat ls) 2) /\
   encrypt_before_write e 2 2 (concat ls) =
     unwrap (encrypt_write (mkPipeline ShiftCipher.cipher) (2 - 1) 2 (concat ls) 2)).
Proof.
  exact (hook_agrees_with_driver ShiftCipher.cipher 2 ShiftCipher.enc ShiftCipher.dec
    LoaderDemo.engine 2 [[Byte.x01; Byte.x02]; [Byte.x03; Byte.x04]; [Byte.x05; Byte.x06]]
    (ShiftCipher.laws 2 (conj eq_refl eq_refl)) eq_refl ltac:(repeat constructor) ltac:(lia)
    ltac:(cbn; lia)).
Defined.

(** C8: a hooked OS volume is a plaintext disk for whoever boots from it. Once
    the engine is installed on working firmware, any sequence of [ReadBlocks] and
    [WriteBlocks] calls through the patched instance returns what a plain disk
    holding the presented view returns, and leaves that disk's content; the view
    is the plaintext the driver presents in the data region and the raw sectors
    outside it. *)
Theorem hooked_volume_is_plaintext_disk {W} (rd : ReadBlocks W) (wr : WriteBlocks W)
    media_id ss total inv view c enc dec from_bytes_le handles h p a e m m1 ops :
  FirmwareLaws rd wr media_id ss total inv view -> CipherLaws c ss enc dec ->
  engines m !! a = Some e -> get_cipher (eng_cipher_supplier e) = Some c ->
  target_handle from_bytes_le handles e = Some h -> hh_interface h = Some p ->
  protocols m !! p = Some (mkProtocol (FirmwareRead rd) (FirmwareWrite wr) (Some ss)) ->
  find_entry (table m) p = None ->
  engine_install from_bytes_le (Ok handles) a m = (m1, Ok tt) ->
  inv (disk m) -> Forall (bop_ok (Z.to_nat ss) total) ops ->
  let g := eng_geometry e in
  let off := hg_offset_sector g in
  let b := eo_sector (hg_encrypted_offset g) in
  let n := eo_total_sectors (hg_encrypted_offset g) in
  (exists w', run_bops p media_id ops m1 =
      (set_disk w' m1, Ok (spec_bops (Z.to_nat ss) (boot_view dec g (view (disk m))) ops).2) /\
    inv w' /\ same_view total (boot_view dec g (view w'))
                (spec_bops (Z.to_nat ss) (boot_view dec g (view (disk m))) ops).1) /\
  (forall v rel, 0 <= rel < n -> 0 <= off -> off + n <= 2 ^ 64 ->
    boot_view dec g v (off + rel) = plaintext dec v off b rel) /\
  (forall v i, i < off \/ off + n <= i -> boot_view dec g v i = v i).
Proof.
  intros Hf Hc Ha Hsup Ht Hh Hp Hn Hinst Hi Hops g off b n. split; [|split].
  - rewrite (engine_install_run _ _ _ _ _ Ha), Ht, Hh, Hp in Hinst.
    destruct (hh_opens h); [|done]. cbn [negb] in Hinst.
    destruct (fill_slot _ _) as [t|] eqn:Et; [|done]. simplify_eq.
    set (m1 := patched _ _ _ _ _ _).
    refine (hooked_bops rd wr media_id ss total inv view c enc dec p a (with_block_io (Some p) e)
              Hsup ops m1 _ Hi Hops).
    constructor; unfold m1, patched; cbn [protocols engines table].
    + apply lookup_insert_eq.
    + rewrite (fill_slot_find _ _ _ _ Et Hn), bool_decide_true by done. done.
    + apply lookup_insert_eq.
  - intros. apply boot_view_data; done.
  - intros. apply boot_view_outside; done.
Qed.

Lemma hooked_volume_is_plaintext_disk_witness :
  let g := LoaderDemo.geometry in
  let P := boot_view ShiftCipher.dec g (mem_view 2 EngineDemo.disk) in
  (exists w', run_bops 5 3 LoaderDemo.ops LoaderDemo.installed =
      (set_disk w' LoaderDemo.installed, Ok (spec_bops 2 P LoaderDemo.ops).2) /\
    mem_inv 12 w' /\
    same_view 6 (boot_view ShiftCipher.dec g (mem_view 2 w')) (spec_bops 2 P LoaderDemo.ops).1) /\
  (forall v rel, 0 <= rel < 4 -> 0 <= 1 -> 1 + 4 <= 2 ^ 64 ->
    boot_view ShiftCipher.dec g v (1 + rel) = plaintext ShiftCipher.dec v 1 2 rel) /\
  (forall v i, i < 1 \/ 1 + 4 <= i -> boot_view ShiftCipher.dec g v i = v i).
Proof.
  exact (hooked_volume_is_plaintext_disk (firmware_read EngineDemo.io 3)
    (firmware_write EngineDemo.io 3) 3 2 6 (mem_inv 12) (mem_view 2) ShiftCipher.cipher
    ShiftCipher.enc ShiftCipher.dec id LoaderDemo.handles
    (mkHookHandle (Some LoaderDemo.guid) true (Some 5%nat)) 5 9 LoaderDemo.engine LoaderDemo.start
    LoaderDemo.installed LoaderDemo.ops LoaderDemo.firmware EngineDemo.cipher_laws
    eq_refl eq_refl eq_refl eq_refl eq_refl eq_refl eq_refl eq_refl LoaderDemo.boot_ops_ok).
Defined.

(** The hook is installed completely or not at all, and can be taken back.
    [install] either fails with the machine unchanged (no handle with the target
    GUID, a handle that does not open, a null interface, a full table) or patches
    exactly the first matching instance; [uninstall] then restores both function
    fields, the hook table and the engine. *)
Theorem hook_install_is_reversible {W} from_bytes_le handles (m : Machine W) a e :
  engines m !! a = Some e -> eng_block_io e = None -> eng_block_io2 e = None ->
  (forall h p, target_handle from_bytes_le handles e = Some h -> hh_interface h = Some p ->
     is_Some (protocols m !! p) /\ find_entry (table m) p = None) ->
  match engine_install from_bytes_le (Ok handles) a m with
  | (m1, Ok _) =>
      (exists h p x t, target_handle from_bytes_le handles e = Some h /\ hh_interface h = Some p /\
         protocols m !! p = Some x /\ m1 = patched p a x e t m) /\
      engine_uninstall a m1 = (m, Ok tt)
  | (m1, Err _) =>
      m1 = m /\
      (target_handle from_bytes_le handles e = None \/
       exists h, target_handle from_bytes_le handles e = Some h /\
         (hh_opens h = false \/ hh_interface h = None \/ Forall (fun s => is_Some s) (table m)))
  | (_, Panic) => False
  end.
Proof.
  intros Ha Hb Hb2 Hlive. rewrite (engine_install_run _ _ _ _ _ Ha).
  destruct (target_handle _ _ _) as [h|] eqn:Ht; [|auto].
  destruct (hh_opens h) eqn:Ho; cbn [negb]; [|eauto 6].
  destruct (hh_interface h) as [p|] eqn:Hh; [|eauto 7].
  destruct (Hlive h p eq_refl Hh) as [[x Hx] Hn]. rewrite Hx.
  destruct (fill_slot _ _) as [t|] eqn:Et.
  - split; [by eauto 10|].
    rewrite (engine_uninstall_run (patched p a x e t m) a (with_block_io (Some p) e) p
      (mkProtocol hooked_read_blocks hooked_write_blocks (media x))
      (mkHookEntry p (read_blocks x) (write_blocks x) (Some a)));
      unfold patched; cbn [engines protocols table disk]; rewrite ?lookup_insert_eq; try done.
    + f_equal. destruct m as [ps es tb d]. cbn [engines protocols table disk] in *. f_equal.
      * rewrite insert_insert_eq. apply insert_id. rewrite Hx. destruct x; done.
      * rewrite insert_insert_eq. apply insert_id. rewrite Ha. unfold with_block_io. cbn.
        destruct e. cbn in *. subst. done.
      * apply (clear_fill _ _ _ Et). done.
    + rewrite (fill_slot_find _ _ _ _ Et Hn), bool_decide_true by done. done.
  - apply fill_slot_none in Et. eauto 8.
Qed.

Lemma hook_install_is_reversible_witness :
  match engine_install id (Ok LoaderDemo.handles) 9 LoaderDemo.start with
  | (m1, Ok _) =>
      (exists h p x t, target_handle id LoaderDemo.handles LoaderDemo.engine = Some h /\
         hh_interface h = Some p /\ protocols LoaderDemo.start !! p = Some x /\
         m1 = patched p 9 x LoaderDemo.engine t LoaderDemo.start) /\
      engine_uninstall 9 m1 = (LoaderDemo.start, Ok tt)
  | (m1, Err _) =>
      m1 = LoaderDemo.start /\
      (target_handle id LoaderDemo.handles LoaderDemo.engine = None \/
       exists h, target_handle id LoaderDemo.handles LoaderDemo.engine = Some h /\
         (hh_opens h = false \/ hh_interface h = None \/
          Forall (fun s => is_Some s) (table LoaderDemo.start)))
  | (_, Panic) => False
  end.
Proof.
  exact (hook_install_is_reversible id LoaderDemo.handles LoaderDemo.start 9 LoaderDemo.engine
    eq_refl eq_refl eq_refl LoaderDemo.start_live).
Defined.

(** ** The boot flow *)

Section BootFlow.
Context {W S : Type} `{A : AesApi, C : CryptoApi, Platform S, MsgPack VckHandoverPayload,
  MsgPack HandoverLocator}.
Context (fw : Firmware W).

Lemma on_disk_keeps {B} (x : M VckError W B) m m' r :
  on_disk x m = (m', r) ->
  protocols m' = protocols m /\ engines m' = engines m /\ table m' = table m.
Proof.
  unfold on_disk, zoom. destruct (x (disk m)) as [w o]. intros. simplify_eq. done.
Qed.

(** A hook that cannot be installed leaves every instance and the table alone;
    an installed one patches a single instance, and the engine behind it carries
    what the metadata store reported. *)
Lemma install_decrypt_hook_effect guid vmk m m' r :
  install_decrypt_hook fw guid vmk m = (m', r) ->
  match r with
  | Ok _ => exists p x, protocols m !! p = Some x /\
      protocols m' = <[p := mkProtocol hooked_read_blocks hooked_write_blocks (media x)]> (protocols m)
  | _ => protocols m' = protocols m /\ table m' = table m
  end.
Proof.
  unfold install_decrypt_hook. rewrite mbind_run. unfold lift at 1.
  destruct (locate_block_io_volume _ _ _) as [io| |]; intros Hr; [|by simplify_eq..].
  rewrite mbind_run in Hr. destruct (on_disk (Reader_open io) m) as [m1 r1] eqn:E1.
  destruct (on_disk_keeps _ _ _ _ E1) as (P1 & G1 & T1).
  destruct r1 as [reader| |]; [|by simplify_eq..].
  rewrite mbind_run in Hr. destruct (on_disk (into_store _ _ _) m1) as [m2 r2] eqn:E2.
  destruct (on_disk_keeps _ _ _ _ E2) as (P2 & G2 & T2).
  destruct r2 as [store| |]; [|simplify_eq; split; congruence..].
  rewrite mbind_run in Hr. destruct (on_disk (load_offset store) m2) as [m3 r3] eqn:E3.
  destruct (on_disk_keeps _ _ _ _ E3) as (P3 & G3 & T3).
  destruct r3 as [sector| |]; [|simplify_eq; split; congruence..].
  destruct (fvek_keys store) as [k1 k2]. rewrite mbind_run in Hr. unfold lift in Hr at 1.
  cbn [BlockIoHookEngine_new] in Hr. rewrite mbind_run in Hr. unfold leak in Hr.
  rewrite mbind_run in Hr. cbn [mget] in Hr. rewrite mbind_run in Hr. cbn [mmodify] in Hr.
  unfold mret, M_ret in Hr. set (a := fresh _) in Hr. set (e := mkHookEngine _ _ _ _) in Hr.
  assert (engines (set_engine a e m3) !! a = Some e) as Ha by apply lookup_insert_eq.
  destruct (fw_handles fw) as [hs|err|].
  - rewrite (engine_install_run _ hs _ _ e Ha) in Hr.
    destruct (target_handle _ _ _) as [h|]; [|simplify_eq; split; cbn; congruence].
    destruct (hh_opens h); cbn [negb] in Hr; [|simplify_eq; split; cbn; congruence].
    destruct (hh_interface h) as [p|]; [|simplify_eq; split; cbn; congruence].
    destruct (protocols _ !! p) as [x|] eqn:Hx; [|simplify_eq; split; cbn; congruence].
    destruct (fill_slot _ _) as [t|]; [|simplify_eq; split; cbn; congruence].
    simplify_eq. exists p, x. cbn in *. split; congruence.
  - unfold engine_install in Hr. rewrite (deref_run _ _ _ _ _ Ha), mbind_run in Hr.
    cbn in Hr. simplify_eq. split; cbn; congruence.
  - unfold engine_install in Hr. rewrite (deref_run _ _ _ _ _ Ha), mbind_run in Hr.
    cbn in Hr. simplify_eq. split; cbn; congruence.
Qed.

Lemma ignore_on_machine {B} (x : M VckError (Machine W) B) (b : Boot W S) m o :
  x (b_machine b) = (m, o) -> o <> Panic ->
  ignore (on_machine x) b = (mkBoot m (b_platform b) (b_cr b) (b_chainloaded b), Ok tt).
Proof. intros Hx Ho. unfold ignore, on_machine, zoom. rewrite Hx. destruct o; done. Qed.

(** The loader's run, given what installing the hook did. *)
Lemma run_ok (b : Boot W S) config m o s :
  load_from_esp fw = Ok config -> fw_device_path fw (windows_path config) = Ok tt ->
  install_decrypt_hook fw (vc_partition_guid config) (vc_vmk config) (b_machine b) = (m, o) ->
  o <> Panic ->
  install_handover (mkPayload (vc_partition_guid config) (vc_vmk config)) (b_platform b) = (s, Ok tt) ->
  fw_load_image fw = true -> fw_start_image fw = true ->
  run fw b = (mkBoot m s (report_and_enable_xmm (fw_aes fw) (b_cr b)) true, Ok tt).
Proof.
  intros Hc Hd Hh Ho Hi Hl Hs.
  unfold run, init. rewrite mbind_run. cbn [mmodify]. rewrite mbind_run. unfold lift at 1.
  rewrite Hc, mbind_run. unfold lift at 1. rewrite Hd, mbind_run.
  rewrite (ignore_on_machine _ _ m o) by done. rewrite mbind_run.
  cbn [b_machine b_platform b_cr b_chainloaded]. unfold on_platform at 1, zoom. cbn [b_platform].
  rewrite Hi. unfold chainload_next. rewrite Hl, Hs. done.
Qed.
End BootFlow.

(** The boot goes on without a hook. When the volume has no usable metadata
    yet, so that installing the hook fails, the loader still publishes the
    handover and starts the next loader, with every Block I/O instance as the
    firmware left it; when the hook installs, exactly one instance is patched and
    stays patched for the next loader. *)
Theorem boot_continues_without_footer {W S} {A : AesApi} {C : CryptoApi} {PF : Platform S}
    {MP : MsgPack VckHandoverPayload} {ML : MsgPack HandoverLocator} (fw : Firmware W)
    (b : Boot W S) config m o s :
  load_from_esp fw = Ok config -> fw_device_path fw (windows_path config) = Ok tt ->
  install_decrypt_hook fw (vc_partition_guid config) (vc_vmk config) (b_machine b) = (m, o) ->
  o <> Panic ->
  install_handover (mkPayload (vc_partition_guid config) (vc_vmk config)) (b_platform b) = (s, Ok tt) ->
  fw_load_image fw = true -> fw_start_image fw = true ->
  run fw b = (mkBoot m s (report_and_enable_xmm (fw_aes fw) (b_cr b)) true, Ok tt) /\
  match o with
  | Ok _ => exists p x, protocols (b_machine b) !! p = Some x /\
      protocols m = <[p := mkProtocol hooked_read_blocks hooked_write_blocks (media x)]>
                      (protocols (b_machine b))
  | _ => protocols m = protocols (b_machine b) /\ table m = table (b_machine b)
  end.
Proof.
  intros Hc Hd Hh Ho Hi Hl Hs. split; [|apply (install_decrypt_hook_effect fw _ _ _ _ _ Hh)].
  apply (run_ok fw b config m o s); done.
Qed.

Import HandoverDemo.
Module BootDemo.
Definition config : VckConfig :=
  mkConfig (lit "0f77") [Byte.x00; Byte.xff] (lit "/EFI/x").
(** A machine whose volume is not there: the hook cannot be installed. *)
Definition fw : Firmware MemVolume := {|
  fw_aes := true;
  fw_vck_json := Ok (render (config_object (lit "0f77") [Byte.x00; Byte.xff] (lit "/EFI/x")));
  fw_volumes := Ok [];
  fw_handles := Ok LoaderDemo.handles;
  fw_device_path _ := Ok tt;
  fw_load_image := true;
  fw_start_image := true;
  fw_from_bytes_le := id;
  fw_parse_str g := Some g;
|}.
Definition boot : Boot MemVolume HandoverDemo.Machine :=
  mkBoot LoaderDemo.start HandoverDemo.start (4, 0) false.

Lemma config_read : load_from_esp fw = Ok config.
Proof. vm_compute. reflexivity. Qed.
Lemma no_volume `{A : AesApi, C : CryptoApi} :
  install_decrypt_hook fw (vc_partition_guid config) (vc_vmk config) LoaderDemo.start =
  (LoaderDemo.start, Err (NotFound "no Block IO partition matched the target GUID")).
Proof. reflexivity. Qed.
Definition published : HandoverDemo.Machine * VckResult unit :=
  install_handover (mkPayload (vc_partition_guid config) (vc_vmk config)) HandoverDemo.start.
Lemma published_ok : published = (fst published, Ok tt).
Proof. vm_compute. reflexivity. Qed.
End BootDemo.

Lemma boot_continues_without_footer_witness :
  run (A:=ToyAes.api) (C:=ToyCrypto.api) BootDemo.fw BootDemo.boot =
    (mkBoot LoaderDemo.start
       (fst BootDemo.published)
       (report_and_enable_xmm true (4, 0)) true, Ok tt) /\
  (protocols LoaderDemo.start = protocols LoaderDemo.start /\
   table LoaderDemo.start = table LoaderDemo.start).
Proof.
  exact (boot_continues_without_footer (A:=ToyAes.api) (C:=ToyCrypto.api) BootDemo.fw BootDemo.boot
    BootDemo.config LoaderDemo.start
    (Err (NotFound "no Block IO partition matched the target GUID")) (fst BootDemo.published)
    BootDemo.config_read eq_refl BootDemo.no_volume ltac:(discriminate) BootDemo.published_ok
    eq_refl eq_refl).
Defined.
