(* ===== verification/Registry.v ===== *)
(** * The registry of attached volumes ([lib/windrv/src/registry.rs])

    The map from volume paths to attached volumes, the filters AddDevice made,
    and the boot handover. Volumes are shared objects, so the map holds their
    addresses in a heap. The [BTreeMap] is an association list kept in the byte
    order of its keys, which is the order its iterators run in. *)

From stdpp Require Import sorting.
From S2P Require Import Prelude Types Nt Volume.

(** ** [BTreeMap<String, _>] *)

Section BTreeMap.
Context {V : Type}.
Implicit Types m : list (string * V).

Fixpoint bt_get (k : string) m : option V :=
  match m with
  | [] => None
  | (k', v) :: m =>
      match String.compare k k' with
      | Lt => None
      | Eq => Some v
      | Gt => bt_get k m
      end
  end.

Fixpoint bt_insert (k : string) (v : V) m : list (string * V) :=
  match m with
  | [] => [(k, v)]
  | (k', v') :: m' =>
      match String.compare k k' with
      | Lt => (k, v) :: m
      | Eq => (k, v) :: m'
      | Gt => (k', v') :: bt_insert k v m'
      end
  end.

Fixpoint bt_remove (k : string) m : list (string * V) :=
  match m with
  | [] => []
  | (k', v') :: m' =>
      match String.compare k k' with
      | Lt => m
      | Eq => m'
      | Gt => (k', v') :: bt_remove k m'
      end
  end.

Definition key_lt (p q : string * V) : Prop := String.compare p.1 q.1 = Lt.
Definition bt_sorted m : Prop := StronglySorted key_lt m.

Definition to_gmap m : gmap string V := list_to_map m.

Lemma compare_refl a : String.compare a a = Eq.
Proof.
  induction a as [|c a IH]; cbn; [done|]. unfold Ascii.compare. rewrite N.compare_refl. done.
Qed.

Lemma compare_lt_le a b : String.compare a b = Lt <-> String.le a b /\ a <> b.
Proof.
  unfold String.le, String.leb. destruct (String.compare a b) eqn:E; cbn; split; try done.
  - intros [_ H]. apply String.compare_eq_iff in E. done.
  - intros _. split; [done|]. intros ->. rewrite compare_refl in E. done.
  - intros [H _]. done.
Qed.

Lemma compare_lt_trans a b c :
  String.compare a b = Lt -> String.compare b c = Lt -> String.compare a c = Lt.
Proof.
  rewrite !compare_lt_le. intros [H1 N1] [H2 N2]. split; [etrans; eassumption|].
  intros ->. apply N1. apply (anti_symm String.le); done.
Qed.

Lemma compare_gt_lt a b : String.compare a b = Gt <-> String.compare b a = Lt.
Proof. rewrite (String.compare_antisym a b). destruct (String.compare b a); done. Qed.

(** A key below every key of the map is not in it. *)
Lemma to_gmap_below k m :
  Forall (fun p => String.compare k p.1 = Lt) m -> to_gmap m !! k = None.
Proof.
  intros H. apply not_elem_of_list_to_map_1. intros Hin.
  apply list_elem_of_fmap in Hin as ((k' & v) & -> & Hin).
  rewrite Forall_forall in H. specialize (H _ Hin). cbn in H. rewrite compare_refl in H. done.
Qed.

Lemma sorted_below k p m :
  bt_sorted (p :: m) -> String.compare k p.1 = Lt ->
  Forall (fun q => String.compare k q.1 = Lt) (p :: m).
Proof.
  intros Hs Hk. apply StronglySorted_inv in Hs as [_ Hf]. constructor; [done|].
  eapply Forall_impl; [exact Hf|]. intros q Hq. eapply compare_lt_trans; done.
Qed.

Lemma bt_get_gmap k m : bt_sorted m -> bt_get k m = to_gmap m !! k.
Proof.
  induction m as [|[k' v] m IH]; intros Hs; [done|]. cbn [bt_get].
  destruct (String.compare k k') eqn:E.
  - apply String.compare_eq_iff in E as ->. unfold to_gmap. cbn. rewrite lookup_insert_eq. done.
  - rewrite to_gmap_below; [done|]. eapply sorted_below; done.
  - rewrite IH by (apply StronglySorted_inv in Hs as [? _]; done).
    unfold to_gmap. cbn. rewrite lookup_insert_ne; [done|]. intros ->.
    rewrite compare_refl in E. done.
Qed.

Lemma bt_insert_gmap k v m : to_gmap (bt_insert k v m) = <[k := v]> (to_gmap m).
Proof.
  induction m as [|[k' v'] m IH]; [done|]. cbn [bt_insert].
  destruct (String.compare k k') eqn:E; [|done|].
  - apply String.compare_eq_iff in E as ->. unfold to_gmap. cbn. rewrite insert_insert_eq. done.
  - unfold to_gmap in *. cbn. rewrite IH. rewrite insert_insert_ne; [done|].
    intros ->. rewrite compare_refl in E. done.
Qed.

Lemma bt_remove_gmap k m : bt_sorted m -> to_gmap (bt_remove k m) = delete k (to_gmap m).
Proof.
  induction m as [|[k' v'] m IH]; intros Hs; [done|]. cbn [bt_remove].
  pose proof (StronglySorted_inv Hs) as [Hs' Hf].
  destruct (String.compare k k') eqn:E.
  - apply String.compare_eq_iff in E as ->. unfold to_gmap at 2. cbn.
    rewrite delete_insert_eq, delete_id; [done|]. apply to_gmap_below. exact Hf.
  - rewrite delete_id; [done|]. apply to_gmap_below. eapply sorted_below; done.
  - unfold to_gmap in *. cbn. rewrite IH by done. rewrite delete_insert_ne; [done|].
    intros ->. rewrite compare_refl in E. done.
Qed.

Lemma Forall_bt_insert (P : string * V -> Prop) k v m :
  P (k, v) -> Forall P m -> Forall P (bt_insert k v m).
Proof.
  intros Hk. induction 1 as [|[k' v'] m Hp Hm IH]; cbn [bt_insert]; [auto|].
  destruct (String.compare k k'); auto.
Qed.

Lemma Forall_bt_remove (P : string * V -> Prop) k m : Forall P m -> Forall P (bt_remove k m).
Proof.
  induction 1 as [|[k' v'] m Hp Hm IH]; cbn [bt_remove]; [auto|].
  destruct (String.compare k k'); auto.
Qed.

Lemma bt_insert_sorted k v m : bt_sorted m -> bt_sorted (bt_insert k v m).
Proof.
  induction 1 as [|[k' v'] m Hs IH Hf]; cbn [bt_insert]; [repeat constructor|].
  destruct (String.compare k k') eqn:E.
  - apply String.compare_eq_iff in E as ->. constructor; done.
  - constructor; [constructor; done|]. apply sorted_below with (m := m); [constructor; done|done].
  - constructor; [done|]. apply Forall_bt_insert; [|done]. apply compare_gt_lt. done.
Qed.

Lemma bt_remove_sorted k m : bt_sorted m -> bt_sorted (bt_remove k m).
Proof.
  induction 1 as [|[k' v'] m Hs IH Hf]; cbn [bt_remove]; [constructor|].
  destruct (String.compare k k') eqn:E; [done|constructor; done|].
  constructor; [done|]. apply Forall_bt_remove. done.
Qed.

(** Lookups after an update, on sorted maps. *)
Lemma bt_get_insert k k' v m :
  bt_sorted m -> bt_get k (bt_insert k' v m) = if decide (k = k') then Some v else bt_get k m.
Proof.
  intros Hs. rewrite !bt_get_gmap by auto using bt_insert_sorted. rewrite bt_insert_gmap.
  case_decide as Hk; [subst; apply lookup_insert_eq|apply lookup_insert_ne; auto].
Qed.

Lemma bt_get_remove k k' m :
  bt_sorted m -> bt_get k (bt_remove k' m) = if decide (k = k') then None else bt_get k m.
Proof.
  intros Hs. rewrite !bt_get_gmap by auto using bt_remove_sorted. rewrite bt_remove_gmap by done.
  case_decide as Hk; [subst; apply lookup_delete_eq|apply lookup_delete_ne; auto].
Qed.

Lemma bt_sorted_NoDup m : bt_sorted m -> NoDup m.*1.
Proof.
  induction 1 as [|[k v] m Hs IH Hf]; cbn; constructor; [|done].
  intros Hin. apply list_elem_of_fmap in Hin as ((k' & v') & Hk & Hin). cbn in Hk. subst k'.
  rewrite Forall_forall in Hf. specialize (Hf _ Hin). unfold key_lt in Hf.
  rewrite compare_refl in Hf. done.
Qed.

Lemma bt_get_elem k v m : bt_sorted m -> bt_get k m = Some v <-> (k, v) ∈ m.
Proof.
  intros Hs. rewrite bt_get_gmap by done. unfold to_gmap.
  symmetry. apply elem_of_list_to_map. apply bt_sorted_NoDup. done.
Qed.
End BTreeMap.

(** ** The registry *)

(* src: lib/windrv/src/registry.rs:24-30 HandoverInfo *)
Record HandoverInfo : Type := mkHandoverInfo { hi_partition_guid : Guid; hi_vmk : bytes }.

(* src: lib/windrv/src/registry.rs:59-65 PdoFilterEntry *)
Record PdoFilterEntry : Type := mkPdoFilter {
  pf_pdo : PDEVICE_OBJECT;
  pf_filter_do : PDEVICE_OBJECT;
  pf_lower_do : PDEVICE_OBJECT;
  pf_pdo_name : string;
}.

(** [rg_entries] holds addresses; [rg_driver_object] is whether the driver object
    is set. *)
(* src: lib/windrv/src/registry.rs:69-81 VolumeAttachRegistry *)
Record VolumeAttachRegistry : Type := mkRegistry {
  rg_entries : list (string * nat);
  rg_driver_object : option nat;
  rg_pdo_filters : list PdoFilterEntry;
  rg_handover : option HandoverInfo;
}.

(* src: lib/windrv/src/registry.rs:114-121 VolumeAttachRegistry::new *)
Definition registry_new : VolumeAttachRegistry := mkRegistry [] None [] None.

Definition set_entries (es : list (string * nat)) (r : VolumeAttachRegistry) :
    VolumeAttachRegistry :=
  mkRegistry es (rg_driver_object r) (rg_pdo_filters r) (rg_handover r).

(* src: lib/windrv/src/registry.rs:124-130 VolumeAttachRegistry::set_handover *)
Definition set_handover (info : HandoverInfo) (r : VolumeAttachRegistry) : VolumeAttachRegistry :=
  mkRegistry (rg_entries r) (rg_driver_object r) (rg_pdo_filters r) (Some info).

(* src: lib/windrv/src/registry.rs:138-152 VolumeAttachRegistry::add_pdo_filter *)
Definition add_pdo_filter (pdo filter_do lower_do : PDEVICE_OBJECT) (pdo_name : string)
    (r : VolumeAttachRegistry) : VolumeAttachRegistry :=
  mkRegistry (rg_entries r) (rg_driver_object r)
    (rg_pdo_filters r ++ [mkPdoFilter pdo filter_do lower_do pdo_name]) (rg_handover r).

(** The first entry that satisfies [p]. *)
Definition first_pdo (p : PdoFilterEntry -> bool) (r : VolumeAttachRegistry) :
    option PdoFilterEntry :=
  snd <$> list_find (fun e => p e = true) (rg_pdo_filters r).

(* src: lib/windrv/src/registry.rs:156-164 VolumeAttachRegistry::pdo_name_for_filter *)
Definition pdo_name_for_filter (filter_do : PDEVICE_OBJECT) (r : VolumeAttachRegistry) :
    option string :=
  pf_pdo_name <$>
    first_pdo (fun e => bool_decide (pf_filter_do e = filter_do)
                        && negb (bool_decide (pf_pdo_name e = ""%string))) r.

(* src: lib/windrv/src/registry.rs:167-178 VolumeAttachRegistry::find_pdo_filter *)
Definition find_pdo_filter (dev : PDEVICE_OBJECT) (r : VolumeAttachRegistry) :
    option (PDEVICE_OBJECT * PDEVICE_OBJECT) :=
  (fun e => (pf_filter_do e, pf_lower_do e)) <$>
    first_pdo (fun e => bool_decide (pf_pdo e = dev) || bool_decide (pf_lower_do e = dev)) r.

Definition normalized (path : string) : string :=
  to_ascii_lowercase (trim_end_matches backslash path).

(* src: lib/windrv/src/registry.rs:183-197 VolumeAttachRegistry::find_pdo_filter_by_name *)
Definition find_pdo_filter_by_name (nt_path : string) (r : VolumeAttachRegistry) :
    option (PDEVICE_OBJECT * PDEVICE_OBJECT) :=
  (fun e => (pf_filter_do e, pf_lower_do e)) <$>
    first_pdo (fun e => bool_decide (normalized (pf_pdo_name e) = normalized nt_path)) r.

(* src: lib/windrv/src/registry.rs:200-202 VolumeAttachRegistry::set_driver_object *)
Definition set_driver_object (driver : option nat) (r : VolumeAttachRegistry) :
    VolumeAttachRegistry :=
  mkRegistry (rg_entries r) driver (rg_pdo_filters r) (rg_handover r).

(* src: lib/windrv/src/registry.rs:214-216 VolumeAttachRegistry::get *)
Definition registry_get (volume_path : string) (r : VolumeAttachRegistry) : option nat :=
  bt_get volume_path (rg_entries r).

(* src: lib/windrv/src/registry.rs:232-234 VolumeAttachRegistry::remove *)
Definition registry_remove (volume_path : string) (r : VolumeAttachRegistry) :
    VolumeAttachRegistry * option nat :=
  (set_entries (bt_remove volume_path (rg_entries r)) r, bt_get volume_path (rg_entries r)).

(* src: lib/windrv/src/registry.rs:237-239 VolumeAttachRegistry::all *)
Definition registry_all (r : VolumeAttachRegistry) : list nat := (rg_entries r).*2.

Section Registry.
Context {W : Type}.
Implicit Types (heap : gmap nat (AttachedVolume W)) (r : VolumeAttachRegistry).

(** The volume is filed under its own path; [a] is its address. *)
(* src: lib/windrv/src/registry.rs:208-212 VolumeAttachRegistry::insert *)
Definition registry_insert (a : nat) (v : AttachedVolume W) r : VolumeAttachRegistry :=
  set_entries (bt_insert (av_volume_path v) a (rg_entries r)) r.

Definition on_heap (p : AttachedVolume W -> bool) heap (a : nat) : bool :=
  match heap !! a with Some v => p v | None => false end.

(* src: lib/windrv/src/registry.rs:221-230 VolumeAttachRegistry::get_by_filter *)
Definition get_by_filter heap (filter_do : PDEVICE_OBJECT) r : option nat :=
  match filter_do with
  | None => None
  | Some _ =>
      snd <$> list_find (fun a => on_heap (fun v => bool_decide (av_filter_device v = filter_do))
                                    heap a = true) (registry_all r)
  end.

(* src: lib/windrv/src/registry.rs:244-249 VolumeAttachRegistry::has_encrypted_os_volume *)
Definition has_encrypted_os_volume heap r : bool :=
  existsb (on_heap (fun v => is_os_volume v && has_encrypted_data v) heap) (registry_all r).

(** *** The invariant: a sorted map that files every volume under its path *)

Record registry_wf heap r : Prop := {
  rw_sorted : bt_sorted (rg_entries r);
  rw_filed k a : (k, a) ∈ rg_entries r ->
    exists v, heap !! a = Some v /\ av_volume_path v = k;
}.

Lemma registry_new_wf heap : registry_wf heap registry_new.
Proof. constructor; cbn; [constructor|set_solver]. Qed.

Lemma elem_of_bt_insert k v p (m : list (string * nat)) :
  p ∈ bt_insert k v m -> p = (k, v) \/ p ∈ m.
Proof.
  induction m as [|[k1 v1] m IH]; cbn [bt_insert]; [rewrite list_elem_of_singleton; auto|].
  destruct (String.compare k k1); rewrite ?elem_of_cons; [tauto|tauto|].
  intros [?|Hin]; [tauto|]. destruct (IH Hin); tauto.
Qed.

Lemma elem_of_bt_remove k p (m : list (string * nat)) : p ∈ bt_remove k m -> p ∈ m.
Proof.
  induction m as [|[k1 v1] m IH]; cbn [bt_remove]; [done|].
  destruct (String.compare k k1); rewrite ?elem_of_cons; tauto.
Qed.

Lemma registry_insert_wf heap r a v :
  registry_wf heap r -> heap !! a = Some v -> registry_wf heap (registry_insert a v r).
Proof.
  intros [Hs Hf] Ha. constructor; cbn.
  - apply bt_insert_sorted. done.
  - intros k b Hin. apply elem_of_bt_insert in Hin as [[= -> ->]|Hin]; eauto.
Qed.

Lemma registry_remove_wf heap r k : registry_wf heap r -> registry_wf heap (registry_remove k r).1.
Proof.
  intros [Hs Hf]. constructor; cbn; [apply bt_remove_sorted; done|].
  intros k' a Hin. eauto using elem_of_bt_remove.
Qed.

(** An update of the heap that keeps the paths of its volumes. *)
Definition heap_le heap heap' : Prop :=
  forall a v, heap !! a = Some v -> exists v', heap' !! a = Some v' /\ av_volume_path v' = av_volume_path v.

Lemma registry_heap_wf heap heap' r : heap_le heap heap' -> registry_wf heap r -> registry_wf heap' r.
Proof.
  intros Hle [Hs Hf]. constructor; [done|]. intros k a Hin.
  destruct (Hf k a Hin) as (v & Ha & Hk). destruct (Hle a v Ha) as (v' & Ha' & Hk').
  exists v'. split; [done|]. congruence.
Qed.

Lemma registry_get_filed heap r k a :
  registry_wf heap r -> registry_get k r = Some a ->
  exists v, heap !! a = Some v /\ av_volume_path v = k.
Proof. intros [Hs Hf] H. apply Hf. apply bt_get_elem; done. Qed.

Lemma registry_get_insert heap r a v k :
  registry_wf heap r ->
  registry_get k (registry_insert a v r) =
    if decide (k = av_volume_path v) then Some a else registry_get k r.
Proof. intros [Hs _]. apply bt_get_insert. done. Qed.

Lemma registry_get_remove heap r k k' :
  registry_wf heap r ->
  registry_get k (registry_remove k' r).1 = if decide (k = k') then None else registry_get k r.
Proof. intros [Hs _]. apply bt_get_remove. done. Qed.

Lemma elem_of_all r a : a ∈ registry_all r <-> exists k, (k, a) ∈ rg_entries r.
Proof.
  unfold registry_all. rewrite list_elem_of_fmap. split.
  - intros ((k & b) & -> & H). eauto.
  - intros (k & H). exists (k, a). done.
Qed.
End Registry.
