(* ===== verification/Manager.v ===== *)
(** * Filter devices ([lib/windrv/src/filter/manager.rs])

    The driver's state: the registry, the volumes, the extensions of its device
    objects, the requests it completed, and the world. The kernel is a record of
    functions over the part [W0] of the world that holds the devices; volumes and
    their stores run over [P * W0], where [P] is the provider's own state. A
    pointer to a device object the driver has deleted is a [Panic]. *)

From S2P Require Import Prelude Types Sectors Engine Nt Pipeline Volume Thread Filter Io Registry.

(** ** The kernel

    A call returns its status and the pointer it fills in. [k_query_name] is the
    name [ObQueryNameString] returns in UTF-16 units, [None] if it fails or is
    empty; [k_foreign_ext] is what the first fields of another driver's extension
    read as ([kind] and [lower_device]), [None] if that driver has none. *)
Record Kernel (W0 : Type) : Type := mkKernel {
  k_create_device : W0 -> W0 * (Z * PDEVICE_OBJECT);
  k_delete_device : nat -> W0 -> W0;
  k_get_device_pointer : string -> W0 -> W0 * (Z * PDEVICE_OBJECT);
  k_attach : nat -> PDEVICE_OBJECT -> W0 -> W0 * (Z * PDEVICE_OBJECT);
  k_detach : nat -> W0 -> W0;
  k_attachment_base : nat -> W0 -> PDEVICE_OBJECT;
  k_attached : nat -> W0 -> PDEVICE_OBJECT;
  k_lower : nat -> W0 -> PDEVICE_OBJECT;
  k_query_name : nat -> W0 -> option (list Z);
  k_foreign_ext : nat -> W0 -> option (Z * PDEVICE_OBJECT);
  k_create_thread : W0 -> bool;
  k_device : nat -> Device W0;
  k_create_file : string -> W0 -> W0 * option (FileHandle W0);
  k_open_raw : string -> W0 -> W0 * option (FileHandle W0);
  k_related_device : FileHandle W0 -> W0 -> PDEVICE_OBJECT;
}.
Arguments mkKernel {W0}.
Arguments k_create_device {W0}.
Arguments k_delete_device {W0}.
Arguments k_get_device_pointer {W0}.
Arguments k_attach {W0}.
Arguments k_detach {W0}.
Arguments k_attachment_base {W0}.
Arguments k_attached {W0}.
Arguments k_lower {W0}.
Arguments k_query_name {W0}.
Arguments k_foreign_ext {W0}.
Arguments k_create_thread {W0}.
Arguments k_device {W0}.
Arguments k_create_file {W0}.
Arguments k_open_raw {W0}.
Arguments k_related_device {W0}.

(** ** The driver's state

    [dr_devices] holds the extensions of the driver's own device objects. *)
Record Driver (P W0 : Type) : Type := mkDriver {
  dr_registry : VolumeAttachRegistry;
  dr_heap : gmap nat (AttachedVolume (P * W0));
  dr_devices : gmap nat DeviceExtension;
  dr_completed : list IRP;
  dr_world : P * W0;
}.
Arguments mkDriver {P W0}.
Arguments dr_registry {P W0}.
Arguments dr_heap {P W0}.
Arguments dr_devices {P W0}.
Arguments dr_completed {P W0}.
Arguments dr_world {P W0}.

Section Driver.
Context {P W0 : Type}.
Abbreviation DM := (M VckError (Driver P W0)).
Implicit Types s : Driver P W0.

Definition with_registry (r : VolumeAttachRegistry) s : Driver P W0 :=
  mkDriver r (dr_heap s) (dr_devices s) (dr_completed s) (dr_world s).
Definition with_heap (h : gmap nat (AttachedVolume (P * W0))) s : Driver P W0 :=
  mkDriver (dr_registry s) h (dr_devices s) (dr_completed s) (dr_world s).
Definition with_devices (d : gmap nat DeviceExtension) s : Driver P W0 :=
  mkDriver (dr_registry s) (dr_heap s) d (dr_completed s) (dr_world s).
Definition with_completed (c : list IRP) s : Driver P W0 :=
  mkDriver (dr_registry s) (dr_heap s) (dr_devices s) c (dr_world s).
Definition with_world (w : P * W0) s : Driver P W0 :=
  mkDriver (dr_registry s) (dr_heap s) (dr_devices s) (dr_completed s) w.

(** Calls on the parts of the state. *)
Definition registry : DM VolumeAttachRegistry := fun s => (s, Ok (dr_registry s)).
Definition upd_registry (f : VolumeAttachRegistry -> VolumeAttachRegistry) : DM unit :=
  mmodify (fun s => with_registry (f (dr_registry s)) s).
Definition world {A} (m : M VckError (P * W0) A) : DM A :=
  zoom dr_world with_world m.
Definition kworld {A} (m : M VckError W0 A) : DM A := world (on_snd m).
Definition kcall {A} (f : W0 -> W0 * A) : DM A :=
  kworld (fun w => let '(w, a) := f w in (w, Ok a)).
Definition kread {A} (f : W0 -> A) : DM A := kworld (fun w => (w, Ok (f w))).

(** [Arc::new] of a volume; [Arc] counts are not modelled, so nothing is freed. *)
Definition arc_new (v : AttachedVolume (P * W0)) : DM nat := fun s =>
  let a := fresh (dom (dr_heap s)) in (with_heap (<[a := v]> (dr_heap s)) s, Ok a).
Definition volume_at (a : nat) : DM (AttachedVolume (P * W0)) := fun s =>
  (s, unwrap (dr_heap s !! a)).
Definition set_volume (a : nat) (v : AttachedVolume (P * W0)) : DM unit :=
  mmodify (fun s => with_heap (<[a := v]> (dr_heap s)) s).
(** Run a method of the volume at [a]. *)
Definition upd_volume {A} (a : nat)
    (m : M VckError (AttachedVolume (P * W0) * (P * W0)) A) : DM A := fun s =>
  match dr_heap s !! a with
  | None => (s, Panic)
  | Some v =>
      let '((v', w'), o) := m (v, dr_world s) in
      (with_world w' (with_heap (<[a := v']> (dr_heap s)) s), o)
  end.

(** The extension of a device object of the driver. *)
Definition ext_of (d : PDEVICE_OBJECT) : DM (nat * DeviceExtension) := fun s =>
  (s, unwrap (d ← d; e ← dr_devices s !! d; Some (d, e))).
Definition set_ext (d : nat) (e : DeviceExtension) : DM unit :=
  mmodify (fun s => with_devices (<[d := e]> (dr_devices s)) s).
Definition log_completed (l : list IRP) : DM unit :=
  mmodify (fun s => with_completed (dr_completed s ++ l) s).
End Driver.

(** The name of a device object: at most 64 units, the unprintable ones replaced. *)
Definition name_char (c : Z) : Ascii.ascii :=
  if (0x20 <=? c) && (c <? 0x7F) then Ascii.ascii_of_nat (Z.to_nat c) else Ascii.ascii_of_nat 63.
Definition device_name (units : option (list Z)) : string :=
  match units with
  | None => EmptyString
  | Some units => foldr (fun c s => String (name_char c) s) EmptyString (take 64 units)
  end.

Section Manager.
Context {P W0 : Type} (K : Kernel W0).
Abbreviation DM := (M VckError (Driver P W0)).

(** ** Creating and attaching filter devices *)

(** [IoCreateDevice]; the kernel zeroes the extension. *)
Definition create_filter_device (err : string) : DM nat :=
  '(status, filter_do) ← kcall (k_create_device K);
  if negb (nt_success status) then mfail (Io err)
  else
    d ← lift (unwrap filter_do);
    _ ← set_ext d (mkExt 0 None None None);
    mret d.

(** [IoDeleteDevice]. *)
Definition delete_device (d : nat) : DM unit :=
  _ ← kcall (fun w => (k_delete_device K d w, tt));
  mmodify (fun s => with_devices (delete d (dr_devices s)) s).

(** [IoGetDeviceObjectPointer] on behalf of the new filter [d]. *)
Definition resolve_target (d : nat) (target_nt_path err : string) : DM PDEVICE_OBJECT :=
  '(status, target_do) ← kcall (k_get_device_pointer K target_nt_path);
  if negb (nt_success status) then (_ ← delete_device d; mfail (Io err)) else mret target_do.

(** [IoAttachDeviceToDeviceStackSafe]; the device below the filter. *)
Definition attach_above (d : nat) (target_do : PDEVICE_OBJECT) (err : string) : DM nat :=
  '(status, lower) ← kcall (k_attach K d target_do);
  match nt_success status, lower with
  | true, Some lower => mret lower
  | _, _ => _ ← delete_device d; mfail (Io err)
  end.

(** [volume_thread::bind] on the extension of [d]. *)
Definition bind_thread (filter_do : PDEVICE_OBJECT) (volume : nat) : DM unit :=
  '(d, ext) ← ext_of filter_do;
  v ← volume_at volume;
  created ← kread (k_create_thread K);
  set_ext d (mkExt (de_kind ext) (de_lower_device ext) (de_volume ext)
    (bind created (de_vthread ext) volume
       (match cipher_supplier v with Some _ => true | None => false end))).

(* src: lib/windrv/src/filter/manager.rs:57-127 attach_filter *)
Definition attach_filter (target_nt_path : string) (volume : nat) : DM (PDEVICE_OBJECT * PDEVICE_OBJECT) :=
  d ← create_filter_device "IoCreateDevice(filter) failed";
  target_do ← resolve_target d target_nt_path "IoGetDeviceObjectPointer(target) failed";
  lower ← attach_above d target_do "IoAttachDeviceToDeviceStackSafe failed";
  _ ← set_ext d (mkExt DEVICE_KIND_FILTER (Some lower) (Some volume) None);
  _ ← bind_thread (Some d) volume;
  mret (Some d, Some lower).

(* src: lib/windrv/src/filter/manager.rs:137-199 attach_filter_unbound *)
Definition attach_filter_unbound (target_nt_path : string) : DM (PDEVICE_OBJECT * PDEVICE_OBJECT) :=
  d ← create_filter_device "IoCreateDevice(filter) failed";
  target_do ← resolve_target d target_nt_path "IoGetDeviceObjectPointer(unbound) failed";
  lower ← attach_above d target_do "IoAttachDeviceToDeviceStackSafe(unbound) failed";
  _ ← set_ext d (mkExt DEVICE_KIND_FILTER (Some lower) None None);
  mret (Some d, Some lower).

(* src: lib/windrv/src/filter/manager.rs:206-248 attach_filter_to_raw_device *)
Definition attach_filter_to_raw_device (target_do : PDEVICE_OBJECT) :
    DM (PDEVICE_OBJECT * PDEVICE_OBJECT) :=
  d ← create_filter_device "IoCreateDevice(filter-raw) failed";
  lower ← attach_above d target_do "IoAttachDeviceToDeviceStackSafe(raw) failed";
  _ ← set_ext d (mkExt DEVICE_KIND_FILTER (Some lower) None None);
  mret (Some d, Some lower).

(* src: lib/windrv/src/filter/manager.rs:285-330 attach_filter_to_device *)
Definition attach_filter_to_device (target_do : PDEVICE_OBJECT) (volume : nat) :
    DM (PDEVICE_OBJECT * PDEVICE_OBJECT) :=
  d ← create_filter_device "IoCreateDevice(filter) failed";
  lower ← attach_above d target_do "IoAttachDeviceToDeviceStackSafe(device) failed";
  _ ← set_ext d (mkExt DEVICE_KIND_FILTER (Some lower) (Some volume) None);
  _ ← bind_thread (Some d) volume;
  mret (Some d, Some lower).

(** ** Binding *)

(** Replacing the bound volume drops the old reference, which the model does not
    count; the write is the same as a first bind's. *)
Definition write_volume (filter_do : PDEVICE_OBJECT) (volume : option nat) : DM unit :=
  '(d, ext) ← ext_of filter_do;
  set_ext d (mkExt (de_kind ext) (de_lower_device ext) volume (de_vthread ext)).

(* src: lib/windrv/src/filter/manager.rs:257-266 filter_rebind_volume *)
Definition filter_rebind_volume (filter_do : PDEVICE_OBJECT) (volume : nat) : DM unit :=
  _ ← write_volume filter_do (Some volume);
  bind_thread filter_do volume.

(* src: lib/windrv/src/filter/manager.rs:274-279 filter_bind_volume *)
Definition filter_bind_volume (filter_do : PDEVICE_OBJECT) (volume : nat) : DM unit :=
  _ ← write_volume filter_do (Some volume);
  bind_thread filter_do volume.

(** [stop] sets the flag and waits for the thread; what is still queued is completed by
    [Drop], as cancelled. A handler runs here with no section of the thread in between:
    the requests a live thread still answers between the flag and its exit are followed
    in [Thread.v] and [DataPath.v], and here count among the cancelled ones. *)
Definition stop_thread (d : nat) (ext : DeviceExtension) : DM DeviceExtension :=
  match de_vthread ext with
  | None => mret ext
  | Some vt =>
      let ext := mkExt (de_kind ext) (de_lower_device ext) (de_volume ext) None in
      _ ← log_completed (vt_drop (vt_stop vt));
      _ ← set_ext d ext;
      mret ext
  end.

(* src: lib/windrv/src/filter/manager.rs:345-367 unbind_filter *)
Definition unbind_filter (filter_do : PDEVICE_OBJECT) : DM unit :=
  match filter_do with
  | None => mret tt
  | Some _ =>
      '(d, ext) ← ext_of filter_do;
      ext ← stop_thread d ext;
      set_ext d (mkExt (de_kind ext) (de_lower_device ext) None (de_vthread ext))
  end.

(* src: lib/windrv/src/filter/manager.rs:372-396 detach_filter *)
Definition detach_filter (filter_do : PDEVICE_OBJECT) : DM unit :=
  match filter_do with
  | None => mret tt
  | Some _ =>
      '(d, ext) ← ext_of filter_do;
      ext ← stop_thread d ext;
      _ ← (match de_lower_device ext with
           | None => mret tt
           | Some lower =>
               _ ← kcall (fun w => (k_detach K lower w, tt));
               set_ext d (mkExt (de_kind ext) None (de_volume ext) (de_vthread ext))
           end);
      delete_device d
  end.

(** ** Finding the filter of a volume *)

(** The first fields of the extension of any device object, the driver's own or
    another's. *)
Definition peek_ext (d : nat) : DM (option (Z * PDEVICE_OBJECT)) := fun s =>
  (s, Ok (match dr_devices s !! d with
          | Some e => Some (de_kind e, de_lower_device e)
          | None => k_foreign_ext K d (dr_world s).2
          end)).

(** The walk from [current] down; the loop looks at 13 devices at most. *)
Fixpoint walk_stack (fuel : nat) (current : nat) : DM (option (PDEVICE_OBJECT * PDEVICE_OBJECT)) :=
  match fuel with
  | O => mret None
  | S fuel =>
      ext ← peek_ext current;
      match ext with
      | Some (kind, lower) =>
          if kind =? DEVICE_KIND_FILTER then mret (Some (Some current, lower))
          else
            next ← kread (k_lower K current);
            match next with None => mret None | Some next => walk_stack fuel next end
      | None =>
          next ← kread (k_lower K current);
          match next with None => mret None | Some next => walk_stack fuel next end
      end
  end.

(* src: lib/windrv/src/filter/manager.rs:533-600 find_our_filter_in_stack *)
Definition find_our_filter_in_stack (nt_path : string) :
    DM (option (PDEVICE_OBJECT * PDEVICE_OBJECT)) :=
  '(status, vol_do) ← kcall (k_get_device_pointer K nt_path);
  match nt_success status, vol_do with
  | true, Some vol_do =>
      top_do ← kread (k_attached K vol_do);
      match top_do with None => mret None | Some top_do => walk_stack 13 top_do end
  | _, _ => mret None
  end.

(** [if let Some(r) = found { return Some(r) }]. *)
Definition or_else {A} (found : option A) (k : DM (option A)) : DM (option A) :=
  match found with Some r => mret (Some r) | None => k end.

(* src: lib/windrv/src/filter/manager.rs:409-519 find_filter_for_volume *)
Definition find_filter_for_volume (nt_path : string)
    (lookup_fn : PDEVICE_OBJECT -> option (PDEVICE_OBJECT * PDEVICE_OBJECT))
    (name_lookup_fn : string -> option (PDEVICE_OBJECT * PDEVICE_OBJECT)) :
    DM (option (PDEVICE_OBJECT * PDEVICE_OBJECT)) :=
  '(status, vol_do) ← kcall (k_get_device_pointer K nt_path);
  match nt_success status, vol_do with
  | true, Some vol_do =>
      base_dev ← kread (k_attachment_base K vol_do);
      units ← kread (k_query_name K vol_do);
      let dev_name := device_name units in
      or_else (if bool_decide (dev_name = ""%string) then None else name_lookup_fn dev_name) (
      or_else (name_lookup_fn nt_path) (
      or_else (match base_dev with None => None | Some _ => lookup_fn base_dev end) (
      or_else (lookup_fn (Some vol_do)) (
      top_dev ← kread (k_attached K vol_do);
      or_else (match top_dev with None => None | Some _ => lookup_fn top_dev end) (
      find_our_filter_in_stack nt_path)))))
  | _, _ => mret None
  end.

(** The lookup as the dispatcher calls it, with the registry's maps. *)
Definition find_filter (nt_path : string) : DM (option (PDEVICE_OBJECT * PDEVICE_OBJECT)) :=
  r ← registry;
  find_filter_for_volume nt_path (fun dev => find_pdo_filter dev r)
    (fun name => find_pdo_filter_by_name name r).
End Manager.
