(* ===== verification/Provider.v ===== *)
(** * Binding policy and authorization

    The interfaces a sample implements ([lib/windrv/src/provider.rs]), the sample
    driver's implementation of them ([sample/windrv/src/provider.rs]) and the
    kernel's random source ([lib/windrv/src/rng.rs]). *)

From S2P Require Import Prelude Types Sectors Volume Xts Metadata Codec Store.

(** ** Interfaces ([provider.rs]) *)

(* src: lib/windrv/src/provider.rs:126-136 AttachContext *)
Record AttachContext (W0 : Type) : Type := mkAttachContext {
  ac_io : SectorIo W0;
  ac_vmk : bytes;
  ac_partition_guid : option Guid;
}.
Arguments mkAttachContext {W0}.
Arguments ac_io {W0}.
Arguments ac_vmk {W0}.
Arguments ac_partition_guid {W0}.

(* src: lib/windrv/src/provider.rs:138-140 DetachContext *)
Record DetachContext : Type := mkDetachContext { dc_volume_id : VolumeId }.

(** The provider keeps a state of type [P] of its own; the offset stores it
    returns live there. *)
(* src: lib/windrv/src/provider.rs:36-49 VolumeProvider *)
Record VolumeProvider (P W0 : Type) : Type := mkProvider {
  on_attach : AttachContext W0 -> M VckError (P * W0) (IoConfig (P * W0));
  on_detach : DetachContext -> M VckError (P * W0) unit;
}.
Arguments mkProvider {P W0}.
Arguments on_attach {P W0}.
Arguments on_detach {P W0}.

(* src: lib/windrv/src/provider.rs:45-48 VolumeProvider::on_detach *)
Definition default_on_detach {P W0} (_ctx : DetachContext) : M VckError (P * W0) unit := mret tt.

(* src: lib/windrv/src/provider.rs:173-177 RequestorMode *)
Inductive RequestorMode : Type := KernelMode | UserMode.

(** [at_token] is a primary token of the kernel's; [at_admin] is what
    [SeTokenIsAdmin] answers for it. *)
(* src: lib/windrv/src/provider.rs:186-190 AccessToken *)
Record AccessToken : Type := mkToken { at_token : nat; at_owned : bool; at_admin : Z }.

(** A process is [None] if its pointer is null; [primary] is
    [PsReferencePrimaryToken], the token and the answer of [SeTokenIsAdmin]. *)
(* src: lib/windrv/src/provider.rs:200-209 AccessToken::from_process *)
Definition token_from_process (primary : nat -> option (nat * Z)) (process : option nat) :
    option AccessToken :=
  p ← process;
  '(t, admin) ← primary p;
  Some (mkToken t true admin).

(* src: lib/windrv/src/provider.rs:216-221 AccessToken::from_raw *)
Definition token_from_raw (t : nat) (admin : Z) : AccessToken := mkToken t false admin.

(* src: lib/windrv/src/provider.rs:230-233 AccessToken::is_admin *)
Definition is_admin (t : AccessToken) : bool := negb (at_admin t =? 0).

(* src: lib/windrv/src/provider.rs:245-249 IoctlAuthContext *)
Record IoctlAuthContext : Type := mkAuthContext {
  ia_ioctl_code : Z;
  ia_requestor_mode : RequestorMode;
  ia_requestor_token : option AccessToken;
}.

(* src: lib/windrv/src/provider.rs:169-171 IoctlAuthorization *)
Record IoctlAuthorization : Type := mkAuthorization {
  authorize : IoctlAuthContext -> VckResult unit;
}.

(** ** The sample's policy ([sample/windrv/src/provider.rs]) *)

(* src: sample/windrv/src/provider.rs:126-136 require_administrator *)
Definition require_administrator (ctx : IoctlAuthContext) : VckResult unit :=
  match ia_requestor_mode ctx with
  | KernelMode => Ok tt
  | UserMode =>
      match ia_requestor_token ctx with
      | Some token =>
          if is_admin token then Ok tt
          else Err (PermissionDenied "administrator privilege required")
      | None => Err (PermissionDenied "administrator privilege required")
      end
  end.

(* src: sample/windrv/src/provider.rs:103-112 impl IoctlAuthorization for VckVolumeProvider *)
Definition vck_authorization : IoctlAuthorization := {|
  authorize ctx :=
    if (ia_ioctl_code ctx =? IOCTL_VCK_GET_PROGRESS) || (ia_ioctl_code ctx =? IOCTL_VCK_GET_STATUS)
    then Ok tt
    else require_administrator ctx;
|}.

Section VckProvider.
Context `{C : CryptoApi} `{A : AesApi} {W0 : Type}.
Context (RNG : option (RandomSource W0)).

(** The stores the provider has handed out; a store is named by its position. *)
Abbreviation Stores := (list (JvckMetadataStore W0)).

(** Run an operation of store [n]. *)
Definition on_store {B} (n : nat) (m : M VckError (JvckMetadataStore W0 * W0) B) :
    M VckError (Stores * W0) B := fun t =>
  match t.1 !! n with
  | None => (t, Panic)
  | Some s => let '((s', w'), r) := m (s, t.2) in ((<[n := s']> t.1, w'), r)
  end.

(** [Arc::new(store)] as a trait object. *)
Definition shared_store (n : nat) : EncryptedOffsetStore (Stores * W0) :=
  let st := Jvck_OffsetStore RNG in {|
    st_load := on_store n (st_load st);
    st_store o := on_store n (st_store st o);
    st_flush := on_store n (st_flush st);
    st_load_state := on_store n (st_load_state st);
    st_store_state d := on_store n (st_store_state st d);
  |}.

Definition push_store (s : JvckMetadataStore W0) : M VckError (Stores * W0) nat := fun t =>
  ((t.1 ++ [s], t.2), Ok (length t.1)).

(* src: sample/windrv/src/provider.rs:50-96 VckVolumeProvider::on_attach *)
Definition vck_on_attach (ctx : AttachContext W0) : M VckError (Stores * W0) (IoConfig (Stores * W0)) :=
  reader ← on_snd (Reader_open (ac_io ctx));
  let vmk := ac_vmk ctx in
  store ← on_snd (into_store reader vmk (fun replica =>
    unsealed ← mc_unseal JvckCbcCodec replica vmk;
    mret (JvckCbcCodec, unsealed)));
  sector ← on_snd (load_offset store);
  let encrypted_offset := mkEncryptedOffset sector (js_data_sector_count store) in
  let offset_sector := js_offset_sector store in
  let '(key1, key2) := fvek_keys store in
  let cipher_supplier := static_supplier (static_supplier_new key1 key2) in
  n ← push_store store;
  mret (Encrypted (Some cipher_supplier) offset_sector encrypted_offset (shared_store n)).

(* src: sample/windrv/src/provider.rs:98-100 VckVolumeProvider::on_detach *)
Definition vck_on_detach (_ctx : DetachContext) : M VckError (Stores * W0) unit := mret tt.

Definition vck_provider : VolumeProvider Stores W0 := mkProvider vck_on_attach vck_on_detach.
End VckProvider.

(** ** The kernel's random source *)

(** [bcrypt] is [BCryptGenRandom]: a status and the bytes. *)
(* src: lib/windrv/src/rng.rs:38-55 impl RandomSource for KernelRng *)
Definition KernelRng {W} (bcrypt : nat -> W -> W * (Z * bytes)) : RandomSource W := fun n w =>
  let '(w, (status, buf)) := bcrypt n w in
  (w, if status <? 0 then Err (CryptoFailed "BCryptGenRandom failed") else Ok buf).
