(* ===== verification/Dispatch.v ===== *)
(** * The control requests ([lib/windrv/src/ioctl/])

    Requests and responses ([types.rs]), the dispatcher and its handlers
    ([dispatch.rs]), and the boot-time mount ([filter/handover_mount.rs]). A
    handler runs on the driver's state and stops at its first error, keeping what
    it did before. *)

From stdpp Require Import pretty.
From S2P Require Import Prelude Types Sectors Engine Nt Pipeline Volume Thread Xts Metadata Store Filter Io Handover Registry Manager Provider.

(** ** Requests and responses ([types.rs]) *)

(* src: lib/windrv/src/ioctl/types.rs:26-52 JvckVolumePrepareReq *)
Record JvckVolumePrepareReq : Type := mkPrepareReq {
  pq_volume_path : string;
  pq_nt_device_path : string;
  pq_use_header : Z;
  pq_use_footer : Z;
  pq_metadata_size : Z;
  pq_vmk : bytes;
  pq_metadata_block : bytes;
  pq_is_os_volume : bool;
}.

(* src: lib/windrv/src/ioctl/types.rs:62-79 JvckVolumePrepareResp *)
Record JvckVolumePrepareResp : Type := mkPrepareResp {
  pr_offset_sector : Z;
  pr_data_sectors : Z;
  pr_sector_size : Z;
  pr_raw_partition_path : string;
  pr_raw_disk_path : string;
  pr_partition_start_lba : Z;
  pr_fully_attached : bool;
}.

(* src: lib/windrv/src/ioctl/types.rs:89-110 JvckVolumeAttachReq *)
Record JvckVolumeAttachReq : Type := mkAttachReq {
  aq_volume_path : string;
  aq_vmk : bytes;
  aq_use_header : Z;
  aq_use_footer : Z;
  aq_metadata_size : Z;
  aq_nt_device_path : string;
  aq_raw_partition_path : string;
}.

(* src: lib/windrv/src/ioctl/types.rs:114-118 JvckVolumeAttachResp *)
Record JvckVolumeAttachResp : Type := mkAttachResp {
  ar_offset_sector : Z;
  ar_total_sectors : Z;
  ar_sector_size : Z;
}.

(* src: lib/windrv/src/ioctl/types.rs:122-124 VolumeRequest *)
Record VolumeRequest : Type := mkVolumeRequest { vr_volume_path : string }.

(* src: lib/windrv/src/ioctl/types.rs:128-140 VolumeStatus *)
Record VolumeStatus : Type := mkVolumeStatus {
  vs_volume_path : string;
  vs_state : Z;
  vs_encrypted_sector : Z;
  vs_total_sectors : Z;
  vs_sector_size : Z;
  vs_is_attached : bool;
  vs_filter_below_fsd : bool;
}.

(* src: lib/windrv/src/ioctl/types.rs:144-153 VolumeListEntry *)
Record VolumeListEntry : Type := mkListEntry {
  vl_volume_path : string;
  vl_state : Z;
  vl_encrypted_sector : Z;
  vl_total_sectors : Z;
  vl_sector_size : Z;
  vl_is_os_volume : bool;
}.

(* src: lib/windrv/src/ioctl/types.rs:158-160 VolumeListResponse *)
Record VolumeListResponse : Type := mkListResponse { vlr_volumes : list VolumeListEntry }.

(* src: lib/windrv/src/ioctl/types.rs:164-170 ProgressEvent *)
Record ProgressEvent : Type := mkProgressEvent {
  pe_encrypted_sector : Z;
  pe_total_sectors : Z;
  pe_state : Z;
  pe_error : string;
}.

(* src: lib/windrv/src/ioctl/types.rs:174-178 BenchAesReq *)
Record BenchAesReq : Type := mkBenchReq { bq_size_bytes : Z }.

(* src: lib/windrv/src/ioctl/types.rs:182-189 BenchAesResp *)
Record BenchAesResp : Type := mkBenchResp {
  bs_size_bytes : Z;
  bs_encrypt_mib_s : Z;
  bs_decrypt_mib_s : Z;
}.

(* src: lib/windrv/src/ioctl/dispatch.rs:71-72 EmptyResponse *)
Inductive EmptyResponse : Type := mkEmpty.

(** The MessagePack form of every type on the wire. *)
Class Wire := {
  wire_prepare_req :: MsgPack JvckVolumePrepareReq;
  wire_prepare_resp :: MsgPack JvckVolumePrepareResp;
  wire_attach_req :: MsgPack JvckVolumeAttachReq;
  wire_attach_resp :: MsgPack JvckVolumeAttachResp;
  wire_volume_req :: MsgPack VolumeRequest;
  wire_status :: MsgPack VolumeStatus;
  wire_list :: MsgPack VolumeListResponse;
  wire_progress :: MsgPack ProgressEvent;
  wire_bench_req :: MsgPack BenchAesReq;
  wire_bench_resp :: MsgPack BenchAesResp;
  wire_empty :: MsgPack EmptyResponse;
}.

(** ** Constants *)

(* src: lib/windrv/src/ioctl/dispatch.rs:223-227 FSCTL_* and IOCTL_DISK_* *)
Definition FSCTL_LOCK_VOLUME : Z := 0x00090018.
Definition FSCTL_DISMOUNT_VOLUME : Z := 0x00090020.
Definition FSCTL_UNLOCK_VOLUME : Z := 0x0009001c.
Definition IOCTL_DISK_GET_DRIVE_GEOMETRY_PREPARE : Z := 0x00070000.
Definition IOCTL_DISK_GET_LENGTH_INFO_PREPARE : Z := 0x0007405C.
Definition IOCTL_STORAGE_GET_DEVICE_NUMBER : Z := 0x002D1080.
Definition MAX_RETRIES : nat := 100.

(** [Guid::nil()]. *)
Definition nil_guid : Guid := replicate 16 Byte.x00.

(** ** Layout of a prepared volume *)

(** Replica stride, data offset and data size, as PREPARE computes them. *)
(* src: lib/windrv/src/ioctl/dispatch.rs:268-273 handle_jvck_prepare_adddevice_path (geometry) *)
Definition prepare_geometry (use_header use_footer metadata_size sector_size total_sectors : Z) :
    Z * Z * Z :=
  let rs := metadata_size / sector_size in
  let footer_sectors := u64_mul use_footer rs in
  let header_sectors := u64_mul use_header rs in
  let data_sectors := Z.max 0 (total_sectors - u64_add header_sectors footer_sectors) in
  (rs, header_sectors, data_sectors).

(* src: lib/windrv/src/ioctl/dispatch.rs:283-293 handle_jvck_prepare_adddevice_path (replica LBAs) *)
Definition prepare_replica_lbas (use_header use_footer rs total_sectors : Z) : list Z :=
  let headers := (fun i => u64_mul i rs) <$> upto use_header in
  let fs := u64_sub total_sectors (u64_mul use_footer rs) in
  headers ++ ((fun j => u64_sub (u64_add (u64_add fs (u64_mul j rs)) rs) 1) <$> upto use_footer).

(** The sector a replica is written as; the block is at least 512 bytes. *)
(* src: lib/windrv/src/ioctl/dispatch.rs:294-296 handle_jvck_prepare_adddevice_path (sector buffer) *)
Definition prepare_sector (metadata_block : bytes) (sector_size : Z) : bytes :=
  let sector_buf := replicate (Z.to_nat sector_size) Byte.x00 in
  let copy_len := Nat.min METADATA_BLOCK_SIZE (Z.to_nat sector_size) in
  splice 0 (take copy_len metadata_block) sector_buf.

(** The device a provider's world sees. *)
Definition raise_io {P W0} (io : SectorIo W0) : SectorIo (P * W0) := {|
  sector_size := sector_size io;
  total_sectors := total_sectors io;
  read_sectors lba n := on_snd (read_sectors io lba n);
  write_sectors lba buf := on_snd (write_sectors io lba buf);
|}.

(** The volume PREPARE binds before the metadata is read. *)
(* src: lib/windrv/src/ioctl/dispatch.rs:310-341 handle_jvck_prepare_adddevice_path (provisional) *)
Definition provisional_volume {W} (path : string) (sector_size offset_sector data_sectors : Z)
    (src : AttachSource) (filter_do : PDEVICE_OBJECT) : AttachedVolume W :=
  let o := mkEncryptedOffset 0 data_sectors in
  mkVolume path sector_size (Encrypted None offset_sector o (DummyOffsetStore data_sectors))
    (engine_new offset_sector o) (DummyOffsetStore data_sectors) src filter_do
    (DummySectorIo sector_size data_sectors) 0.

(** The volume bound once the provider has opened the metadata. *)
(* src: lib/windrv/src/ioctl/dispatch.rs:423-435 handle_jvck_prepare_adddevice_path (complete) *)
Definition complete_volume {W} (path : string) (sector_size : Z) (cfg : IoConfig W)
    (offset_sector : Z) (o : EncryptedOffset) (st : EncryptedOffsetStore W) (src : AttachSource)
    (filter_do : PDEVICE_OBJECT) (sweep_io : SectorIo W) : AttachedVolume W :=
  mkVolume path sector_size cfg (engine_new offset_sector o) st src filter_do sweep_io (eo_sector o).

Section Dispatch.
Context `{A : AesApi} `{Wire} {P W0 : Type}.
Context (K : Kernel W0) (provider : option (VolumeProvider P W0)).
Abbreviation W := (P * W0)%type.
Abbreviation DM := (M VckError (Driver P W0)).

(* src: lib/windrv/src/ioctl/dispatch.rs:1481-1486 decode_req *)
Definition decode_req {T} `{MsgPack T} (input : bytes) : DM T :=
  lift (map_err MsgpackDecode (from_slice input)).

(* src: lib/windrv/src/ioctl/dispatch.rs:1488-1493 encode_resp *)
Definition encode_resp {T} `{MsgPack T} (value : T) : DM bytes :=
  lift (map_err MsgpackEncode (to_vec value)).

(* src: lib/windrv/src/io.rs:593-622 open_volume_handle_raw *)
Definition open_volume_handle_raw (nt_path : string) : DM (option (FileHandle W0)) :=
  kcall (k_open_raw K nt_path).

(* src: lib/windrv/src/io.rs:665-681 send_fsctl *)
Definition send_fsctl (h : FileHandle W0) (code : Z) : DM Z := kcall (fh_fsctl h code).

(* src: lib/windrv/src/ioctl/dispatch.rs:79-92 on_attach_volume *)
Definition on_attach_volume (vmk : bytes) (guid : option Guid) (io : SectorIo W0) : DM (IoConfig W) :=
  provider ← lift (ok_or provider (ValidationFailed "no volume provider installed"));
  world (on_attach provider (mkAttachContext io vmk guid)).

Definition volume_of_filter (filter_do : PDEVICE_OBJECT) : DM (option nat) := fun s =>
  (s, Ok (get_by_filter (dr_heap s) filter_do (dr_registry s))).

(* src: lib/windrv/src/ioctl/dispatch.rs:101-115 resolve_volume *)
Definition resolve_volume (volume_path : string) : DM (option nat) :=
  r ← registry;
  match registry_get volume_path r with
  | Some v => mret (Some v)
  | None =>
      found ← find_filter K (win32_volume_path_to_nt volume_path);
      match found with
      | None => mret None
      | Some (filter_do, _) => volume_of_filter filter_do
      end
  end.

(** [resolve_volume(..).ok_or(NotFound)?]. *)
Definition attached_volume (volume_path : string) : DM nat :=
  found ← resolve_volume volume_path;
  lift (ok_or found (NotFound "volume is not attached")).

(** ** Status *)

(* src: lib/windrv/src/ioctl/dispatch.rs:117-153 handle_get_status *)
Definition handle_get_status (input : bytes) : DM bytes :=
  req ← decode_req (T := VolumeRequest) input;
  let nt_path := win32_volume_path_to_nt (vr_volume_path req) in
  found ← find_filter K nt_path;
  let filter_below_fsd := match found with Some _ => true | None => false end in
  resolved ← resolve_volume (vr_volume_path req);
  match resolved with
  | Some a =>
      v ← volume_at a;
      let snap := snapshot (av_encryption v) in
      encode_resp (mkVolumeStatus (av_volume_path v) (as_wire (ps_state snap))
        (ps_encrypted_sector snap) (ps_total_sectors snap) (av_sector_size v) true
        filter_below_fsd)
  | None => encode_resp (mkVolumeStatus (vr_volume_path req) 0 0 0 0 false filter_below_fsd)
  end.

Definition list_entry (v : AttachedVolume W) : VolumeListEntry :=
  let snap := snapshot (av_encryption v) in
  mkListEntry (av_volume_path v) (as_wire (ps_state snap)) (ps_encrypted_sector snap)
    (ps_total_sectors snap) (av_sector_size v) (is_os_volume v).

(** [registry.all()], with the volumes themselves. *)
Fixpoint volumes_at (addrs : list nat) : DM (list (nat * AttachedVolume W)) :=
  match addrs with
  | [] => mret []
  | a :: addrs => v ← volume_at a; vs ← volumes_at addrs; mret ((a, v) :: vs)
  end.
Definition all_volumes : DM (list (nat * AttachedVolume W)) :=
  r ← registry; volumes_at (registry_all r).

(* src: lib/windrv/src/ioctl/dispatch.rs:158-175 handle_list_volumes *)
Definition handle_list_volumes : DM bytes :=
  vs ← all_volumes;
  encode_resp (mkListResponse ((fun p => list_entry p.2) <$> vs)).

(* src: lib/windrv/src/ioctl/dispatch.rs:201-212 handle_get_progress *)
Definition handle_get_progress (input : bytes) : DM bytes :=
  req ← decode_req (T := VolumeRequest) input;
  a ← attached_volume (vr_volume_path req);
  v ← volume_at a;
  let snap := snapshot (av_encryption v) in
  encode_resp (mkProgressEvent (ps_encrypted_sector snap) (ps_total_sectors snap)
    (as_wire (ps_state snap)) "").

(** ** Starting and pausing the sweep *)

(** [wake_for(&volume)]. *)
Definition wake_volume (a : nat) : DM unit :=
  v ← volume_at a;
  match av_filter_device v with
  | None => mret tt
  | Some _ =>
      '(d, ext) ← ext_of (av_filter_device v);
      set_ext d (mkExt (de_kind ext) (de_lower_device ext) (de_volume ext)
        (wake_for (av_filter_device v) (de_vthread ext)))
  end.

(** [volume.encryption.lock().m(&*volume.offset_store)]. *)
Definition with_engine {B} (a : nat)
    (m : EncryptedOffsetStore W -> M VckError (EncryptionEngine * W) B) : DM B :=
  upd_volume a (v ← volume; on_engine (m (av_offset_store v))).

(* src: lib/windrv/src/ioctl/dispatch.rs:177-187 handle_start_encrypt *)
Definition handle_start_encrypt (input : bytes) : DM bytes :=
  req ← decode_req (T := VolumeRequest) input;
  a ← attached_volume (vr_volume_path req);
  _ ← with_engine a start_encrypt;
  _ ← wake_volume a;
  encode_resp mkEmpty.

(* src: lib/windrv/src/ioctl/dispatch.rs:189-199 handle_start_decrypt *)
Definition handle_start_decrypt (input : bytes) : DM bytes :=
  req ← decode_req (T := VolumeRequest) input;
  a ← attached_volume (vr_volume_path req);
  _ ← with_engine a start_decrypt;
  _ ← wake_volume a;
  encode_resp mkEmpty.

Definition pause_volume (a : nat) : DM unit :=
  v ← volume_at a;
  set_volume a (set_encryption (pause (av_encryption v)) v).

(* src: lib/windrv/src/ioctl/dispatch.rs:214-220 handle_pause *)
Definition handle_pause (input : bytes) : DM bytes :=
  req ← decode_req (T := VolumeRequest) input;
  a ← attached_volume (vr_volume_path req);
  _ ← pause_volume a;
  encode_resp mkEmpty.

(* src: lib/windrv/src/ioctl/dispatch.rs:1365-1373 handle_pause_os_volume *)
Definition handle_pause_os_volume : DM bytes :=
  vs ← all_volumes;
  _ ← miter (fun p => if is_os_volume p.2 then pause_volume p.1 else mret tt) vs;
  mret [].

(** ** Detach *)

(** Send DISMOUNT up to [n] times; the pauses between attempts are not modelled. *)
Fixpoint dismount (n : nat) (h : FileHandle W0) : DM bool :=
  match n with
  | O => mret false
  | S n =>
      st ← send_fsctl h FSCTL_DISMOUNT_VOLUME;
      if nt_success st then mret true else dismount n h
  end.

(** [filter_device.swap(null)]. *)
Definition swap_filter (a : nat) : DM PDEVICE_OBJECT :=
  v ← volume_at a;
  _ ← set_volume a (set_filter_device None v);
  mret (av_filter_device v).

(** [registry.remove(path)]. *)
Definition take_volume (path : string) : DM (option nat) := fun s =>
  let '(r, removed) := registry_remove path (dr_registry s) in (with_registry r s, Ok removed).

(* src: lib/windrv/src/ioctl/dispatch.rs:1214-1327 detach_volume_with_dismount *)
Definition detach_volume_with_dismount (volume_path : string) (ignore_open_files keep_filter : bool) :
    DM unit :=
  removed ← take_volume volume_path;
  a ← lift (ok_or removed (NotFound "volume is not attached"));
  filter_do ← swap_filter a;
  let nt_path := win32_volume_path_to_nt volume_path in
  vol_handle ← open_volume_handle_raw nt_path;
  _ ← (match vol_handle with
       | None => mret tt
       | Some h =>
           lock_st ← send_fsctl h FSCTL_LOCK_VOLUME;
           if negb (nt_success lock_st) && negb ignore_open_files
           then mfail (Io "FSCTL_LOCK_VOLUME failed (files open)")
           else
             _ ← dismount MAX_RETRIES h;
             if nt_success lock_st
             then _ ← send_fsctl h FSCTL_UNLOCK_VOLUME; mret tt
             else mret tt
       end);
  match filter_do with
  | None => mret tt
  | Some _ => if keep_filter then unbind_filter filter_do else detach_filter K filter_do
  end.

(* src: lib/windrv/src/ioctl/dispatch.rs:1329-1351 handle_detach *)
Definition handle_detach (input : bytes) : DM bytes :=
  req ← decode_req (T := VolumeRequest) input;
  r ← registry;
  _ ← (match registry_get (vr_volume_path req) r with
       | None => mret tt
       | Some a =>
           v ← volume_at a;
           if is_os_volume v && has_encrypted_data v
           then mfail (PermissionDenied "OS volume is encrypted; detach is not allowed")
           else mret tt
       end);
  _ ← detach_volume_with_dismount (vr_volume_path req) false true;
  encode_resp mkEmpty.

(* src: lib/windrv/src/ioctl/dispatch.rs:1379-1395 handle_detach_all_volumes *)
Definition handle_detach_all_volumes : DM bytes :=
  vs ← all_volumes;
  let data_paths :=
    (fun p => av_volume_path p.2) <$> filter (fun p => is_os_volume p.2 = false) vs in
  _ ← miter (fun path => ignore (detach_volume_with_dismount path true false)) data_paths;
  mret [].
End Dispatch.
