(* ===== verification/Attach.v ===== *)
(** * Binding volumes: PREPARE, ATTACH and the boot mount

    The requests that put a volume under encryption and the entry point of the
    dispatcher ([lib/windrv/src/ioctl/dispatch.rs]), and the mount of the OS volume
    after its device starts ([lib/windrv/src/filter/handover_mount.rs]). A file
    handle is the kernel's, a parameter: [AttachRun.above_filter] is the handle whose
    requests come back through the driver's own filter. *)

From stdpp Require Import pretty.
From S2P Require Import Prelude Types Sectors Engine Nt Pipeline Volume Thread Xts Metadata Store Filter Io Handover Registry Manager Provider Dispatch.

Section Attach.
Context `{A : AesApi} `{Wire} {P W0 : Type}.
Context (K : Kernel W0) (provider : option (VolumeProvider P W0)).
Abbreviation W := (P * W0)%type.
Abbreviation DM := (M VckError (Driver P W0)).

(** ** Shared steps *)

Definition attach_source (req : JvckVolumePrepareReq) : AttachSource :=
  if pq_is_os_volume req then Volume.Handover else Volume.Ioctl.

(** File the volume at [a] in the registry. *)
Definition insert_volume (v : AttachedVolume W) : DM nat :=
  a ← arc_new v;
  _ ← upd_registry (registry_insert a v);
  mret a.

Definition remove_volume (path : string) : DM unit :=
  _ ← take_volume path; mret tt.

(** [registry.remove(..); detach_filter(..);] before an error is returned. *)
Definition drop_provisional (path : string) (filter_do : PDEVICE_OBJECT) : DM unit :=
  _ ← remove_volume path; detach_filter K filter_do.

(** [m.inspect_err(|_| cleanup)?]. *)
Definition or_cleanup {B} (m : DM B) (cleanup : DM unit) : DM B :=
  r ← attempt m;
  match r with inl b => mret b | inr e => _ ← cleanup; mfail e end.

(** [IOCTL] on a raw handle: status and buffer. *)
Definition raw_ioctl (h : FileHandle W0) (code : Z) (n : nat) : DM (Z * bytes) :=
  kcall (fh_ioctl h code (replicate n Byte.x00)).

Definition partition_path (disk part : Z) : string :=
  "\Device\Harddisk" +:+ pretty disk +:+ "\Partition" +:+ pretty part.
Definition disk_path (disk : Z) : string := "\Device\Harddisk" +:+ pretty disk +:+ "\DR0".

(** Replace the provisional volume of [path] by the complete one. *)
Definition replace_volume (path : string) (v : AttachedVolume W) (filter_do : PDEVICE_OBJECT) :
    DM unit :=
  _ ← remove_volume path;
  a ← insert_volume v;
  filter_rebind_volume K filter_do a.

Definition volume_id (path : string) : VolumeId := mkVolumeId nil_guid path.

(** The device below the filter, as an owning [SectorIo]. A null pointer would
    fault at the first request. *)
Definition lower_io (lower_do : PDEVICE_OBJECT) (sector_size total : Z) : DM (SectorIo W0) :=
  d ← lift (unwrap lower_do);
  mret (LowerDevice_io (LowerDeviceIo_new (k_device K d) sector_size total)).

Definition passthrough_error {B} : DM B :=
  mfail (ValidationFailed "on_attach returned passthrough for a VMK-provided volume").

(** ** PREPARE with a filter AddDevice attached *)

(* src: lib/windrv/src/ioctl/dispatch.rs:278-304 handle_jvck_prepare_adddevice_path (metadata) *)
Definition write_metadata_lower (req : JvckVolumePrepareReq) (lower_do : PDEVICE_OBJECT)
    (sector_size total_sectors rs : Z) : DM unit :=
  if bool_decide (pq_metadata_block req = []) then mret tt
  else if (length (pq_metadata_block req) <? METADATA_BLOCK_SIZE)%nat
  then mfail (InvalidData "metadata_block too short")
  else
    lo ← lower_io lower_do sector_size total_sectors;
    let replica_lbas := prepare_replica_lbas (pq_use_header req) (pq_use_footer req) rs total_sectors in
    let sector_buf := prepare_sector (pq_metadata_block req) sector_size in
    miter (fun lba => kworld (write_sectors lo lba sector_buf)) replica_lbas.

(** The statuses are ignored here: a failed request leaves what the kernel left in
    the buffer. *)
(* src: lib/windrv/src/ioctl/dispatch.rs:346-393 handle_jvck_prepare_adddevice_path (paths) *)
Definition storage_paths (nt_path : string) (sector_size : Z) : DM (string * string * Z) :=
  h ← open_volume_handle_raw K nt_path;
  '(sdn, info) ← (match h with
                  | None => mret (replicate 12 Byte.x00, replicate 64 Byte.x00)
                  | Some h =>
                      '(_, sdn) ← raw_ioctl h IOCTL_STORAGE_GET_DEVICE_NUMBER 12;
                      '(_, info) ← raw_ioctl h IOCTL_DISK_GET_PARTITION_INFO_EX 64;
                      mret (sdn, info)
                  end);
  let disk_num := le_decode (slice 4 4 sdn) in
  let part_num := le_decode (slice 8 4 sdn) in
  let start_bytes := le_decode (slice 4 8 info) in
  mret (partition_path disk_num part_num, disk_path disk_num, start_bytes / sector_size).

(** Open the metadata below the filter and bind the complete volume. *)
(* src: lib/windrv/src/ioctl/dispatch.rs:401-451 handle_jvck_prepare_adddevice_path (full attach) *)
Definition full_attach_lower (req : JvckVolumePrepareReq) (filter_do lower_do : PDEVICE_OBJECT)
    (sector_size total_sectors : Z) (paths : string * string * Z) : DM bytes :=
  let path := pq_volume_path req in
  probe_io ← lower_io lower_do sector_size total_sectors;
  io_config ← or_cleanup (on_attach_volume provider (pq_vmk req) None probe_io)
                (drop_provisional path filter_do);
  match cfg_geometry io_config with
  | None => passthrough_error
  | Some (store_offset, encrypted_offset, offset_store) =>
      let store_data := eo_total_sectors encrypted_offset in
      sweep_io ← lower_io lower_do sector_size store_data;
      _ ← replace_volume path
            (complete_volume path sector_size io_config store_offset encrypted_offset offset_store
               (attach_source req) filter_do (raise_io sweep_io)) filter_do;
      encode_resp (mkPrepareResp store_offset store_data sector_size paths.1.1 paths.1.2 paths.2 true)
  end.

(* src: lib/windrv/src/ioctl/dispatch.rs:231-462 handle_jvck_prepare_adddevice_path *)
Definition handle_jvck_prepare_adddevice_path (req : JvckVolumePrepareReq) (nt_path : string)
    (filter_do lower_do : PDEVICE_OBJECT) : DM bytes :=
  geom_io ← kworld (kv_open_query (k_create_file K) (volume_id nt_path));
  let sector_size := kv_sector_size geom_io in
  let total_sectors := kv_total_sectors geom_io in
  let '(rs, offset_sector, data_sectors) :=
    prepare_geometry (pq_use_header req) (pq_use_footer req) (pq_metadata_size req) sector_size
      total_sectors in
  _ ← write_metadata_lower req lower_do sector_size total_sectors rs;
  a ← insert_volume (provisional_volume (pq_volume_path req) sector_size offset_sector data_sectors
                       (attach_source req) filter_do);
  _ ← filter_bind_volume K filter_do a;
  paths ← storage_paths nt_path sector_size;
  if negb (bool_decide (pq_vmk req = []))
  then full_attach_lower req filter_do lower_do sector_size total_sectors paths
  else encode_resp (mkPrepareResp offset_sector data_sectors sector_size paths.1.1 paths.1.2 paths.2 false).

(** ** PREPARE without one *)

(** [if let Some(h) = vol_handle { send_fsctl(h, code) }], if [c]. *)
Definition fsctl_if (c : bool) (h : option (FileHandle W0)) (code : Z) : DM bool :=
  match c, h with
  | true, Some h => st ← send_fsctl h code; mret (nt_success st)
  | _, _ => mret false
  end.

(** Lock, dismount, and lock again if the first lock failed; whether it is held. *)
(* src: lib/windrv/src/ioctl/dispatch.rs:583-599 handle_jvck_prepare (lock and dismount) *)
Definition lock_and_dismount (h : option (FileHandle W0)) : DM bool :=
  held ← fsctl_if true h FSCTL_LOCK_VOLUME;
  _ ← fsctl_if true h FSCTL_DISMOUNT_VOLUME;
  held2 ← fsctl_if (negb held) h FSCTL_LOCK_VOLUME;
  mret (held || held2).

(* src: lib/windrv/src/ioctl/dispatch.rs:603-646 handle_jvck_prepare (geometry) *)
Definition locked_geometry (h : option (FileHandle W0)) : DM (Z * Z) :=
  match h with
  | None => mret (512, 0)
  | Some h =>
      '(st, geom) ← raw_ioctl h IOCTL_DISK_GET_DRIVE_GEOMETRY_PREPARE 32;
      let bps :=
        if nt_success st then
          let bps := le_decode (slice 20 4 geom) in if bps =? 0 then 512 else bps
        else 512 in
      '(st, len) ← raw_ioctl h IOCTL_DISK_GET_LENGTH_INFO_PREPARE 8;
      mret (bps, if nt_success st then le_decode len / bps else 0)
  end.

(* src: lib/windrv/src/ioctl/dispatch.rs:687-716 handle_jvck_prepare (attach) *)
Definition attach_locked (volume_path : string) (h : option (FileHandle W0)) :
    DM (PDEVICE_OBJECT * PDEVICE_OBJECT) :=
  target_do ← (match h with
               | Some h => kread (k_related_device K h)
               | None => mret None
               end);
  match target_do with
  | Some _ => attach_filter_to_raw_device K target_do
  | None => attach_filter_unbound K (win32_volume_path_to_nt volume_path)
  end.

(** The metadata goes through the volume's own handle, after the unlock. *)
(* src: lib/windrv/src/ioctl/dispatch.rs:788-825 handle_jvck_prepare (metadata) *)
Definition write_metadata_volume (req : JvckVolumePrepareReq) (nt_path : string)
    (filter_do : PDEVICE_OBJECT) (sector_size total_sectors : Z) (replica_lbas : list Z) : DM unit :=
  let cleanup := drop_provisional (pq_volume_path req) filter_do in
  if bool_decide (pq_metadata_block req = []) then mret tt
  else if (length (pq_metadata_block req) <? METADATA_BLOCK_SIZE)%nat
  then _ ← cleanup; mfail (InvalidData "metadata_block must be at least 512 bytes")
  else
    or_cleanup
      (write_io ← kworld (kv_open (k_create_file K) (volume_id nt_path) sector_size total_sectors);
       let sector_buf := prepare_sector (pq_metadata_block req) sector_size in
       miter (fun lba => kworld (write_sectors (KernelVolume_io write_io) lba sector_buf)) replica_lbas)
      cleanup.

(* src: lib/windrv/src/ioctl/dispatch.rs:838-915 handle_jvck_prepare (paths) *)
Definition storage_paths_checked (nt_path : string) (sector_size : Z) : DM (string * string * Z) :=
  h ← open_volume_handle_raw K nt_path;
  '(disk_num, part_num, start_offset_bytes) ←
    (match h with
     | None => mret (0, 0, 0)
     | Some h =>
         '(st1, sdn) ← raw_ioctl h IOCTL_STORAGE_GET_DEVICE_NUMBER 12;
         '(st2, info) ← raw_ioctl h IOCTL_DISK_GET_PARTITION_INFO_EX 64;
         let nums := if nt_success st1 then (le_decode (slice 4 4 sdn), le_decode (slice 8 4 sdn))
                     else (0, 0) in
         mret (nums.1, nums.2, if nt_success st2 then le_decode (slice 4 8 info) else 0)
     end);
  let known := (0 <? disk_num) || (0 <? part_num) in
  mret ((if known then partition_path disk_num part_num else ""%string),
        (if known then disk_path disk_num else ""%string), start_offset_bytes / sector_size).

(** The sweep's device: the raw disk, else the raw partition, else the volume. *)
(* src: lib/windrv/src/ioctl/dispatch.rs:963-1004 handle_jvck_prepare (sweep_io) *)
Definition open_sweep_io (io_nt_path : string) (paths : string * string * Z) (bps data : Z) :
    DM (SectorIo W0) :=
  let '(raw_partition_path, raw_disk_path, start_lba) := paths in
  let kv_io path ss total :=
    io ← kworld (kv_open (k_create_file K) (volume_id path) ss total); mret (KernelVolume_io io) in
  if negb (bool_decide (raw_disk_path = ""%string)) && (0 <? start_lba) then
    let disk_total := u64_add (u64_add start_lba data) 1024 in
    io ← kv_io raw_disk_path bps disk_total;
    mret (OffsetSectorIo io start_lba)
  else if negb (bool_decide (raw_partition_path = ""%string)) then kv_io raw_partition_path bps data
  else kv_io io_nt_path bps data.

Definition io_path (nt_device_path volume_path : string) : string :=
  if negb (bool_decide (nt_device_path = ""%string)) then nt_device_path
  else win32_volume_path_to_nt volume_path.

(* src: lib/windrv/src/ioctl/dispatch.rs:926-1035 handle_jvck_prepare (full attach) *)
Definition full_attach_volume (req : JvckVolumePrepareReq) (filter_do : PDEVICE_OBJECT)
    (paths : string * string * Z) : DM bytes :=
  let path := pq_volume_path req in
  let cleanup := drop_provisional path filter_do in
  let io_nt_path := io_path (pq_nt_device_path req) path in
  probe_io ← or_cleanup (kworld (kv_open_query (k_create_file K) (volume_id io_nt_path))) cleanup;
  let store_bps := kv_sector_size probe_io in
  io_config ← or_cleanup (on_attach_volume provider (pq_vmk req) None (KernelVolume_io probe_io))
                cleanup;
  match cfg_geometry io_config with
  | None => passthrough_error
  | Some (store_offset, encrypted_offset, offset_store) =>
      let store_data := eo_total_sectors encrypted_offset in
      sweep_io ← or_cleanup (open_sweep_io io_nt_path paths store_bps store_data) cleanup;
      _ ← replace_volume path
            (complete_volume path store_bps io_config store_offset encrypted_offset offset_store
               (attach_source req) filter_do (raise_io sweep_io)) filter_do;
      encode_resp (mkPrepareResp store_offset store_data store_bps paths.1.1 paths.1.2 paths.2 true)
  end.

(* src: lib/windrv/src/ioctl/dispatch.rs:579-781 handle_jvck_prepare (fallback) *)
Definition prepare_fallback (req : JvckVolumePrepareReq) (nt_path : string) : DM bytes :=
  vol_handle ← open_volume_handle_raw K nt_path;
  held_lock ← lock_and_dismount vol_handle;
  '(sector_size, total_sectors) ← locked_geometry vol_handle;
  if (sector_size =? 0) || (total_sectors =? 0) then
    _ ← fsctl_if held_lock vol_handle FSCTL_UNLOCK_VOLUME;
    mfail (Io "could not query volume geometry")
  else
    let '(rs, offset_sector, data_sectors) :=
      prepare_geometry (pq_use_header req) (pq_use_footer req) (pq_metadata_size req) sector_size
        total_sectors in
    let replica_lbas := prepare_replica_lbas (pq_use_header req) (pq_use_footer req) rs total_sectors in
    '(filter_do, _) ← or_cleanup (attach_locked (pq_volume_path req) vol_handle)
                        (_ ← fsctl_if held_lock vol_handle FSCTL_UNLOCK_VOLUME; mret tt);
    a ← insert_volume (provisional_volume (pq_volume_path req) sector_size offset_sector data_sectors
                         (attach_source req) filter_do);
    _ ← filter_bind_volume K filter_do a;
    _ ← fsctl_if held_lock vol_handle FSCTL_UNLOCK_VOLUME;
    _ ← write_metadata_volume req nt_path filter_do sector_size total_sectors replica_lbas;
    paths ← storage_paths_checked nt_path sector_size;
    if negb (bool_decide (pq_vmk req = []))
    then full_attach_volume req filter_do paths
    else encode_resp (mkPrepareResp offset_sector data_sectors sector_size paths.1.1 paths.1.2
                        paths.2 false).

(* src: lib/windrv/src/ioctl/dispatch.rs:514-575 handle_jvck_prepare *)
Definition handle_jvck_prepare (input : bytes) : DM bytes :=
  req ← decode_req (T := JvckVolumePrepareReq) input;
  r ← registry;
  match registry_get (pq_volume_path req) r with
  | Some _ => mfail (Unsupported "volume already prepared/attached")
  | None =>
      match rg_driver_object r with
      | None => mfail (Io "driver object not registered")
      | Some _ =>
          let nt_path := io_path (pq_nt_device_path req) (pq_volume_path req) in
          found ← find_filter K nt_path;
          match found with
          | Some (filter_do, lower_do) =>
              handle_jvck_prepare_adddevice_path req nt_path filter_do lower_do
          | None => prepare_fallback req nt_path
          end
      end
  end.

(** ** ATTACH *)

(* src: lib/windrv/src/ioctl/dispatch.rs:1054-1205 handle_jvck_attach *)
Definition handle_jvck_attach (input : bytes) : DM bytes :=
  req ← decode_req (T := JvckVolumeAttachReq) input;
  let path := aq_volume_path req in
  r ← registry;
  a ← lift (ok_or (registry_get path r)
              (NotFound "volume not prepared; call IOCTL_JVCK_PREPARE first"));
  provisional ← volume_at a;
  match cipher_supplier provisional with
  | Some _ => mfail (Unsupported "volume already fully attached")
  | None =>
      let filter_do := av_filter_device provisional in
      let io_nt_path := io_path (aq_nt_device_path req) path in
      probe_io ← kworld (kv_open_query (k_create_file K) (volume_id io_nt_path));
      let store_sector_size := kv_sector_size probe_io in
      let footer_lba := Z.max 0 (kv_total_sectors probe_io - 1) in
      _ ← ignore (kworld (read_sectors (KernelVolume_io probe_io) footer_lba
                            (Z.to_nat store_sector_size)));
      io_config ← on_attach_volume provider (aq_vmk req) None (KernelVolume_io probe_io);
      match cfg_geometry io_config with
      | None => passthrough_error
      | Some (offset_sector, encrypted_offset, offset_store) =>
          let store_data_sectors := eo_total_sectors encrypted_offset in
          let sweep_path := if negb (bool_decide (aq_raw_partition_path req = ""%string))
                            then aq_raw_partition_path req else io_nt_path in
          sweep ← kworld (kv_open (k_create_file K) (volume_id sweep_path) store_sector_size
                            store_data_sectors);
          _ ← replace_volume path
                (complete_volume path store_sector_size io_config offset_sector encrypted_offset
                   offset_store Volume.Ioctl filter_do (raise_io (KernelVolume_io sweep)))
                filter_do;
          encode_resp (mkAttachResp offset_sector store_data_sectors store_sector_size)
      end
  end.

(** ** The benchmark *)

(** One pass over the scratch buffer, [chunks] times. *)
Definition bench_pass (area : bytes -> Z -> Z -> option bytes) (chunks : Z) (buf : bytes) :
    option bytes :=
  foldl (fun b ci => b ≫= fun b => area b 512 (u64_mul ci 2048)) (Some buf) (upto chunks).

(** [checked_div(ticks).unwrap_or(0)]. *)
Definition mib_per_second (mib freq ticks : Z) : Z :=
  if ticks =? 0 then 0 else u64_mul mib freq / ticks.

(** [pool] is whether the scratch buffer can be allocated, [freq] the counter's
    frequency, [enc] and [dec] the counter before and after each pass. *)
(* src: lib/windrv/src/ioctl/dispatch.rs:1404-1479 handle_bench_aes *)
Definition handle_bench_aes (pool : W0 -> bool) (freq : Z) (enc dec : Z * Z) (input : bytes) :
    DM bytes :=
  req ← decode_req (T := BenchAesReq) input;
  let size_bytes := if bq_size_bytes req =? 0 then 2 ^ 30 else bq_size_bytes req in
  match aes_xts_new (replicate 32 Byte.x00) (replicate 32 Byte.x00) with
  | Panic => mpanic
  | Err _ => mfail (CryptoFailed "bench cipher init")
  | Ok cipher =>
      ok ← kread pool;
      if negb ok then mfail (Io "bench: NonPagedPool alloc failed")
      else
        let chunk := 2 ^ 20 in
        let chunks := (size_bytes + chunk - 1) / chunk in
        let actual_bytes := u64_mul chunks chunk in
        let actual_mib := actual_bytes / (1024 * 1024) in
        let c := aes_xts_cipher cipher in
        buf ← lift (unwrap (bench_pass (encrypt_area c) chunks (replicate (Z.to_nat chunk) Byte.x00)));
        _ ← lift (unwrap (bench_pass (decrypt_area c) chunks buf));
        let ticks t := wrap 64 (t.2 - t.1) in
        encode_resp (mkBenchResp actual_bytes
          (mib_per_second actual_mib (wrap 64 freq) (ticks enc))
          (mib_per_second actual_mib (wrap 64 freq) (ticks dec)))
  end.

(** ** The dispatcher *)

(** The performance counters the benchmark reads. *)
Record Counters : Type := mkCounters {
  pc_pool : W0 -> bool;
  pc_freq : Z;
  pc_enc : Z * Z;
  pc_dec : Z * Z;
}.

(* src: lib/windrv/src/ioctl/dispatch.rs:41-69 dispatch_ioctl *)
Definition dispatch_ioctl (auth : IoctlAuthorization) (pc : Counters) (ctx : IoctlAuthContext)
    (input : bytes) : DM bytes :=
  _ ← lift (authorize auth ctx);
  let code := ia_ioctl_code ctx in
  if code =? IOCTL_VCK_GET_STATUS then handle_get_status K input
  else if code =? IOCTL_VCK_START_ENCRYPT then handle_start_encrypt K input
  else if code =? IOCTL_VCK_START_DECRYPT then handle_start_decrypt K input
  else if code =? IOCTL_VCK_GET_PROGRESS then handle_get_progress K input
  else if code =? IOCTL_VCK_PAUSE then handle_pause K input
  else if code =? IOCTL_JVCK_PREPARE then handle_jvck_prepare input
  else if code =? IOCTL_JVCK_ATTACH then handle_jvck_attach input
  else if code =? IOCTL_VCK_DETACH then handle_detach K input
  else if code =? IOCTL_VCK_PAUSE_OS_VOLUME then handle_pause_os_volume
  else if code =? IOCTL_VCK_DETACH_ALL_VOLUMES then handle_detach_all_volumes K
  else if code =? IOCTL_VCK_BENCH_AES
  then handle_bench_aes (pc_pool pc) (pc_freq pc) (pc_enc pc) (pc_dec pc) input
  else if code =? IOCTL_VCK_LIST_VOLUMES then handle_list_volumes
  else mfail (Unsupported "unknown IOCTL code").

(** ** The boot mount ([handover_mount.rs]) *)

(** [published] is whether the global registry is set; [fmt_ptr] prints a
    pointer. *)
(* src: lib/windrv/src/filter/handover_mount.rs:152-271 try_mount_handover_volume *)
Definition try_mount_handover_volume (from_bytes_le : bytes -> Guid) (fmt_ptr : nat -> string)
    (published : bool) (filter_do : PDEVICE_OBJECT) : DM unit :=
  r ← registry;
  match (if published then rg_handover r else None) with
  | None => mret tt
  | Some handover =>
      '(_, ext) ← ext_of filter_do;
      match de_volume ext, de_lower_device ext with
      | Some _, _ | None, None => mret tt
      | None, Some lower =>
          probe ← attempt (
            footer_io ← kworld (ld_query_geometry (LowerDeviceIo_new (k_device K lower) 0 0));
            guid ← kworld (ld_read_gpt_partition_id from_bytes_le footer_io);
            mret (footer_io, guid));
          match probe with
          | inr _ => mret tt
          | inl (footer_io, guid) =>
              if negb (bool_decide (guid = hi_partition_guid handover)) then mret tt
              else
                let store_bps := ld_sector_size footer_io in
                let partition_total := ld_total_sectors footer_io in
                let probe_io :=
                  LowerDevice_io (LowerDeviceIo_new (k_device K lower) store_bps partition_total) in
                cfg ← attempt (on_attach_volume provider (hi_vmk handover)
                                 (Some (hi_partition_guid handover)) probe_io);
                match cfg with
                | inr _ => mret tt
                | inl io_config =>
                    match cfg_geometry io_config with
                    | None => mret tt
                    | Some (offset_sector, encrypted_offset, offset_store) =>
                        let data_sectors := eo_total_sectors encrypted_offset in
                        let sweep_io :=
                          LowerDevice_io (LowerDeviceIo_new (k_device K lower) store_bps data_sectors) in
                        let path := default ("\Device\HandoverVolume[" +:+ fmt_ptr lower +:+ "]")
                                      (pdo_name_for_filter filter_do r) in
                        a ← insert_volume (complete_volume path store_bps io_config offset_sector
                              encrypted_offset offset_store Volume.Handover filter_do
                              (raise_io sweep_io));
                        _ ← with_engine a resume;
                        _ ← filter_bind_volume K filter_do a;
                        wake_volume a
                    end
                end
          end
      end
  end.
End Attach.
Arguments Counters W0 : clear implicits.
