(* ===== verification/AttachLaws.v ===== *)
(** * What the control requests keep

    Computations that leave the driver's objects alone, computations that keep an
    invariant of them, the invariant of a well-formed driver, and the proof that
    every control request and the boot mount keep it. *)

From S2P Require Import Prelude Types Sectors Engine Nt Pipeline Volume Thread Xts Metadata Store Filter Io Handover Registry Manager Provider Dispatch Attach.

(** ** Computations and invariants

    A computation [preserves] an invariant if, unless it panics, it leads from
    states that satisfy it to states that do. It [frames] the objects if it
    changes the world and the log of completed requests only. *)

Section Logic.
Context {P W0 : Type}.
Abbreviation DM := (M VckError (Driver P W0)).
Implicit Types (s : Driver P W0) (I : Driver P W0 -> Prop).

Record same_objects s s' : Prop := {
  so_registry : dr_registry s' = dr_registry s;
  so_heap : dr_heap s' = dr_heap s;
  so_devices : dr_devices s' = dr_devices s;
}.

#[export] Instance same_objects_preorder : PreOrder same_objects.
Proof. split; [done|]. intros s1 s2 s3 [] []. constructor; congruence. Qed.

(** Invariants of the objects. *)
Class ObjectInv I : Prop := object_inv s s' : same_objects s s' -> I s -> I s'.

Definition frames {A} (m : DM A) : Prop := forall s, same_objects s (m s).1.

Definition preserves I {A} (m : DM A) : Prop := forall s,
  I s -> (m s).2 <> Panic -> I (m s).1.

Lemma frames_preserves I {A} (m : DM A) : ObjectInv I -> frames m -> preserves I m.
Proof. intros HI Hf s Hs _. eapply object_inv; [apply Hf|done]. Qed.

Lemma frames_ret {A} (a : A) : frames (mret a).
Proof. intros s. done. Qed.
Lemma frames_lift {A} (o : VckResult A) : frames (lift o).
Proof. intros s. done. Qed.
Lemma frames_fail {A} e : frames (mfail e : DM A).
Proof. intros s. done. Qed.
Lemma frames_panic {A} : frames (mpanic : DM A).
Proof. intros s. done. Qed.
Lemma frames_bind {A B} (m : DM A) (k : A -> DM B) :
  frames m -> (forall a, frames (k a)) -> frames (m ≫= k).
Proof.
  intros Hm Hk s. rewrite mbind_run. specialize (Hm s).
  destruct (m s) as [s1 [a|e|]]; cbn in *; [|done..]. etrans; [done|]. apply Hk.
Qed.
Lemma frames_attempt {A} (m : DM A) : frames m -> frames (attempt m).
Proof. intros Hm s. specialize (Hm s). unfold attempt. destruct (m s) as [s1 [a|e|]]; done. Qed.
Lemma frames_ignore {A} (m : DM A) : frames m -> frames (ignore m).
Proof. intros Hm s. specialize (Hm s). unfold ignore. destruct (m s) as [s1 [a|e|]]; done. Qed.
Lemma frames_world {A} (m : M VckError (P * W0) A) : frames (world m).
Proof. intros s. unfold world, zoom. destruct (m (dr_world s)). done. Qed.
Lemma frames_kworld {A} (m : M VckError W0 A) : frames (kworld m).
Proof. apply frames_world. Qed.
Lemma frames_kcall {A} (f : W0 -> W0 * A) : frames (kcall f).
Proof. apply frames_world. Qed.
Lemma frames_kread {A} (f : W0 -> A) : frames (kread f).
Proof. apply frames_world. Qed.
Lemma frames_registry : frames registry.
Proof. intros s. done. Qed.
Lemma frames_volume_at a : frames (volume_at a).
Proof. intros s. done. Qed.
Lemma frames_ext_of d : frames (ext_of d).
Proof. intros s. done. Qed.
Lemma frames_log l : frames (log_completed l).
Proof. intros s. done. Qed.
Lemma frames_miter {A} (f : A -> DM unit) xs : (forall x, frames (f x)) -> frames (miter f xs).
Proof.
  intros Hf. induction xs as [|x xs IH]; cbn [miter]; [apply frames_ret|].
  apply frames_bind; [done|]. intros _. done.
Qed.

Lemma preserves_bind I {A B} (m : DM A) (k : A -> DM B) :
  preserves I m -> (forall a, preserves I (k a)) -> preserves I (m ≫= k).
Proof.
  intros Hm Hk s Hs. rewrite mbind_run. specialize (Hm s Hs).
  destruct (m s) as [s1 [a|e|]]; cbn in *; intros Hp; [|apply Hm; done|done].
  apply Hk; [apply Hm|]; done.
Qed.
Lemma preserves_attempt I {A} (m : DM A) : preserves I m -> preserves I (attempt m).
Proof.
  intros Hm s Hs. specialize (Hm s Hs). unfold attempt.
  destruct (m s) as [s1 [a|e|]]; cbn in *; intros Hp; [apply Hm; done..|done].
Qed.
Lemma preserves_ignore I {A} (m : DM A) : preserves I m -> preserves I (ignore m).
Proof.
  intros Hm s Hs. specialize (Hm s Hs). unfold ignore.
  destruct (m s) as [s1 [a|e|]]; cbn in *; intros Hp; [apply Hm; done..|done].
Qed.
Lemma preserves_miter I {A} (f : A -> DM unit) xs :
  (forall x, x ∈ xs -> preserves I (f x)) -> preserves I (miter f xs).
Proof.
  induction xs as [|x xs IH]; intros Hf; cbn [miter]; [intros s Hs _; done|].
  apply preserves_bind; [apply Hf; apply elem_of_cons; auto|]. intros _. apply IH.
  intros y Hy. apply Hf. apply elem_of_cons. auto.
Qed.
Lemma preserves_cleanup I {A} (m : DM A) cleanup :
  preserves I m -> preserves I cleanup -> preserves I (or_cleanup m cleanup).
Proof.
  intros Hm Hc. apply preserves_bind; [apply preserves_attempt; done|]. intros [a|e].
  - intros s Hs _. done.
  - apply preserves_bind; [done|]. intros _ s Hs _. done.
Qed.
End Logic.

Create HintDb frame.
#[export] Hint Resolve frames_ret frames_lift frames_fail frames_panic frames_world frames_kworld
  frames_kcall frames_kread frames_registry frames_volume_at frames_ext_of frames_log : frame.

(** Walk a computation bind by bind. *)
Ltac frame_step :=
  cbv zeta;
  first
    [ solve [eauto with frame]
    | apply frames_bind; [|intros ?]
    | apply frames_attempt
    | apply frames_ignore
    | apply frames_miter; intros ?
    | case_match ].
Ltac frame := repeat frame_step.

(** The same for an invariant, given the lemmas of hint database [keep]. *)
Create HintDb keep.
Ltac keep_step :=
  cbv zeta;
  first
    [ solve [eauto with keep]
    | solve [apply frames_preserves; [apply _|frame]]
    | apply preserves_bind; [|intros ?]
    | apply preserves_attempt
    | apply preserves_ignore
    | apply preserves_cleanup
    | case_match ].
Ltac keep := repeat keep_step.

Section Frames.
Context `{A : AesApi} `{Wire} {P W0 : Type}.
Context (K : Kernel W0) (provider : option (VolumeProvider P W0)).
Abbreviation DM := (M VckError (Driver P W0)).

Lemma frames_walk fuel d : frames (P := P) (walk_stack K fuel d).
Proof.
  revert d. induction fuel as [|fuel IH]; intros d; cbn [walk_stack]; [eauto with frame|].
  apply frames_bind; [intros s; done|]. intros [[kind lower]|]; frame.
Qed.

Lemma frames_find_in_stack path : frames (P := P) (find_our_filter_in_stack K path).
Proof. unfold find_our_filter_in_stack. pose proof frames_walk. frame. Qed.

Lemma frames_or_else {B} (found : option B) (k : DM (option B)) :
  frames k -> frames (or_else found k).
Proof. intros. unfold or_else. frame. Qed.

Lemma frames_find_filter path : frames (P := P) (find_filter K path).
Proof.
  unfold find_filter, find_filter_for_volume. pose proof frames_find_in_stack.
  frame; repeat (apply frames_or_else; frame); eauto.
Qed.

Lemma frames_decode {T} `{MsgPack T} input : frames (P := P) (W0 := W0) (decode_req (T := T) input).
Proof. unfold decode_req. frame. Qed.
Lemma frames_encode {T} `{MsgPack T} (value : T) : frames (P := P) (W0 := W0) (encode_resp value).
Proof. unfold encode_resp. frame. Qed.

Lemma frames_volume_of_filter d : frames (P := P) (W0 := W0) (volume_of_filter d).
Proof. intros s. done. Qed.

Lemma frames_resolve path : frames (P := P) (resolve_volume K path).
Proof.
  unfold resolve_volume. pose proof frames_find_filter. pose proof frames_volume_of_filter. frame.
Qed.

Lemma frames_attached path : frames (P := P) (attached_volume K path).
Proof. unfold attached_volume. pose proof frames_resolve. frame. Qed.

Lemma frames_volumes_at l : frames (P := P) (W0 := W0) (volumes_at l).
Proof. induction l as [|a l IH]; cbn [volumes_at]; frame. Qed.

Lemma frames_all_volumes : frames (P := P) (W0 := W0) all_volumes.
Proof. unfold all_volumes. pose proof frames_volumes_at. frame. Qed.

Lemma frames_fsctl h code : frames (P := P) (send_fsctl (W0 := W0) h code).
Proof. apply frames_kcall. Qed.

Lemma frames_dismount n h : frames (P := P) (dismount (W0 := W0) n h).
Proof. pose proof frames_fsctl. induction n as [|n IH]; cbn [dismount]; frame. Qed.

Lemma frames_fsctl_if c h code : frames (P := P) (fsctl_if (W0 := W0) c h code).
Proof. unfold fsctl_if. pose proof frames_fsctl. frame. Qed.

Lemma frames_on_attach vmk guid io : frames (on_attach_volume provider vmk guid io).
Proof. unfold on_attach_volume. frame. Qed.

Lemma frames_lower_io d ss total : frames (P := P) (lower_io K d ss total).
Proof. unfold lower_io. frame. Qed.
End Frames.

#[export] Hint Resolve frames_walk frames_find_in_stack frames_find_filter frames_decode
  frames_encode frames_volume_of_filter frames_resolve frames_attached frames_volumes_at
  frames_all_volumes frames_fsctl frames_dismount frames_fsctl_if frames_on_attach
  frames_lower_io : frame.

(** The read-only requests. *)
Section ReadOnly.
Context `{A : AesApi} `{Wire} {P W0 : Type}.
Context (K : Kernel W0) (provider : option (VolumeProvider P W0)).

Lemma frames_get_status input : frames (P := P) (handle_get_status K input).
Proof. unfold handle_get_status. frame. Qed.
Lemma frames_get_progress input : frames (P := P) (handle_get_progress K input).
Proof. unfold handle_get_progress. frame. Qed.
Lemma frames_list_volumes : frames (P := P) (W0 := W0) handle_list_volumes.
Proof. unfold handle_list_volumes. frame. Qed.
Lemma frames_bench pool freq enc dec input :
  frames (P := P) (W0 := W0) (handle_bench_aes pool freq enc dec input).
Proof. unfold handle_bench_aes. frame. Qed.
Lemma frames_lock h : frames (P := P) (lock_and_dismount (W0 := W0) h).
Proof. unfold lock_and_dismount. frame. Qed.
Lemma frames_raw_ioctl h code n : frames (P := P) (raw_ioctl (W0 := W0) h code n).
Proof. apply frames_kcall. Qed.
Lemma frames_locked_geometry h : frames (P := P) (locked_geometry (W0 := W0) h).
Proof. unfold locked_geometry. pose proof frames_raw_ioctl. frame. Qed.
Lemma frames_storage_paths path ss : frames (P := P) (storage_paths K path ss).
Proof. unfold storage_paths, open_volume_handle_raw. pose proof frames_raw_ioctl. frame. Qed.
Lemma frames_storage_paths_checked path ss : frames (P := P) (storage_paths_checked K path ss).
Proof. unfold storage_paths_checked, open_volume_handle_raw. pose proof frames_raw_ioctl. frame. Qed.
Lemma frames_open_sweep path paths bps data : frames (P := P) (open_sweep_io K path paths bps data).
Proof. unfold open_sweep_io. frame. Qed.
Lemma frames_write_lower req d ss total rs : frames (P := P) (write_metadata_lower K req d ss total rs).
Proof. unfold write_metadata_lower. frame. Qed.
End ReadOnly.

#[export] Hint Resolve frames_get_status frames_get_progress frames_list_volumes frames_bench
  frames_lock frames_raw_ioctl frames_locked_geometry frames_storage_paths
  frames_storage_paths_checked frames_open_sweep frames_write_lower : frame.

(** ** The objects' invariant

    The registry is a sorted map that files every volume under its path; a bound
    filter's volume exists; a filter's thread serves the volume the filter is
    bound to. *)

Section WellFormed.
Context `{A : AesApi} `{Wire} {P W0 : Type}.
Context (K : Kernel W0) (provider : option (VolumeProvider P W0)).
Abbreviation DM := (M VckError (Driver P W0)).
Abbreviation Heap := (gmap nat (AttachedVolume (P * W0))).
Implicit Types (s : Driver P W0) (heap : Heap).

Record ext_wf heap (e : DeviceExtension) : Prop := {
  ew_bound a : de_volume e = Some a -> is_Some (heap !! a);
  ew_thread vt : de_vthread e = Some vt -> de_volume e = Some (vt_current vt);
}.

Record driver_wf s : Prop := {
  dw_registry : registry_wf (dr_heap s) (dr_registry s);
  dw_devices : map_Forall (fun _ => ext_wf (dr_heap s)) (dr_devices s);
}.

#[export] Instance driver_wf_inv : ObjectInv driver_wf.
Proof. intros s s' [Hr Hh Hd] []. constructor; rewrite ?Hr, ?Hh, ?Hd; done. Qed.

Lemma ext_wf_heap heap heap' e : heap_le heap heap' -> ext_wf heap e -> ext_wf heap' e.
Proof.
  intros Hle []. constructor; [|done]. intros a Ha.
  destruct (ew_bound0 a Ha) as [v Hv]. destruct (Hle a v Hv) as (v' & Hv' & _). eauto.
Qed.

(** A step that changes the heap only, keeping every volume's path. *)
Lemma driver_wf_heap s heap : heap_le (dr_heap s) heap -> driver_wf s -> driver_wf (with_heap heap s).
Proof.
  intros Hle []. constructor; cbn.
  - eapply registry_heap_wf; done.
  - intros d e Hd. eapply ext_wf_heap; [done|]. eapply dw_devices0. done.
Qed.

Lemma driver_wf_ext s d e :
  ext_wf (dr_heap s) e -> driver_wf s -> driver_wf (with_devices (<[d := e]> (dr_devices s)) s).
Proof. intros He []. constructor; cbn; [done|]. apply map_Forall_insert_2; done. Qed.

Lemma driver_wf_delete s d : driver_wf s -> driver_wf (with_devices (delete d (dr_devices s)) s).
Proof. intros []. constructor; cbn; [done|]. apply map_Forall_delete. done. Qed.

Lemma driver_wf_world s w : driver_wf s -> driver_wf (with_world w s).
Proof. apply object_inv. done. Qed.
Lemma driver_wf_completed s l : driver_wf s -> driver_wf (with_completed l s).
Proof. apply object_inv. done. Qed.

Lemma heap_le_insert heap a v v' :
  heap !! a = Some v -> av_volume_path v' = av_volume_path v -> heap_le heap (<[a := v']> heap).
Proof.
  intros Ha Hp b u Hb. destruct (decide (a = b)) as [->|Hn].
  - exists v'. rewrite lookup_insert_eq. split; [done|]. congruence.
  - exists u. rewrite lookup_insert_ne by done. done.
Qed.

Lemma heap_le_fresh heap v : heap_le heap (<[fresh (dom heap) := v]> heap).
Proof.
  intros b u Hb. exists u. rewrite lookup_insert_ne; [done|].
  intros <-. apply (is_fresh (dom heap)). apply elem_of_dom. eauto.
Qed.

(** The extension of a device of the driver, on a well-formed state. *)
Lemma ext_of_run d s :
  (exists n e, d = Some n /\ dr_devices s !! n = Some e /\ ext_of d s = (s, Ok (n, e))) \/
  ext_of d s = (s, Panic).
Proof.
  unfold ext_of. destruct d as [n|]; [|by right]. cbn.
  destruct (dr_devices s !! n) as [e|] eqn:E; cbn; [left; eauto|by right].
Qed.

Lemma volume_at_run a s :
  (exists v, dr_heap s !! a = Some v /\ volume_at a s = (s, Ok v)) \/ volume_at a s = (s, Panic).
Proof. unfold volume_at. destruct (dr_heap s !! a) as [v|]; cbn; [left; eauto|by right]. Qed.

Lemma insert_volume_run v s :
  let a := fresh (dom (dr_heap s)) in
  insert_volume v s =
    (with_registry (registry_insert a v (dr_registry s))
       (with_heap (<[a := v]> (dr_heap s)) s), Ok a).
Proof. done. Qed.

Lemma keep_insert_volume v : preserves driver_wf (insert_volume (P := P) (W0 := W0) v).
Proof.
  intros s Hs _. rewrite insert_volume_run. cbn [fst].
  pose proof (driver_wf_heap s _ (heap_le_fresh (dr_heap s) v) Hs) as [Hr Hd].
  constructor; cbn in *; [|done]. apply registry_insert_wf; [done|]. apply lookup_insert_eq.
Qed.

Lemma keep_take_volume path : preserves driver_wf (take_volume (P := P) (W0 := W0) path).
Proof. intros s [] _. constructor; cbn; [apply registry_remove_wf; done|done]. Qed.

Lemma kread_run {B} (f : W0 -> B) s : kread f s = (s, Ok (f (dr_world s).2)).
Proof. destruct s as [? ? ? ? [? ?]]. done. Qed.

(** [filter_bind_volume] and [filter_rebind_volume]. *)
Lemma filter_bind_run d a s :
  let r := filter_bind_volume K d a s in
  r.2 = Panic \/
  exists n e v, d = Some n /\ dr_devices s !! n = Some e /\ dr_heap s !! a = Some v /\
    r = (with_devices (<[n := mkExt (de_kind e) (de_lower_device e) (Some a)
            (bind (k_create_thread K (dr_world s).2) (de_vthread e) a
               (match cipher_supplier v with Some _ => true | None => false end))]>
          (dr_devices s)) s, Ok tt).
Proof.
  cbv zeta. unfold filter_bind_volume, write_volume, bind_thread. rewrite !mbind_run.
  destruct (ext_of_run d s) as [(n & e & -> & He & ->)| ->]; [|by left]. cbn -[volume_at bind].
  rewrite !mbind_run. unfold ext_of. cbn -[volume_at bind]. rewrite lookup_insert_eq.
  cbn -[volume_at bind]. rewrite mbind_run.
  destruct (volume_at_run a (with_devices (<[n:=mkExt (de_kind e) (de_lower_device e) (Some a)
    (de_vthread e)]> (dr_devices s)) s)) as [(v & Hv & ->)| ->]; [|by left].
  right. exists n, e, v. cbn in Hv. split_and!; [done..|]. cbn -[bind].
  rewrite mbind_run, kread_run. unfold set_ext, mmodify, with_devices. cbn -[bind].
  rewrite insert_insert_eq. done.
Qed.

Lemma bind_current created vt a c vt' : bind created vt a c = Some vt' -> vt_current vt' = a.
Proof. unfold bind. destruct vt as [vt|]; [|destruct c]; intros; simplify_eq; done. Qed.

Lemma keep_filter_bind d a : preserves driver_wf (filter_bind_volume (P := P) K d a).
Proof.
  intros s Hs Hp. destruct (filter_bind_run d a s) as [Hn|(n & e & v & -> & He & Hv & ->)]; [done|].
  cbn [fst]. apply driver_wf_ext; [|done]. constructor; cbn.
  - intros b [= <-]. eauto.
  - intros vt Hb. rewrite (bind_current _ _ _ _ _ Hb). done.
Qed.

(** The requests a filter's thread still holds, as stopping it completes them. *)
Definition cancelled (e : DeviceExtension) : list IRP :=
  match de_vthread e with Some vt => vt_drop (vt_stop vt) | None => [] end.

(** Stopping a thread leaves the extension without one. *)
Lemma stop_thread_run n e s :
  dr_devices s !! n = Some e ->
  stop_thread n e s =
    (with_completed (dr_completed s ++ cancelled e)
       (with_devices (<[n := mkExt (de_kind e) (de_lower_device e) (de_volume e) None]>
          (dr_devices s)) s),
     Ok (mkExt (de_kind e) (de_lower_device e) (de_volume e) None)).
Proof.
  intros He. unfold stop_thread, cancelled. destruct e as [k l v [vt|]]; cbn in *; [done|].
  rewrite insert_id by done. unfold with_completed, with_devices. cbn. rewrite app_nil_r.
  destruct s. done.
Qed.

Lemma unbind_filter_run d s :
  d = None /\ unbind_filter d s = (s, Ok tt) \/ unbind_filter d s = (s, Panic) \/
  exists n e, d = Some n /\ dr_devices s !! n = Some e /\
    unbind_filter d s =
      (with_completed (dr_completed s ++ cancelled e)
         (with_devices (<[n := mkExt (de_kind e) (de_lower_device e) None None]> (dr_devices s)) s),
       Ok tt).
Proof.
  destruct d as [n|]; [right|by left]. unfold unbind_filter. rewrite mbind_run.
  destruct (ext_of_run (Some n) s) as [(n' & e & [= <-] & He & ->)| ->]; [right|by left].
  exists n, e. split_and!; [done..|]. rewrite mbind_run, stop_thread_run by done.
  unfold set_ext, mmodify, with_devices, with_completed. cbn. rewrite insert_insert_eq. done.
Qed.

Lemma ext_of_some n e s : dr_devices s !! n = Some e -> ext_of (Some n) s = (s, Ok (n, e)).
Proof. intros He. unfold ext_of. cbn. rewrite He. done. Qed.

Lemma detach_filter_ok n e s :
  dr_devices s !! n = Some e ->
  exists w, detach_filter K (Some n) s =
    (with_world w (with_completed (dr_completed s ++ cancelled e)
       (with_devices (delete n (dr_devices s)) s)), Ok tt).
Proof.
  intros He. unfold detach_filter. rewrite (mbind_step _ _ _ _ _ (ext_of_some n e s He)).
  rewrite mbind_run, stop_thread_run by done. rewrite mbind_run.
  destruct s as [reg heap devs comp [p w]], e as [k [l|] v t]; cbn;
    unfold delete_device, set_ext, mmodify, kcall, kworld, world, on_snd, zoom; cbn;
    rewrite ?mbind_run; cbn; eexists (p, _);
    unfold with_world, with_devices, with_completed; cbn; rewrite !delete_insert_eq; done.
Qed.

Lemma detach_filter_run d s :
  d = None /\ detach_filter K d s = (s, Ok tt) \/ detach_filter K d s = (s, Panic) \/
  exists n e w, d = Some n /\ dr_devices s !! n = Some e /\
    detach_filter K d s =
      (with_world w (with_completed (dr_completed s ++ cancelled e)
         (with_devices (delete n (dr_devices s)) s)), Ok tt).
Proof.
  destruct d as [n|]; [right|by left]. destruct (dr_devices s !! n) as [e|] eqn:He; [right|left].
  - destruct (detach_filter_ok n e s He) as [w E]. exists n, e, w. done.
  - unfold detach_filter. rewrite mbind_run. unfold ext_of. cbn. rewrite He. done.
Qed.

Lemma keep_unbind d : preserves driver_wf (unbind_filter (P := P) (W0 := W0) d).
Proof.
  intros s Hs Hp. destruct (unbind_filter_run d s) as [[_ ->]|[E|(n & e & -> & He & ->)]]; [done| |].
  - rewrite E in Hp. done.
  - apply driver_wf_completed. apply driver_wf_ext; done.
Qed.

Lemma keep_detach d : preserves driver_wf (detach_filter (P := P) K d).
Proof.
  intros s Hs Hp. destruct (detach_filter_run d s) as [[_ ->]|[E|(n & e & w & -> & He & ->)]]; [done| |].
  - rewrite E in Hp. done.
  - apply driver_wf_world, driver_wf_completed, driver_wf_delete. done.
Qed.

Lemma keep_set_ext_new n e :
  de_volume e = None -> de_vthread e = None -> preserves driver_wf (set_ext (P := P) (W0 := W0) n e).
Proof.
  intros Hv Ht s Hs _. apply driver_wf_ext; [|done].
  constructor; [rewrite Hv; done|rewrite Ht; done].
Qed.

Lemma keep_delete_device n : preserves driver_wf (delete_device (P := P) K n).
Proof.
  unfold delete_device. apply preserves_bind.
  - apply frames_preserves; [apply _|apply frames_kcall].
  - intros _ s Hs _. apply driver_wf_delete. done.
Qed.

(** An update of a volume that keeps its path. *)
Lemma keep_set_volume s a v v' :
  dr_heap s !! a = Some v -> av_volume_path v' = av_volume_path v -> driver_wf s ->
  driver_wf (with_heap (<[a := v']> (dr_heap s)) s).
Proof. intros Ha Hp. apply driver_wf_heap. eapply heap_le_insert; done. Qed.

Lemma keep_swap_filter a : preserves driver_wf (swap_filter (P := P) (W0 := W0) a).
Proof.
  intros s Hs Hp. unfold swap_filter in *. rewrite mbind_run in *.
  destruct (volume_at_run a s) as [(v & Hv & E)|E]; rewrite E in *; [|done]. cbn.
  eapply keep_set_volume; done.
Qed.

Lemma keep_pause a : preserves driver_wf (pause_volume (P := P) (W0 := W0) a).
Proof.
  intros s Hs Hp. unfold pause_volume in *. rewrite mbind_run in *.
  destruct (volume_at_run a s) as [(v & Hv & E)|E]; rewrite E in *; [|done]. cbn.
  eapply keep_set_volume; done.
Qed.

(** An engine operation on the volume at [a]. *)
Lemma with_engine_run {B} a
    (m : EncryptedOffsetStore (P * W0) -> M VckError (EncryptionEngine * (P * W0)) B) s :
  with_engine a m s = (s, Panic) \/
  exists v e w, dr_heap s !! a = Some v /\
    (with_engine a m s).1 = with_world w (with_heap (<[a := set_encryption e v]> (dr_heap s)) s) /\
    e = (m (av_offset_store v) (av_encryption v, dr_world s)).1.1.
Proof.
  unfold with_engine, upd_volume. destruct (dr_heap s !! a) as [v|] eqn:Hv; [right|by left].
  exists v. rewrite mbind_run. unfold on_engine, zoom, volume. rewrite mbind_run. cbn.
  destruct (m (av_offset_store v) (av_encryption v, dr_world s)) as [[e w] r]. cbn. eauto 10.
Qed.

Lemma keep_with_engine {B} a
    (m : EncryptedOffsetStore (P * W0) -> M VckError (EncryptionEngine * (P * W0)) B) :
  preserves driver_wf (with_engine a m).
Proof.
  intros s Hs Hp. destruct (with_engine_run a m s) as [E|(v & e & w & Hv & -> & _)].
  - rewrite E in Hp. done.
  - apply driver_wf_world. eapply keep_set_volume; done.
Qed.

(** [wake_for] touches the event of a filter's thread. *)
Lemma wake_volume_run a s :
  (wake_volume a s).2 = Panic \/ wake_volume a s = (s, Ok tt) \/
  exists n e, dr_devices s !! n = Some e /\
    wake_volume a s =
      (with_devices (<[n := mkExt (de_kind e) (de_lower_device e) (de_volume e)
         (vt_signal <$> de_vthread e)]> (dr_devices s)) s, Ok tt).
Proof.
  unfold wake_volume. rewrite mbind_run.
  destruct (volume_at_run a s) as [(v & Hv & ->)| ->]; [|by left].
  destruct (av_filter_device v) as [n|]; [|by auto]. rewrite mbind_run.
  destruct (ext_of_run (Some n) s) as [(n' & e & [= <-] & He & ->)| ->]; [right; right|by left].
  exists n, e. done.
Qed.

Lemma ext_wf_wake heap e :
  ext_wf heap e ->
  ext_wf heap (mkExt (de_kind e) (de_lower_device e) (de_volume e) (vt_signal <$> de_vthread e)).
Proof.
  intros []. constructor; cbn; [done|]. intros vt Hvt.
  destruct (de_vthread e) as [vt'|]; [|done]. cbn in Hvt. simplify_eq. cbn. auto.
Qed.

Lemma keep_wake a : preserves driver_wf (wake_volume (P := P) (W0 := W0) a).
Proof.
  intros s Hs Hp. destruct (wake_volume_run a s) as [E|[->|(n & e & He & ->)]]; [done|done|].
  apply driver_wf_ext; [|done]. apply ext_wf_wake. eapply dw_devices; done.
Qed.
End WellFormed.

#[export] Hint Resolve keep_insert_volume keep_take_volume keep_filter_bind keep_unbind
  keep_detach keep_set_ext_new keep_delete_device keep_swap_filter keep_pause keep_with_engine
  keep_wake : keep.

Section Handlers.
Context `{A : AesApi} `{Wire} {P W0 : Type}.
Context (K : Kernel W0) (provider : option (VolumeProvider P W0)).
Abbreviation keeps_wf m := (preserves (P := P) (W0 := W0) driver_wf m).

Lemma keep_create err : keeps_wf (create_filter_device K err).
Proof. unfold create_filter_device. keep. Qed.
Lemma keep_resolve_target d path err : keeps_wf (resolve_target K d path err).
Proof. unfold resolve_target. keep. Qed.
Lemma keep_attach_above d t err : keeps_wf (attach_above K d t err).
Proof. unfold attach_above. keep. Qed.
#[local] Hint Resolve keep_create keep_resolve_target keep_attach_above : keep.

Lemma keep_attach_raw t : keeps_wf (attach_filter_to_raw_device K t).
Proof. unfold attach_filter_to_raw_device. keep. Qed.
Lemma keep_attach_unbound path : keeps_wf (attach_filter_unbound K path).
Proof. unfold attach_filter_unbound. keep. Qed.
#[local] Hint Resolve keep_attach_raw keep_attach_unbound : keep.
Lemma keep_attach_locked path h : keeps_wf (attach_locked K path h).
Proof. unfold attach_locked. keep. Qed.

Lemma keep_remove_volume path : keeps_wf (remove_volume path).
Proof. unfold remove_volume. keep. Qed.
#[local] Hint Resolve keep_remove_volume : keep.

Lemma keep_drop_provisional path d : keeps_wf (drop_provisional K path d).
Proof. unfold drop_provisional. keep. Qed.
Lemma keep_replace path v d : keeps_wf (replace_volume K path v d).
Proof. unfold replace_volume, filter_rebind_volume. fold (filter_bind_volume (P := P) K d). keep. Qed.
#[local] Hint Resolve keep_attach_locked keep_drop_provisional keep_replace : keep.

Lemma keep_detach_dismount path ignore_open keep_filter :
  keeps_wf (detach_volume_with_dismount K path ignore_open keep_filter).
Proof. unfold detach_volume_with_dismount, open_volume_handle_raw. keep. Qed.
#[local] Hint Resolve keep_detach_dismount : keep.

Lemma keep_handle_detach input : keeps_wf (handle_detach K input).
Proof. unfold handle_detach. keep. Qed.
Lemma keep_detach_all : keeps_wf (handle_detach_all_volumes K).
Proof.
  unfold handle_detach_all_volumes. keep. apply preserves_miter. intros path _. keep.
Qed.
Lemma keep_pause_os : keeps_wf (handle_pause_os_volume).
Proof. unfold handle_pause_os_volume. keep. apply preserves_miter. intros p _. keep. Qed.
Lemma keep_start_encrypt input : keeps_wf (handle_start_encrypt K input).
Proof. unfold handle_start_encrypt. keep. Qed.
Lemma keep_start_decrypt input : keeps_wf (handle_start_decrypt K input).
Proof. unfold handle_start_decrypt. keep. Qed.
Lemma keep_handle_pause input : keeps_wf (handle_pause K input).
Proof. unfold handle_pause. keep. Qed.

Lemma keep_full_lower req d l ss total paths :
  keeps_wf (full_attach_lower K provider req d l ss total paths).
Proof. unfold full_attach_lower, passthrough_error. keep. Qed.
#[local] Hint Resolve keep_full_lower : keep.
Lemma keep_adddevice req path d l :
  keeps_wf (handle_jvck_prepare_adddevice_path K provider req path d l).
Proof. unfold handle_jvck_prepare_adddevice_path. keep. Qed.

Lemma keep_write_volume req path d ss total lbas :
  keeps_wf (write_metadata_volume K req path d ss total lbas).
Proof. unfold write_metadata_volume. keep. Qed.
Lemma keep_full_volume req d paths : keeps_wf (full_attach_volume K provider req d paths).
Proof. unfold full_attach_volume, passthrough_error. keep. Qed.
#[local] Hint Resolve keep_adddevice keep_write_volume keep_full_volume : keep.
Lemma keep_fallback req path : keeps_wf (prepare_fallback K provider req path).
Proof. unfold prepare_fallback, open_volume_handle_raw. keep. Qed.
#[local] Hint Resolve keep_fallback : keep.
Lemma keep_prepare input : keeps_wf (handle_jvck_prepare K provider input).
Proof. unfold handle_jvck_prepare. keep. Qed.
Lemma keep_jvck_attach input : keeps_wf (handle_jvck_attach K provider input).
Proof. unfold handle_jvck_attach, passthrough_error. keep. Qed.

(** Every control request, whoever sends it. *)
Lemma keep_dispatch auth pc ctx input : keeps_wf (dispatch_ioctl K provider auth pc ctx input).
Proof.
  unfold dispatch_ioctl.
  pose proof keep_start_encrypt. pose proof keep_start_decrypt. pose proof keep_handle_pause.
  pose proof keep_prepare. pose proof keep_jvck_attach. pose proof keep_handle_detach.
  pose proof keep_pause_os. pose proof keep_detach_all. keep.
Qed.

(** The boot mount. *)
Lemma keep_mount from_le fmt published d :
  keeps_wf (try_mount_handover_volume K provider from_le fmt published d).
Proof. unfold try_mount_handover_volume. keep. Qed.
End Handlers.
