(* ===== verification/Durable.v ===== *)
(** * The metadata of a volume on its disk

    The stores the sample's provider hands out keep the sweep's contract over the
    shared world; opening the metadata of a disk gives back the store that wrote it; and
    whatever a bound volume does to its devices, the metadata on the disk records the
    boundary it was last given. *)

From S2P Require Import Prelude Types Sectors Engine Nt Pipeline Volume Thread Xts Metadata Codec Store StoreLaws Filter Io Handover Registry Manager Provider Dispatch Attach AttachLaws.

(** ** The provider's stores *)

Section Shared.
Context `{C : CryptoApi} `{A : AesApi} {W0 : Type} (RNG : option (RandomSource W0)).
Context (io : SectorIo W0) (inv : W0 -> Prop) (view : W0 -> Z -> bytes).
Context {IL : SectorIoLaws io inv view}.
Context {FL : FillLaws RNG inv view (total_sectors io)}.
Context (n : nat) (g : Geometry).
Abbreviation Stores := (list (JvckMetadataStore W0)).

(** Store [n] exists, is well formed over [io], and has geometry [g]. *)
Definition shared_inv (t : Stores * W0) : Prop :=
  exists s, t.1 !! n = Some s /\ store_inv io inv view g (s, t.2).
Definition shared_view (t : Stores * W0) : Z -> bytes := view t.2.

Lemma on_store_run {B} (m : M VckError (JvckMetadataStore W0 * W0) B) t s :
  t.1 !! n = Some s ->
  on_store n m t = let '((s', w'), r) := m (s, t.2) in ((<[n := s']> t.1, w'), r).
Proof. intros Hs. unfold on_store. rewrite Hs. done. Qed.

Lemma on_store_keeps {B} lo hi (m : M VckError (JvckMetadataStore W0 * W0) B) :
  keeps (store_inv io inv view g) (store_view view) lo hi m ->
  keeps shared_inv shared_view lo hi (on_store n m).
Proof.
  intros Hm t t' r (s & Hs & Hi) H. rewrite (on_store_run m t s Hs) in H.
  destruct (m (s, t.2)) as [[s' w'] r'] eqn:E. simplify_eq.
  destruct (Hm _ _ _ Hi E) as (Hi' & Hv & Hp). split_and!; [|done|done].
  exists s'. cbn. rewrite list_lookup_insert_eq by (apply lookup_lt_is_Some; eauto). done.
Qed.

#[export] Instance shared_store_laws :
  OffsetStoreLaws (shared_store RNG n) shared_inv shared_view (g_offset_sector g)
    (g_offset_sector g + g_data_sectors g).
Proof using IL FL.
  pose proof (jvck_store_laws RNG io inv view g) as [].
  constructor; intros; apply on_store_keeps; auto.
Qed.

Lemma on_store_ok {B} (m : M VckError (JvckMetadataStore W0 * W0) B) t :
  (forall sw, store_inv io inv view g sw -> is_ok (m sw).2 = true) ->
  shared_inv t -> is_ok (on_store n m t).2 = true.
Proof.
  intros Hm (s & Hs & Hi). rewrite (on_store_run m t s Hs). specialize (Hm _ Hi).
  destruct (m (s, t.2)) as [[s' w'] r]. done.
Qed.

#[export] Instance shared_store_reliable {RL : SectorIoReliable io inv} {FR : FillReliable RNG inv} :
  OffsetStoreReliable (shared_store RNG n) shared_inv.
Proof using IL FL.
  pose proof (jvck_store_reliable RNG io inv view g) as [Hs Hf].
  constructor; intros; (apply on_store_ok; [|done]); intros sw Hsw; auto.
Qed.

(** A device of the kernel seen from the provider's world. *)
Context (dev : SectorIo W0) {m : Z} {DL : SectorIoUpto m dev inv view}.

#[export] Instance raise_io_laws : SectorIoUpto m (raise_io dev) shared_inv shared_view.
Proof using DL.
  constructor; cbn [sector_size total_sectors raise_io].
  - apply io_ss.
  - apply io_total.
  - intros t i (s & _ & _ & _ & Hi) Hr. exact (io_len (n:=m) (io:=dev) (view:=view) t.2 i Hi Hr).
  - intros t lba k t' r (s & Hs & S & Hg & Hi) Hl Hk H. cbn in H. unfold on_snd, zoom in H.
    destruct (read_sectors dev lba _ t.2) as [w' r'] eqn:E. simplify_eq.
    destruct (io_read (n:=m) (io:=dev) t.2 lba k w' r Hi Hl Hk E) as (Hi' & Hv & Hr).
    split_and!; [|done|done]. exists s. done.
  - intros t lba ls t' r (s & Hs & S & Hg & Hi) Hl Hk Hsec H. cbn in H. unfold on_snd, zoom in H.
    destruct (write_sectors dev lba _ t.2) as [w' r'] eqn:E. simplify_eq.
    destruct (io_write (n:=m) (io:=dev) t.2 lba ls w' r Hi Hl Hk Hsec E) as (Hi' & Hr).
    split; [|done]. exists s. done.
Qed.

#[export] Instance raise_io_reliable {RL : SectorIoReliableUpto m dev inv} :
  SectorIoReliableUpto m (raise_io dev) shared_inv.
Proof using Type.
  constructor; cbn [sector_size total_sectors raise_io read_sectors write_sectors].
  - intros t lba k (s & _ & _ & _ & Hi) Hl Hk Hsm. unfold on_snd, zoom.
    pose proof (io_read_ok (n:=m) (io:=dev) t.2 lba k Hi Hl Hk Hsm) as H. destruct (read_sectors _ _ _ _). done.
  - intros t lba ls (s & _ & _ & _ & Hi) Hl Hk Hsm Hsec. unfold on_snd, zoom.
    pose proof (io_write_ok (n:=m) (io:=dev) t.2 lba ls Hi Hl Hk Hsm Hsec) as H. destruct (write_sectors _ _ _ _).
    done.
Qed.
End Shared.

(** ** Opening the metadata *)

Section OnAttach.
Context `{C : CryptoApi} `{A : AesApi} {W0 : Type} (RNG : option (RandomSource W0)).
Context (io : SectorIo W0) (inv : W0 -> Prop) (view : W0 -> Z -> bytes).
Context {IL : SectorIoLaws io inv view} {RL : SectorIoReads io inv}.
Abbreviation Stores := (list (JvckMetadataStore W0)).

(** A disk that holds the metadata of [s], written by the default suite. *)
Record holds_metadata (s : JvckMetadataStore W0) (w : W0) : Prop := {
  hm_wf : store_wf io inv view s;
  hm_matches : header_matches s;
  hm_codec : js_codec s = JvckCbcCodec;
  hm_state : exists st, js_state s = as_u16 st;
  hm_synced : synced io inv view s w;
  hm_last : last_sector_clear io view s w;
}.

Lemma holds_metadata_ext s w w' :
  (forall i, 0 <= i < total_sectors io -> view w' i = view w i) ->
  holds_metadata s w -> holds_metadata s w'.
Proof using IL.
  intros Hv [S Hm Hc Hst Hs Hl]. constructor; try done.
  - apply (synced_ext io inv view s w w'); done.
  - destruct Hl as [|Hl]; [by left|right]. rewrite Hv; [done|].
    destruct (js_lbas s) as [|l ls] eqn:El; [destruct (js_lbas_nonempty io inv view s S El)|].
    pose proof (js_lbas_range io inv view s S) as Hr. rewrite El in Hr.
    apply Forall_cons in Hr as [? _]. lia.
Qed.

(** The configuration [on_attach] returns for it, with store number [n]. *)
Definition attached_config (s : JvckMetadataStore W0) (n : nat) : IoConfig (Stores * W0) :=
  Encrypted (Some (static_supplier (static_supplier_new (fvek_keys s).1 (fvek_keys s).2)))
    (g_offset_sector (js_geometry s))
    (mkEncryptedOffset (js_offset s) (g_data_sectors (js_geometry s))) (shared_store RNG n).

Lemma on_attach_synced s stores w guid :
  inv w -> holds_metadata s w ->
  exists w', vck_on_attach RNG (mkAttachContext io (js_vmk s) guid) (stores, w) =
      ((stores ++ [s], w'), Ok (attached_config s (length stores))) /\ inv w' /\
    forall i, 0 <= i < total_sectors io -> view w' i = view w i.
Proof using IL RL.
  intros Hi H. pose proof H as [S Hm Hc [st Hst] Hs Hl].
  destruct (open_synced io inv view s w st S Hm Hc Hst Hi Hs Hl) as (w1 & E1 & Hi1 & Hv1).
  pose proof (holds_metadata_ext s w w1 Hv1 H) as [_ _ _ _ Hs1 _].
  destruct (synced_load io inv view s w1 S Hi1 Hs1) as (w2 & E2 & Hi2 & Hv2).
  exists w2. split; [|split; [done|intros; rewrite Hv2, Hv1; done]].
  unfold open in E1. rewrite mbind_run in E1.
  unfold vck_on_attach. cbn [ac_io ac_vmk]. rewrite mbind_run. unfold on_snd at 1, zoom at 1.
  cbn [fst snd]. destruct (Reader_open io w) as [w0 [reader| |]]; [|done..].
  rewrite mbind_run. unfold on_snd at 1, zoom at 1. cbn [fst snd].
  unfold default_select in E1. rewrite E1.
  rewrite mbind_run. unfold on_snd at 1, zoom at 1. cbn [fst snd]. rewrite E2. done.
Qed.
End OnAttach.

(** ** A disk that holds the metadata of a volume *)

Section Bound.
Context `{C : CryptoApi} `{A : AesApi} {W0 : Type} (RNG : option (RandomSource W0)).
Context (io : SectorIo W0) (inv : W0 -> Prop) (view : W0 -> Z -> bytes).
Context {IL : SectorIoLaws io inv view} {RL : SectorIoReliable io inv}.
Abbreviation ss := (sector_size io).
Abbreviation total := (total_sectors io).

(** The disk holds the metadata of a volume with a boundary in its data region. *)
Record bindable (s : JvckMetadataStore W0) (w : W0) : Prop := {
  bl_metadata : holds_metadata io inv view s w;
  bl_boundary : 0 <= js_offset s <= g_data_sectors (js_geometry s);
}.

Lemma bindable_ext s w w' :
  (forall i, 0 <= i < total -> view w' i = view w i) -> bindable s w -> bindable s w'.
Proof using IL.
  intros Hv [Hm Hb]. constructor; [|done]. exact (holds_metadata_ext io inv view s w w' Hv Hm).
Qed.

(** The data region is on the disk. *)
Lemma bindable_region s w :
  bindable s w ->
  0 <= g_offset_sector (js_geometry s) /\ 0 <= g_data_sectors (js_geometry s) /\
  g_offset_sector (js_geometry s) + g_data_sectors (js_geometry s) <= total.
Proof using IL. intros [[S _ _ _ _ _] _]. exact (store_region io inv view s S). Qed.

(** The metadata is at the end only, as for every volume that had data before. *)
Record footer_only (s : JvckMetadataStore W0) (w : W0) : Prop := {
  fo_bindable :> bindable s w;
  fo_header : use_header (js_options s) = 0;
}.

Lemma footer_only_ext s w w' :
  (forall i, 0 <= i < total -> view w' i = view w i) -> footer_only s w -> footer_only s w'.
Proof using IL. intros Hv [Hm Hh]. constructor; [|done]. exact (bindable_ext s w w' Hv Hm). Qed.

Lemma footer_only_data s w :
  footer_only s w -> g_offset_sector (js_geometry s) = 0 /\ 0 <= g_data_sectors (js_geometry s) <= total.
Proof using IL.
  intros [Hb Hh]. destruct (bindable_region s w Hb). destruct Hb as [[S _ _ _ _ _] _].
  pose proof S as [_ _ Ho _ Hg _ _ _].
  destruct (geometry_facts _ _ _ _ (ss_32 io inv view) (total_64 io inv view) Ho Hg)
    as (_ & _ & H3 & _). rewrite H3, Hh in *. split; [done|lia].
Qed.

(** The state after opening a store. *)
Lemma shared_after s stores w :
  store_wf io inv view s -> inv w ->
  shared_inv io inv view (length stores) (js_geometry s) (stores ++ [s], w).
Proof using Type.
  intros S Hi. exists s. split; [|split; done]. apply list_lookup_middle. done.
Qed.

Lemma store_keys {HA : AesLaws A} s :
  store_wf io inv view s ->
  exists c enc dec, get_cipher (static_supplier (static_supplier_new (fvek_keys s).1 (fvek_keys s).2)) = Some c /\
    CipherLaws c ss enc dec.
Proof using IL.
  intros S. destruct (sw_secrets _ _ _ _ S) as [H1 H2]. apply keys_give_cipher; [done..|].
  apply (io_ss (io:=io) (inv:=inv) (view:=view)).
Qed.

End Bound.

(** ** What a bound volume leaves on the disk *)

Section Recorded.
Context `{C : CryptoApi} `{A : AesApi} {W0 : Type} (RNG : option (RandomSource W0)).
Context (io : SectorIo W0) (inv : W0 -> Prop) (view : W0 -> Z -> bytes).
Context {IL : SectorIoLaws io inv view} {RL : SectorIoReliable io inv}.
Context {FL : FillLaws RNG inv view (total_sectors io)} {FR : FillReliable RNG inv}.
Abbreviation total := (total_sectors io).
Abbreviation offset s := (g_offset_sector (js_geometry s)).
Abbreviation data s := (g_data_sectors (js_geometry s)).
Implicit Types (s : JvckMetadataStore W0) (w : W0).

(** The store of the same volume at another boundary, sweeping in some direction. *)
Definition later (o : Z) (st : VolumeState) s : JvckMetadataStore W0 :=
  set_js_state (as_u16 st) (set_js_offset o s).

Lemma later_wf o st s : store_wf io inv view s -> store_wf io inv view (later o st s).
Proof using Type. intros S. apply store_wf_state, store_wf_offset, S. Qed.

(** Only the sectors outside the data region hold metadata. *)
Lemma bindable_data_ext s w w' :
  0 < use_footer (js_options s) ->
  (forall i, 0 <= i < total -> i < offset s \/ offset s + data s <= i -> view w' i = view w i) ->
  bindable io inv view s w -> bindable io inv view s w'.
Proof using IL.
  intros Hf Hv [[S Hm Hc Hst (block & Hl & Hsl & Hr) _] Hb]. constructor; [|done].
  constructor; [done..| |by left]. exists block. split; [done|]. split; [done|]. intros l Hin.
  pose proof (js_lbas_range io inv view s S) as Hrange. rewrite Forall_forall in Hrange.
  rewrite Hv; [apply Hr; done|apply Hrange; done|].
  destruct (Z_lt_le_dec l (offset s)); [by left|]. destruct (Z_le_gt_dec (offset s + data s) l); [by right|].
  destruct (js_lbas_data io inv view s S l) as [_ Hn]; [lia|]. done.
Qed.

(** An update of the boundary or the direction reaches the disk. *)
Lemma later_update s o st o' st' w t' r :
  store_wf io inv view s -> header_matches s -> js_codec s = JvckCbcCodec ->
  0 < use_footer (js_options s) -> 0 <= o' <= data s -> inv w ->
  update RNG (fun _ => later o' st' s) (later o st s, w) = (t', r) ->
  exists w', t' = (later o' st' s, w') /\ inv w' /\ bindable io inv view (later o' st' s) w'.
Proof using IL RL FL FR.
  intros S Hm Hc Hf Ho Hi E. rewrite update_run in E. cbn [fst snd] in E.
  pose proof (later_wf o' st' s S) as S'.
  pose proof (write_all_ok RNG io inv view _ S' w Hi) as Hok.
  destruct (write_all_replicas RNG (later o' st' s) w) as [w1 r1] eqn:E1. cbn in Hok.
  destruct r1 as [[]| |]; [|done..]. simplify_eq.
  destruct (store_region io inv view s S) as (H0 & Hd & Ht).
  pose proof (io_total (io:=io) (inv:=inv) (view:=view)).
  destruct (write_all_synced RNG io inv view (later o' st' s) w w1 S' Hi) as (Hi1 & Hs & _);
    [unfold in_u; cbn; lia|exact E1|].
  exists w1. split; [done|]. split; [done|]. constructor; [|done].
  constructor; [done| |done|by exists st'|done|by left]. destruct Hm. constructor; done.
Qed.

(** Store [n] is the volume's at boundary [b], and the disk holds its metadata. *)
Definition records (n : nat) s (b : Z) (t : list (JvckMetadataStore W0) * W0) : Prop :=
  exists st, t.1 !! n = Some (later b st s) /\ bindable io inv view (later b st s) t.2 /\ inv t.2.

Lemma records_now n s t :
  t.1 !! n = Some s -> bindable io inv view s t.2 -> inv t.2 -> records n s (js_offset s) t.
Proof using Type.
  intros Hn Hb Hi. destruct (hm_state _ _ _ _ _ (bl_metadata _ _ _ _ _ Hb)) as [st Hst].
  exists st. assert (later (js_offset s) st s = s) as ->; [|done].
  unfold later, set_js_state, set_js_offset. cbn. rewrite <- Hst. destruct s. done.
Qed.

Context (sweep : SectorIo W0) {SL : SectorIoUpto total sweep inv view}.
Hypothesis Hsize : sector_size sweep = sector_size io.

Lemma store_access_records n s b b' (m : M VckError (JvckMetadataStore W0 * W0) unit) t t' r :
  0 < use_footer (js_options s) -> records n s b t ->
  (forall st, exists st', forall w, m (later b st s, w) = update RNG (fun _ => later b' st' s) (later b st s, w)) ->
  0 <= b' <= data s -> on_store n m t = (t', r) -> records n s b' t'.
Proof using IL RL FL FR.
  intros Hf (st & Hn & Hb & Hi) Hm Hb' E. destruct (Hm st) as [st' Hst'].
  pose proof Hb as [[S [H1 H2 H3] Hc _ _ _] _].
  rewrite (on_store_run n m t _ Hn), Hst' in E. destruct (update _ _ _) as [[s2 w2] r2] eqn:E2. simplify_eq.
  destruct (later_update s b st b' st' t.2 (s2, w2) r) as (w' & Hw & Hi' & Hb2);
    [|constructor; done|done..|].
  - destruct S. constructor; done.
  - simplify_eq. exists st'. split; [|done].
    cbn. rewrite list_lookup_insert_eq by (apply lookup_lt_is_Some; eauto). done.
Qed.

(** Every access keeps the record. *)
Lemma access_records n s b t b' t' :
  0 < use_footer (js_options s) ->
  access (raise_io sweep) (shared_store RNG n) (offset s) (data s) (b, t) (b', t') ->
  records n s b t -> records n s b' t'.
Proof using All.
  intros Hf Ha HR. pose proof HR as (st & Hn & Hb & Hi).
  destruct (bindable_region io inv view _ _ Hb) as (H0 & Hd & Ht).
  cbn [later js_geometry set_js_state set_js_offset] in H0, Hd, Ht.
  inversion Ha as [? lba k ? ? r Hl Hk E|? lba ls ? ? r Hl Hk Hs E|? o ? ? Ho E|? ? ? r E|? ? ? r E|? d ? ? r E];
    subst.
  - cbn in E. unfold on_snd, zoom in E. destruct (read_sectors sweep lba _ t.2) as [w1 r1] eqn:E1. simplify_eq.
    destruct (io_read (n:=total) (io:=sweep) t.2 lba k w1 r Hi ltac:(lia) ltac:(lia) E1) as (Hi1 & Hv & _).
    exists st. split; [done|]. split; [|done]. apply (bindable_ext io inv view _ t.2 w1 Hv Hb).
  - cbn in E. unfold on_snd, zoom in E. destruct (write_sectors sweep lba _ t.2) as [w1 r1] eqn:E1. simplify_eq.
    destruct (io_write (n:=total) (io:=sweep) t.2 lba ls w1 r Hi ltac:(lia) ltac:(lia) Hs E1) as (Hi1 & Hv).
    exists st. split; [done|]. split; [|done]. apply (bindable_data_ext (later b' st s) t.2 w1 Hf); [|exact Hb].
    cbn [later js_geometry set_js_state set_js_offset snd]. intros i Hx Hout.
    destruct r as [[]| |]; [rewrite Hv by lia; apply write_run_out; lia|apply Hv; lia|done].
  - refine (store_access_records n s b (eo_sector o) _ t t' _ Hf HR _ Ho E).
    intros st'. exists st'. done.
  - cbn in E. unfold on_store in E. rewrite Hn in E. cbn in E. simplify_eq.
    rewrite list_insert_id by done. destruct t. done.
  - cbn in E. rewrite (on_store_run n _ _ _ Hn) in E. cbn in E. simplify_eq.
    rewrite list_insert_id by done. destruct t. done.
  - refine (store_access_records n s b' b' _ t t' r Hf HR _ (bl_boundary _ _ _ _ _ Hb) E).
    intros st'. exists d. done.
Qed.

Lemma accesses_record n s b t b' t' :
  0 < use_footer (js_options s) ->
  accesses (raise_io sweep) (shared_store RNG n) (offset s) (data s) (b, t) (b', t') ->
  records n s b t -> records n s b' t'.
Proof using All.
  intros Hf Ha. apply (accesses_keep _ _ _ _ (records n s) _ _ (fun b1 t1 b2 t2 => access_records n s b1 t1 b2 t2 Hf) Ha).
Qed.
End Recorded.
