(* ===== verification/BindLaws.v ===== *)
(** * From a metadata store to a bound volume

    What a bound volume serves and what it leaves on the disk: opening the metadata of a
    disk gives a volume that the data path serves as a plaintext disk, whatever device
    the metadata is read through and whatever device the sweep uses, and that leaves a
    disk that can be bound again; and filing and binding such a volume at boot or in the
    place of a provisional one ends in exactly that state. *)

From S2P Require Import Prelude Types Sectors Engine Nt Pipeline Volume Thread Xts Metadata Codec Store StoreLaws Filter DataPath Io Handover Registry Manager Provider Dispatch Attach AttachLaws Durable.

(** ** The bound volume *)

(** What a filter bound to [v], as [a], and its idle thread need to start on [evs]. *)
Record path_ready {W} (off total : Z) (v : AttachedVolume W) (alloc : Z -> bool) (a : nat)
    (ext : DeviceExtension) (vt : VolumeThread) (heap : gmap nat (AttachedVolume W))
    (evs : list path_event) : Prop := {
  pr_alloc : forall n, alloc n = true;
  pr_size : (off + total) * av_sector_size v < 2 ^ 63;
  pr_batch : BATCH_SECTORS * av_sector_size v < 2 ^ 32;
  pr_bound : de_volume ext = Some a;
  pr_volume : heap !! a = Some v;
  pr_thread : idle_thread true a vt;
  pr_events : Forall (path_event_ok (av_sector_size v) off total) evs;
}.

(** A volume answers requests as a plain disk holding [P] does, whatever sweep
    batches and control operations come between; and so does every filter bound to
    it, through its thread, however the thread's sections interleave with them, until
    it is stopped. *)
Record serves {W} (off total : Z) (P : Z -> bytes) (v : AttachedVolume W) (t : W) : Prop := {
  sv_geometry : 0 < av_sector_size v /\ 0 <= off;
  sv_volume : forall alloc ops, (forall n, alloc n = true) ->
    Forall (op_ok (av_sweep_io v) off total) ops ->
    exists v' t', run_vops alloc ops None (v, t) =
      ((v', t'), Ok (spec_run (av_sector_size v) off P ops).2);
  sv_filter : forall alloc a ext vt heap evs, path_ready off total v alloc a ext vt heap evs ->
    exists s' t' fs,
      run_path alloc (catch_up (av_sector_size v) total evs) (path_start ext vt heap, t) =
        ((s', t'), Ok tt) /\
      answered_as_disk (av_sector_size v) off total P evs fs s';
  sv_stop : forall alloc a ext vt heap evs, path_ready off total v alloc a ext vt heap evs ->
    exists s' t' fs gs,
      run_path alloc (stopped (av_sector_size v) total evs) (path_start ext vt heap, t) =
        ((s', t'), Ok tt) /\
      stopped_as_disk (av_sector_size v) off total P evs fs gs s';
}.

(** Only the data region of the plain disk matters. *)
Lemma serves_ext {W} off total P Q (v : AttachedVolume W) t :
  av_sector_size v = sector_size (av_sweep_io v) ->
  same_disk total P Q -> serves off total P v t -> serves off total Q v t.
Proof.
  intros Hss HPQ [[Hpos Hoff] Hs Hf Ht]. constructor; [done|..].
  - intros alloc ops Hal Hops. destruct (Hs alloc ops Hal Hops) as (v' & t' & E).
    exists v', t'. rewrite E, Hss. do 2 f_equal.
    apply (spec_run_same (av_sweep_io v) off total); done.
  - intros alloc a ext vt heap evs Hr.
    destruct (Hf alloc a ext vt heap evs Hr) as (s' & t' & fs & E & Ha).
    exists s', t', fs. split; [exact E|]. destruct Hr. eapply answered_same; done.
  - intros alloc a ext vt heap evs Hr.
    destruct (Ht alloc a ext vt heap evs Hr) as (s' & t' & fs & gs & E & Ha).
    exists s', t', fs, gs. split; [exact E|]. destruct Hr. eapply stopped_same; done.
Qed.

(** ** A volume that serves a disk *)

Section Serves.
Context `{C : CryptoApi} `{A : AesApi} {W0 : Type}.
Context (io : SectorIo W0) (inv : W0 -> Prop) (view : W0 -> Z -> bytes).
Abbreviation P := (list (JvckMetadataStore W0)).
Implicit Types (d : Driver P W0) (s : JvckMetadataStore W0).

(** Whatever a filter bound to [v] was doing when the machine went down, the disk it
    leaves can be bound again, by the metadata of the same volume, and presents what the
    answered requests wrote. *)
Definition lasts (s : JvckMetadataStore W0) (dec : Z -> bytes -> bytes) (Q : Z -> bytes)
    (v : AttachedVolume (P * W0)) (t : P * W0) : Prop :=
  let off := g_offset_sector (js_geometry s) in
  let data := g_data_sectors (js_geometry s) in
  0 < use_footer (js_options s) ->
  forall alloc a ext vt heap evs, path_ready off data v alloc a ext vt heap evs ->
  exists p' t' fs gs o st,
    run_path alloc evs (path_start ext vt heap, t) = ((p', t'), Ok tt) /\
    cut_as_disk (av_sector_size v) off data Q evs fs gs p' /\
    inv t'.2 /\ bindable io inv view (later o st s) t'.2 /\
    same_disk data (plaintext dec (view t'.2) off o) (disk_answers (av_sector_size v) Q fs).1.

Lemma lasts_ext s dec Q Q' v t :
  0 < av_sector_size v -> 0 <= g_offset_sector (js_geometry s) ->
  same_disk (g_data_sectors (js_geometry s)) Q Q' -> lasts s dec Q v t -> lasts s dec Q' v t.
Proof using Type.
  intros Hss Hoff HQ Hl Hf alloc a ext vt heap evs Hr.
  destruct (Hl Hf alloc a ext vt heap evs Hr) as (p' & t' & fs & gs & o & st & E & Hc & Hi & Hb & Hs).
  destruct (cut_same _ _ _ Q Q' evs fs gs p' Hss Hoff (pr_events _ _ _ _ _ _ _ _ _ Hr) HQ Hc) as [Hc' Hs'].
  exists p', t', fs, gs, o, st. do 4 (split; [done|]). etransitivity; done.
Qed.

(** A volume serves the data region of a disk [V] with the boundary and the keys of
    the metadata, and leaves a disk that can be served again. *)
Record serves_metadata d s (v : AttachedVolume (P * W0)) (V : Z -> bytes) : Prop := {
  sm_boundary : av_encrypted_boundary v = js_offset s;
  sm_sector : av_sector_size v = sector_size io /\ sector_size (av_sweep_io v) = sector_size io;
  sm_serves : exists c enc dec,
    get_cipher (static_supplier (static_supplier_new (fvek_keys s).1 (fvek_keys s).2)) = Some c /\
    CipherLaws c (sector_size io) enc dec /\
    let presented := plaintext dec V (g_offset_sector (js_geometry s)) (js_offset s) in
    serves (g_offset_sector (js_geometry s)) (g_data_sectors (js_geometry s)) presented v (dr_world d) /\
    lasts s dec presented v (dr_world d);
}.

(** Only the disk counts. *)
Lemma serves_metadata_ext d s v V V' :
  (forall i, g_offset_sector (js_geometry s) <= i <
     g_offset_sector (js_geometry s) + g_data_sectors (js_geometry s) -> V' i = V i) ->
  serves_metadata d s v V -> serves_metadata d s v V'.
Proof using Type.
  intros Hv [Hb [H1 H2] (c & enc & dec & Hg & Hc & Hs & Hl)]. constructor; [done..|].
  exists c, enc, dec. split; [done|]. split; [done|].
  assert (same_disk (g_data_sectors (js_geometry s))
            (plaintext dec V (g_offset_sector (js_geometry s)) (js_offset s))
            (plaintext dec V' (g_offset_sector (js_geometry s)) (js_offset s))) as HV.
  { intros rel Hrel. apply plaintext_ext. symmetry. apply Hv. lia. }
  destruct (sv_geometry _ _ _ _ _ Hs). split.
  - eapply serves_ext; [congruence|exact HV|exact Hs].
  - eapply lasts_ext; [done|done|exact HV|exact Hl].
Qed.
End Serves.

Section Bound.
Context `{C : CryptoApi} `{A : AesApi} {W0 : Type} (RNG : option (RandomSource W0)).
Context (io : SectorIo W0) (inv : W0 -> Prop) (view : W0 -> Z -> bytes).
Context {IL : SectorIoLaws io inv view} {RL : SectorIoReliable io inv}.
Abbreviation ss := (sector_size io).
Abbreviation total := (total_sectors io).
Abbreviation P := (list (JvckMetadataStore W0)).

(** The volume bound for [s] on the device [sweep], and what it presents. *)
Section One.
Context (s : JvckMetadataStore W0) (w : W0) (Hs : bindable io inv view s w).
Abbreviation off := (g_offset_sector (js_geometry s)).
Abbreviation data := (g_data_sectors (js_geometry s)).
Context (sweep : SectorIo W0) {SL : SectorIoUpto total sweep inv view}.
Context {SR : SectorIoReliableUpto total sweep inv}.
Hypothesis Hsize : sector_size sweep = ss.
Context {FL : FillLaws RNG inv view total} {FR : FillReliable RNG inv}.
Hypothesis Hmax : total * ss <= 2 ^ 63.

Definition volume_for (path : string) (n : nat) (src : AttachSource) (d : nat) :
    AttachedVolume (list (JvckMetadataStore W0) * W0) :=
  complete_volume path ss (attached_config RNG s n) off
    (mkEncryptedOffset (js_offset s) data) (shared_store RNG n) src (Some d) (raise_io sweep).

Lemma volume_for_wf path n src d c :
  get_cipher (static_supplier (static_supplier_new (fvek_keys s).1 (fvek_keys s).2)) = Some c ->
  volume_wf (raise_io sweep) c (shared_store RNG n) off data (volume_for path n src d).
Proof using IL Hs Hsize.
  intros Hc. destruct Hs as [_ Hb]. unfold volume_for, attached_config. constructor; try done.
  do 3 eexists. split; [reflexivity|]. split; [exact Hc|done].
Qed.

(** Serving follows from well-formedness. *)
Section Wf.
Context (v : AttachedVolume (list (JvckMetadataStore W0) * W0)) (n : nat).
Context (t : list (JvckMetadataStore W0) * W0) (c : VolumeCipher) (enc dec : Z -> bytes -> bytes).
Context (Q : Z -> bytes).
Context (Hc : CipherLaws c ss enc dec).
Context (Hwf : volume_wf (raise_io sweep) c (shared_store RNG n) off data v).
Context (Ht : shared_inv io inv view n (js_geometry s) t).
Context (HQ : same_disk data Q (plaintext dec (view t.2) off (av_encrypted_boundary v))).
Abbreviation sinv := (shared_inv io inv view n (js_geometry s)).

#[local] Instance wf_cipher : CipherLaws c (sector_size (raise_io (P := list (JvckMetadataStore W0)) sweep)) enc dec.
Proof using Hc Hsize. cbn. rewrite Hsize. exact Hc. Qed.

Lemma wf_fits : (off + data) * sector_size sweep <= 2 ^ 63 /\ 0 < sector_size sweep < 2 ^ 32 /\ 0 <= off.
Proof using IL Hs Hsize Hmax.
  destruct (bindable_region io inv view s w Hs) as (H0 & Hd & Hend).
  pose proof (io_ss (io:=io) (view:=view)). rewrite Hsize. split; [nia|done].
Qed.

#[local] Instance wf_laws : SectorIoUpto total (raise_io sweep) sinv (shared_view view).
Proof using SL. apply (raise_io_laws io inv view n (js_geometry s) sweep). Qed.
#[local] Instance wf_reliable : SectorIoReliableUpto total (raise_io sweep) sinv.
Proof using SR. apply (raise_io_reliable io inv view n (js_geometry s) sweep). Qed.
#[local] Existing Instances shared_store_laws shared_store_reliable.

Lemma wf_region : 0 <= off <= off /\ off + data <= off + data <= total.
Proof using IL Hs. destruct (bindable_region io inv view s w Hs) as (H0 & Hd & Hend). lia. Qed.

Lemma wf_serves : serves off data Q v t.
Proof using All.
  destruct wf_fits as (Hfit & Hss & H0).
  constructor.
  - rewrite (vw_ss _ _ _ _ _ v Hwf). split; [apply Hss|done].
  - intros alloc ops Hal Hops. rewrite (vw_io _ _ _ _ _ v Hwf) in Hops.
    destruct (run_vops_ok (raise_io sweep) c (shared_store RNG n) enc dec sinv (shared_view view) off data
                off (off + data) wf_region ltac:(cbn; nia) alloc v t None ops _ _ Hal Hwf Ht
                (or_introl eq_refl) Hops) as (v' & t' & E & _).
    exists v', t'. rewrite (vw_ss _ _ _ _ _ v Hwf), E. do 2 f_equal. symmetry.
    apply (spec_run_same (raise_io sweep) off data); done.
  - intros alloc a ext vt heap evs [Hal H63 Hb Hv Hh Hvt Hev].
    rewrite (vw_ss _ _ _ _ _ v Hwf) in *.
    destruct (path_serves (raise_io sweep) c (shared_store RNG n) enc dec sinv (shared_view view) off data
                off (off + data) wf_region H63 Hb alloc Hal _ a v t ext vt heap evs Hv Hh Hwf Ht Hvt eq_refl Hev)
      as (s' & t' & fs & v' & E & Ha & _).
    exists s', t', fs. split; [exact E|]. eapply answered_same; [apply Hss|done|exact Hev| |exact Ha].
    symmetry. exact HQ.
  - intros alloc a ext vt heap evs [Hal H63 Hb Hv Hh Hvt Hev].
    rewrite (vw_ss _ _ _ _ _ v Hwf) in *.
    destruct (path_stops (raise_io sweep) c (shared_store RNG n) enc dec sinv (shared_view view) off data
                off (off + data) wf_region H63 Hb alloc Hal _ a v t ext vt heap evs Hv Hh Hwf Ht Hvt eq_refl Hev)
      as (s' & t' & fs & gs & E & Ha & _).
    exists s', t', fs, gs. split; [exact E|]. eapply stopped_same; [apply Hss|done|exact Hev| |exact Ha].
    symmetry. exact HQ.
Qed.

(** The accesses of the filter keep the metadata at the volume's boundary. *)
Lemma wf_lasts :
  (0 < use_footer (js_options s) -> records io inv view n s (av_encrypted_boundary v) t) ->
  lasts io inv view s dec Q v t.
Proof using All.
  intros HR Hf alloc a ext vt heap evs [Hal H63 Hb Hv Hh Hvt Hev].
  destruct wf_fits as (Hfit & Hss & H0). rewrite (vw_ss _ _ _ _ _ v Hwf) in *.
  destruct (path_cut (raise_io sweep) c (shared_store RNG n) enc dec sinv (shared_view view) off data
              off (off + data) wf_region H63 Hb alloc Hal _ a v t ext vt heap evs Hv Hh Hwf Ht Hvt eq_refl Hev)
    as (s' & t' & fs & gs & v' & E & Hcut & _ & Hwf' & Hs' & Hacc).
  pose proof (accesses_record RNG io inv view sweep Hsize n s _ _ _ _ Hf Hacc (HR Hf)) as (st & _ & Hbind & Hi').
  assert (same_disk data (presents dec (shared_view view) off v t) Q) as HQ' by (symmetry; exact HQ).
  destruct (cut_same _ off data _ Q evs fs gs s' ltac:(apply Hss) H0 Hev HQ' Hcut) as [Hcut' HQs].
  exists s', t', fs, gs, (av_encrypted_boundary v'), st. do 4 (split; [done|]).
  etransitivity; [exact Hs'|exact HQs].
Qed.
End Wf.

Lemma wf_serves_metadata v n c enc dec (d : Driver P W0) V :
  get_cipher (static_supplier (static_supplier_new (fvek_keys s).1 (fvek_keys s).2)) = Some c ->
  CipherLaws c ss enc dec -> volume_wf (raise_io sweep) c (shared_store RNG n) off data v ->
  shared_inv io inv view n (js_geometry s) (dr_world d) -> av_encrypted_boundary v = js_offset s ->
  (0 < use_footer (js_options s) -> records io inv view n s (js_offset s) (dr_world d)) ->
  (forall i, off <= i < off + data -> view (dr_world d).2 i = V i) ->
  serves_metadata io inv view d s v V.
Proof using All.
  intros Hg Hc Hwf Ht Hb HR HV.
  assert (same_disk data (plaintext dec V off (js_offset s))
            (plaintext dec (view (dr_world d).2) off (av_encrypted_boundary v))) as HQ.
  { intros rel Hrel. rewrite Hb. apply plaintext_ext. symmetry. apply HV. lia. }
  constructor; [done| |].
  - rewrite (vw_ss _ _ _ _ _ v Hwf), (vw_io _ _ _ _ _ v Hwf). done.
  - exists c, enc, dec. split; [done|]. split; [done|]. split.
    + apply (wf_serves v n (dr_world d) c enc dec); done.
    + apply (wf_lasts v n (dr_world d) c enc dec); [done..|]. rewrite Hb. exact HR.
Qed.
End One.
End Bound.

(** ** The device below a filter *)

(** The driver's sector device below a filter, of [n] sectors. *)
Abbreviation below_filter K lower ss n := (LowerDeviceIo_new (k_device K lower) ss n).

(** A device that does what a disk of [total] sectors does, and works. *)
Class WorkingDisk {W0} (K : Kernel W0) (lower : nat) (ss total : Z) (inv : W0 -> Prop)
    (view : W0 -> Z -> bytes) : Prop := {
  wd_requests :: RequestLaws (lower_reads (below_filter K lower ss total))
    (lower_writes (below_filter K lower ss total)) ss total inv view;
  wd_works :: RequestReliable (lower_reads (below_filter K lower ss total))
    (lower_writes (below_filter K lower ss total)) ss total inv;
}.

Section Below.
Context {W0 : Type} (K : Kernel W0) (lower : nat) (ss total : Z).
Context (inv : W0 -> Prop) (view : W0 -> Z -> bytes) {WD : WorkingDisk K lower ss total inv view}.

Lemma below_laws told n :
  0 <= n <= total -> SectorIoUpto n (LowerDevice_io (below_filter K lower ss told)) inv view.
Proof using WD.
  intros Hn. apply lower_laws. eapply request_laws_prefix; [apply (wd_requests (WorkingDisk:=WD))|done].
Qed.
Lemma below_reliable told n :
  0 <= n <= total -> SectorIoReliableUpto n (LowerDevice_io (below_filter K lower ss told)) inv.
Proof using WD.
  intros Hn. apply (lower_reliable _ n inv view).
  - eapply request_laws_prefix; [apply (wd_requests (WorkingDisk:=WD))|done].
  - eapply request_reliable_prefix; [apply (wd_works (WorkingDisk:=WD))|done].
Qed.
Lemma below_size : 0 <= total /\ total * ss <= 2 ^ 63.
Proof using WD. apply (rq_size (RequestLaws:=wd_requests (WorkingDisk:=WD))). Qed.

#[export] Instance disk_laws : SectorIoLaws (LowerDevice_io (below_filter K lower ss total)) inv view.
Proof using WD. apply (below_laws total total). pose proof below_size. lia. Qed.
#[export] Instance disk_reliable : SectorIoReliable (LowerDevice_io (below_filter K lower ss total)) inv.
Proof using WD. apply (below_reliable total total). pose proof below_size. lia. Qed.
End Below.

(** ** Runs of the driver's steps *)

Section Runs.
Context {P W0 : Type} (K : Kernel W0).
Implicit Types s : Driver P W0.

Lemma attempt_ok {E S B} (m : M E S B) t t' b :
  m t = (t', Ok b) -> attempt m t = (t', Ok (inl b)).
Proof. intros H. unfold attempt. rewrite H. done. Qed.

Lemma kworld_run {B} (m : M VckError W0 B) s :
  kworld m s = let '(w, r) := m (dr_world s).2 in (with_world ((dr_world s).1, w) s, r).
Proof.
  unfold kworld, world, on_snd, zoom. destruct (m _) as [w r]. done.
Qed.

Lemma kworld_ok {B} (m : M VckError W0 B) s w b :
  m (dr_world s).2 = (w, Ok b) -> kworld m s = (with_world ((dr_world s).1, w) s, Ok b).
Proof. intros E. rewrite kworld_run, E. done. Qed.

Lemma with_engine_ok {B} a v e w b
    (m : EncryptedOffsetStore (P * W0) -> M VckError (EncryptionEngine * (P * W0)) B) s :
  dr_heap s !! a = Some v -> m (av_offset_store v) (av_encryption v, dr_world s) = ((e, w), Ok b) ->
  with_engine a m s = (with_world w (with_heap (<[a := set_encryption e v]> (dr_heap s)) s), Ok b).
Proof.
  intros Hv E. unfold with_engine, upd_volume. rewrite Hv, mbind_run. unfold volume.
  rewrite mbind_run. cbn. unfold on_engine, zoom. cbn. rewrite E. done.
Qed.

(** The extension of a filter bound to the volume at [a]. *)
Definition bound_ext (s : Driver P W0) (e : DeviceExtension) (a : nat)
    (v : AttachedVolume (P * W0)) : DeviceExtension :=
  mkExt (de_kind e) (de_lower_device e) (Some a)
    (bind (k_create_thread K (dr_world s).2) (de_vthread e) a
       (match cipher_supplier v with Some _ => true | None => false end)).

(** A filter attached to [target], if the kernel's two calls succeed. *)
Definition unbound_ext (lower : nat) : DeviceExtension :=
  mkExt DEVICE_KIND_FILTER (Some lower) None None.
Lemma attach_raw_ok target n lower w1 w2 s :
  kcall (k_create_device K) s = (with_world ((dr_world s).1, w1) s, Ok (STATUS_SUCCESS, Some n)) ->
  (let s1 := with_devices (<[n := mkExt 0 None None None]> (dr_devices s))
               (with_world ((dr_world s).1, w1) s) in
   kcall (k_attach K n target) s1 =
     (with_world ((dr_world s).1, w2) s1, Ok (STATUS_SUCCESS, Some lower))) ->
  attach_filter_to_raw_device K target s =
    (with_devices (<[n := unbound_ext lower]> (dr_devices s)) (with_world ((dr_world s).1, w2) s),
     Ok (Some n, Some lower)).
Proof.
  intros E1 E2. cbv zeta in E2. set (s1 := with_devices _ _) in E2.
  assert (create_filter_device K "IoCreateDevice(filter-raw) failed" s = (s1, Ok n)) as Ec.
  { unfold create_filter_device. rewrite (mbind_step _ _ _ _ _ E1). done. }
  unfold attach_filter_to_raw_device. rewrite (mbind_step _ _ _ _ _ Ec).
  assert (attach_above K n target "IoAttachDeviceToDeviceStackSafe(raw) failed" s1 =
    (with_world ((dr_world s).1, w2) s1, Ok lower)) as Ea.
  { unfold attach_above. rewrite (mbind_step _ _ _ _ _ E2). done. }
  rewrite (mbind_step _ _ _ _ _ Ea), mbind_run. unfold set_ext, s1, with_devices, with_world. cbn.
  rewrite insert_insert_eq. done.
Qed.

Lemma filter_bind_ok n e a v s :
  dr_devices s !! n = Some e -> dr_heap s !! a = Some v ->
  filter_bind_volume K (Some n) a s =
    (with_devices (<[n := bound_ext s e a v]> (dr_devices s)) s, Ok tt).
Proof.
  intros He Hv. unfold filter_bind_volume, write_volume, bind_thread.
  rewrite !mbind_run, (ext_of_some n e s He). cbn -[volume_at bind].
  rewrite mbind_run. unfold ext_of. cbn -[volume_at bind]. rewrite lookup_insert_eq.
  cbn -[volume_at bind]. rewrite mbind_run. unfold volume_at. cbn -[bind]. rewrite Hv. cbn -[bind].
  rewrite mbind_run, kread_run. unfold set_ext, mmodify, with_devices. cbn -[bind].
  rewrite insert_insert_eq. done.
Qed.

Lemma wake_ok a v n e s :
  dr_heap s !! a = Some v -> av_filter_device v = Some n -> dr_devices s !! n = Some e ->
  wake_volume a s =
    (with_devices (<[n := mkExt (de_kind e) (de_lower_device e) (de_volume e)
       (vt_signal <$> de_vthread e)]> (dr_devices s)) s, Ok tt).
Proof.
  intros Hv Hf He. unfold wake_volume. rewrite mbind_run. unfold volume_at. rewrite Hv. cbn.
  rewrite Hf, mbind_run, (ext_of_some n e s He). done.
Qed.
End Runs.

(** A query that answers, and leaves the disk as it is. *)
Definition answers {W0 B} (inv : W0 -> Prop) (view : W0 -> Z -> bytes) (total : Z)
    (q : M VckError W0 B) (p : B -> Prop) : Prop :=
  forall w, inv w -> exists w' b, q w = (w', Ok b) /\ p b /\ inv w' /\
    forall i, 0 <= i < total -> view w' i = view w i.

(** The same for a call of the kernel. *)
Abbreviation returns inv view total f good :=
  (answers inv view total (fun w => let '(w, b) := f w in (w, Ok b)) good).

(** ** Steps that leave the disk alone *)

Section Steps.
Context {P W0 : Type} (inv : W0 -> Prop) (view : W0 -> Z -> bytes) (total : Z).
Implicit Types d : Driver P W0.

(** A step of the driver that moves nothing but the world, and not the disk. *)
Definition steps {B} (m : M VckError (Driver P W0) B) d (good : B -> Prop) : Prop :=
  exists w b, m d = (with_world ((dr_world d).1, w) d, Ok b) /\ good b /\ inv w /\
    forall i, 0 <= i < total -> view w i = view (dr_world d).2 i.

Lemma kcall_answers {B} (f : W0 -> W0 * B) p d :
  returns inv view total f p -> inv (dr_world d).2 -> steps (kcall f) d p.
Proof.
  intros Hf Hi. destruct (Hf _ Hi) as (w & b & E & Hp & Hi' & Hv).
  exists w, b. split; [|done]. unfold kcall. rewrite kworld_run, E. done.
Qed.

Lemma steps_ret {B} (b : B) (good : B -> Prop) d : good b -> inv (dr_world d).2 -> steps (mret b) d good.
Proof.
  intros Hb Hi. exists (dr_world d).2, b. split; [|done]. destruct d as [? ? ? ? [? ?]]. done.
Qed.

Lemma steps_bind {B D} (m : M VckError (Driver P W0) B) (k : B -> M VckError (Driver P W0) D) d g1 g2 :
  steps m d g1 ->
  (forall w b, g1 b -> inv w -> steps (k b) (with_world ((dr_world d).1, w) d) g2) ->
  steps (m ≫= k) d g2.
Proof.
  intros (w1 & b & E1 & Hg1 & Hi1 & Hv1) Hk. destruct (Hk w1 b Hg1 Hi1) as (w2 & b2 & E2 & Hg2 & Hi2 & Hv2).
  exists w2, b2. rewrite (mbind_step _ _ _ _ _ E1), E2. split; [done|]. split; [done|]. split; [done|].
  intros i Hx. rewrite Hv2 by done. apply Hv1. done.
Qed.
End Steps.

(** What the device below a filter tells about itself. *)
Record reports {W0} (K : Kernel W0) (lower : nat) (ss total : Z) (inv : W0 -> Prop)
    (view : W0 -> Z -> bytes) (from_bytes_le : bytes -> Guid) (guid : Guid) : Prop := {
  rp_ss : ss <> 0;
  rp_geometry : answers inv view total
    (ld_device_ioctl (below_filter K lower 0 0) IOCTL_DISK_GET_DRIVE_GEOMETRY (replicate 32 Byte.x00))
    (fun out => le_decode (slice DISK_GEOMETRY_BYTES_PER_SECTOR_OFFSET 4 out) = ss);
  rp_length : answers inv view total
    (ld_device_ioctl (below_filter K lower 0 0) IOCTL_DISK_GET_LENGTH_INFO (replicate 8 Byte.x00))
    (fun out => le_decode out / ss = total);
  rp_partition : answers inv view total
    (ld_device_ioctl (below_filter K lower 0 0) IOCTL_DISK_GET_PARTITION_INFO_EX
       (replicate 144 Byte.x00))
    (fun out => gpt_partition_id from_bytes_le out = Ok guid);
}.

Section Reports.
Context {W0 : Type} (K : Kernel W0) (lower : nat) (ss total : Z) (inv : W0 -> Prop).
Context (view : W0 -> Z -> bytes) (from_bytes_le : bytes -> Guid) (guid : Guid).
Hypothesis R : reports K lower ss total inv view from_bytes_le guid.

Lemma query_geometry_run : answers inv view total
  (ld_query_geometry (below_filter K lower 0 0))
  (eq (mkLowerDeviceIo (k_device K lower) ss total)).
Proof using R.
  intros w Hi. destruct R as [Hss Rg Rl _].
  destruct (Rg w Hi) as (w1 & b1 & E1 & H1 & Hi1 & Hv1).
  destruct (Rl w1 Hi1) as (w2 & b2 & E2 & H2 & Hi2 & Hv2).
  exists w2, (mkLowerDeviceIo (k_device K lower) ss total).
  split_and!; [|done|done|intros; rewrite Hv2, Hv1; done].
  unfold ld_query_geometry. rewrite mbind_run, E1. cbv zeta. rewrite H1.
  rewrite (proj2 (Z.eqb_neq ss 0)) by done. rewrite mbind_run, E2. cbv zeta. rewrite H2. done.
Qed.

Lemma partition_id_run : answers inv view total
  (ld_read_gpt_partition_id from_bytes_le (mkLowerDeviceIo (k_device K lower) ss total)) (eq guid).
Proof using R.
  intros w Hi. destruct R as [_ _ _ Rp]. destruct (Rp w Hi) as (w1 & b1 & E1 & H1 & Hi1 & Hv1).
  exists w1, guid. split_and!; [|done..]. unfold ld_read_gpt_partition_id.
  rewrite mbind_run.
  change (ld_device_ioctl (mkLowerDeviceIo (k_device K lower) ss total))
    with (ld_device_ioctl (below_filter K lower 0 0)). rewrite E1.
  unfold lift. rewrite H1. done.
Qed.

(** The probe of the boot mount. *)
Lemma probe_run {P} (d : Driver P W0) :
  inv (dr_world d).2 ->
  exists w, attempt (
      footer_io ← kworld (ld_query_geometry (below_filter K lower 0 0));
      guid ← kworld (ld_read_gpt_partition_id from_bytes_le footer_io);
      mret (footer_io, guid)) d =
    (with_world ((dr_world d).1, w) d,
     Ok (inl (mkLowerDeviceIo (k_device K lower) ss total, guid))) /\
    inv w /\ forall i, 0 <= i < total -> view w i = view (dr_world d).2 i.
Proof using R.
  intros Hi. destruct (query_geometry_run _ Hi) as (w1 & _ & E1 & <- & Hi1 & Hv1).
  destruct (partition_id_run w1 Hi1) as (w2 & _ & E2 & <- & Hi2 & Hv2).
  exists w2. split; [|split; [done|intros; rewrite Hv2, Hv1; done]].
  unfold attempt. rewrite mbind_run, (kworld_ok _ _ _ _ E1), mbind_run.
  rewrite (kworld_ok _ (with_world ((dr_world d).1, w1) d) w2 guid E2). done.
Qed.
End Reports.

(** ** The provider's answer in the driver *)

Section Opening.
Context `{C : CryptoApi} `{A : AesApi} {W0 : Type} (RNG : option (RandomSource W0)).
Context (io : SectorIo W0) (inv : W0 -> Prop) (view : W0 -> Z -> bytes).
Context {IL : SectorIoLaws io inv view} {RL : SectorIoReliable io inv}.
Implicit Types (d : Driver (list (JvckMetadataStore W0)) W0) (s : JvckMetadataStore W0).

Lemma on_attach_run s d guid :
  inv (dr_world d).2 -> holds_metadata io inv view s (dr_world d).2 ->
  exists w', on_attach_volume (Some (vck_provider RNG)) (js_vmk s) guid io d =
      (with_world ((dr_world d).1 ++ [s], w') d,
       Ok (attached_config RNG s (length (dr_world d).1))) /\ inv w' /\
    forall i, 0 <= i < total_sectors io -> view w' i = view (dr_world d).2 i.
Proof using IL RL.
  intros Hi Hm. destruct d as [r h v c [stores w]]. cbn in Hi, Hm.
  destruct (on_attach_synced RNG io inv view s stores w guid Hi Hm) as (w' & E & Hi' & Hv).
  exists w'. split; [|done]. unfold on_attach_volume. rewrite mbind_run. cbn [ok_or lift].
  unfold world, zoom. cbn [on_attach vck_provider dr_world]. rewrite E. done.
Qed.

End Opening.

(** ** The boot mount *)

Section Mount.
Context `{C : CryptoApi} `{A : AesApi} {HA : AesLaws A} {W0 : Type}.
Context (K : Kernel W0) (RNG : option (RandomSource W0)).
Context (lower : nat) (ss total : Z) (inv : W0 -> Prop) (view : W0 -> Z -> bytes).
Context {WD : WorkingDisk K lower ss total inv view}.
Context {FL : FillLaws RNG inv view total} {FR : FillReliable RNG inv}.
Abbreviation P := (list (JvckMetadataStore W0)).
Abbreviation disk := (LowerDevice_io (below_filter K lower ss total)).
Abbreviation sweep s := (LowerDevice_io (below_filter K lower ss (g_data_sectors (js_geometry s)))).
Implicit Types (d : Driver P W0) (s : JvckMetadataStore W0).

(** A filter whose thread and extension are bound to [a]. *)
Record binds d (n a : nat) (path : string) (v : AttachedVolume (P * W0)) : Prop := {
  bd_filter : exists e, dr_devices d !! n = Some e /\ de_volume e = Some a /\
    (forall vt, de_vthread e = Some vt -> vt_current vt = a);
  bd_heap : dr_heap d !! a = Some v;
  bd_registry : registry_get path (dr_registry d) = Some a;
  bd_path : av_volume_path v = path;
  bd_device : av_filter_device v = Some n;
}.

(** Its thread exists and has nothing to do. *)
Definition runs d (n a : nat) : Prop :=
  exists e vt, dr_devices d !! n = Some e /\ de_volume e = Some a /\ de_vthread e = Some vt /\
    idle_thread true a vt.

(** Binding the volume opened from store [k] and resuming its sweep. *)
Lemma mount_tail d s path n e k :
  bindable disk inv view s (dr_world d).2 ->
  driver_wf d -> dr_devices d !! n = Some e -> inv (dr_world d).2 ->
  (dr_world d).1 !! k = Some s ->
  exists d' a v,
    (a ← insert_volume (volume_for RNG disk s (sweep s) path k Volume.Handover n);
     _ ← with_engine a resume; _ ← filter_bind_volume K (Some n) a; wake_volume a) d = (d', Ok tt) /\
    binds d' n a path v /\ is_os_volume v = true /\
    serves_metadata disk inv view d' s v (view (dr_world d).2) /\
    ((forall w, k_create_thread K w = true) -> de_vthread e = None -> runs d' n a).
Proof using HA WD FL FR.
  intros Hf Hwf He Hi Hk. pose proof Hf as [Hm _]. destruct Hm as [S _ _ _ _ _].
  set (v0 := volume_for RNG disk s (sweep s) path k Volume.Handover n).
  assert (shared_inv disk inv view k (js_geometry s) (dr_world d)) as Hsh by (exists s; done).
  destruct (bindable_region disk inv view s _ Hf) as (H0 & Hdata & Hend).
  destruct (resume_run (raise_io (sweep s)) (shared_store RNG k) (shared_inv disk inv view k (js_geometry s))
              (shared_view view) (g_offset_sector (js_geometry s)) (g_data_sectors (js_geometry s))
              (g_offset_sector (js_geometry s))
              (g_offset_sector (js_geometry s) + g_data_sectors (js_geometry s))
              (av_encryption v0) (dr_world d) Hsh) as (t' & st & Hsh' & Hv' & Hacc & E1).
  set (a := fresh (dom (dr_heap d))). set (v := set_encryption (with_state st (av_encryption v0)) v0).
  set (d1 := with_registry (registry_insert a v0 (dr_registry d))
               (with_heap (<[a := v0]> (dr_heap d)) d)).
  assert (dr_heap d1 !! a = Some v0) as Ha1 by apply lookup_insert_eq.
  set (d2 := with_world t' (with_heap (<[a := v]> (dr_heap d1)) d1)).
  assert (dr_heap d2 !! a = Some v) as Ha2 by apply lookup_insert_eq.
  set (d3 := with_devices (<[n := bound_ext K d2 e a v]> (dr_devices d2)) d2).
  assert (dr_devices d3 !! n = Some (bound_ext K d2 e a v)) as He3 by apply lookup_insert_eq.
  eexists _, a, v. split.
  { rewrite (mbind_step _ _ d d1 a) by done.
    rewrite (mbind_step _ _ d1 d2 tt) by exact (with_engine_ok a v0 _ _ _ _ d1 Ha1 E1).
    rewrite (mbind_step _ _ d2 d3 tt) by exact (filter_bind_ok K n e a v d2 He Ha2).
    exact (wake_ok a v n _ d3 Ha2 eq_refl He3). }
  destruct (store_keys disk inv view s S) as (c & enc & dec & Hg & Hc).
  split; [|split; [done|]].
  - constructor; [|done| |done|done].
    + eexists. split; [apply lookup_insert_eq|]. split; [done|]. cbn. intros vt Hvt.
      destruct (bind _ _ _ _) as [vt0|] eqn:Hb; [|done]. cbn in Hvt. injection Hvt as <-.
      apply (bind_current _ _ _ _ _ Hb).
    + destruct Hwf as [[Hsort _] _]. unfold registry_get. cbn.
      rewrite bt_get_insert by done. rewrite decide_True by done. done.
  - split; [|intros Hcreate Hvt; do 2 eexists; split; [apply lookup_insert_eq|];
      cbn; rewrite Hvt, Hcreate; done].
    pose proof (proj1 (below_size K lower ss total inv view)) as Htot.
    pose proof (below_laws K lower ss total inv view (g_data_sectors (js_geometry s)) total ltac:(lia)) as SL.
    pose proof (below_reliable K lower ss total inv view (g_data_sectors (js_geometry s)) total ltac:(lia)) as SR.
    pose proof (proj2 (below_size K lower ss total inv view)) as Hmax.
    eapply (wf_serves_metadata RNG disk inv view s _ Hf (sweep s) eq_refl Hmax v k c enc dec);
      [done..| |exact Hsh'|done| |].
    + pose proof (volume_for_wf RNG disk inv view s _ Hf (sweep s) eq_refl path k Volume.Handover n c Hg) as W.
      apply wf_set_encryption; [exact W| |done]. apply wf_with_state. apply (vw_engine _ _ _ _ _ _ W).
    + intros Hfoot. apply (access_records RNG disk inv view (sweep s) eq_refl k s _ _ _ _ Hfoot (Hacc _)).
      apply records_now; done.
    + intros i Hx. apply Hv'. done.
Qed.
End Mount.

(** ** Completing a prepared volume *)

Section Complete.
Context `{C : CryptoApi} `{A : AesApi} {HA : AesLaws A} {W0 : Type}.
Context (K : Kernel W0) (RNG : option (RandomSource W0)).
Context (io : SectorIo W0) (inv : W0 -> Prop) (view : W0 -> Z -> bytes).
Context {IL : SectorIoLaws io inv view} {RL : SectorIoReliable io inv}.
Context {FL : FillLaws RNG inv view (total_sectors io)} {FR : FillReliable RNG inv}.
Hypothesis Hmax : total_sectors io * sector_size io <= 2 ^ 63.
Implicit Types (d : Driver (list (JvckMetadataStore W0)) W0) (s : JvckMetadataStore W0).

(** Replacing the provisional volume of a path by a complete one. *)
Lemma replace_volume_run path v n e d :
  registry_wf (dr_heap d) (dr_registry d) -> dr_devices d !! n = Some e -> av_volume_path v = path ->
  av_filter_device v = Some n ->
  exists d', replace_volume K path v (Some n) d = (d', Ok tt) /\
    dr_world d' = dr_world d /\ binds d' n (fresh (dom (dr_heap d))) path v /\
    (is_Some (cipher_supplier v) -> (forall w, k_create_thread K w = true) -> de_vthread e = None ->
     runs d' n (fresh (dom (dr_heap d)))).
Proof using Type.
  intros Hwf He Hp Hf. set (a := fresh (dom (dr_heap d))).
  set (d1 := with_registry (registry_remove path (dr_registry d)).1 d).
  set (d2 := with_registry (registry_insert a v (dr_registry d1))
               (with_heap (<[a := v]> (dr_heap d1)) d1)).
  assert (dr_heap d2 !! a = Some v) as Ha by apply lookup_insert_eq.
  eexists. split.
  { unfold replace_volume. rewrite (mbind_step _ _ d d1 tt) by done.
    rewrite (mbind_step _ _ d1 d2 a) by done.
    exact (filter_bind_ok K n e a v d2 He Ha). }
  split; [done|]. split.
  2: { intros [sup Hsup] Hcreate Hvt. do 2 eexists. split; [apply lookup_insert_eq|]. split; [done|].
       cbn. rewrite Hvt, Hcreate, Hsup. done. }
  constructor; [|done| |done|done].
  - eexists. split; [apply lookup_insert_eq|]. split; [done|]. cbn. intros vt Hvt.
    apply (bind_current _ _ _ _ _ Hvt).
  - unfold registry_get. cbn. rewrite Hp.
    pose proof (registry_remove_wf (dr_heap d) (dr_registry d) path Hwf) as [Hs _].
    rewrite bt_get_insert by exact Hs. rewrite decide_True by done. done.
Qed.

(** The volume of store [k], its sweep on another device over the same disk. *)
Lemma complete_run sweep s path k src n e d :
  SectorIoUpto (total_sectors io) sweep inv view -> SectorIoReliableUpto (total_sectors io) sweep inv ->
  sector_size sweep = sector_size io -> bindable io inv view s (dr_world d).2 ->
  registry_wf (dr_heap d) (dr_registry d) ->
  dr_devices d !! n = Some e -> inv (dr_world d).2 -> (dr_world d).1 !! k = Some s ->
  let v := volume_for RNG io s sweep path k src n in
  exists d' a, replace_volume K path v (Some n) d = (d', Ok tt) /\ binds d' n a path v /\
    serves_metadata io inv view d' s v (view (dr_world d).2) /\
    ((forall w, k_create_thread K w = true) -> de_vthread e = None -> runs d' n a).
Proof using All.
  intros SL SR Hsw Hf Hwf He Hi Hk v. pose proof (hm_wf _ _ _ _ _ (bl_metadata _ _ _ _ _ Hf)) as S.
  destruct (replace_volume_run path v n e d Hwf He eq_refl eq_refl) as (d2 & E2 & Hw2 & Hb2 & Hr2).
  exists d2, (fresh (dom (dr_heap d))). split; [exact E2|]. split; [done|].
  split; [|apply Hr2; eexists; reflexivity].
  destruct (store_keys io inv view s S) as (c & enc & dec & Hg & Hc).
  eapply (wf_serves_metadata RNG io inv view s _ Hf sweep Hsw Hmax v k c enc dec); rewrite ?Hw2; [done..| | |done| |done].
  - apply (volume_for_wf RNG io inv view s _ Hf sweep Hsw). done.
  - exists s. split; [exact Hk|]. done.
  - intros _. apply records_now; done.
Qed.
End Complete.
