(* ===== verification/BootMount.v ===== *)
(** * The boot mount binds the OS volume

    After its device starts, the filter of the partition the loader published is
    bound to a volume opened from the metadata at the partition's end, with its
    sweep resumed; no other filter is bound. *)

From S2P Require Import Prelude Types Sectors Engine Nt Pipeline Volume Thread Xts Metadata Codec Store StoreLaws Filter Io Handover Registry Manager Provider Dispatch Attach AttachLaws Durable BindLaws.

Section Mount.
Context `{C : CryptoApi} `{A : AesApi} {HA : AesLaws A} {W0 : Type}.
Context (K : Kernel W0) (RNG : option (RandomSource W0)).
Context (lower : nat) (ss total : Z) (inv : W0 -> Prop) (view : W0 -> Z -> bytes).
Context {WD : WorkingDisk K lower ss total inv view}.
Context {FL : FillLaws RNG inv view total} {FR : FillReliable RNG inv}.
Context (from_bytes_le : bytes -> Guid) (fmt_ptr : nat -> string) (guid : Guid).
Abbreviation P := (list (JvckMetadataStore W0)).
Abbreviation disk := (LowerDevice_io (below_filter K lower ss total)).
Implicit Types (d : Driver P W0) (s : JvckMetadataStore W0).

(** The name a mounted volume is filed under. *)
Definition mount_path d (n : nat) : string :=
  default ("\Device\HandoverVolume[" +:+ fmt_ptr lower +:+ "]")
    (pdo_name_for_filter (Some n) (dr_registry d)).

Abbreviation mount n :=
  (try_mount_handover_volume K (Some (vck_provider RNG)) from_bytes_le fmt_ptr true (Some n)).

(** The part before the binding. *)
Lemma mount_probe d n e h :
  reports K lower ss total inv view from_bytes_le guid ->
  rg_handover (dr_registry d) = Some h -> dr_devices d !! n = Some e ->
  de_volume e = None -> de_lower_device e = Some lower -> inv (dr_world d).2 ->
  hi_partition_guid h <> guid -> same_objects d (mount n d).1 /\ (mount n d).2 = Ok tt.
Proof using Type.
  intros R Hh He Hv Hl Hi Hne. destruct (probe_run K lower ss total inv view from_bytes_le guid R d Hi)
    as (w1 & E1 & _ & _).
  assert (mount n d = (with_world ((dr_world d).1, w1) d, Ok tt)) as ->; [|done].
  unfold try_mount_handover_volume. rewrite (mbind_step _ _ d d (dr_registry d)) by done.
  cbv iota. rewrite Hh, (mbind_step _ _ _ _ _ (ext_of_some n e d He)). cbv beta iota.
  rewrite Hv, Hl, (mbind_step _ _ _ _ _ E1). cbv beta iota.
  rewrite bool_decide_false by congruence. done.
Qed.

Lemma mount_run d n e s :
  reports K lower ss total inv view from_bytes_le guid ->
  bindable disk inv view s (dr_world d).2 -> driver_wf d ->
  rg_handover (dr_registry d) = Some (mkHandoverInfo guid (js_vmk s)) ->
  dr_devices d !! n = Some e -> de_volume e = None -> de_lower_device e = Some lower ->
  inv (dr_world d).2 ->
  exists d' a v,
    mount n d = (d', Ok tt) /\ binds d' n a (mount_path d n) v /\ is_os_volume v = true /\
    serves_metadata disk inv view d' s v (view (dr_world d).2) /\
    ((forall w, k_create_thread K w = true) -> de_vthread e = None -> runs d' n a).
Proof using HA WD FL FR.
  intros R Hf Hwf Hh He Hv Hl Hi.
  destruct (probe_run K lower ss total inv view from_bytes_le guid R d Hi) as (w1 & E1 & Hi1 & Hv1).
  set (d1 := with_world ((dr_world d).1, w1) d) in E1.
  pose proof (bindable_ext disk inv view s _ w1 Hv1 Hf) as Hf1.
  destruct (on_attach_run RNG disk inv view s d1 (Some guid) Hi1 (bl_metadata _ _ _ _ _ Hf1))
    as (w2 & E2 & Hi2 & Hv2).
  set (d2 := with_world _ d1) in E2.
  pose proof (bindable_ext disk inv view s _ w2 Hv2 Hf1) as Hf2.
  destruct (bindable_region disk inv view s w2 Hf2) as (H0 & Hdata & Hend).
  destruct (mount_tail K RNG lower ss total inv view d2 s (mount_path d n) n e
              (length (dr_world d).1) Hf2) as (d3 & a & v & E3 & Hbind & Hos & Hsm & Hrun);
    [apply driver_wf_world, driver_wf_world; done|done|done|apply list_lookup_middle; done|].
  exists d3, a, v. split; [|split; [done|split; [done|]]].
  - unfold try_mount_handover_volume. rewrite (mbind_step _ _ d d (dr_registry d)) by done.
    cbv iota. rewrite Hh, (mbind_step _ _ _ _ _ (ext_of_some n e d He)). cbv beta iota.
    rewrite Hv, Hl, (mbind_step _ _ _ _ _ E1). cbv beta iota. cbn [hi_partition_guid hi_vmk].
    rewrite bool_decide_true by done. cbn [negb]. cbv zeta.
    rewrite (mbind_step _ _ d1 d2 (inl (attached_config RNG s (length (dr_world d).1))))
      by exact (attempt_ok _ _ _ _ E2).
    exact E3.
  - split; [|exact Hrun]. eapply serves_metadata_ext; [|exact Hsm]. intros i Hx. cbn in *. rewrite Hv2, Hv1 by lia. done.
Qed.
End Mount.

(** ** Four sectors of 512 bytes behind a filter *)

Module BindDemo.
Import ToyCrypto.
Definition ss : Z := 512.
Definition io : SectorIo MemVolume := MemVolume_io ss 2048.
Definition inv : MemVolume -> Prop := mem_inv 2048.
Definition view : MemVolume -> Z -> bytes := mem_view ss.
Definition guid : Guid := replicate 16 Byte.x07.

#[export] Instance io_laws : SectorIoLaws io inv view.
Proof. apply mem_laws; unfold ss; lia. Qed.
#[export] Instance io_reliable : SectorIoReliable io inv.
Proof. apply mem_reliable; unfold ss; lia. Qed.

(** The answers to the geometry, length and partition queries. *)
Definition answer (code : Z) (out : bytes) : bytes :=
  if code =? IOCTL_DISK_GET_DRIVE_GEOMETRY then splice 20 (le_encode 4 512) out
  else if code =? IOCTL_DISK_GET_LENGTH_INFO then splice 0 (le_encode 8 2048) out
  else if code =? IOCTL_DISK_GET_PARTITION_INFO_EX
  then splice 0 (le_encode 4 1) (if (64 <? length out)%nat then splice 48 guid out else out)
  else out.

Definition device : Device MemVolume := {|
  dev_ioctl code out w := (w, Some (0, 0, answer code out));
  dev_read := dev_read (disk_device io (fun off => Z.odd (off / 512)));
  dev_write := dev_write (disk_device io (fun off => Z.odd (off / 512)));
|}.
Definition handle : FileHandle MemVolume := {|
  fh_ioctl code out w := (w, (0, answer code out));
  fh_fsctl _ w := (w, 0);
  fh_read _ buf w := (w, (STATUS_UNSUCCESSFUL, buf));
  fh_write _ buf w := (w, (STATUS_UNSUCCESSFUL, buf));
|}.

(** The volume's own device is 50, below which the disk is 60. *)
Definition kernel_with (file raw : FileHandle MemVolume) : Kernel MemVolume := {|
  k_create_device w := (w, (0, Some 100%nat));
  k_delete_device _ w := w;
  k_get_device_pointer _ w := (w, (0, Some 50%nat));
  k_attach _ _ w := (w, (0, Some 60%nat));
  k_detach _ w := w;
  k_attachment_base _ _ := None;
  k_attached _ _ := None;
  k_lower _ _ := None;
  k_query_name _ _ := None;
  k_foreign_ext _ _ := None;
  k_create_thread _ := true;
  k_device _ := device;
  k_create_file _ w := (w, Some file);
  k_open_raw _ w := (w, Some raw);
  k_related_device _ _ := Some 50%nat;
|}.
Definition kernel : Kernel MemVolume := kernel_with handle handle.

#[export] Instance works : WorkingDisk kernel 60 512 4 inv view.
Proof.
  split.
  - exact (disk_device_laws io _ inv view _ _ _ _ io_laws ltac:(discriminate)).
  - exact (disk_device_reliable io _ inv view _ _ _ _ io_laws io_reliable).
Qed.

Lemma reported : reports kernel 60 512 4 inv view (fun b => b) guid.
Proof.
  split; [done|..]; intros w Hi; eexists w, _; (split; [reflexivity|]);
    (split; [vm_compute; reflexivity|done]).
Qed.

Definition RNG : option (RandomSource MemVolume) :=
  Some (fun n w => (w, Ok (replicate n Byte.x5a))).
#[export] Instance fill_laws total : FillLaws RNG inv view total.
Proof.
  constructor.
  - intros n w w' r Hi H. cbn in H. simplify_eq. done.
  - intros n w w' b _ H. cbn in H. simplify_eq. apply length_replicate.
Qed.
#[export] Instance fill_reliable : FillReliable RNG inv.
Proof. intros n w _. done. Qed.

(** One replica in the last sector and [uh] in the first. *)
Definition options (uh : Z) : JvckMetadataOptions := mkOptions uh 1 512.
Definition blank : MemVolume := replicate 2048 Byte.x2a.
Lemma blank_ok : inv blank.
Proof. apply length_replicate. Qed.

Section Any.
Context {W : Type} (RNG : option (RandomSource W)) (uh : Z) (dev : SectorIo W) (inv : W -> Prop).
Context (view : W -> Z -> bytes) {DL : SectorIoLaws dev inv view} {DR : SectorIoReliable dev inv}.
Context {FL : FillLaws RNG inv view 4} {FR : FillReliable RNG inv}.
Hypothesis Huh : uh = 0 \/ uh = 1.
Hypothesis Hss : sector_size dev = 512.
Hypothesis Htotal : total_sectors dev = 4.

Definition store_of (o : Z) : JvckMetadataStore W :=
  set_js_offset o
    (created dev vmk (options uh) (replicate 32 Byte.x33) (replicate 32 Byte.x44)
       (replicate 16 Byte.x11) JvckCbcCodec (mkGeometry uh (3 - uh) 512)).
Definition written_from (w : W) (o : Z) : W := (write_all_replicas RNG (store_of o) w).1.

Lemma store_of_wf o : store_wf dev inv view (store_of o).
Proof using DL Huh Hss Htotal.
  apply store_wf_offset. destruct Huh as [-> | ->]; (constructor; cbn; rewrite ?Hss, ?Htotal;
    first [reflexivity|lia|apply _|constructor; (reflexivity || (cbn; unfold in_u; lia))|idtac]);
  constructor; cbn; first [reflexivity|unfold in_u; vm_compute; split; [discriminate|reflexivity]].
Qed.

Lemma written_from_ok w0 o :
  inv w0 -> 0 <= o <= 3 - uh ->
  inv (written_from w0 o) /\ bindable dev inv view (store_of o) (written_from w0 o).
Proof using DL DR FL FR Huh Hss Htotal.
  intros Hi0 Ho. unfold written_from. rewrite <- Htotal in FL.
  pose proof (write_all_ok RNG dev inv view (store_of o) (store_of_wf o) w0 Hi0) as Hok.
  destruct (write_all_replicas RNG (store_of o) w0) as [w r] eqn:E. cbn in Hok.
  destruct r as [[]| |]; [|done..].
  destruct (write_all_synced RNG dev inv view (store_of o) w0 w (store_of_wf o) Hi0
              ltac:(unfold in_u; cbn; lia) E) as (Hi & Hs & _).
  split; [done|]. constructor; [|cbn; lia].
  constructor; [apply store_of_wf| |done|by exists Encrypt|exact Hs|by left].
  clear -Huh. unfold store_of. destruct Huh as [-> | ->]; done.
Qed.
End Any.

Abbreviation store_on dev := (store_of 0 dev).
Lemma store_on_wf {W} (dev : SectorIo W) inv view o :
  SectorIoLaws dev inv view -> sector_size dev = 512 -> total_sectors dev = 4 ->
  store_wf dev inv view (store_on dev o).
Proof. intros DL Hs Ht. exact (store_of_wf 0 dev inv view (or_introl eq_refl) Hs Ht o). Qed.

Lemma written_from_footer {W} RNG (dev : SectorIo W) inv view w0 o :
  SectorIoLaws dev inv view -> SectorIoReliable dev inv -> FillLaws RNG inv view 4 ->
  FillReliable RNG inv -> sector_size dev = 512 -> total_sectors dev = 4 ->
  inv w0 -> 0 <= o <= 3 ->
  inv (written_from RNG 0 dev w0 o) /\
  footer_only dev inv view (store_on dev o) (written_from RNG 0 dev w0 o).
Proof.
  intros DL DR FL FR Hs Ht Hi Ho.
  destruct (written_from_ok RNG 0 dev inv view (FL := FL) (or_introl eq_refl) Hs Ht w0 o Hi
              ltac:(lia)) as [? ?]. split; [done|]. constructor; done.
Qed.

Section On.
Context (dev : SectorIo MemVolume) {DL : SectorIoLaws dev inv view} {DR : SectorIoReliable dev inv}.
Hypothesis Hss : sector_size dev = 512.
Hypothesis Htotal : total_sectors dev = 4.

Definition written_on (o : Z) : MemVolume := written_from RNG 0 dev blank o.

Lemma store_on_ok o : store_wf dev inv view (store_on dev o).
Proof using DL Hss Htotal. apply store_on_wf; done. Qed.

Lemma written_on_footer o :
  0 <= o <= 3 -> inv (written_on o) /\ footer_only dev inv view (store_on dev o) (written_on o).
Proof using DL DR Hss Htotal.
  intros Ho. apply written_from_footer; done || apply (fill_laws 4).
Qed.
End On.

Abbreviation disk := (LowerDevice_io (below_filter kernel 60 512 4)).
(** With a replica in the first sector too: the data is sectors 1 and 2. *)
Definition store_at : Z -> JvckMetadataStore MemVolume := store_of 1 disk.
Definition written : Z -> MemVolume := written_from RNG 1 disk blank.

Lemma written_at : inv (written 1) /\ bindable disk inv view (store_at 1) (written 1).
Proof.
  apply (written_from_ok RNG 1 disk inv view (FL := fill_laws 4)); first [done|by right|lia|apply blank_ok].
Qed.

(** A wire format that reads requests with [prep] and [att]; any other request names
    the one volume. *)
Definition volume_name : string := "\Device\V3".
Definition wire_for (prep : bytes -> outcome string JvckVolumePrepareReq)
    (att : bytes -> outcome string JvckVolumeAttachReq) : Wire := {|
  wire_prepare_req := {| to_vec _ := Err ""%string; from_slice := prep |};
  wire_prepare_resp := {| to_vec _ := Ok [Byte.x01]; from_slice _ := Err ""%string |};
  wire_attach_req := {| to_vec _ := Err ""%string; from_slice := att |};
  wire_attach_resp := {| to_vec _ := Ok [Byte.x01]; from_slice _ := Err ""%string |};
  wire_volume_req := {| to_vec _ := Err ""%string; from_slice _ := Ok (mkVolumeRequest volume_name) |};
  wire_status := {| to_vec _ := Ok [Byte.x02]; from_slice _ := Err ""%string |};
  wire_list := {| to_vec _ := Ok [Byte.x03]; from_slice _ := Err ""%string |};
  wire_progress := {| to_vec _ := Ok [Byte.x04]; from_slice _ := Err ""%string |};
  wire_bench_req := {| to_vec _ := Err ""%string; from_slice _ := Err ""%string |};
  wire_bench_resp := {| to_vec _ := Ok [Byte.x05]; from_slice _ := Err ""%string |};
  wire_empty := {| to_vec _ := Ok [Byte.x80]; from_slice _ := Err ""%string |};
|}.

(** The driver at boot: filter 7 above the disk, unbound, and the handover of the
    partition. *)
Definition ext : DeviceExtension := mkExt DEVICE_KIND_FILTER (Some 60%nat) None None.
Definition driver (w : MemVolume) : Driver (list (JvckMetadataStore MemVolume)) MemVolume :=
  mkDriver (set_handover (mkHandoverInfo guid vmk)
      (mkRegistry [] (Some 1%nat) [mkPdoFilter (Some 50%nat) (Some 7%nat) (Some 60%nat) "\Device\V3"] None))
    ∅ {[7%nat := ext]} [] ([], w).

Lemma driver_ok w : driver_wf (driver w).
Proof.
  constructor; cbn.
  - constructor; cbn; [constructor|]. intros k a H. apply elem_of_nil in H. done.
  - apply map_Forall_singleton. constructor; done.
Qed.
Lemma ext_at w : dr_devices (driver w) !! 7%nat = Some ext.
Proof. reflexivity. Qed.
Lemma path_at w : mount_path 60 (fun _ => EmptyString) (driver w) 7 = "\Device\V3"%string.
Proof. reflexivity. Qed.
Lemma published w :
  rg_handover (dr_registry (driver w)) = Some (mkHandoverInfo guid (js_vmk (store_at 1))).
Proof. reflexivity. Qed.
End BindDemo.

(** C11: the boot mount. A filter AddDevice left unbound above the partition the
    loader published, whose disk holds the metadata of [s], in its header, its footer or both, is bound to a new
    OS volume: the mount succeeds, files the volume under the filter's device name,
    binds the filter and its thread to it, and what the volume then serves, under any
    sequence of requests, sweep batches and control operations, and through a filter
    bound to it under any interleaving with its thread, is the plaintext of the disk
    at the boundary [s] recorded, under the keys of [s]; and the disk it leaves can be
    mounted again. A filter on a
    partition with another identifier is left as it was. *)
Theorem boot_mount_serves_plaintext `{C : CryptoApi} `{A : AesApi} {W0} (K : Kernel W0) RNG
    lower ss total inv view from_bytes_le fmt_ptr guid
    (d : Driver (list (JvckMetadataStore W0)) W0) n e h :
  AesLaws A -> WorkingDisk K lower ss total inv view ->
  FillLaws RNG inv view total -> FillReliable RNG inv ->
  reports K lower ss total inv view from_bytes_le guid -> driver_wf d ->
  rg_handover (dr_registry d) = Some h ->
  dr_devices d !! n = Some e -> de_volume e = None -> de_lower_device e = Some lower ->
  inv (dr_world d).2 ->
  let mounted := try_mount_handover_volume K (Some (vck_provider RNG)) from_bytes_le fmt_ptr true
                   (Some n) d in
  (hi_partition_guid h <> guid -> same_objects d mounted.1 /\ mounted.2 = Ok tt) /\
  (forall s,
     h = mkHandoverInfo guid (js_vmk s) ->
     bindable (LowerDevice_io (below_filter K lower ss total)) inv view s (dr_world d).2 ->
     exists d' a v,
       mounted = (d', Ok tt) /\ binds d' n a (mount_path lower fmt_ptr d n) v /\
       is_os_volume v = true /\
       serves_metadata (LowerDevice_io (below_filter K lower ss total)) inv view d' s v
         (view (dr_world d).2) /\
       ((forall w, k_create_thread K w = true) -> de_vthread e = None -> runs d' n a)).
Proof.
  intros HA WD FL FR R Hwf Hh He Hv Hl Hi mounted. split.
  - intros Hne. apply (mount_probe K RNG lower ss total inv view from_bytes_le fmt_ptr guid d n e h);
      done.
  - intros s -> Hf. apply (mount_run K RNG lower ss total inv view from_bytes_le fmt_ptr guid d n e s);
      done.
Qed.

Lemma boot_mount_serves_plaintext_witness :
  exists d' a v,
    try_mount_handover_volume BindDemo.kernel
      (Some (vck_provider (C := ToyCrypto.api) (A := ToyAes.api) BindDemo.RNG)) (fun b => b) (fun _ => EmptyString) true (Some 7%nat)
      (BindDemo.driver (BindDemo.written 1)) = (d', Ok tt) /\
    binds d' 7 a "\Device\V3" v /\ is_os_volume v = true /\
    serves_metadata (C := ToyCrypto.api) (A := ToyAes.api) (LowerDevice_io (below_filter BindDemo.kernel 60 512 4))
      BindDemo.inv BindDemo.view d' (BindDemo.store_at 1) v
      (BindDemo.view (BindDemo.written 1)) /\
    runs d' 7 a.
Proof.
  destruct BindDemo.written_at as [Hi Hf]. revert Hi Hf. generalize (BindDemo.written 1). intros w Hi Hf.
  rewrite <- (BindDemo.path_at w).
  destruct (proj2 (boot_mount_serves_plaintext (C := ToyCrypto.api) (A := ToyAes.api) BindDemo.kernel
    BindDemo.RNG 60 512 4 BindDemo.inv BindDemo.view (fun b => b) (fun _ => EmptyString) BindDemo.guid
    (BindDemo.driver w) 7 BindDemo.ext _ ToyAes.laws
    BindDemo.works (BindDemo.fill_laws 4) BindDemo.fill_reliable BindDemo.reported
    (BindDemo.driver_ok w) (BindDemo.published w) (BindDemo.ext_at w) eq_refl eq_refl Hi)
    (BindDemo.store_at 1) eq_refl Hf) as (d' & a & v & E & Hb & Hos & Hs & Hr).
  exists d', a, v. split; [exact E|]. split; [exact Hb|]. split; [exact Hos|].
  split; [exact Hs|]. exact (Hr (fun _ => eq_refl) eq_refl).
Defined.
