(* ===== verification/AttachRun.v ===== *)
(** * ATTACH after PREPARE

    A handle opened at the volume's name goes through the filter bound to the volume,
    which hides the metadata from it; so the second phase of the re-attach path never
    finds the metadata PREPARE left. *)

From S2P Require Import Prelude Types Sectors Engine Nt Pipeline Volume Thread Xts Metadata Codec Store StoreLaws Filter Io Handover Registry Manager Provider Dispatch Attach AttachLaws Durable BindLaws BootMount.

(** ** Working handles *)

(** A handle whose requests below sector [n] do what a disk's do, and succeed. *)
Class WorkingHandleUpto {W0} (n : Z) (k : KernelVolumeIo W0) (inv : W0 -> Prop)
    (view : W0 -> Z -> bytes) : Prop := {
  wh_requests :: RequestLaws (handle_request (fh_read (kv_handle k)))
    (handle_request (fh_write (kv_handle k))) (kv_sector_size k) n inv view;
  wh_works :: RequestReliable (handle_request (fh_read (kv_handle k)))
    (handle_request (fh_write (kv_handle k))) (kv_sector_size k) n inv;
}.
Abbreviation WorkingHandle k := (WorkingHandleUpto (kv_total_sectors k) k).

#[export] Instance handle_io_laws {W0} n (k : KernelVolumeIo W0) inv view :
  WorkingHandleUpto n k inv view -> SectorIoUpto n (KernelVolume_io k) inv view.
Proof. intros H. apply handle_laws. apply wh_requests. Qed.
Lemma handle_io_reliable {W0} n (k : KernelVolumeIo W0) inv view :
  WorkingHandleUpto n k inv view -> SectorIoReliableUpto n (KernelVolume_io k) inv.
Proof. intros H. apply (handle_reliable k n inv view); [apply wh_requests|apply wh_works]. Qed.

(** ** A handle above a filter *)

(** The request a call on a handle sends down the stack, from kernel mode; a control
    request that succeeds has filled its buffer. *)
Definition kernel_request (major code off : Z) (buf : bytes) : FilterIrp :=
  mkFilterIrp (mkIRP 0 off (Z.of_nat (length buf)) (Some buf) false false 0 0 0) major 0 code 0
    (Some buf).
Definition control_done (status : Z) (out : bytes) (f : FilterIrp) : FilterIrp :=
  mkFilterIrp (mkIRP 0 0 0 None false false status (Z.of_nat (length out)) 0) (fi_major f) 0
    (fi_code f) 0 (Some out).

(** What a handle [h] of the device below a filter with extension [ext] becomes when its
    calls go through the filter: the filter's entry point decides what reaches [h], and
    its completion routine what comes back. A filter without a thread queues nothing;
    file system controls pass it. *)
Definition above_filter {W W0} (heap : gmap nat (AttachedVolume W)) (ext : DeviceExtension)
    (h : FileHandle W0) : FileHandle W0 := {|
  fh_ioctl code out w :=
    match handle_filter_irp heap true ext (kernel_request IRP_MJ_DEVICE_CONTROL code 0 out) with
    | Some (_, Forwarded f c) =>
        let '(w, (status, out)) := fh_ioctl h (fi_code f) out w in
        (w, (status,
             match c with
             | SizeCompletion ctx =>
                 default out (fi_sysbuf (size_ioctl_completion ctx (control_done status out f)))
             | _ => out
             end))
    | _ => (w, (STATUS_UNSUCCESSFUL, out))
    end;
  fh_fsctl := fh_fsctl h;
  fh_read off buf w :=
    match handle_filter_irp heap true ext (kernel_request IRP_MJ_READ 0 off buf) with
    | Some (_, Forwarded f _) => fh_read h (irp_byte_offset (fi_irp f)) buf w
    | _ => (w, (STATUS_UNSUCCESSFUL, buf))
    end;
  fh_write off buf w :=
    match handle_filter_irp heap true ext (kernel_request IRP_MJ_WRITE 0 off buf) with
    | Some (_, Forwarded f _) => fh_write h (irp_byte_offset (fi_irp f)) buf w
    | _ => (w, (STATUS_UNSUCCESSFUL, buf))
    end;
|}.

(** A handle of the raw volume: a working disk that tells its geometry. *)
Record raw_volume {W0} (h : FileHandle W0) (ss total : Z) (inv : W0 -> Prop) (view : W0 -> Z -> bytes) :
    Prop := {
  rv_works : WorkingHandle (mkKernelVolumeIo h ss total) inv view;
  rv_fsctl code : returns inv view total (fh_fsctl h code) (fun _ => True);
  rv_geometry : returns inv view total (fh_ioctl h IOCTL_DISK_GET_DRIVE_GEOMETRY (replicate 32 Byte.x00))
    (fun r => nt_success r.1 = true /\ le_decode (slice DISK_GEOMETRY_BYTES_PER_SECTOR_OFFSET 4 r.2) = ss);
  rv_length : returns inv view total (fh_ioctl h IOCTL_DISK_GET_LENGTH_INFO (replicate 8 Byte.x00))
    (fun r => nt_success r.1 = true /\ length r.2 = 8%nat);
}.

(** A volume whose first and last sector hold no metadata block is not one. *)
Lemma reader_open_blank `{C : CryptoApi} {W} (io : SectorIo W) inv view w :
  SectorIoLaws io inv view -> SectorIoReliable io inv -> 512 <= sector_size io -> 0 < total_sectors io ->
  inv w -> is_err (verify_crc (block_of (view w 0))) = true ->
  is_err (verify_crc (block_of (view w (total_sectors io - 1)))) = true ->
  exists w', Reader_open io w = (w', Err (NotFound "no JVCK metadata present")) /\ inv w' /\
    forall i, 0 <= i < total_sectors io -> view w' i = view w i.
Proof.
  intros IL RL Hss Ht Hi H0 Hl.
  destruct (candidate_miss io inv view w (total_sectors io - 1) [0] Hss Hi ltac:(lia) Hl)
    as (w1 & E1 & Hi1 & Hv1).
  destruct (candidate_miss io inv view w1 0 [] Hss Hi1 ltac:(lia)) as (w2 & E2 & Hi2 & Hv2).
  { rewrite Hv1 by lia. done. }
  exists w2. split; [|split; [done|intros; rewrite Hv2, Hv1 by done; done]].
  unfold Reader_open. cbv zeta. change (Z.of_nat METADATA_BLOCK_SIZE) with 512.
  rewrite (proj2 (Z.ltb_ge _ _)), (proj2 (Z.eqb_neq _ 0)) by lia. rewrite E1, E2. done.
Qed.

Section Above.
Context {W W0 : Type} (heap : gmap nat (AttachedVolume W)) (ext : DeviceExtension).
Context (a : nat) (v : AttachedVolume W) (h : FileHandle W0) (ss total off data : Z).
Context (inv : W0 -> Prop) (view : W0 -> Z -> bytes).
Hypothesis Hbound : de_volume ext = Some a.
Hypothesis Hvol : heap !! a = Some v.
Hypothesis Hthread : de_vthread ext = None.
Hypothesis G : filter_geometry ss off data v.
Hypothesis R : raw_volume h ss total inv view.
Abbreviation above := (above_filter heap ext h).

Lemma above_rw major b buf :
  major = IRP_MJ_READ \/ major = IRP_MJ_WRITE -> os_offset ss off b ->
  handle_filter_irp heap true ext (kernel_request major 0 b buf) =
    Some (ext, Forwarded (shifted ss off (kernel_request major 0 b buf)) NoCompletion).
Proof using Hbound Hvol Hthread G.
  intros Hm Hb. set (f := kernel_request major 0 b buf).
  assert (forall is_write, filter_rw v ext f is_write = (ext, Forwarded (shifted ss off f) NoCompletion)) as E.
  { intros is_write. rewrite (filter_rw_run ss off data v G), Hthread by done.
    change (fi_requestor_mode f) with 0. rewrite andb_false_r. done. }
  unfold handle_filter_irp. rewrite Hbound. cbn [mbind option_bind]. rewrite Hvol.
  cbn [mbind option_bind]. rewrite !E. change (fi_major f) with major.
  destruct Hm as [-> | ->]; done.
Qed.

Lemma above_read b buf w :
  os_offset ss off b -> fh_read above b buf w = fh_read h (b + off * ss) buf w.
Proof using Hbound Hvol Hthread G.
  intros Hb. unfold above_filter, fh_read at 1. rewrite above_rw by auto. done.
Qed.
Lemma above_write b buf w :
  os_offset ss off b -> fh_write above b buf w = fh_write h (b + off * ss) buf w.
Proof using Hbound Hvol Hthread G.
  intros Hb. unfold above_filter, fh_write at 1. rewrite above_rw by auto. done.
Qed.

(** Through the filter the volume is a working disk that starts at the data region; what
    is outside of its [n] sectors stays. *)
Lemma above_works (J : W0 -> Prop) told n :
  0 <= n -> off + n <= total -> (forall w, J w -> inv w) ->
  (forall w w', J w -> inv w' ->
     (forall i, 0 <= i < total -> i < off \/ off + n <= i -> view w' i = view w i) -> J w') ->
  WorkingHandleUpto n (mkKernelVolumeIo above ss told) J (fun w i => view w (off + i)).
Proof using Hbound Hvol Hthread G R.
  intros Hn Hend HJ HJ'. pose proof (rv_works _ _ _ _ _ R) as HW.
  pose proof (rq_ss (RequestLaws:=wh_requests (WorkingHandleUpto:=HW))) as Hss.
  pose proof (rq_size (RequestLaws:=wh_requests (WorkingHandleUpto:=HW))) as [Ht Hmax].
  pose proof (fg_off_pos _ _ _ _ G) as Hoff. cbn in Hss, Ht, Hmax.
  assert (forall lba k, 0 <= lba -> lba + Z.of_nat k <= n -> (0 < k)%nat -> os_offset ss off (lba * ss)) as Hos
    by (intros; split; [nia|]; assert ((lba + off + 1) * ss <= total * ss) by (apply Z.mul_le_mono_nonneg_r; lia); lia).
  assert (forall lba k buf w, 0 <= lba -> lba + Z.of_nat k <= n -> (0 < k)%nat ->
    handle_request (fh_read above) (lba * ss) buf w = handle_request (fh_read h) ((off + lba) * ss) buf w) as Er.
  { intros. unfold handle_request. rewrite above_read by eauto.
    replace ((off + lba) * ss) with (lba * ss + off * ss) by lia. done. }
  assert (forall lba k buf w, 0 <= lba -> lba + Z.of_nat k <= n -> (0 < k)%nat ->
    handle_request (fh_write above) (lba * ss) buf w = handle_request (fh_write h) ((off + lba) * ss) buf w) as Ew.
  { intros. unfold handle_request. rewrite above_write by eauto.
    replace ((off + lba) * ss) with (lba * ss + off * ss) by lia. done. }
  split; constructor; cbn [kv_handle kv_sector_size].
  - done.
  - split; [done|nia].
  - intros w i Hi%HJ Hx. apply (rq_len (RequestLaws:=wh_requests (WorkingHandleUpto:=HW))); [done|cbn; lia].
  - intros w lba k buf w' r Hi H0 Hk Hk0 Hb E. rewrite (Er _ k) in E by done.
    destruct (rq_read (RequestLaws:=wh_requests (WorkingHandleUpto:=HW)) w (off + lba) k buf w' r (HJ _ Hi)
                ltac:(lia) ltac:(cbn; lia) Hk0 Hb E) as (Hi' & Hv & Hd).
    split; [apply (HJ' w); [done..|intros; apply Hv; done]|]. split; [intros; apply Hv; cbn; lia|].
    destruct r; [|done..]. rewrite Hd. f_equal. symmetry. apply read_run_shift.
  - intros w lba ls w' r Hi H0 Hk Hk0 Hs E. rewrite (Ew _ (length ls)) in E by done.
    destruct (rq_write (RequestLaws:=wh_requests (WorkingHandleUpto:=HW)) w (off + lba) ls w' r (HJ _ Hi)
                ltac:(lia) ltac:(cbn; lia) Hk0 Hs E) as (Hi' & Hd).
    split.
    { apply (HJ' w); [done..|]. intros i Hx Ho. destruct r; [|apply Hd; (done || lia)|done].
      rewrite Hd by done. apply write_run_out. lia. }
    destruct r; [|intros i Hx Ho; apply Hd; cbn; lia|done].
    intros i Hx. rewrite Hd by (cbn; lia).
    destruct (decide (lba <= i < lba + Z.of_nat (length ls))).
    + rewrite !write_run_in by lia. f_equal. lia.
    + rewrite !write_run_out by lia. done.
  - intros w lba k buf Hi%HJ H0 Hk Hk0 Hb Hl. rewrite (Er _ k) by done.
    apply (rq_read_ok (RequestReliable:=wh_works (WorkingHandleUpto:=HW)) w (off + lba) k); done || (cbn; lia).
  - intros w lba ls Hi%HJ H0 Hk Hk0 Hs Hl. rewrite (Ew _ (length ls)) by done.
    apply (rq_write_ok (RequestReliable:=wh_works (WorkingHandleUpto:=HW)) w (off + lba) ls); done || (cbn; lia).
Qed.

(** The length it is told is the data region's. *)
Lemma above_ioctl_plain code out w :
  size_field_offset code = None -> fh_ioctl above code out w = fh_ioctl h code out w.
Proof using Hbound Hvol.
  intros Hc. unfold above_filter, fh_ioctl at 1, handle_filter_irp.
  rewrite Hbound. cbn [fi_major kernel_request mbind option_bind]. rewrite Hvol.
  cbn [mbind option_bind fi_code kernel_request]. rewrite Hc. cbn.
  destruct (fh_ioctl h code out w) as [w1 [st b]]. done.
Qed.

Lemma above_length w w1 st b :
  fh_ioctl h IOCTL_DISK_GET_LENGTH_INFO (replicate 8 Byte.x00) w = (w1, (st, b)) ->
  nt_success st = true -> length b = 8%nat ->
  exists b', fh_ioctl above IOCTL_DISK_GET_LENGTH_INFO (replicate 8 Byte.x00) w = (w1, (st, b')) /\
    le_decode b' = data * ss.
Proof using Hbound Hvol G.
  intros E Hst Hb. set (f := kernel_request IRP_MJ_DEVICE_CONTROL IOCTL_DISK_GET_LENGTH_INFO 0
    (replicate 8 Byte.x00)).
  set (ctx := mkSizeCtx (saturating_mul64 (data_sectors v) (av_sector_size v))).
  assert (handle_filter_irp heap true ext f = Some (ext, Forwarded f (SizeCompletion ctx))) as Ef.
  { unfold handle_filter_irp. rewrite Hbound. cbn [mbind option_bind]. rewrite Hvol. done. }
  unfold above_filter, fh_ioctl at 1. fold f. rewrite Ef.
  change (fi_code f) with IOCTL_DISK_GET_LENGTH_INFO. rewrite E. unfold ctx. eexists. split; [reflexivity|].
  destruct (size_completion_run ss off data v (control_done st b f) b 0 G eq_refl eq_refl Hst) as [-> Hd].
  { cbn. lia. }
  etransitivity; [|exact Hd]. unfold slice. rewrite drop_0, take_ge; [done|].
  rewrite length_splice; rewrite ?length_le_encode; lia.
Qed.

Lemma above_query create path :
  returns inv view total (create path) (eq (Some above)) -> 0 < ss ->
  answers inv view total (kv_open_query create (volume_id path)) (eq (mkKernelVolumeIo above ss data)).
Proof using Hbound Hvol G R.
  intros Hopen Hss w Hi. destruct R as [_ Hf Hg Hl].
  destruct (Hopen w Hi) as (w1 & ? & E1 & <- & Hi1 & Hv1).
  destruct (Hf FSCTL_ALLOW_EXTENDED_DASD_IO w1 Hi1) as (w2 & st2 & E2 & _ & Hi2 & Hv2).
  destruct (Hg w2 Hi2) as (w3 & [st3 b3] & E3 & [Hst3 Hb3] & Hi3 & Hv3).
  destruct (Hl w3 Hi3) as (w4 & [st4 b4] & E4 & [Hst4 Hb4] & Hi4 & Hv4).
  cbn [fst snd] in Hst3, Hb3, Hst4, Hb4.
  exists w4, (mkKernelVolumeIo above ss data). split; [|split; [done|split; [done|]]].
  2: { intros i Hx. rewrite Hv4, Hv3, Hv2, Hv1 by done. done. }
  destruct (create path w) as [w1' r1] eqn:C1. injection E1 as -> ->.
  destruct (fh_fsctl h FSCTL_ALLOW_EXTENDED_DASD_IO w1) as [w2' r2] eqn:C2. injection E2 as -> ->.
  destruct (fh_ioctl h IOCTL_DISK_GET_DRIVE_GEOMETRY _ w2) as [w3' r3] eqn:C3. injection E3 as -> ->.
  destruct (fh_ioctl h IOCTL_DISK_GET_LENGTH_INFO _ w3) as [w4' r4] eqn:C4. injection E4 as -> ->.
  destruct (above_length _ _ _ _ C4 Hst4 Hb4) as (b' & E4 & Hd).
  unfold kv_open_query. rewrite mbind_run. unfold kv_open at 1. cbn [vi_device_path volume_id].
  rewrite C1. cbn [mbind]. rewrite mbind_run. unfold allow_extended_dasd_io. cbn [kv_handle].
  change (fh_fsctl above) with (fh_fsctl h). rewrite C2. unfold mret at 1, M_ret at 1. cbn [fst].
  unfold kv_query_geometry. rewrite mbind_run. unfold kv_device_ioctl at 1. cbn [kv_handle].
  rewrite above_ioctl_plain by done. rewrite C3, Hst3. cbv zeta. rewrite Hb3.
  rewrite (proj2 (Z.eqb_neq ss 0)) by lia. rewrite mbind_run. unfold kv_device_ioctl. cbn [kv_handle].
  rewrite E4, Hst4, Hd. cbv zeta. rewrite Z.div_mul by lia. done.
Qed.
(** What the driver reads through the filter, and what it finds there. *)
Section Reads.
Hypothesis Hss : 512 <= ss.
Hypothesis Hdata : 0 < data.
Hypothesis Hend : off + data <= total.
Abbreviation io := (KernelVolume_io (mkKernelVolumeIo above ss data)).

(** The invariant with everything outside of the data region as it is in [V]. *)
Definition elsewhere (V : Z -> bytes) (w : W0) : Prop :=
  inv w /\ forall i, 0 <= i < total -> i < off \/ off + data <= i -> view w i = V i.

Lemma above_elsewhere V :
  WorkingHandle (mkKernelVolumeIo above ss data) (elsewhere V) (fun w i => view w (off + i)).
Proof using Hbound Hvol Hthread G R Hdata Hend.
  apply above_works; [cbn; lia|done|by intros w []|].
  intros w w' [_ He] Hi Hs. split; [done|]. intros i Hx Ho. rewrite Hs by done. apply He; done.
Qed.

Lemma elsewhere_all w w' :
  elsewhere (view w) w' -> (forall i, 0 <= i < data -> view w' (off + i) = view w (off + i)) ->
  inv w' /\ forall i, 0 <= i < total -> view w' i = view w i.
Proof using Type.
  intros [Hi He] Hv. split; [done|]. intros i Hx.
  destruct (decide (off <= i < off + data)); [|apply He; lia].
  replace i with (off + (i - off)) by lia. apply Hv. lia.
Qed.

Lemma above_reads_last w :
  inv w -> exists w' r, read_sectors io (Z.max 0 (data - 1)) (Z.to_nat ss) w = (w', r) /\ r <> Panic /\
    inv w' /\ forall i, 0 <= i < total -> view w' i = view w i.
Proof using Hbound Hvol Hthread G R Hss Hdata Hend.
  intros Hi. pose proof (above_elsewhere (view w)) as HW.
  pose proof (handle_io_laws _ _ _ _ HW) as HL.
  destruct (read_sectors io (Z.max 0 (data - 1)) (Z.to_nat ss) w) as [w' r] eqn:E.
  pose proof (io_read (io:=io) w (Z.max 0 (data - 1)) 1 w' r) as Hr.
  cbn [sector_size total_sectors KernelVolume_io kv_sector_size kv_total_sectors] in Hr.
  rewrite Nat.mul_1_l in Hr.
  destruct (Hr ltac:(split; done) ltac:(lia) ltac:(lia) E) as (Hi' & Hv & Hd).
  exists w', r. split; [done|]. split; [by intros ->|]. apply elsewhere_all; done.
Qed.

Lemma above_opens_nothing `{C : CryptoApi} w :
  inv w -> is_err (verify_crc (block_of (view w off))) = true ->
  is_err (verify_crc (block_of (view w (off + data - 1)))) = true ->
  exists w', Reader_open io w = (w', Err (NotFound "no JVCK metadata present")) /\
    inv w' /\ forall i, 0 <= i < total -> view w' i = view w i.
Proof using Hbound Hvol Hthread G R Hss Hdata Hend.
  intros Hi H0 Hl. pose proof (above_elsewhere (view w)) as HW.
  destruct (reader_open_blank io (elsewhere (view w)) (fun w i => view w (off + i)) w
              (handle_io_laws _ _ _ _ HW) (handle_io_reliable _ _ _ _ HW) Hss Hdata ltac:(split; done))
    as (w' & E & Hi' & Hv).
  - rewrite Z.add_0_r. done.
  - replace (off + (total_sectors io - 1)) with (off + data - 1) by (cbn; lia). done.
  - exists w'. split; [exact E|]. apply elsewhere_all; done.
Qed.
End Reads.
End Above.

(** The provider on a device that holds no metadata. *)
Lemma on_attach_none `{C : CryptoApi} `{A : AesApi} {W0} (RNG : option (RandomSource W0)) io vmk guid w
    (d : Driver (list (JvckMetadataStore W0)) W0) e :
  Reader_open io (dr_world d).2 = (w, Err e) ->
  on_attach_volume (Some (vck_provider RNG)) vmk guid io d = (with_world ((dr_world d).1, w) d, Err e).
Proof.
  intros E. unfold on_attach_volume. rewrite mbind_run. cbn [ok_or lift].
  unfold world, zoom. cbn [on_attach vck_provider vck_on_attach]. unfold vck_on_attach.
  rewrite mbind_run. cbn [ac_io]. unfold on_snd, zoom. rewrite E. done.
Qed.

(** ** The request *)

Section Attach.
Context `{C : CryptoApi} `{A : AesApi} `{Wire} {W0 : Type}.
Context (K : Kernel W0) (RNG : option (RandomSource W0)).
Implicit Types (d : Driver (list (JvckMetadataStore W0)) W0).

(** The name the request opens. *)
Definition attach_path (req : JvckVolumeAttachReq) : string :=
  io_path (aq_nt_device_path req) (aq_volume_path req).

(** The refusals, before anything is opened. *)
Lemma attach_unprepared input req d :
  decode_req (P := list (JvckMetadataStore W0)) (W0 := W0) (T := JvckVolumeAttachReq) input d = (d, Ok req) ->
  registry_get (aq_volume_path req) (dr_registry d) = None ->
  handle_jvck_attach K (Some (vck_provider RNG)) input d =
    (d, Err (NotFound "volume not prepared; call IOCTL_JVCK_PREPARE first")).
Proof using Type.
  intros Hd Hreg. unfold handle_jvck_attach. rewrite (mbind_step _ _ _ _ _ Hd). cbv zeta.
  rewrite (mbind_step _ _ d d (dr_registry d)) by done. rewrite Hreg. done.
Qed.

Lemma attach_again input req d a v0 sup :
  decode_req (P := list (JvckMetadataStore W0)) (W0 := W0) (T := JvckVolumeAttachReq) input d = (d, Ok req) ->
  registry_get (aq_volume_path req) (dr_registry d) = Some a -> dr_heap d !! a = Some v0 ->
  cipher_supplier v0 = Some sup ->
  handle_jvck_attach K (Some (vck_provider RNG)) input d =
    (d, Err (Unsupported "volume already fully attached")).
Proof using Type.
  intros Hd Hreg Hv0 Hsup. unfold handle_jvck_attach. rewrite (mbind_step _ _ _ _ _ Hd). cbv zeta.
  rewrite (mbind_step _ _ d d (dr_registry d)) by done. rewrite Hreg, (mbind_step _ _ d d a) by done.
  rewrite (mbind_step _ _ d d v0) by (unfold volume_at; rewrite Hv0; done). rewrite Hsup. done.
Qed.

(** The provisional volume is probed through its own filter. *)
Lemma attach_blind input req d a v0 n e h ss total off data inv view :
  decode_req (P := list (JvckMetadataStore W0)) (W0 := W0) (T := JvckVolumeAttachReq) input d = (d, Ok req) ->
  registry_get (aq_volume_path req) (dr_registry d) = Some a -> dr_heap d !! a = Some v0 ->
  cipher_supplier v0 = None -> av_filter_device v0 = Some n -> dr_devices d !! n = Some e ->
  de_volume e = Some a -> de_vthread e = None ->
  filter_geometry ss off data v0 -> raw_volume h ss total inv view ->
  512 <= ss -> 0 < data -> off + data <= total ->
  returns inv view total (k_create_file K (attach_path req)) (eq (Some (above_filter (dr_heap d) e h))) ->
  inv (dr_world d).2 -> is_err (verify_crc (block_of (view (dr_world d).2 off))) = true ->
  is_err (verify_crc (block_of (view (dr_world d).2 (off + data - 1)))) = true ->
  exists w, handle_jvck_attach K (Some (vck_provider RNG)) input d =
      (with_world ((dr_world d).1, w) d, Err (NotFound "no JVCK metadata present")) /\
    inv w /\ forall i, 0 <= i < total -> view w i = view (dr_world d).2 i.
Proof using Type.
  intros Hd Hreg Hv0 Hsup Hdev He Hb Ht G R Hss Hdata Hend Hopen Hi H0 Hl.
  pose proof (fg_off_pos _ _ _ _ G) as Hoff.
  destruct (above_query (dr_heap d) e a v0 h ss total off data inv view Hb Hv0 G R
              (k_create_file K) (attach_path req) Hopen ltac:(lia) _ Hi) as (w1 & _ & E1 & <- & Hi1 & Hv1).
  set (k := mkKernelVolumeIo (above_filter (dr_heap d) e h) ss data) in E1.
  set (d1 := with_world ((dr_world d).1, w1) d).
  destruct (above_reads_last (dr_heap d) e a v0 h ss total off data inv view Hb Hv0 Ht G R Hss Hdata Hend
              w1 Hi1) as (w2 & r & E2 & Hr & Hi2 & Hv2).
  set (d2 := with_world ((dr_world d).1, w2) d).
  destruct (above_opens_nothing (dr_heap d) e a v0 h ss total off data inv view Hb Hv0 Ht G R Hss Hdata Hend
              w2 Hi2) as (w3 & E3 & Hi3 & Hv3).
  { rewrite Hv2, Hv1 by lia. done. }
  { rewrite Hv2, Hv1 by lia. done. }
  exists w3. split; [|split; [done|intros; rewrite Hv3, Hv2, Hv1 by done; done]].
  unfold handle_jvck_attach. rewrite (mbind_step _ _ _ _ _ Hd). cbv zeta.
  rewrite (mbind_step _ _ d d (dr_registry d)) by done. rewrite Hreg, (mbind_step _ _ d d a) by done.
  rewrite (mbind_step _ _ d d v0) by (unfold volume_at; rewrite Hv0; done). rewrite Hsup, Hdev.
  rewrite (mbind_step _ _ d d1 k) by exact (kworld_ok _ _ _ _ E1). cbv zeta.
  rewrite (mbind_step _ _ d1 d2 tt).
  2: { unfold ignore. rewrite kworld_run.
       change (read_sectors (KernelVolume_io k) (Z.max 0 (kv_total_sectors k - 1)) (Z.to_nat (kv_sector_size k))
         (dr_world d1).2 = (w2, r)) in E2. rewrite E2. destruct r; done. }
  pose proof (on_attach_none RNG (KernelVolume_io k) (aq_vmk req) None w3 d2 _ E3) as E4.
  rewrite mbind_run, E4. done.
Qed.
End Attach.

(** ** The four-sector disk behind handles *)

Module AttachDemo.
Import ToyCrypto BindDemo.
Definition handle : FileHandle MemVolume := disk_handle BindDemo.io BindDemo.answer.
Definition raw : KernelVolumeIo MemVolume := mkKernelVolumeIo handle 512 4.
Definition io : SectorIo MemVolume := KernelVolume_io raw.

#[export] Instance raw_works : WorkingHandle raw BindDemo.inv BindDemo.view.
Proof.
  split.
  - exact (disk_handle_laws BindDemo.io _ _ _ BindDemo.io_laws ltac:(discriminate)).
  - exact (disk_handle_reliable BindDemo.io _ _ _ BindDemo.io_laws BindDemo.io_reliable).
Qed.
#[export] Instance raw_reliable : SectorIoReliable io BindDemo.inv.
Proof. apply (handle_io_reliable _ raw _ _ raw_works). Qed.

Lemma is_raw : raw_volume handle 512 4 BindDemo.inv BindDemo.view.
Proof.
  split; [exact raw_works|..]; intros; intros w Hi; eexists w, _; (split; [reflexivity|]);
    (split; [vm_compute; done|done]).
Qed.

Definition request : JvckVolumeAttachReq := mkAttachReq volume_name vmk 0 1 512 "" "".

(** Any input is this request. *)
Definition wire : Wire := wire_for (fun _ => Err ""%string) (fun _ => Ok request).

(** The driver after PREPARE without a key: volume 0, filed and bound. *)
Definition provisional : AttachedVolume (list (JvckMetadataStore MemVolume) * MemVolume) :=
  provisional_volume volume_name 512 0 3 Volume.Ioctl (Some 7%nat).
Definition ext : DeviceExtension := mkExt DEVICE_KIND_FILTER (Some 60%nat) (Some 0%nat) None.
Definition driver (w : MemVolume) : Driver (list (JvckMetadataStore MemVolume)) MemVolume :=
  mkDriver (mkRegistry [(volume_name, 0%nat)] (Some 1%nat)
      [mkPdoFilter (Some 50%nat) (Some 7%nat) (Some 60%nat) volume_name] None)
    {[0%nat := provisional]} {[7%nat := ext]} [] ([], w).
Definition kernel : Kernel MemVolume :=
  BindDemo.kernel_with (above_filter {[0%nat := provisional]} ext handle) BindDemo.handle.

Lemma provisional_geometry : filter_geometry 512 0 3 provisional.
Proof. constructor; cbn; (reflexivity || lia). Qed.

(** Its metadata is on the disk; its data is not metadata. *)
Lemma written i :
  inv (written_on io 2) /\ footer_only io inv view (store_on io 2) (written_on io 2) /\
  (0 <= i < 3 -> is_err (verify_crc (block_of (view (written_on io 2) i))) = true).
Proof.
  destruct (written_on_footer io eq_refl eq_refl 2 ltac:(lia)) as [Hi Hf].
  split; [exact Hi|]. split; [exact Hf|]. intros Hx. unfold written_on, written_from.
  destruct (write_all_replicas BindDemo.RNG (store_on io 2) blank) as [w r] eqn:E.
  destruct (write_all_run BindDemo.RNG io inv view (FL := fill_laws 4) (store_on io 2)
              (store_on_ok io eq_refl eq_refl 2) blank w r blank_ok E) as (_ & _ & Hv & _).
  cbn [fst]. rewrite Hv.
  - assert (i = 0 \/ i = 1 \/ i = 2) as [-> | [-> | ->]] by lia; vm_compute; done.
  - cbn. lia.
  - assert (js_lbas (store_on io 2) = [3]) as -> by (vm_compute; done).
    intros H%list_elem_of_singleton. lia.
Qed.
End AttachDemo.

(** C14: Finding: ATTACH cannot complete what PREPARE left provisional. A path PREPARE
    never filed is not found and a volume that has its keys already is refused, with
    nothing changed. For a provisional volume, bound to its filter as PREPARE leaves it,
    the handle ATTACH opens at the volume's name goes through that filter: it is told the
    size of the data region, and its reads are moved past the header region, so the
    replicas, wherever they are, are out of its sight. Unless the data itself begins or
    ends with a metadata block, the answer is "no JVCK metadata present", whatever the
    key and whatever metadata the disk holds, with no object and no sector changed. *)
Theorem attach_never_sees_the_metadata `{C : CryptoApi} `{A : AesApi} `{Wire} {W0} (K : Kernel W0)
    RNG inv view h ss total off data input req (d : Driver (list (JvckMetadataStore W0)) W0) :
  decode_req (T := JvckVolumeAttachReq) input d = (d, Ok req) ->
  let run := handle_jvck_attach K (Some (vck_provider RNG)) input d in
  (registry_get (aq_volume_path req) (dr_registry d) = None ->
     run = (d, Err (NotFound "volume not prepared; call IOCTL_JVCK_PREPARE first"))) /\
  (forall a v0, registry_get (aq_volume_path req) (dr_registry d) = Some a -> dr_heap d !! a = Some v0 ->
     (is_Some (cipher_supplier v0) -> run = (d, Err (Unsupported "volume already fully attached"))) /\
     (forall n e,
        cipher_supplier v0 = None -> av_filter_device v0 = Some n -> dr_devices d !! n = Some e ->
        de_volume e = Some a -> de_vthread e = None -> filter_geometry ss off data v0 ->
        raw_volume h ss total inv view -> 512 <= ss -> 0 < data -> off + data <= total ->
        returns inv view total (k_create_file K (attach_path req))
          (eq (Some (above_filter (dr_heap d) e h))) ->
        inv (dr_world d).2 ->
        is_err (verify_crc (block_of (view (dr_world d).2 off))) = true ->
        is_err (verify_crc (block_of (view (dr_world d).2 (off + data - 1)))) = true ->
        exists w, run = (with_world ((dr_world d).1, w) d, Err (NotFound "no JVCK metadata present")) /\
          inv w /\ forall i, 0 <= i < total -> view w i = view (dr_world d).2 i)).
Proof.
  intros Hd run. split; [|intros a v0 Hreg Hv0; split].
  - intros Hreg. apply attach_unprepared with req; done.
  - intros [sup Hsup]. apply attach_again with req a v0 sup; done.
  - intros n e Hsup Hn He Hb Ht G R Hss Hdata Hend Hopen Hi H0 Hl.
    apply (attach_blind K RNG input req d a v0 n e h ss total off data inv view); done.
Qed.

(** The disk holds the metadata of a volume, sealed with the request's key. *)
Lemma attach_never_sees_the_metadata_witness :
  let disk := BindDemo.written_on AttachDemo.io 2 in
  let s := BindDemo.store_on AttachDemo.io 2 in
  footer_only (C := ToyCrypto.api) AttachDemo.io BindDemo.inv BindDemo.view s disk /\
  js_vmk s = aq_vmk AttachDemo.request /\
  exists w, handle_jvck_attach (H := AttachDemo.wire) AttachDemo.kernel
      (Some (vck_provider (C := ToyCrypto.api) (A := ToyAes.api) BindDemo.RNG)) [] (AttachDemo.driver disk) =
    (AttachDemo.driver w, Err (NotFound "no JVCK metadata present")).
Proof.
  intros disk s. destruct (AttachDemo.written 0) as (Hi & Hf & H0).
  destruct (AttachDemo.written 2) as (_ & _ & H2). specialize (H0 ltac:(lia)). specialize (H2 ltac:(lia)).
  split; [exact Hf|]. split; [reflexivity|].
  revert Hi H0 H2. fold disk. clearbody disk. intros Hi H0 H2.
  destruct (proj2 (proj2 (attach_never_sees_the_metadata (C := ToyCrypto.api) (A := ToyAes.api)
    (H := AttachDemo.wire) AttachDemo.kernel BindDemo.RNG BindDemo.inv BindDemo.view AttachDemo.handle
    512 4 0 3 [] AttachDemo.request (AttachDemo.driver disk) eq_refl) 0%nat AttachDemo.provisional
    eq_refl eq_refl) 7%nat AttachDemo.ext eq_refl eq_refl eq_refl eq_refl eq_refl
    AttachDemo.provisional_geometry AttachDemo.is_raw ltac:(lia) ltac:(lia) ltac:(lia)
    (fun w Hw => ex_intro _ w (ex_intro _ _ (conj eq_refl (conj eq_refl (conj Hw (fun _ _ => eq_refl))))))
    Hi H0 H2) as (w & E & _).
  exists w. exact E.
Defined.
