(* ===== verification/DetachRun.v ===== *)
(** * What DETACH leaves behind

    A detach either takes the volume out of the registry, its filter back to
    pass-through and its thread down, or - when the file system refuses the lock -
    gives up after the first half of that. *)

From S2P Require Import Prelude Types Sectors Engine Nt Pipeline Volume Thread Xts Metadata Codec Store Filter Io Handover Registry Manager Provider Dispatch Attach AttachLaws Durable BindLaws BootMount.

Section Detach.
Context `{Wire} {P W0 : Type} (K : Kernel W0).
Implicit Types d : Driver P W0.

(** Requests to a handle change the world only. *)
Definition world_only {B} (m : M VckError (Driver P W0) B) : Prop :=
  forall d, exists w b, m d = (with_world ((dr_world d).1, w) d, Ok b).

Lemma with_world_same d : with_world ((dr_world d).1, (dr_world d).2) d = d.
Proof using Type. destruct d as [? ? ? ? [? ?]]. done. Qed.

Lemma world_only_ret {B} (b : B) : world_only (mret b).
Proof using Type. intros d. exists (dr_world d).2, b. rewrite with_world_same. done. Qed.

Lemma world_only_bind {B C} (m : M VckError (Driver P W0) B) (k : B -> M VckError (Driver P W0) C) :
  world_only m -> (forall b, world_only (k b)) -> world_only (m ≫= k).
Proof using Type.
  intros Hm Hk d. destruct (Hm d) as (w & b & E). rewrite mbind_run, E.
  destruct (Hk b (with_world ((dr_world d).1, w) d)) as (w' & c & E'). exists w', c. exact E'.
Qed.

Lemma world_only_kcall {B} (f : W0 -> W0 * B) : world_only (kcall f).
Proof using Type.
  intros d. unfold kcall. rewrite kworld_run. destruct (f (dr_world d).2) as [w b]. eauto.
Qed.

Lemma world_only_dismount n h : world_only (dismount n h).
Proof using Type.
  induction n as [|n IH]; cbn [dismount]; [apply world_only_ret|].
  apply world_only_bind; [apply world_only_kcall|]. intros st.
  destruct (nt_success st); [apply world_only_ret|exact IH].
Qed.

(** The file system refuses the lock. *)
Definition lock_refused (path : string) d : bool :=
  match k_open_raw K (win32_volume_path_to_nt path) (dr_world d).2 with
  | (w, Some h) => negb (nt_success (fh_fsctl h FSCTL_LOCK_VOLUME w).2)
  | (_, None) => false
  end.

(** The registry and the heap after the first half. *)
Definition half_detached (path : string) (a : nat) (v : AttachedVolume (P * W0)) d : Driver P W0 :=
  with_heap (<[a := set_filter_device None v]> (dr_heap d))
    (with_registry (registry_remove path (dr_registry d)).1 d).

(** What the filter's thread still had queued. *)
Definition drained (e : DeviceExtension) : list IRP :=
  match de_vthread e with Some vt => vt_drop (vt_stop vt) | None => [] end.

(** The driver after the second half: the filter passes through, the queue is
    completed, the kernel left the world at [w]. *)
Definition detached (path : string) (a : nat) (v : AttachedVolume (P * W0)) (n : nat)
    (e : DeviceExtension) (w : W0) d : Driver P W0 :=
  mkDriver (registry_remove path (dr_registry d)).1 (<[a := set_filter_device None v]> (dr_heap d))
    (<[n := mkExt (de_kind e) (de_lower_device e) None None]> (dr_devices d))
    (dr_completed d ++ drained e) ((dr_world d).1, w).

Lemma unbind_run n e d :
  dr_devices d !! n = Some e ->
  unbind_filter (Some n) d =
    (with_completed (dr_completed d ++ drained e)
       (with_devices (<[n := mkExt (de_kind e) (de_lower_device e) None None]> (dr_devices d)) d), Ok tt).
Proof using Type.
  intros He. unfold unbind_filter. rewrite (mbind_step _ _ _ _ _ (ext_of_some n e d He)).
  unfold stop_thread, drained. destruct e as [kind low vol [vt|]]; cbn [de_vthread].
  - cbv [mbind M_bind mret M_ret log_completed set_ext mmodify with_devices with_completed dr_registry
      dr_heap dr_devices dr_completed dr_world de_kind de_lower_device de_volume de_vthread].
    destruct d as [r hp dv c w]. rewrite insert_insert_eq. done.
  - rewrite app_nil_r. done.
Qed.

(** Taking the volume out of the registry and away from its filter. *)
Lemma first_half_run {B} path a v d (k : PDEVICE_OBJECT -> M VckError (Driver P W0) B) :
  registry_get path (dr_registry d) = Some a -> dr_heap d !! a = Some v ->
  (removed ← take_volume path; a ← lift (ok_or removed (NotFound "volume is not attached"));
   filter_do ← swap_filter a; k filter_do) d =
  k (av_filter_device v) (half_detached path a v d).
Proof using Type.
  intros Hreg Hv.
  rewrite (mbind_step _ _ d (with_registry (registry_remove path (dr_registry d)).1 d) (Some a))
    by (unfold take_volume; cbn; f_equal; f_equal; exact Hreg).
  rewrite (mbind_step _ _ _ _ a) by done.
  rewrite (mbind_step _ _ _ (half_detached path a v d) (av_filter_device v)); [done|].
  unfold swap_filter, volume_at. rewrite mbind_run. cbn. rewrite Hv. done.
Qed.

(** The requests to the volume's handle. *)
Definition lock_and_leave (path : string) (ignore_open_files : bool) : M VckError (Driver P W0) unit :=
  vol_handle ← open_volume_handle_raw K (win32_volume_path_to_nt path);
  match vol_handle with
  | None => mret tt
  | Some h =>
      lock_st ← send_fsctl h FSCTL_LOCK_VOLUME;
      if negb (nt_success lock_st) && negb ignore_open_files
      then mfail (Io "FSCTL_LOCK_VOLUME failed (files open)")
      else
        _ ← dismount MAX_RETRIES h;
        if nt_success lock_st
        then _ ← send_fsctl h FSCTL_UNLOCK_VOLUME; mret tt
        else mret tt
  end.

Lemma lock_and_leave_run path d :
  exists w, lock_and_leave path false d =
    (with_world ((dr_world d).1, w) d,
     if lock_refused path d then Err (Io "FSCTL_LOCK_VOLUME failed (files open)") else Ok tt).
Proof using Type.
  unfold lock_and_leave, lock_refused, open_volume_handle_raw, send_fsctl, kcall.
  rewrite mbind_run, kworld_run. destruct (k_open_raw K _ _) as [w1 [h|]]; [|eauto].
  rewrite mbind_run, kworld_run. cbn [dr_world with_world snd fst].
  destruct (fh_fsctl h FSCTL_LOCK_VOLUME w1) as [w2 st]. cbn [snd].
  destruct (nt_success st) eqn:Hst; cbn [negb andb]; [|eauto].
  match goal with |- exists w, ?m ?d2 = _ => assert (world_only m) as Hm end.
  { apply world_only_bind; [apply world_only_dismount|]. intros _.
    apply world_only_bind; [apply world_only_kcall|]. intros _. apply world_only_ret. }
  destruct (Hm (with_world ((dr_world d).1, w2) (with_world ((dr_world d).1, w1) d))) as (w3 & [] & E).
  exists w3. exact E.
Qed.

Lemma detach_volume_run path a v n e d :
  registry_get path (dr_registry d) = Some a -> dr_heap d !! a = Some v ->
  av_filter_device v = Some n -> dr_devices d !! n = Some e ->
  exists w, detach_volume_with_dismount K path false true d =
    if lock_refused path d
    then (with_world ((dr_world d).1, w) (half_detached path a v d),
          Err (Io "FSCTL_LOCK_VOLUME failed (files open)"))
    else (detached path a v n e w d, Ok tt).
Proof using Type.
  intros Hreg Hv Hn He. destruct (lock_and_leave_run path (half_detached path a v d)) as [w E].
  change (lock_refused path (half_detached path a v d)) with (lock_refused path d) in E.
  exists w. unfold detach_volume_with_dismount. rewrite first_half_run with path a v d _ by done.
  rewrite Hn. cbv zeta.
  match goal with |- ?l = _ => assert (l =
    (lock_and_leave path false ≫= fun _ => unbind_filter (Some n)) (half_detached path a v d)) as -> end.
  { unfold lock_and_leave. rewrite !mbind_run. destruct (open_volume_handle_raw _ _ _) as [d1 [h| |]]; done. }
  rewrite mbind_run, E. destruct (lock_refused path d); [done|].
  rewrite (unbind_run n e) by done. done.
Qed.

(** The part of the handler after the request is decoded. *)
Lemma handle_detach_run input req d :
  from_slice (A := VolumeRequest) input = Ok req ->
  handle_detach K input d =
  (_ ← (match registry_get (vr_volume_path req) (dr_registry d) with
        | None => mret tt
        | Some a =>
            v ← volume_at a;
            if is_os_volume v && has_encrypted_data v
            then mfail (PermissionDenied "OS volume is encrypted; detach is not allowed")
            else mret tt
        end);
   _ ← detach_volume_with_dismount K (vr_volume_path req) false true; encode_resp mkEmpty) d.
Proof using Type.
  intros Hd. unfold handle_detach. rewrite (mbind_step _ _ d d req); [done|].
  unfold decode_req, lift. rewrite Hd. done.
Qed.

Lemma handle_detach_unknown input req d :
  from_slice (A := VolumeRequest) input = Ok req ->
  registry_get (vr_volume_path req) (dr_registry d) = None ->
  (handle_detach K input d).2 = Err (NotFound "volume is not attached").
Proof using Type.
  intros Hd Hreg. rewrite (handle_detach_run input req) by done. rewrite Hreg.
  rewrite (mbind_step _ _ d d tt) by done. rewrite mbind_run. unfold detach_volume_with_dismount.
  rewrite mbind_run. unfold take_volume. cbn. rewrite mbind_run.
  unfold registry_get in Hreg. rewrite Hreg. done.
Qed.

(** PREPARE of a path that is not filed takes the filter the search finds, bound or
    not. *)
Lemma prepare_takes_filter (pr : option (VolumeProvider P W0)) input req n lower w d :
  from_slice (A := JvckVolumePrepareReq) input = Ok req ->
  registry_get (pq_volume_path req) (dr_registry d) = None ->
  is_Some (rg_driver_object (dr_registry d)) ->
  find_filter K (io_path (pq_nt_device_path req) (pq_volume_path req)) d =
    (with_world w d, Ok (Some (Some n, lower))) ->
  handle_jvck_prepare K pr input d =
    handle_jvck_prepare_adddevice_path K pr req
      (io_path (pq_nt_device_path req) (pq_volume_path req)) (Some n) lower (with_world w d).
Proof using Type.
  intros Hd Hreg [o Ho] Hf. unfold handle_jvck_prepare.
  rewrite (mbind_step _ _ d d req) by (unfold decode_req, lift; rewrite Hd; done).
  rewrite (mbind_step _ _ d d (dr_registry d)) by done. rewrite Hreg, Ho. cbv zeta.
  rewrite (mbind_step _ _ _ _ _ Hf). done.
Qed.

Lemma prepare_again (pr : option (VolumeProvider P W0)) input req a d :
  from_slice (A := JvckVolumePrepareReq) input = Ok req ->
  registry_get (pq_volume_path req) (dr_registry d) = Some a ->
  handle_jvck_prepare K pr input d = (d, Err (Unsupported "volume already prepared/attached")).
Proof using Type.
  intros Hd Hreg. unfold handle_jvck_prepare.
  rewrite (mbind_step _ _ d d req) by (unfold decode_req, lift; rewrite Hd; done).
  rewrite (mbind_step _ _ d d (dr_registry d)) by done. rewrite Hreg. done.
Qed.
End Detach.

(** A bound volume of the four-sector disk; a file system that refuses the lock. *)
Module DetachDemo.
Import BindDemo.
Definition busy : FileHandle MemVolume := {|
  fh_ioctl code out w := (w, (0, answer code out));
  fh_fsctl code w := (w, if code =? FSCTL_LOCK_VOLUME then STATUS_UNSUCCESSFUL else 0);
  fh_read _ buf w := (w, (STATUS_UNSUCCESSFUL, buf));
  fh_write _ buf w := (w, (STATUS_UNSUCCESSFUL, buf));
|}.
(** Any input prepares the volume. *)
Definition again : JvckVolumePrepareReq := mkPrepareReq volume_name "" 0 1 512 [] [] true.
Definition wire : Wire := wire_for (fun _ => Ok again) (fun _ => Err ""%string).
Definition request : VolumeRequest := mkVolumeRequest volume_name.
Definition bound : DeviceExtension := mkExt DEVICE_KIND_FILTER (Some 60%nat) (Some 0%nat) None.
Definition volume : AttachedVolume (unit * MemVolume) :=
  provisional_volume volume_name 512 0 3 Volume.Ioctl (Some 7%nat).
Definition state : Driver unit MemVolume :=
  mkDriver (mkRegistry [(volume_name, 0%nat)] (Some 1%nat)
      [mkPdoFilter (Some 50%nat) (Some 7%nat) (Some 60%nat) volume_name] None)
    {[0%nat := volume]} {[7%nat := bound]} [] (tt, blank).

Lemma detach_state_ok : registry_wf (dr_heap state) (dr_registry state).
Proof.
  constructor; cbn; [repeat constructor|]. intros k a H.
  apply list_elem_of_singleton in H as [= -> ->]. exists volume. done.
Qed.
End DetachDemo.

(** C22: what DETACH leaves. An encrypted OS volume is refused with nothing changed.
    When the file system grants the lock, or has no handle to give, the volume is out
    of the registry, its filter is back to pass-through with its thread gone and every
    request the thread still held completed, and no other device is touched. Finding:
    when the lock is refused the request fails, but the volume is already out of the
    registry while its filter stays bound to it: a further DETACH of the path answers
    that the volume is not attached, and a PREPARE of it, no longer refused as a second
    one, goes on with the filter as if it were unbound. *)
Theorem detach_unbinds_or_strands `{Wire} {P W0} (K : Kernel W0) input req a v n e
    (d : Driver P W0) :
  from_slice (A := VolumeRequest) input = Ok req -> registry_wf (dr_heap d) (dr_registry d) ->
  registry_get (vr_volume_path req) (dr_registry d) = Some a -> dr_heap d !! a = Some v ->
  av_filter_device v = Some n -> dr_devices d !! n = Some e -> de_volume e = Some a ->
  let path := vr_volume_path req in
  let run := handle_detach K input d in
  (is_os_volume v && has_encrypted_data v = true ->
     run = (d, Err (PermissionDenied "OS volume is encrypted; detach is not allowed"))) /\
  (is_os_volume v && has_encrypted_data v = false ->
     registry_get path (dr_registry run.1) = None /\
     (lock_refused K path d = false ->
        exists w, run = (detached path a v n e w d, map_err MsgpackEncode (to_vec mkEmpty))) /\
     (lock_refused K path d = true ->
        run.2 = Err (Io "FSCTL_LOCK_VOLUME failed (files open)") /\
        dr_devices run.1 !! n = Some e /\ de_volume e = Some a /\
        (handle_detach K input run.1).2 = Err (NotFound "volume is not attached") /\
        forall (pr : option (VolumeProvider P W0)) input' req' lower w,
          from_slice (A := JvckVolumePrepareReq) input' = Ok req' ->
          pq_volume_path req' = path -> is_Some (rg_driver_object (dr_registry d)) ->
          let nt_path := io_path (pq_nt_device_path req') path in
          find_filter K nt_path run.1 = (with_world w run.1, Ok (Some (Some n, lower))) ->
          handle_jvck_prepare K pr input' d =
            (d, Err (Unsupported "volume already prepared/attached")) /\
          handle_jvck_prepare K pr input' run.1 =
            handle_jvck_prepare_adddevice_path K pr req' nt_path (Some n) lower (with_world w run.1))).
Proof.
  intros Hd Hwf Hreg Hv Hn He Hb path run.
  pose proof (handle_detach_run K input req d Hd) as Hrun. rewrite Hreg in Hrun.
  assert (volume_at a d = (d, Ok v)) as Hva by (unfold volume_at; rewrite Hv; done).
  split; intros Hos.
  - unfold run. rewrite Hrun, mbind_run, (mbind_step _ _ _ _ _ Hva), Hos. done.
  - rewrite (mbind_step _ _ d d tt) in Hrun by (rewrite (mbind_step _ _ _ _ _ Hva), Hos; done).
    destruct (detach_volume_run K path a v n e d Hreg Hv Hn He) as [w E]. unfold path in E.
    rewrite mbind_run, E in Hrun. unfold run. rewrite Hrun.
    pose proof (registry_get_remove (dr_heap d) (dr_registry d) path path Hwf) as Hgone.
    rewrite decide_True in Hgone by done. fold path.
    destruct (lock_refused K path d).
    + split; [exact Hgone|]. split; [done|]. intros _. split; [done|]. split; [exact He|]. split; [done|].
      split; [apply (handle_detach_unknown K input req); [done|exact Hgone]|].
      intros pr input' req' lower w0 Hd' Hp Hdrv Hf.
      split; [apply (prepare_again K pr input' req' a); [done|]; rewrite Hp; exact Hreg|].
      rewrite <- Hp in Hf |- *. apply prepare_takes_filter; [done| |exact Hdrv|exact Hf].
      rewrite Hp. exact Hgone.
    + split; [exact Hgone|]. split; [|done]. intros _. exists w. done.
Qed.

Lemma detach_unbinds_or_strands_witness :
  let detach raw := handle_detach (H := DetachDemo.wire) (BindDemo.kernel_with BindDemo.handle raw) []
                      DetachDemo.state in
  (exists w, detach BindDemo.handle =
     (detached BindDemo.volume_name 0 DetachDemo.volume 7 DetachDemo.bound w DetachDemo.state,
      Ok [Byte.x80])) /\
  (detach DetachDemo.busy).2 = Err (Io "FSCTL_LOCK_VOLUME failed (files open)") /\
  dr_devices (detach DetachDemo.busy).1 !! 7%nat = Some DetachDemo.bound /\
  let K := BindDemo.kernel_with BindDemo.handle DetachDemo.busy in
  handle_jvck_prepare (H := DetachDemo.wire) K None [] (detach DetachDemo.busy).1 =
    handle_jvck_prepare_adddevice_path (H := DetachDemo.wire) K None DetachDemo.again
      BindDemo.volume_name (Some 7%nat) (Some 60%nat) (detach DetachDemo.busy).1.
Proof.
  pose proof (fun raw => detach_unbinds_or_strands (H := DetachDemo.wire)
    (BindDemo.kernel_with BindDemo.handle raw) [] DetachDemo.request 0 DetachDemo.volume 7
    DetachDemo.bound DetachDemo.state eq_refl DetachDemo.detach_state_ok eq_refl eq_refl eq_refl eq_refl
    eq_refl) as H.
  split.
  - destruct (H BindDemo.handle) as [_ H1]. destruct (H1 eq_refl) as (_ & H2 & _). exact (H2 eq_refl).
  - destruct (H DetachDemo.busy) as [_ H1]. destruct (H1 eq_refl) as (_ & _ & H2).
    destruct (H2 eq_refl) as (H3 & H4 & _ & _ & H5). split; [exact H3|]. split; [exact H4|].
    exact (proj2 (H5 None [] DetachDemo.again (Some 60%nat)
                    (dr_world (handle_detach (H := DetachDemo.wire)
                       (BindDemo.kernel_with BindDemo.handle DetachDemo.busy) [] DetachDemo.state).1)
                    eq_refl eq_refl (ex_intro _ 1%nat eq_refl) eq_refl)).
Defined.
