(* ===== verification/Prepare.v ===== *)
(** * PREPARE binds the volume it prepared

    The layout PREPARE computes is the store's, so what it writes are metadata
    blocks of the store; with a filter AddDevice attached and a sealed block in the
    request, the volume it binds serves the data that was on the disk. *)

From S2P Require Import Prelude Types Sectors Engine Nt Pipeline Volume Thread Xts Metadata Codec Store StoreLaws Filter Io Handover Registry Manager Provider Dispatch Attach AttachLaws Durable BindLaws BootMount.

(** ** The layout *)

Section Layout.
Context (ss vs : Z) (o : JvckMetadataOptions) (g : Geometry).
Hypothesis Hss : in_u 32 ss.
Hypothesis Hvs : in_u 64 vs.
Hypothesis Ho : options_wf o.
Hypothesis Hg : compute_geometry ss vs o = Ok g.

Lemma prepare_geometry_eq :
  prepare_geometry (use_header o) (use_footer o) (opt_metadata_size o) ss vs =
  (layout_rs o g, g_offset_sector g, g_data_sectors g).
Proof using Hss Hvs Ho Hg.
  destruct (geometry_facts ss vs o g Hss Hvs Ho Hg) as (H1 & [] & H3 & H4 & H5 & H6).
  unfold prepare_geometry. cbv zeta. rewrite H3, H4, H6. destruct Ho.
  rewrite !u64_mul_id by nia. rewrite u64_add_id by nia. repeat f_equal. lia.
Qed.

Lemma prepare_lbas_eq :
  prepare_replica_lbas (use_header o) (use_footer o) (layout_rs o g) vs = layout_lbas vs o g.
Proof using Type. reflexivity. Qed.

Lemma prepare_sector_eq block :
  512 <= ss -> (METADATA_BLOCK_SIZE <= length block)%nat ->
  prepare_sector block ss = padded ss (take METADATA_BLOCK_SIZE block).
Proof using Type.
  intros H Hb. unfold prepare_sector, padded. cbv zeta. rewrite Nat.min_l; [done|].
  unfold METADATA_BLOCK_SIZE. lia.
Qed.
End Layout.

(** The layout of replicas smaller than a sector: no room for them, and all of them on the
    last sector. The store takes no such layout. *)
Lemma short_geometry uf size ss vs :
  0 <= size < ss -> 0 <= vs -> prepare_geometry 0 uf size ss vs = (0, 0, vs).
Proof.
  intros Hs Hvs. unfold prepare_geometry. cbv zeta. rewrite Z.div_small by lia.
  unfold u64_mul. rewrite !Z.mul_0_r. change (wrap 64 0) with 0. change (u64_add 0 0) with 0.
  rewrite Z.max_r by lia. rewrite Z.sub_0_r. done.
Qed.

Lemma short_replicas vs uf :
  0 < vs < 2 ^ 64 -> 0 < uf ->
  Forall (fun l => l = vs - 1) (prepare_replica_lbas 0 uf 0 vs) /\ prepare_replica_lbas 0 uf 0 vs <> [].
Proof.
  intros Hvs Huf. assert (forall z, u64_mul z 0 = 0) as H0 by (intros; unfold u64_mul; rewrite Z.mul_0_r; done).
  split.
  - unfold prepare_replica_lbas. cbn [upto Z.to_nat seq fmap list_fmap app].
    apply Forall_forall. intros l Hl. apply list_elem_of_fmap in Hl as (j & -> & _). rewrite !H0.
    rewrite (u64_sub_id vs 0), Z.sub_0_r by lia.
    rewrite !(u64_add_id vs 0), !Z.add_0_r, !(u64_add_id vs 0), Z.add_0_r by lia.
    apply u64_sub_id. lia.
  - intros E. apply (f_equal length) in E. unfold prepare_replica_lbas in E.
    rewrite length_app, !length_fmap, !length_upto in E. cbn in E. lia.
Qed.

Lemma short_refused ss vs uh uf size :
  512 <= ss -> 0 <= size < ss ->
  compute_geometry ss vs (mkOptions uh uf size) =
    Err (ValidationFailed "metadata_size smaller than one sector").
Proof.
  intros Hss Hs. unfold compute_geometry, replica_sectors. cbv zeta. cbn [opt_metadata_size].
  change (Z.of_nat METADATA_BLOCK_SIZE) with 512. rewrite (proj2 (Z.ltb_ge _ _)) by lia.
  rewrite Z.div_small by lia. done.
Qed.

(** ** The metadata *)

Section Metadata.
Context `{C : CryptoApi} {P W0 : Type} (io : SectorIo W0) (inv : W0 -> Prop).
Context (view : W0 -> Z -> bytes).
Context {IL : SectorIoLaws io inv view} {RL : SectorIoReliable io inv}.
Implicit Types (d : Driver P W0) (s : JvckMetadataStore W0).
Abbreviation ss := (sector_size io).

(** A request that prepares the layout of [s] and carries its metadata block. *)
Record block_for (req : JvckVolumePrepareReq) s : Prop := {
  bf_options : mkOptions (pq_use_header req) (pq_use_footer req) (pq_metadata_size req) = js_options s;
  bf_long : (METADATA_BLOCK_SIZE <= length (pq_metadata_block req))%nat;
  bf_sealed : sealed_store inv s (take METADATA_BLOCK_SIZE (pq_metadata_block req));
}.

(** One that brings the key, too. *)
Record request_for (req : JvckVolumePrepareReq) s : Prop := {
  rf_options : mkOptions (pq_use_header req) (pq_use_footer req) (pq_metadata_size req) = js_options s;
  rf_vmk : pq_vmk req = js_vmk s;
  rf_key : js_vmk s <> [];
  rf_long : (METADATA_BLOCK_SIZE <= length (pq_metadata_block req))%nat;
  rf_sealed : sealed_store inv s (take METADATA_BLOCK_SIZE (pq_metadata_block req));
}.

Lemma request_block req s : request_for req s -> block_for req s.
Proof using Type. intros []. constructor; done. Qed.

(** A store for this disk, not on it yet, with a replica in the footer. *)
Record store_for s : Prop := {
  sf_wf : store_wf io inv view s;
  sf_matches : header_matches s;
  sf_codec : js_codec s = JvckCbcCodec;
  sf_state : exists st, js_state s = as_u16 st;
  sf_footer : 0 < use_footer (js_options s);
  sf_boundary : 0 <= js_offset s <= g_data_sectors (js_geometry s);
}.

Lemma miter_kworld {B} (f : B -> M VckError W0 unit) xs d :
  miter (fun x => kworld (f x)) xs d = kworld (miter f xs) d.
Proof using Type.
  revert d. induction xs as [|x xs IH]; intros d; cbn [miter].
  - destruct d as [? ? ? ? [? ?]]. done.
  - rewrite mbind_run, kworld_run, (kworld_run (f x ≫= _)), mbind_run.
    destruct (f x (dr_world d).2) as [w1 [[]| |]]; [|done..].
    rewrite IH, kworld_run. cbn. destruct (miter f xs w1). done.
Qed.

Lemma miter_ext {E S B} (f g : B -> M E S unit) xs w :
  (forall x w, f x w = g x w) -> miter f xs w = miter g xs w.
Proof using Type.
  intros Hfg. revert w. induction xs as [|x xs IH]; intros w; cbn [miter]; [done|].
  rewrite !mbind_run, Hfg. destruct (g x w) as [w1 [[]| |]]; [apply IH|done..].
Qed.

(** What PREPARE writes, and where. *)
Definition metadata_loop (req : JvckVolumePrepareReq) s : M VckError (Driver P W0) unit :=
  miter (fun lba => kworld (write_sectors io lba (prepare_sector (pq_metadata_block req) ss)))
    (prepare_replica_lbas (pq_use_header req) (pq_use_footer req)
       (layout_rs (js_options s) (js_geometry s)) (total_sectors io)).

(** The loop of PREPARE is the store's. *)
Lemma metadata_loop_eq req s d :
  store_for s -> block_for req s ->
  metadata_loop req s d =
  kworld (write_blocks io ss (js_lbas s) (take METADATA_BLOCK_SIZE (pq_metadata_block req))) d.
Proof using IL.
  intros [S _ _ _ _ _] [Ho Hl _]. destruct (store_ss io inv view s S) as [Hss _].
  unfold metadata_loop. rewrite prepare_sector_eq by done. rewrite miter_kworld, !kworld_run.
  unfold write_blocks, js_lbas. rewrite (sw_volume _ _ _ _ S).
  change (pq_use_header req) with (use_header (mkOptions (pq_use_header req) (pq_use_footer req)
    (pq_metadata_size req))).
  change (pq_use_footer req) with (use_footer (mkOptions (pq_use_header req) (pq_use_footer req)
    (pq_metadata_size req))) at 2.
  rewrite Ho, prepare_lbas_eq. erewrite miter_ext; [reflexivity|]. intros l w.
  unfold write_block. cbv zeta. rewrite length_replicate, (proj2 (Nat.ltb_ge _ _)); [done|].
  unfold METADATA_BLOCK_SIZE. lia.
Qed.

(** It puts the metadata of [s] on the disk and leaves the data alone. *)
Lemma metadata_loop_run req s d :
  store_for s -> block_for req s -> inv (dr_world d).2 ->
  exists w,
    metadata_loop req s d = (with_world ((dr_world d).1, w) d, Ok tt) /\
    inv w /\ bindable io inv view s w /\
    forall i, g_offset_sector (js_geometry s) <= i <
      g_offset_sector (js_geometry s) + g_data_sectors (js_geometry s) ->
      view w i = view (dr_world d).2 i.
Proof using IL RL.
  intros Hs Hr Hi. pose proof Hs as [S Hm Hc Hst Hh Hb]. pose proof Hr as [_ Hl Hsl].
  destruct (store_ss io inv view s S) as [Hss _].
  set (block := take METADATA_BLOCK_SIZE (pq_metadata_block req)) in *.
  assert (length block = METADATA_BLOCK_SIZE) as Hlb by (unfold block; rewrite length_take; lia).
  rewrite (metadata_loop_eq req s d Hs Hr), kworld_run. fold block.
  pose proof (js_lbas_range io inv view s S) as Hrange.
  pose proof (write_blocks_ok io inv view Hss (js_lbas s) block (dr_world d).2 Hi Hrange Hlb) as Hok.
  destruct (write_blocks io ss (js_lbas s) block (dr_world d).2) as [w r] eqn:E.
  destruct (write_blocks_run io inv view Hss (js_lbas s) block _ w r Hi Hrange
              (js_lbas_nodup io inv view s S) Hlb E) as (Hi' & _ & Hv & n & _ & Hn & Hd & _).
  destruct r as [[]| |]; [|done..]. exists w.
  split; [done|]. split; [done|]. split.
  - constructor; [|done]. constructor; try done; [|by left].
    exists block. split_and!; [done|done|]. intros l [k Hk]%list_elem_of_lookup_1.
    apply (Hd k l Hk). rewrite Hn by done. apply lookup_lt_Some in Hk. done.
  - intros i Hx. destruct (js_lbas_data io inv view s S i Hx) as [Hr1 Hr2]. apply Hv; done.
Qed.
(** Writes of one sector's content to one sector, as often as it may be. *)
Lemma write_same l buf lbas w :
  inv w -> 0 <= l < total_sectors io -> length buf = Z.to_nat ss ->
  Forall (fun x => x = l) lbas -> lbas <> [] ->
  exists w', miter (fun lba => write_sectors io lba buf) lbas w = (w', Ok tt) /\ inv w' /\
    view w' l = buf /\ forall i, 0 <= i < total_sectors io -> i <> l -> view w' i = view w i.
Proof using IL RL.
  intros Hi Hl Hb. pose proof (io_ss (io:=io)) as Hss.
  revert w Hi. induction lbas as [|x lbas IH]; intros w Hi Hall Hne; [done|].
  apply Forall_cons in Hall as [-> Hall].
  pose proof (io_write_ok (io:=io) w l [buf] Hi ltac:(lia) ltac:(cbn; lia) ltac:(cbn; lia)
                ltac:(repeat constructor; done)) as Hok.
  cbn [concat] in Hok. rewrite app_nil_r in Hok.
  cbn [miter]. rewrite mbind_run. destruct (write_sectors io l buf w) as [w1 r] eqn:E.
  destruct (io_write (io:=io) w l [buf] w1 r Hi ltac:(lia) ltac:(cbn; lia) ltac:(repeat constructor; done))
    as [Hi1 Hv]; [cbn [concat]; rewrite app_nil_r; exact E|].
  destruct r as [[]| |]; [|done..].
  assert (view w1 l = buf) as Hvl.
  { rewrite Hv by done. rewrite write_run_in by (cbn; lia). rewrite Z.sub_diag. done. }
  assert (forall i, 0 <= i < total_sectors io -> i <> l -> view w1 i = view w i) as Hvo.
  { intros i Hx Hn. rewrite Hv by done. apply write_run_out. cbn. lia. }
  destruct (decide (lbas = [])) as [->|Hne'].
  - exists w1. done.
  - destruct (IH w1 Hi1 Hall Hne') as (w2 & E2 & Hi2 & Hv2 & Ho2). exists w2. rewrite E2.
    split_and!; [done..|]. intros i Hx Hn. rewrite Ho2, Hvo; done.
Qed.
End Metadata.

(** What PREPARE promises for the request of [s]. *)
Definition prepared `{C : CryptoApi} `{A : AesApi} `{Wire} {W0} (K : Kernel W0) (io : SectorIo W0) inv view req s n
    (d : Driver (list (JvckMetadataStore W0)) W0)
    (run : Driver (list (JvckMetadataStore W0)) W0 * outcome VckError bytes) : Prop :=
  exists d' a v resp,
    run = (d', map_err MsgpackEncode (to_vec resp)) /\
    pr_fully_attached resp = true /\ pr_data_sectors resp = g_data_sectors (js_geometry s) /\
    binds d' n a (pq_volume_path req) v /\ is_os_volume v = pq_is_os_volume req /\
    serves_metadata io inv view d' s v (view (dr_world d).2) /\
    ((forall w, k_create_thread K w = true) ->
     (forall e, dr_devices d !! n = Some e -> de_vthread e = None) -> runs d' n a).

Section Prepare.
Context `{C : CryptoApi} `{A : AesApi} {HA : AesLaws A} `{Wire} {W0 : Type}.
Context (K : Kernel W0) (RNG : option (RandomSource W0)).
Context (lower : nat) (ss total : Z) (inv : W0 -> Prop) (view : W0 -> Z -> bytes).
Context {WD : WorkingDisk K lower ss total inv view}.
Context {FL : FillLaws RNG inv view total} {FR : FillReliable RNG inv}.
Abbreviation P := (list (JvckMetadataStore W0)).
Abbreviation disk := (LowerDevice_io (below_filter K lower ss total)).
Abbreviation sweep s := (LowerDevice_io (below_filter K lower ss (g_data_sectors (js_geometry s)))).
Abbreviation store_for := (store_for disk inv view).
Abbreviation request_for := (request_for inv).
Implicit Types (d : Driver P W0) (s : JvckMetadataStore W0).

Lemma write_metadata_run req s d :
  store_for s -> request_for req s -> inv (dr_world d).2 ->
  exists w,
    write_metadata_lower K req (Some lower) ss total (layout_rs (js_options s) (js_geometry s)) d =
      (with_world ((dr_world d).1, w) d, Ok tt) /\
    inv w /\ bindable disk inv view s w /\
    forall i, g_offset_sector (js_geometry s) <= i <
      g_offset_sector (js_geometry s) + g_data_sectors (js_geometry s) ->
      view w i = view (dr_world d).2 i.
Proof using WD.
  intros Hs Hr Hi. destruct (metadata_loop_run disk inv view req s d Hs (request_block _ _ _ Hr) Hi) as (w & E & H').
  exists w. split; [|exact H']. pose proof (rf_long _ _ _ Hr) as Hl.
  unfold write_metadata_lower. rewrite bool_decide_false
    by (intros E0; rewrite E0 in Hl; exact (Nat.nle_succ_0 _ Hl)).
  rewrite (proj2 (Nat.ltb_ge _ _)) by done. rewrite (mbind_step _ _ d d disk) by done. exact E.
Qed.

(** ** The rest of the request *)

(** Opening the volume and querying its handle leave the disk alone. *)
Record quiet (nt_path : string) : Prop := {
  qt_geometry : answers inv view total (kv_open_query (k_create_file K) (volume_id nt_path))
    (fun io => kv_sector_size io = ss /\ kv_total_sectors io = total);
  qt_open : answers inv view total (fun w => let '(w, h) := k_open_raw K nt_path w in (w, Ok h))
    (fun h => forall h' code n, h = Some h' ->
       answers inv view total (fun w => let '(w, r) := fh_ioctl h' code (replicate n Byte.x00) w in (w, Ok r))
         (fun _ => True));
}.

Lemma storage_paths_run nt_path d :
  quiet nt_path -> inv (dr_world d).2 ->
  exists w paths, storage_paths K nt_path ss d = (with_world ((dr_world d).1, w) d, Ok paths) /\
    inv w /\ forall i, 0 <= i < total -> view w i = view (dr_world d).2 i.
Proof using Type.
  intros [_ Ho] Hi. destruct (kcall_answers _ _ _ _ _ d Ho Hi) as (w1 & h & E1 & Hh & Hi1 & Hv1).
  unfold storage_paths, open_volume_handle_raw. rewrite (mbind_step _ _ _ _ _ E1).
  destruct h as [h|].
  - set (d1 := with_world ((dr_world d).1, w1) d).
    destruct (kcall_answers _ _ _ _ _ d1 (Hh h IOCTL_STORAGE_GET_DEVICE_NUMBER 12%nat eq_refl) Hi1)
      as (w2 & [st2 sdn] & E2 & _ & Hi2 & Hv2).
    set (d2 := with_world ((dr_world d1).1, w2) d1).
    destruct (kcall_answers _ _ _ _ _ d2 (Hh h IOCTL_DISK_GET_PARTITION_INFO_EX 64%nat eq_refl) Hi2)
      as (w3 & [st3 info] & E3 & _ & Hi3 & Hv3).
    do 2 eexists. split; [|split; [exact Hi3|]].
    + rewrite mbind_run. unfold raw_ioctl. rewrite (mbind_step _ _ _ _ _ E2).
      cbv beta iota. rewrite (mbind_step _ _ _ _ _ E3). reflexivity.
    + intros i Hr. rewrite Hv3 by done. cbn. rewrite Hv2 by done. apply Hv1. done.
  - do 2 eexists. split; [reflexivity|]. done.
Qed.

(** The complete volume of [s]. *)
Lemma full_attach_run req s n e nt_paths d :
  bindable disk inv view s (dr_world d).2 -> request_for req s ->
  registry_wf (dr_heap d) (dr_registry d) -> dr_devices d !! n = Some e -> inv (dr_world d).2 ->
  exists d' a v resp,
    full_attach_lower K (Some (vck_provider RNG)) req (Some n) (Some lower) ss total nt_paths d =
      (d', map_err MsgpackEncode (to_vec resp)) /\
    pr_fully_attached resp = true /\ pr_data_sectors resp = g_data_sectors (js_geometry s) /\
    binds d' n a (pq_volume_path req) v /\ is_os_volume v = pq_is_os_volume req /\
    serves_metadata disk inv view d' s v (view (dr_world d).2) /\
    ((forall w, k_create_thread K w = true) -> de_vthread e = None -> runs d' n a).
Proof using HA WD FL FR.
  intros Hf Hr Hwf He Hi.
  destruct (on_attach_run RNG disk inv view s d None Hi (bl_metadata _ _ _ _ _ Hf)) as (w1 & E1 & Hi1 & Hv1).
  set (d1 := with_world ((dr_world d).1 ++ [s], w1) d) in E1. set (k := length (dr_world d).1) in E1.
  pose proof (bindable_ext disk inv view s _ w1 Hv1 Hf) as Hf1.
  destruct (bindable_region disk inv view s w1 Hf1) as (H0 & Hd & Hend). cbn in Hend.
  pose proof (proj1 (below_size K lower ss total inv view)) as Htot.
  destruct (complete_run K RNG disk inv view (proj2 (below_size K lower ss total inv view)) (sweep s) s
              (pq_volume_path req) k (attach_source req) n e d1
              (below_laws K lower ss total inv view _ total (conj Htot (Z.le_refl _)))
              (below_reliable K lower ss total inv view _ total (conj Htot (Z.le_refl _)))
              eq_refl Hf1 Hwf He Hi1 (list_lookup_middle _ _ _ _ eq_refl))
    as (d2 & a & E2 & Hb & Hs & Hrun).
  eexists d2, a, _, (mkPrepareResp (g_offset_sector (js_geometry s)) (g_data_sectors (js_geometry s)) ss
                 nt_paths.1.1 nt_paths.1.2 nt_paths.2 true).
  split; [|split_and!; [done|done|exact Hb| | |exact Hrun]].
  - unfold full_attach_lower. cbv zeta. rewrite (mbind_step _ _ d d disk) by done. rewrite (rf_vmk _ _ _ Hr).
    rewrite (mbind_step _ _ d d1 (attached_config RNG s k))
      by (unfold or_cleanup; rewrite mbind_run, (attempt_ok _ _ _ _ E1); done).
    cbn [cfg_geometry attached_config]. cbv beta iota zeta. cbn [eo_total_sectors].
    rewrite (mbind_step _ _ d1 d1 (sweep s)) by done.
    rewrite (mbind_step _ _ d1 d2 tt) by exact E2. done.
  - unfold is_os_volume, volume_for, attach_source. cbn. destruct (pq_is_os_volume req); done.
  - eapply serves_metadata_ext; [|exact Hs]. intros i Hx. cbn in *. rewrite Hv1 by lia. done.
Qed.

(** Everything before the test for a key: the volume of the request's layout is filed and
    bound, and the disk is what the metadata's write made of it. *)
Lemma provision_run provider req n e nt_path rs off data (R : W0 -> Prop) d :
  quiet nt_path -> dr_devices d !! n = Some e -> inv (dr_world d).2 ->
  prepare_geometry (pq_use_header req) (pq_use_footer req) (pq_metadata_size req) ss total = (rs, off, data) ->
  (forall w1, inv w1 -> (forall i, 0 <= i < total -> view w1 i = view (dr_world d).2 i) ->
     exists w2, write_metadata_lower K req (Some lower) ss total rs (with_world ((dr_world d).1, w1) d) =
         (with_world ((dr_world d).1, w2) d, Ok tt) /\ inv w2 /\ R w2) ->
  exists w2 w5 e5 paths,
    let a := fresh (dom (dr_heap d)) in
    let v0 := provisional_volume (W := P * W0) (pq_volume_path req) ss off data
                (attach_source req) (Some n) in
    handle_jvck_prepare_adddevice_path K provider req nt_path (Some n) (Some lower) d =
      (if negb (bool_decide (pq_vmk req = []))
       then full_attach_lower K provider req (Some n) (Some lower) ss total paths
       else encode_resp (mkPrepareResp off data ss paths.1.1 paths.1.2 paths.2 false))
        (mkDriver (registry_insert a v0 (dr_registry d)) (<[a := v0]> (dr_heap d))
           (<[n := e5]> (dr_devices d)) (dr_completed d) ((dr_world d).1, w5)) /\
    R w2 /\ inv w5 /\ (forall i, 0 <= i < total -> view w5 i = view w2 i) /\
    de_volume e5 = Some a /\ (forall vt, de_vthread e5 = Some vt -> vt_current vt = a) /\
    (de_vthread e = None -> de_vthread e5 = None).
Proof using Type.
  intros Hq He Hi Hgeom Hwrite.
  destruct (qt_geometry _ Hq _ Hi) as (w1 & gio & E1 & [Hgs Hgt] & Hi1 & Hv1).
  set (d1 := with_world ((dr_world d).1, w1) d).
  destruct (Hwrite w1 Hi1 Hv1) as (w2 & E2 & Hi2 & HR). set (d2 := with_world ((dr_world d).1, w2) d) in E2.
  set (v0 := provisional_volume (W := P * W0) (pq_volume_path req) ss off data (attach_source req) (Some n)).
  set (a := fresh (dom (dr_heap d2))).
  set (d3 := with_registry (registry_insert a v0 (dr_registry d2))
               (with_heap (<[a := v0]> (dr_heap d2)) d2)).
  assert (dr_heap d3 !! a = Some v0) as Ha by apply lookup_insert_eq.
  set (d4 := with_devices (<[n := bound_ext K d3 e a v0]> (dr_devices d3)) d3).
  destruct (storage_paths_run nt_path d4 Hq Hi2) as (w5 & paths & E5 & Hi5 & Hv5).
  exists w2, w5, (bound_ext K d3 e a v0), paths. split_and!; [|done|done|done|done| |].
  - unfold handle_jvck_prepare_adddevice_path. rewrite (mbind_step _ _ d d1 gio) by exact (kworld_ok _ _ _ _ E1).
    cbv zeta. rewrite Hgs, Hgt, Hgeom. cbv beta iota. rewrite (mbind_step _ _ _ _ _ E2).
    rewrite (mbind_step _ _ d2 d3 a) by done.
    rewrite (mbind_step _ _ d3 d4 tt) by exact (filter_bind_ok K n e a v0 d3 He Ha).
    rewrite (mbind_step _ _ _ _ _ E5). done.
  - cbn. intros vt Hvt. apply (bind_current _ _ _ _ _ Hvt).
  - cbn. intros ->. done.
Qed.

Lemma prepare_adddevice_run req s n e nt_path d :
  store_for s -> request_for req s -> quiet nt_path -> driver_wf d ->
  dr_devices d !! n = Some e -> inv (dr_world d).2 ->
  prepared K disk inv view req s n d
    (handle_jvck_prepare_adddevice_path K (Some (vck_provider RNG)) req nt_path (Some n)
       (Some lower) d).
Proof using HA WD FL FR.
  intros Hs Hr Hq [Hwf _] He Hi. pose proof Hs as [S _ _ _ _ _].
  pose proof S as [_ _ Ho _ Hg _ _ _].
  pose proof (prepare_geometry_eq ss total (js_options s) (js_geometry s) (ss_32 disk inv view)
                (total_64 disk inv view) Ho Hg) as Hgeom.
  rewrite <- (rf_options _ _ _ Hr) in Hgeom at 1 2 3. cbn [use_header use_footer opt_metadata_size] in Hgeom.
  destruct (provision_run (Some (vck_provider RNG)) req n e nt_path _ _ _
              (fun w => bindable disk inv view s w /\
                 forall i, g_offset_sector (js_geometry s) <= i <
                   g_offset_sector (js_geometry s) + g_data_sectors (js_geometry s) ->
                   view w i = view (dr_world d).2 i) d Hq He Hi Hgeom)
    as (w2 & w5 & e5 & paths & E & [Hf2 Hv2] & Hi5 & Hv5 & Hb5 & Hvt5 & Hn5).
  { intros w1 Hi1 Hv1. set (d1 := with_world ((dr_world d).1, w1) d).
    destruct (write_metadata_run req s d1 Hs Hr Hi1) as (w2 & E2 & Hi2 & Hf2 & Hv2).
    exists w2. split; [exact E2|]. split; [done|]. split; [done|]. intros i Hx.
    destruct (bindable_region disk inv view s w2 Hf2) as (? & ? & ?). rewrite Hv2 by done.
    apply Hv1. cbn in *. lia. }
  set (a := fresh (dom (dr_heap d))) in *. set (v0 := provisional_volume _ _ _ _ _ _) in E.
  set (d5 := mkDriver _ _ _ _ _) in E.
  destruct (bindable_region disk inv view s w2 Hf2) as (H0 & Hdata & Hend).
  pose proof (bindable_ext disk inv view s w2 w5 Hv5 Hf2) as Hf5.
  assert (registry_wf (dr_heap d5) (dr_registry d5)) as Hwf5.
  { apply registry_insert_wf; [|apply lookup_insert_eq].
    eapply registry_heap_wf; [apply heap_le_fresh|exact Hwf]. }
  destruct (full_attach_run req s n e5 paths d5 Hf5 Hr Hwf5 (lookup_insert_eq _ _ _) Hi5)
    as (d6 & a6 & v & resp & E6 & H1 & H2 & H3 & H4 & Hsv & Hrun).
  exists d6, a6, v, resp. split; [|split_and!; [done..| |]].
  - rewrite E, (rf_vmk _ _ _ Hr), bool_decide_false by apply Hr. exact E6.
  - eapply serves_metadata_ext; [|exact Hsv]. intros i Hx. cbn in *.
    rewrite Hv5, Hv2 by lia. done.
  - intros Hcreate Hvt. apply Hrun; [exact Hcreate|]. apply Hn5, (Hvt e He).
Qed.

(** The whole request, once the filter AddDevice attached has been found. *)
Lemma prepare_run input req s n e w nt_path d :
  decode_req (P := P) (W0 := W0) (T := JvckVolumePrepareReq) input d = (d, Ok req) ->
  registry_get (pq_volume_path req) (dr_registry d) = None ->
  is_Some (rg_driver_object (dr_registry d)) ->
  nt_path = io_path (pq_nt_device_path req) (pq_volume_path req) ->
  find_filter K nt_path d = (with_world ((dr_world d).1, w) d, Ok (Some (Some n, Some lower))) ->
  inv w -> (forall i, 0 <= i < total -> view w i = view (dr_world d).2 i) ->
  store_for s -> request_for req s -> quiet nt_path -> driver_wf d -> dr_devices d !! n = Some e ->
  prepared K disk inv view req s n d (handle_jvck_prepare K (Some (vck_provider RNG)) input d).
Proof using HA WD FL FR.
  intros Hd Hreg [o Hdrv] -> Hfind Hi Hv Hs Hr Hq Hwf He.
  set (d1 := with_world ((dr_world d).1, w) d) in Hfind.
  destruct (prepare_adddevice_run req s n e _ d1 Hs Hr Hq (driver_wf_world d _ Hwf) He Hi)
    as (d' & a & v & resp & E & H1 & H2 & H3 & H4 & Hsv & Hrun).
  exists d', a, v, resp. split; [|split_and!; [done..| |exact Hrun]].
  - unfold handle_jvck_prepare. rewrite (mbind_step _ _ _ _ _ Hd).
    rewrite (mbind_step _ _ d d (dr_registry d)) by done. rewrite Hreg, Hdrv. cbv zeta.
    rewrite (mbind_step _ _ _ _ _ Hfind). exact E.
  - eapply serves_metadata_ext; [|exact Hsv]. intros i Hx. symmetry. apply Hv.
    destruct (store_region disk inv view s (sf_wf _ _ _ _ Hs)) as (? & ? & ?). cbn in *. lia.
Qed.
(** A footer replica smaller than a sector. *)
Lemma write_short_run req d :
  512 <= ss -> 0 < total -> 0 < pq_use_footer req ->
  (METADATA_BLOCK_SIZE <= length (pq_metadata_block req))%nat -> pq_use_header req = 0 ->
  inv (dr_world d).2 ->
  exists w, write_metadata_lower K req (Some lower) ss total 0 d =
      (with_world ((dr_world d).1, w) d, Ok tt) /\ inv w /\
    view w (total - 1) = prepare_sector (pq_metadata_block req) ss /\
    forall i, 0 <= i < total - 1 -> view w i = view (dr_world d).2 i.
Proof using WD.
  intros Hss Ht Huf Hl Huh Hi. pose proof (io_total (io:=disk) (view:=view)) as Hu. cbn in Hu.
  destruct (short_replicas total (pq_use_footer req) ltac:(lia) Huf) as [Hall Hne].
  destruct (write_same disk inv view (total - 1) (prepare_sector (pq_metadata_block req) ss)
              (prepare_replica_lbas 0 (pq_use_footer req) 0 total) (dr_world d).2 Hi)
    as (w & E & Hi' & Hv & Ho); [cbn; lia| |done|done|].
  { rewrite prepare_sector_eq by done. apply length_padded; [exact Hss|].
    rewrite length_take. lia. }
  exists w. split; [|split; [done|split; [done|intros i Hx; apply Ho; cbn; lia]]].
  unfold write_metadata_lower. rewrite bool_decide_false
    by (intros E0; rewrite E0 in Hl; exact (Nat.nle_succ_0 _ Hl)).
  rewrite (proj2 (Nat.ltb_ge _ _)) by done. rewrite (mbind_step _ _ d d disk) by done. cbv zeta.
  rewrite miter_kworld, kworld_run, Huh. rewrite E. done.
Qed.
End Prepare.

(** ** A request on the four-sector disk *)

Module PrepareDemo.
Import ToyCrypto.
Definition volume_name : string := "\Device\V3".
Definition request_of (uh : Z) (block : bytes) : JvckVolumePrepareReq :=
  mkPrepareReq volume_name "" uh 1 512 vmk block true.
Definition request : bytes -> JvckVolumePrepareReq := request_of 1.

(** One that leaves the replica size out and brings no key. *)
Definition short_request (block : bytes) : JvckVolumePrepareReq :=
  mkPrepareReq volume_name "" 0 1 0 [] block true.

(** A request is its metadata block. *)
Definition wire_of (uh : Z) : Wire :=
  BindDemo.wire_for (fun b => Ok (request_of uh b)) (fun _ => Err ""%string).
Definition wire : Wire := wire_of 1.
Definition short_wire : Wire := BindDemo.wire_for (fun b => Ok (short_request b)) (fun _ => Err ""%string).

Lemma store_new : store_wf BindDemo.disk BindDemo.inv BindDemo.view (BindDemo.store_at 0).
Proof.
  exact (BindDemo.store_of_wf 1 BindDemo.disk BindDemo.inv BindDemo.view
    (DL := disk_laws _ _ _ _ _ _ (WD := BindDemo.works)) (or_intror eq_refl) eq_refl eq_refl 0).
Qed.

(** Every store has a block. *)
Lemma sealed_block {W} (io : SectorIo W) inv view (s : JvckMetadataStore W) :
  store_wf io inv view s -> in_u 64 (js_offset s) ->
  exists block, length block = METADATA_BLOCK_SIZE /\ sealed_store inv s block.
Proof.
  intros S Ho.
  destruct (cd_seal (CodecLaws:=sw_codec _ _ _ _ S) (js_header s) (js_secrets s) (js_offset s)
              (from_u16 (js_state s)) (replicate SALT_SIZE Byte.x5a) (js_vmk s)
              (replicate METADATA_BLOCK_SIZE Byte.x00) (sw_header _ _ _ _ S) (sw_secrets _ _ _ _ S)
              (length_replicate _ _) (length_replicate _ _)) as (block & _ & Hl & Hs).
  exists block. split; [done|]. apply Hs. done.
Qed.

(** The block of a new volume, all of it still in the clear. *)
Lemma sealed :
  exists block, length block = METADATA_BLOCK_SIZE /\
    sealed_store BindDemo.inv (BindDemo.store_at 0) block.
Proof. apply (sealed_block _ _ _ _ store_new). unfold in_u. cbn. lia. Qed.

Lemma store_fits : store_for BindDemo.disk BindDemo.inv BindDemo.view (BindDemo.store_at 0).
Proof. constructor; [apply store_new|done|done|by exists Encrypt|done|cbn; lia]. Qed.

Lemma asks block :
  length block = METADATA_BLOCK_SIZE -> sealed_store BindDemo.inv (BindDemo.store_at 0) block ->
  request_for BindDemo.inv (request block) (BindDemo.store_at 0).
Proof.
  intros Hl Hs. constructor; cbn [request request_of pq_metadata_block]; [done|done|done|lia|].
  rewrite take_ge by lia. exact Hs.
Qed.

Lemma opens : quiet BindDemo.kernel 512 4 BindDemo.inv BindDemo.view volume_name.
Proof.
  split.
  - intros w Hi. exists w, (mkKernelVolumeIo BindDemo.handle 512 4).
    split; [vm_compute; reflexivity|]. done.
  - intros w Hi. eexists w, _. split; [reflexivity|]. split; [|done].
    intros h code n [= <-] w' Hi'. eexists w', _. split; [reflexivity|]. done.
Qed.

Lemma found w :
  find_filter BindDemo.kernel volume_name (BindDemo.driver w) =
    (with_world ((dr_world (BindDemo.driver w)).1, w) (BindDemo.driver w),
     Ok (Some (Some 7%nat, Some 60%nat))).
Proof. reflexivity. Qed.
End PrepareDemo.

(** C24: PREPARE writes metadata only. For every layout the store accepts, the
    geometry PREPARE computes is the store's; the sectors it writes the metadata
    block to are the store's replicas, all inside the volume and outside the data
    region, no two the same; and the buffer it writes is exactly one sector. *)
Theorem prepare_writes_metadata_only ss vs o g block :
  in_u 32 ss -> in_u 64 vs -> options_wf o -> compute_geometry ss vs o = Ok g ->
  (METADATA_BLOCK_SIZE <= length block)%nat ->
  let '(rs, off, data) :=
    prepare_geometry (use_header o) (use_footer o) (opt_metadata_size o) ss vs in
  let lbas := prepare_replica_lbas (use_header o) (use_footer o) rs vs in
  off = g_offset_sector g /\ data = g_data_sectors g /\ lbas = layout_lbas vs o g /\
  Forall (fun l => 0 <= l < vs /\ ~ (off <= l < off + data)) lbas /\ NoDup lbas /\
  Z.of_nat (length lbas) = use_header o + use_footer o /\
  Z.of_nat (length (prepare_sector block ss)) = ss.
Proof.
  intros Hss Hvs Ho Hg Hb. rewrite (prepare_geometry_eq ss vs o g Hss Hvs Ho Hg).
  destruct (geometry_facts ss vs o g Hss Hvs Ho Hg) as (H1 & _).
  rewrite (prepare_lbas_eq vs o g), (prepare_sector_eq ss) by done. cbv zeta.
  split_and!; [done..| | | |].
  - apply Forall_forall. intros l Hl.
    pose proof (layout_lba_bounds ss vs o g Hss Hvs Ho Hg l Hl). lia.
  - apply (layout_nodup ss vs o g Hss Hvs Ho Hg).
  - rewrite (length_layout_lbas ss vs o g Hss Hvs Ho Hg). destruct Ho. lia.
  - rewrite length_padded by (rewrite ?length_take; lia). lia.
Qed.

Lemma prepare_writes_metadata_only_witness :
  let '(rs, off, data) := prepare_geometry 1 1 131072 512 600 in
  let lbas := prepare_replica_lbas 1 1 rs 600 in
  off = 256 /\ data = 88 /\ lbas = [0; 599] /\
  Forall (fun l => 0 <= l < 600 /\ ~ (off <= l < off + data)) lbas /\ NoDup lbas /\
  Z.of_nat (length lbas) = 2 /\
  Z.of_nat (length (prepare_sector (replicate 512 Byte.x01) 512)) = 512.
Proof.
  exact (prepare_writes_metadata_only 512 600 StoreDemo.options StoreDemo.geometry
    (replicate 512 Byte.x01) ltac:(unfold in_u; lia) ltac:(unfold in_u; lia) StoreDemo.options_ok
    eq_refl (le_n 512)).
Defined.

(** C40: Finding: PREPARE does not validate its layout. The store refuses a replica
    smaller than a sector - a request that leaves [metadata_size] out has 0 - with
    "metadata_size smaller than one sector". The handler, given such a request for
    footer replicas and no key, succeeds: it answers that all of the volume is data and
    files and binds a volume with exactly that geometry, and has overwritten the
    volume's last sector, the last data sector of that answer, with the metadata. *)
Theorem prepare_layout_unchecked `{C : CryptoApi} `{A : AesApi} `{Wire} {W0} (K : Kernel W0) provider
    lower ss total inv view input req n e w nt_path (d : Driver (list (JvckMetadataStore W0)) W0) :
  WorkingDisk K lower ss total inv view -> 512 <= ss -> 0 < total ->
  decode_req (T := JvckVolumePrepareReq) input d = (d, Ok req) ->
  registry_get (pq_volume_path req) (dr_registry d) = None ->
  is_Some (rg_driver_object (dr_registry d)) ->
  nt_path = io_path (pq_nt_device_path req) (pq_volume_path req) ->
  find_filter K nt_path d = (with_world ((dr_world d).1, w) d, Ok (Some (Some n, Some lower))) ->
  inv w -> quiet K ss total inv view nt_path -> driver_wf d -> dr_devices d !! n = Some e ->
  pq_use_header req = 0 -> 0 < pq_use_footer req -> 0 <= pq_metadata_size req < ss ->
  (METADATA_BLOCK_SIZE <= length (pq_metadata_block req))%nat -> pq_vmk req = [] ->
  compute_geometry ss total
      (mkOptions (pq_use_header req) (pq_use_footer req) (pq_metadata_size req)) =
    Err (ValidationFailed "metadata_size smaller than one sector") /\
  exists d' a v resp,
    handle_jvck_prepare K provider input d = (d', map_err MsgpackEncode (to_vec resp)) /\
    pr_offset_sector resp = 0 /\ pr_data_sectors resp = total /\
    binds d' n a (pq_volume_path req) v /\ offset_sector v = 0 /\ data_sectors v = total /\
    inv (dr_world d').2 /\
    view (dr_world d').2 (total - 1) = prepare_sector (pq_metadata_block req) ss /\
    forall i, 0 <= i < total - 1 -> view (dr_world d').2 i = view w i.
Proof.
  intros WD Hss Ht Hd Hreg [o Hdrv] -> Hfind Hi Hq [[Hsort _] _] He Huh Huf Hms Hl Hvmk.
  split; [apply short_refused; done|]. set (d1 := with_world ((dr_world d).1, w) d) in Hfind.
  pose proof (short_geometry (pq_use_footer req) (pq_metadata_size req) ss total Hms ltac:(lia)) as Hg.
  rewrite <- Huh in Hg at 1.
  destruct (provision_run K lower ss total inv view provider req n e _ 0 0 total
              (fun w2 => view w2 (total - 1) = prepare_sector (pq_metadata_block req) ss /\
                 forall i, 0 <= i < total - 1 -> view w2 i = view w i) d1 Hq He Hi Hg)
    as (w2 & w5 & e5 & paths & E & [Hlast Hrest] & Hi5 & Hv5 & Hb5 & Hvt5 & _).
  { intros w1 Hi1 Hv1.
    destruct (write_short_run K lower ss total inv view req (with_world ((dr_world d1).1, w1) d1)
                Hss Ht Huf Hl Huh Hi1) as (w2 & E2 & Hi2 & H2 & H3).
    exists w2. split; [exact E2|]. split; [done|]. split; [done|]. intros i Hx.
    rewrite H3 by done. apply Hv1. lia. }
  rewrite Hvmk, bool_decide_true in E by done. cbn [negb] in E. cbv zeta in E. set (d5 := mkDriver _ _ _ _ _) in E.
  set (a := fresh (dom (dr_heap d1))) in *. set (v0 := provisional_volume _ _ _ _ _ _) in d5.
  exists d5, a, v0, (mkPrepareResp 0 total ss paths.1.1 paths.1.2 paths.2 false).
  split_and!; [|done|done| |done|done|exact Hi5| |].
  - unfold handle_jvck_prepare. rewrite (mbind_step _ _ _ _ _ Hd).
    rewrite (mbind_step _ _ d d (dr_registry d)) by done. rewrite Hreg, Hdrv. cbv zeta.
    rewrite (mbind_step _ _ _ _ _ Hfind), E. done.
  - constructor; [|apply lookup_insert_eq| |done|done].
    + exists e5. split; [apply lookup_insert_eq|]. done.
    + unfold registry_get. cbn. rewrite bt_get_insert by exact Hsort. rewrite decide_True by done. done.
  - cbn. rewrite Hv5 by lia. exact Hlast.
  - intros i Hx. cbn. rewrite Hv5 by lia. apply Hrest. done.
Qed.

Lemma prepare_layout_unchecked_witness :
  let block := replicate 512 Byte.x4a in
  exists d' a v resp,
    handle_jvck_prepare (H := PrepareDemo.short_wire) BindDemo.kernel None block
        (BindDemo.driver BindDemo.blank) =
      (d', map_err MsgpackEncode (to_vec (MsgPack := wire_prepare_resp (Wire := PrepareDemo.short_wire)) resp)) /\
    pr_data_sectors resp = 4 /\ binds d' 7 a PrepareDemo.volume_name v /\
    data_sectors v = 4 /\ BindDemo.view (dr_world d').2 3 = prepare_sector block 512.
Proof.
  pose proof BindDemo.blank_ok as Hi. revert Hi. generalize BindDemo.blank. intros w Hi block.
  destruct (prepare_layout_unchecked (C := ToyCrypto.api) (A := ToyAes.api) (H := PrepareDemo.short_wire)
    BindDemo.kernel None 60 512 4 BindDemo.inv BindDemo.view block (PrepareDemo.short_request block) 7
    BindDemo.ext w PrepareDemo.volume_name (BindDemo.driver w) BindDemo.works ltac:(lia) ltac:(lia)
    eq_refl eq_refl (ex_intro _ 1%nat eq_refl) eq_refl (PrepareDemo.found w) Hi PrepareDemo.opens
    (BindDemo.driver_ok w) (BindDemo.ext_at w) eq_refl ltac:(cbn; lia) ltac:(cbn; lia) (le_n 512) eq_refl)
    as [_ (d' & a & v & resp & E & _ & H2 & H3 & _ & H5 & _ & H7 & _)].
  exists d', a, v, resp. split; [exact E|]. split; [exact H2|]. split; [exact H3|].
  split; [exact H5|exact H7].
Defined.

(** C12: PREPARE with a key binds the volume it prepared. When AddDevice left an
    unbound filter above the volume, the request is new to the registry and carries a
    metadata block sealed for a layout of this disk - replicas in its footer, and in its
    header or not - the handler answers "fully attached", files the volume under the
    requested path, binds the filter and its thread to it, and what the volume then
    serves - under any sequence of requests, sweep batches and control operations, and
    through the filter under any interleaving with its thread - is the data region as
    it was before the request, at the boundary of the block. *)
Theorem prepare_binds_prepared_volume `{C : CryptoApi} `{A : AesApi} `{Wire} {W0} (K : Kernel W0)
    RNG lower ss total inv view input req s n e w nt_path
    (d : Driver (list (JvckMetadataStore W0)) W0) :
  AesLaws A -> WorkingDisk K lower ss total inv view ->
  FillLaws RNG inv view total -> FillReliable RNG inv ->
  decode_req (T := JvckVolumePrepareReq) input d = (d, Ok req) ->
  registry_get (pq_volume_path req) (dr_registry d) = None ->
  is_Some (rg_driver_object (dr_registry d)) ->
  nt_path = io_path (pq_nt_device_path req) (pq_volume_path req) ->
  find_filter K nt_path d = (with_world ((dr_world d).1, w) d, Ok (Some (Some n, Some lower))) ->
  inv w -> (forall i, 0 <= i < total -> view w i = view (dr_world d).2 i) ->
  store_for (LowerDevice_io (below_filter K lower ss total)) inv view s -> request_for inv req s -> quiet K ss total inv view nt_path ->
  driver_wf d -> dr_devices d !! n = Some e ->
  prepared K (LowerDevice_io (below_filter K lower ss total)) inv view req s n d
    (handle_jvck_prepare K (Some (vck_provider RNG)) input d).
Proof.
  intros HA WD FL FR. intros.
  apply (prepare_run K RNG lower ss total inv view input req s n e w nt_path d); done.
Qed.

Lemma prepare_binds_prepared_volume_witness :
  exists block, length block = METADATA_BLOCK_SIZE /\
    prepared (C := ToyCrypto.api) (A := ToyAes.api) (H := PrepareDemo.wire)
      BindDemo.kernel (LowerDevice_io (below_filter BindDemo.kernel 60 512 4)) BindDemo.inv BindDemo.view
      (PrepareDemo.request block) (BindDemo.store_at 0) 7
      (BindDemo.driver BindDemo.blank)
      (handle_jvck_prepare (H := PrepareDemo.wire) BindDemo.kernel
         (Some (vck_provider (C := ToyCrypto.api) (A := ToyAes.api) BindDemo.RNG)) block
         (BindDemo.driver BindDemo.blank)).
Proof.
  destruct PrepareDemo.sealed as (block & Hl & Hs). exists block. split; [exact Hl|].
  pose proof BindDemo.blank_ok as Hi. revert Hi. generalize BindDemo.blank. intros w Hi.
  exact (prepare_binds_prepared_volume (C := ToyCrypto.api) (A := ToyAes.api) (H := PrepareDemo.wire)
    BindDemo.kernel BindDemo.RNG 60 512 4 BindDemo.inv BindDemo.view block (PrepareDemo.request block)
    (BindDemo.store_at 0) 7 BindDemo.ext w PrepareDemo.volume_name (BindDemo.driver w) ToyAes.laws
    BindDemo.works (BindDemo.fill_laws 4) BindDemo.fill_reliable eq_refl eq_refl
    (ex_intro _ 1%nat eq_refl) eq_refl (PrepareDemo.found w) Hi (fun _ _ => eq_refl)
    PrepareDemo.store_fits (PrepareDemo.asks block Hl Hs) PrepareDemo.opens (BindDemo.driver_ok w)
    (BindDemo.ext_at w)).
Defined.
