(* ===== verification/Fallback.v ===== *)
(** * PREPARE without a filter from AddDevice

    The other way of PREPARE: the volume is locked and dismounted through a raw
    handle, a new filter is attached above its device and bound, and the metadata is
    written, and with a key read again, through the volume's own handle, which goes
    through that filter. It never ends in a complete volume. *)

From S2P Require Import Prelude Types Sectors Engine Nt Pipeline Volume Thread Xts Metadata Codec Store StoreLaws Filter DataPath Io Handover Registry Manager Provider Dispatch Attach AttachLaws Durable BindLaws BootMount AttachRun Prepare.

Section Fallback.
Context `{C : CryptoApi} `{A : AesApi} `{Wire} {W0 : Type}.
Context (K : Kernel W0) (RNG : option (RandomSource W0)).
Context (ss total : Z) (inv : W0 -> Prop) (view : W0 -> Z -> bytes).
Abbreviation P := (list (JvckMetadataStore W0)).
Implicit Types (d : Driver P W0) (s : JvckMetadataStore W0).
Abbreviation returns f good := (BindLaws.returns inv view total f good).
Abbreviation steps := (BindLaws.steps inv view total).

(** What the kernel answers before the filter is bound: a raw handle [hl] with the
    volume's size, whose control codes end anyhow, and the device of the handle, above
    which filter [n] goes, on [lower]; and that the filter can be taken away again. *)
Record locks (nt_path : string) (hl : FileHandle W0) (target n lower : nat) : Prop := {
  lk_open : returns (k_open_raw K nt_path) (eq (Some hl));
  lk_fsctl code : returns (fh_fsctl hl code) (fun _ => True);
  lk_geometry : returns (fh_ioctl hl IOCTL_DISK_GET_DRIVE_GEOMETRY_PREPARE (replicate 32 Byte.x00))
    (fun r => nt_success r.1 = true /\ le_decode (slice 20 4 r.2) = ss);
  lk_length : returns (fh_ioctl hl IOCTL_DISK_GET_LENGTH_INFO_PREPARE (replicate 8 Byte.x00))
    (fun r => nt_success r.1 = true /\ le_decode r.2 / ss = total);
  lk_ioctl code size : returns (fh_ioctl hl code (replicate size Byte.x00)) (fun _ => True);
  lk_target w : inv w -> k_related_device K hl w = Some target;
  lk_filter : returns (k_create_device K) (eq (STATUS_SUCCESS, Some n));
  lk_attach : returns (k_attach K n (Some target)) (eq (STATUS_SUCCESS, Some lower));
  lk_detach : returns (fun w => (k_detach K lower w, tt)) (fun _ => True);
  lk_delete : returns (fun w => (k_delete_device K n w, tt)) (fun _ => True);
}.

Lemma steps_fsctl c h code d :
  (forall code, returns (fh_fsctl h code) (fun _ => True)) -> inv (dr_world d).2 ->
  steps (fsctl_if c (Some h) code) d (fun _ => True).
Proof using Type.
  intros Hf Hi. unfold fsctl_if. destruct c; [|apply steps_ret; done].
  eapply steps_bind; [apply kcall_answers; [apply Hf|done]|]. intros. apply steps_ret; done.
Qed.

Lemma steps_lock h d :
  (forall code, returns (fh_fsctl h code) (fun _ => True)) -> inv (dr_world d).2 ->
  steps (lock_and_dismount (Some h)) d (fun _ => True).
Proof using Type.
  intros Hf Hi. unfold lock_and_dismount.
  eapply steps_bind; [apply steps_fsctl; done|]. intros w1 held _ Hi1.
  eapply steps_bind; [apply steps_fsctl; done|]. intros w2 _ _ Hi2.
  eapply steps_bind; [apply steps_fsctl; done|]. intros w3 held2 _ Hi3. apply steps_ret; done.
Qed.

Section Locked.
Context (nt_path : string) (hl : FileHandle W0) (target n lower : nat).
Context (L : locks nt_path hl target n lower).

Lemma steps_geometry d :
  0 < ss -> inv (dr_world d).2 -> steps (locked_geometry (Some hl)) d (eq (ss, total)).
Proof using L.
  intros Hss Hi. unfold locked_geometry, raw_ioctl.
  eapply steps_bind; [apply kcall_answers; [apply (lk_geometry _ _ _ _ _ L)|done]|].
  intros w1 [st geom] [Hst Hg] Hi1. cbn [fst snd] in Hst, Hg. cbv beta iota.
  eapply steps_bind; [apply kcall_answers; [apply (lk_length _ _ _ _ _ L)|done]|].
  intros w2 [st2 len] [Hst2 Hl] Hi2. cbn [fst snd] in Hst2, Hl. cbv beta iota.
  apply steps_ret; [|done]. rewrite Hst, Hst2, Hg, (proj2 (Z.eqb_neq _ 0)), Hl by lia. done.
Qed.

Lemma attach_locked_run path d :
  inv (dr_world d).2 ->
  exists w, attach_locked K path (Some hl) d =
    (with_devices (<[n := unbound_ext lower]> (dr_devices d)) (with_world ((dr_world d).1, w) d),
     Ok (Some n, Some lower)) /\ inv w /\
    forall i, 0 <= i < total -> view w i = view (dr_world d).2 i.
Proof using L.
  intros Hi. destruct (kcall_answers _ _ _ _ _ d (lk_filter _ _ _ _ _ L) Hi) as (w1 & _ & E1 & <- & Hi1 & Hv1).
  set (d1 := with_devices (<[n := mkExt 0 None None None]> (dr_devices d))
               (with_world ((dr_world d).1, w1) d)).
  destruct (kcall_answers _ _ _ _ _ d1 (lk_attach _ _ _ _ _ L) Hi1) as (w2 & _ & E2 & <- & Hi2 & Hv2).
  exists w2. split; [|split; [done|intros i Hx; rewrite Hv2 by done; apply Hv1; done]].
  unfold attach_locked. rewrite (mbind_step _ _ d d (Some target)).
  - exact (attach_raw_ok K (Some target) n lower w1 w2 d E1 E2).
  - rewrite kread_run, (lk_target _ _ _ _ _ L) by done. done.
Qed.

(** Whatever the paths turn out to be. *)
Lemma steps_paths d :
  inv (dr_world d).2 -> steps (storage_paths_checked K nt_path ss) d (fun _ => True).
Proof using L.
  intros Hi. unfold storage_paths_checked, open_volume_handle_raw, raw_ioctl.
  eapply steps_bind; [apply kcall_answers; [apply (lk_open _ _ _ _ _ L)|done]|].
  intros w1 ? <- Hi1. eapply steps_bind.
  { eapply steps_bind; [apply kcall_answers; [apply (lk_ioctl _ _ _ _ _ L)|done]|].
    intros w2 [st1 sdn] _ Hi2. cbv beta iota.
    eapply steps_bind; [apply kcall_answers; [apply (lk_ioctl _ _ _ _ _ L)|done]|].
    intros w3 [st2 info] _ Hi3. cbv beta iota zeta. apply (steps_ret _ _ _ _ (fun _ => True)); done. }
  intros w4 [[d0 p0] sb] _ Hi4. cbv beta iota zeta. apply steps_ret; done.
Qed.

(** The provisional volume and its filter are taken back. *)
Lemma drop_provisional_run path e d :
  dr_devices d !! n = Some e -> de_vthread e = None -> de_lower_device e = Some lower ->
  bt_sorted (rg_entries (dr_registry d)) -> inv (dr_world d).2 ->
  exists d', drop_provisional K path (Some n) d = (d', Ok tt) /\
    registry_get path (dr_registry d') = None /\ dr_devices d' !! n = None /\
    inv (dr_world d').2 /\
    forall i, 0 <= i < total -> view (dr_world d').2 i = view (dr_world d).2 i.
Proof using L.
  intros He Ht Hl Hs Hi. set (d1 := with_registry (registry_remove path (dr_registry d)).1 d).
  destruct (kcall_answers _ _ _ (fun w => (k_detach K lower w, tt)) _ d1 (lk_detach _ _ _ _ _ L) Hi) as (w2 & [] & E2 & _ & Hi2 & Hv2).
  set (d2 := with_world ((dr_world d1).1, w2) d1) in E2.
  set (d3 := with_devices (<[n := mkExt (de_kind e) None (de_volume e) (de_vthread e)]> (dr_devices d2)) d2).
  destruct (kcall_answers _ _ _ (fun w => (k_delete_device K n w, tt)) _ d3 (lk_delete _ _ _ _ _ L) Hi2) as (w4 & [] & E4 & _ & Hi4 & Hv4).
  set (d4 := with_world ((dr_world d3).1, w4) d3) in E4.
  exists (with_devices (delete n (dr_devices d4)) d4).
  split; [|split_and!; [|apply lookup_delete_eq|done|]].
  - unfold drop_provisional. rewrite (mbind_step _ _ d d1 tt) by done. unfold detach_filter.
    rewrite (mbind_step _ _ d1 d1 (n, e)) by (apply ext_of_some; done). cbv beta iota.
    rewrite (mbind_step _ _ d1 d1 e) by (unfold stop_thread; rewrite Ht; done). rewrite Hl.
    rewrite (mbind_step _ _ d1 d3 tt) by (rewrite (mbind_step _ _ _ _ _ E2); done).
    unfold delete_device. rewrite (mbind_step _ _ _ _ _ E4). done.
  - unfold registry_get. cbn. rewrite bt_get_remove, decide_True by done. done.
  - intros i Hx. cbn. rewrite Hv4 by done. cbn. rewrite Hv2 by done. done.
Qed.
End Locked.

Lemma or_cleanup_ok {B} (m : M VckError (Driver P W0) B) cleanup d d' b :
  m d = (d', Ok b) -> or_cleanup m cleanup d = (d', Ok b).
Proof using Type. intros E. unfold or_cleanup. rewrite mbind_run, (attempt_ok _ _ _ _ E). done. Qed.

Lemma or_cleanup_err {B} (m : M VckError (Driver P W0) B) cleanup d d1 d2 e :
  m d = (d1, Err e) -> cleanup d1 = (d2, Ok tt) -> or_cleanup m cleanup d = (d2, Err e).
Proof using Type.
  intros E E'. unfold or_cleanup. rewrite mbind_run. unfold attempt. rewrite E, mbind_run, E'. done.
Qed.

(** ** Through the bound filter *)

Section Bound.
Context (heap : gmap nat (AttachedVolume (P * W0))) (ext : DeviceExtension) (a : nat).
Context (v : AttachedVolume (P * W0)) (h : FileHandle W0) (data : Z) (nt_path : string).
Hypothesis Hbound : de_volume ext = Some a.
Hypothesis Hvol : heap !! a = Some v.
Hypothesis Hthread : de_vthread ext = None.
Hypothesis G : filter_geometry ss 0 data v.
Hypothesis R : raw_volume h ss total inv view.
Hypothesis Hopen : returns (k_create_file K nt_path) (eq (Some (above_filter heap ext h))).
Abbreviation volume := (mkKernelVolumeIo (above_filter heap ext h) ss total).
Abbreviation io := (KernelVolume_io volume).

Lemma volume_works : 0 <= total -> WorkingHandle volume inv view.
Proof using Hbound Hvol Hthread G R.
  intros Ht. exact (above_works heap ext a v h ss total 0 data inv view Hbound Hvol Hthread G R inv total
    total Ht (Z.le_refl _) (fun w Hw => Hw) (fun _ _ _ Hw _ => Hw)).
Qed.

(** The metadata goes to the footer, where it belongs. *)
Lemma write_volume_run req s filter_do d :
  0 <= total -> store_for io inv view s -> use_header (js_options s) = 0 ->
  block_for inv req s -> inv (dr_world d).2 ->
  exists w,
    write_metadata_volume K req nt_path filter_do ss total
      (prepare_replica_lbas (pq_use_header req) (pq_use_footer req)
         (layout_rs (js_options s) (js_geometry s)) total) d =
      (with_world ((dr_world d).1, w) d, Ok tt) /\
    inv w /\ footer_only io inv view s w /\
    forall i, 0 <= i < g_data_sectors (js_geometry s) -> view w i = view (dr_world d).2 i.
Proof using Hbound Hvol Hthread G R Hopen.
  intros Ht Hs H0 Hr Hi. pose proof (volume_works Ht) as HW.
  pose proof (handle_io_laws _ _ _ _ HW) as IL. pose proof (handle_io_reliable _ _ _ _ HW) as RL.
  destruct (Hopen _ Hi) as (w1 & ? & E1 & <- & Hi1 & Hv1).
  destruct (rv_fsctl _ _ _ _ _ R FSCTL_ALLOW_EXTENDED_DASD_IO w1 Hi1) as (w2 & st & E2 & _ & Hi2 & Hv2).
  set (d2 := with_world ((dr_world d).1, w2) d).
  destruct (metadata_loop_run io inv view req s d2 Hs Hr Hi2) as (w3 & E3 & Hi3 & B & Hv3).
  pose proof (Build_footer_only io inv view s w3 B H0) as F.
  destruct (footer_only_data io inv view s w3 F) as [Ho Hd]. rewrite Ho in Hv3. cbn in Hd.
  exists w3. split; [|split; [done|split; [done|]]].
  2: { intros i Hx. rewrite Hv3 by lia. cbn. rewrite Hv2, Hv1 by lia. done. }
  pose proof (bf_long _ _ _ Hr) as Hl. unfold write_metadata_volume. cbv zeta.
  rewrite bool_decide_false by (intros E0; rewrite E0 in Hl; exact (Nat.nle_succ_0 _ Hl)).
  rewrite (proj2 (Nat.ltb_ge _ _)) by done. apply or_cleanup_ok.
  rewrite (mbind_step _ _ d d2 volume).
  - exact E3.
  - apply kworld_ok. unfold kv_open. cbn [vi_device_path volume_id].
    destruct (k_create_file K nt_path (dr_world d).2) as [w1' r1]. injection E1 as -> ->.
    rewrite mbind_run. unfold allow_extended_dasd_io. cbn [kv_handle].
    change (fh_fsctl (above_filter heap ext h)) with (fh_fsctl h).
    destruct (fh_fsctl h FSCTL_ALLOW_EXTENDED_DASD_IO w1) as [w2' r2]. injection E2 as -> ->. done.
Qed.

(** With a key, the complete volume is not found. *)
Lemma full_attach_blind hl target n lower req paths d :
  nt_path = io_path (pq_nt_device_path req) (pq_volume_path req) ->
  locks nt_path hl target n lower -> 512 <= ss -> 0 < data <= total ->
  dr_devices d !! n = Some ext -> de_lower_device ext = Some lower ->
  bt_sorted (rg_entries (dr_registry d)) -> inv (dr_world d).2 ->
  is_err (verify_crc (block_of (view (dr_world d).2 0))) = true ->
  is_err (verify_crc (block_of (view (dr_world d).2 (data - 1)))) = true ->
  exists d', full_attach_volume K (Some (vck_provider RNG)) req (Some n) paths d =
      (d', Err (NotFound "no JVCK metadata present")) /\
    registry_get (pq_volume_path req) (dr_registry d') = None /\ dr_devices d' !! n = None /\
    inv (dr_world d').2 /\ forall i, 0 <= i < total -> view (dr_world d').2 i = view (dr_world d).2 i.
Proof using Hbound Hvol Hthread G R Hopen.
  intros Hpath L Hss Hdata He Hlow Hs Hi H0 Hlast.
  destruct (above_query heap ext a v h ss total 0 data inv view Hbound Hvol G R
              (k_create_file K) nt_path Hopen ltac:(lia) _ Hi) as (w1 & _ & E1 & <- & Hi1 & Hv1).
  set (k := mkKernelVolumeIo (above_filter heap ext h) ss data) in E1.
  set (d1 := with_world ((dr_world d).1, w1) d).
  destruct (above_opens_nothing heap ext a v h ss total 0 data inv view Hbound Hvol Hthread G R Hss
              ltac:(lia) ltac:(lia) w1 Hi1) as (w2 & E2 & Hi2 & Hv2).
  { rewrite Hv1 by lia. exact H0. }
  { rewrite Hv1 by lia. exact Hlast. }
  pose proof (on_attach_none RNG (KernelVolume_io k) (pq_vmk req) None w2 d1 _ E2) as E3.
  set (d2 := with_world ((dr_world d1).1, w2) d1) in E3.
  destruct (drop_provisional_run nt_path hl target n lower L (pq_volume_path req) ext d2 He Hthread Hlow Hs Hi2)
    as (d3 & E4 & Hreg & Hdev & Hi3 & Hv3).
  exists d3. split; [|split_and!; [done..|]].
  - unfold full_attach_volume. cbv zeta. rewrite <- Hpath.
    rewrite (mbind_step _ _ d d1 k) by (apply or_cleanup_ok; exact (kworld_ok _ _ _ _ E1)).
    rewrite mbind_run, (or_cleanup_err _ _ _ _ _ _ E3 E4). done.
  - intros i Hx. rewrite Hv3 by done. cbn. rewrite Hv2, Hv1 by done. done.
Qed.
End Bound.

(** ** The whole way *)

(** The layout of a store for the volume, with replicas in the footer only. *)
Record footer_layout (o : JvckMetadataOptions) (g : Geometry) : Prop := {
  fl_ss : in_u 32 ss /\ 512 <= ss;
  fl_total : in_u 64 total;
  fl_options : options_wf o;
  fl_geometry : compute_geometry ss total o = Ok g;
  fl_offset : g_offset_sector g = 0;
  fl_data : 0 < g_data_sectors g <= total;
  fl_fits : g_data_sectors g * ss < 2 ^ 63;
}.

Lemma raw_layout h io s :
  raw_volume h ss total inv view -> store_wf io inv view s -> sector_size io = ss ->
  total_sectors io = total -> use_header (js_options s) = 0 ->
  footer_layout (js_options s) (js_geometry s).
Proof using Type.
  intros R S Es Et Hh. pose proof (rv_works _ _ _ _ _ R) as HW.
  pose proof (rq_ss (RequestLaws:=wh_requests (WorkingHandleUpto:=HW))) as Hss.
  pose proof (rq_size (RequestLaws:=wh_requests (WorkingHandleUpto:=HW))) as [Ht Hmax]. cbn in Hss, Ht, Hmax.
  pose proof S as [_ _ Ho Hsome Hg _ _ _]. rewrite Es, Et in Hg.
  assert (in_u 32 ss) as Hs32 by (unfold in_u; lia). assert (in_u 64 total) as Ht64 by (unfold in_u; nia).
  destruct (geometry_facts ss total _ _ Hs32 Ht64 Ho Hg) as (H512 & [] & Hoff & Hd & _ & _).
  rewrite Hh, Z.mul_0_l in Hoff. assert (0 < g_data_sectors (js_geometry s) < total) as Hdata by nia.
  constructor; try done; [lia|nia].
Qed.

(** How the request of [s] ends: the metadata is on the disk and the data as it was;
    without a key the provisional volume [v] stays bound, with one it is gone. *)
Definition left_unfinished (io : SectorIo W0) (req : JvckVolumePrepareReq) s (n a : nat)
    (ext : DeviceExtension) (v : AttachedVolume (P * W0)) d
    (run : Driver P W0 * outcome VckError bytes) : Prop :=
  exists d',
    inv (dr_world d').2 /\ footer_only io inv view s (dr_world d').2 /\
    (forall i, 0 <= i < g_data_sectors (js_geometry s) ->
       view (dr_world d').2 i = view (dr_world d).2 i) /\
    match pq_vmk req with
    | [] =>
        binds d' n a (pq_volume_path req) v /\ dr_devices d' !! n = Some ext /\
        exists resp, run = (d', map_err MsgpackEncode (to_vec resp)) /\
          pr_fully_attached resp = false /\ pr_data_sectors resp = g_data_sectors (js_geometry s)
    | _ =>
        registry_get (pq_volume_path req) (dr_registry d') = None /\ dr_devices d' !! n = None /\
        run = (d', Err (NotFound "no JVCK metadata present"))
    end.

Lemma fallback_run req s hl h target n lower d :
  let nt_path := io_path (pq_nt_device_path req) (pq_volume_path req) in
  let data := g_data_sectors (js_geometry s) in
  let a := fresh (dom (dr_heap d)) in
  let v0 := provisional_volume (W := P * W0) (pq_volume_path req) ss 0 data (attach_source req) (Some n) in
  let heap := <[a := v0]> (dr_heap d) in
  let ext := mkExt DEVICE_KIND_FILTER (Some lower) (Some a) None in
  let io := KernelVolume_io (mkKernelVolumeIo (above_filter heap ext h) ss total) in
  raw_volume h ss total inv view -> locks nt_path hl target n lower ->
  returns (k_create_file K nt_path) (eq (Some (above_filter heap ext h))) ->
  store_for io inv view s -> use_header (js_options s) = 0 -> block_for inv req s -> driver_wf d ->
  inv (dr_world d).2 ->
  is_err (verify_crc (block_of (view (dr_world d).2 0))) = true ->
  is_err (verify_crc (block_of (view (dr_world d).2 (data - 1)))) = true ->
  left_unfinished io req s n a ext v0 d
    (prepare_fallback K (Some (vck_provider RNG)) req nt_path d).
Proof using Type.
  intros nt_path data a v0 heap ext io R L Hopen Hs Hh Hr [[Hsort _] _] Hi H0 Hlast.
  pose proof (sf_wf _ _ _ _ Hs) as S.
  destruct (raw_layout h io s R S eq_refl eq_refl Hh) as [[Hs32 Hss] Ht64 Ho Hg Hoff Hdata Hfits].
  fold data in Hdata, Hfits. assert (0 <= total) as Ht by lia.
  assert (filter_geometry ss 0 data v0) as G.
  { constructor; cbn; try (done || lia). unfold in_u in Hs32. lia. }
  assert (heap !! a = Some v0) as Ha by apply lookup_insert_eq.
  destruct (kcall_answers _ _ _ _ _ d (lk_open _ _ _ _ _ L) Hi) as (w1 & _ & E1 & <- & Hi1 & Hv1).
  set (d1 := with_world ((dr_world d).1, w1) d) in E1.
  destruct (steps_lock hl d1 (lk_fsctl _ _ _ _ _ L) Hi1) as (w2 & held & E2 & _ & Hi2 & Hv2).
  set (d2 := with_world ((dr_world d1).1, w2) d1) in E2.
  destruct (steps_geometry nt_path hl target n lower L d2 ltac:(lia) Hi2) as (w3 & _ & E3 & <- & Hi3 & Hv3).
  set (d3 := with_world ((dr_world d2).1, w3) d2) in E3.
  destruct (attach_locked_run nt_path hl target n lower L (pq_volume_path req) d3 Hi3) as (w4 & E4 & Hi4 & Hv4).
  set (d4 := with_devices _ _) in E4.
  set (d5 := with_registry (registry_insert a v0 (dr_registry d4)) (with_heap heap d4)).
  assert (dr_devices d5 !! n = Some (unbound_ext lower)) as He by apply lookup_insert_eq.
  set (d6 := with_devices (<[n := ext]> (dr_devices d5)) d5).
  destruct (steps_fsctl held hl FSCTL_UNLOCK_VOLUME d6 (lk_fsctl _ _ _ _ _ L) Hi4)
    as (w7 & ok & E7 & _ & Hi7 & Hv7).
  set (d7 := with_world ((dr_world d6).1, w7) d6) in E7.
  destruct (write_volume_run heap ext a v0 h data nt_path eq_refl Ha eq_refl G R Hopen req s (Some n) d7
              Ht Hs Hh Hr Hi7) as (w8 & E8 & Hi8 & F8 & Hv8).
  set (d8 := with_world ((dr_world d7).1, w8) d7) in E8.
  destruct (steps_paths nt_path hl target n lower L d8 Hi8) as (w9 & paths & E9 & _ & Hi9 & Hv9).
  set (d9 := with_world ((dr_world d8).1, w9) d8) in E9.
  pose proof (handle_io_laws _ _ _ _ (volume_works heap ext a v0 h data eq_refl Ha eq_refl G R Ht)) as IL.
  pose proof (footer_only_ext io inv view s w8 w9 Hv9 F8) as F9.
  assert (forall i, 0 <= i < data -> view w9 i = view (dr_world d).2 i) as Hv.
  { intros i Hx. rewrite Hv9, Hv8 by (fold data; lia). cbn. rewrite Hv7, Hv4 by lia. cbn.
    rewrite Hv3 by lia. cbn. rewrite Hv2 by lia. cbn. apply Hv1. lia. }
  assert (dr_devices d9 !! n = Some ext) as He9 by apply lookup_insert_eq.
  assert (prepare_fallback K (Some (vck_provider RNG)) req nt_path d =
    (if negb (bool_decide (pq_vmk req = []))
     then full_attach_volume K (Some (vck_provider RNG)) req (Some n) paths
     else encode_resp (mkPrepareResp 0 data ss paths.1.1 paths.1.2 paths.2 false)) d9) as ->.
  { unfold prepare_fallback, open_volume_handle_raw. rewrite (mbind_step _ _ _ _ _ E1).
    rewrite (mbind_step _ _ _ _ _ E2), (mbind_step _ _ _ _ _ E3). cbv beta iota.
    rewrite (proj2 (Z.eqb_neq ss 0)), (proj2 (Z.eqb_neq total 0)) by lia. cbn [orb]. cbv iota.
    pose proof (prepare_geometry_eq ss total (js_options s) (js_geometry s) Hs32 Ht64 Ho Hg) as Hgeom.
    rewrite <- (bf_options _ _ _ Hr) in Hgeom at 1 2 3. cbn [use_header use_footer opt_metadata_size] in Hgeom.
    rewrite Hgeom, Hoff. cbv beta iota zeta. rewrite (mbind_step _ _ _ _ _ (or_cleanup_ok _ _ _ _ _ E4)).
    rewrite (mbind_step _ _ d4 d5 a) by done.
    rewrite (mbind_step _ _ d5 d6 tt) by exact (filter_bind_ok K n _ a v0 d5 He Ha).
    rewrite (mbind_step _ _ _ _ _ E7), (mbind_step _ _ _ _ _ E8), (mbind_step _ _ _ _ _ E9). done. }
  unfold left_unfinished. destruct (pq_vmk req) as [|b vmk] eqn:Evmk.
  - exists d9. rewrite bool_decide_true by done. split; [done|]. split; [done|]. split; [done|].
    split; [|split; [done|eexists; split; [reflexivity|done]]].
    constructor; [|exact Ha| |done|done].
    + exists ext. done.
    + unfold registry_get. cbn. rewrite bt_get_insert by exact Hsort. rewrite decide_True by done. done.
  - rewrite bool_decide_false by done. cbn [negb].
    destruct (full_attach_blind heap ext a v0 h data nt_path eq_refl Ha eq_refl G R Hopen hl target n lower
                req paths d9 eq_refl L Hss Hdata He9 eq_refl) as (d' & E & Hreg & Hdev & Hi' & Hv').
    + apply bt_insert_sorted. exact Hsort.
    + exact Hi9.
    + change (view (dr_world d9).2 0) with (view w9 0). rewrite Hv by lia. exact H0.
    + change (view (dr_world d9).2 (data - 1)) with (view w9 (data - 1)). rewrite Hv by lia. exact Hlast.
    + exists d'. split; [done|]. split; [apply (footer_only_ext io inv view s w9); done|].
      split; [intros i Hx; rewrite Hv' by (fold data in Hx; lia); apply Hv; done|]. done.
Qed.
End Fallback.

(** ** The four-sector disk, with a raw handle *)

Module FallbackDemo.
Import ToyCrypto BindDemo.
(** A volume on partition 0 of disk 1, whose lock is denied. *)
Definition raw : FileHandle MemVolume := {|
  fh_ioctl code out w :=
    (w, if code =? IOCTL_DISK_GET_PARTITION_INFO_EX then (STATUS_BUFFER_TOO_SMALL, out)
        else (0, if code =? IOCTL_STORAGE_GET_DEVICE_NUMBER then splice 4 (le_encode 4 1) out
                 else BindDemo.answer code out));
  fh_fsctl code w := (w, if code =? FSCTL_LOCK_VOLUME then STATUS_ACCESS_DENIED else 0);
  fh_read _ buf w := (w, (STATUS_UNSUCCESSFUL, buf));
  fh_write _ buf w := (w, (STATUS_UNSUCCESSFUL, buf));
|}.
(** The driver with no filter yet. *)
Definition driver (w : MemVolume) : Driver (list (JvckMetadataStore MemVolume)) MemVolume :=
  mkDriver (mkRegistry [] (Some 1%nat) [] None) ∅ ∅ [] ([], w).

(** What the request files and binds, and the handle above it. *)
Definition addr : nat := fresh (dom (∅ : gmap nat (AttachedVolume (list (JvckMetadataStore MemVolume) * MemVolume)))).
Definition provisional : AttachedVolume (list (JvckMetadataStore MemVolume) * MemVolume) :=
  provisional_volume PrepareDemo.volume_name 512 0 3 Volume.Handover (Some 100%nat).
Definition ext : DeviceExtension := mkExt DEVICE_KIND_FILTER (Some 60%nat) (Some addr) None.
Definition above : FileHandle MemVolume := above_filter (<[addr := provisional]> ∅) ext AttachDemo.handle.
Definition kernel : Kernel MemVolume := BindDemo.kernel_with above raw.
Definition io : SectorIo MemVolume := KernelVolume_io (mkKernelVolumeIo above 512 4).

Lemma fallback_driver_ok w : driver_wf (driver w).
Proof.
  constructor; cbn.
  - constructor; cbn; [constructor|]. intros k a H. apply elem_of_nil in H. done.
  - apply map_Forall_empty.
Qed.

Lemma fallback_found w :
  find_filter kernel PrepareDemo.volume_name (driver w) =
    (with_world ((dr_world (driver w)).1, w) (driver w), Ok None).
Proof. reflexivity. Qed.

Lemma fallback_locks :
  locks kernel 512 4 BindDemo.inv BindDemo.view PrepareDemo.volume_name raw 50 100 60.
Proof.
  constructor; try done; intros; intros w Hi; eexists w, _; (split; [reflexivity|]);
    (split; [try (vm_compute; done)|done]); done.
Qed.

Lemma above_is_disk : WorkingHandle (mkKernelVolumeIo above 512 4) BindDemo.inv BindDemo.view.
Proof.
  exact (volume_works 512 4 BindDemo.inv BindDemo.view (<[addr := provisional]> ∅) ext addr provisional
    AttachDemo.handle 3 eq_refl (lookup_insert_eq _ _ _) eq_refl
    ltac:(constructor; cbn; (reflexivity || lia)) AttachDemo.is_raw ltac:(lia)).
Qed.

Definition store : JvckMetadataStore MemVolume := BindDemo.store_on io 0.
Lemma fallback_store : store_wf io BindDemo.inv BindDemo.view store.
Proof. exact (store_on_ok io (DL := handle_io_laws _ _ _ _ above_is_disk) eq_refl eq_refl 0). Qed.

Lemma fallback_fits : store_for io BindDemo.inv BindDemo.view store.
Proof. constructor; [apply fallback_store|done|done|by exists Encrypt|done|cbn; lia]. Qed.

(** A request of this layout. *)
Definition request (key block : bytes) : JvckVolumePrepareReq :=
  mkPrepareReq PrepareDemo.volume_name "" 0 1 512 key block true.
Definition wire (key : bytes) : Wire :=
  BindDemo.wire_for (fun b => Ok (request key b)) (fun _ => Err ""%string).

Lemma fallback_asks key block :
  length block = METADATA_BLOCK_SIZE -> sealed_store BindDemo.inv store block ->
  block_for BindDemo.inv (request key block) store.
Proof.
  intros Hl Hs. constructor; cbn [request pq_metadata_block]; [done|lia|].
  rewrite take_ge by lia. exact Hs.
Qed.

Lemma not_metadata i :
  0 <= i < 4 -> is_err (verify_crc (block_of (BindDemo.view BindDemo.blank i))) = true.
Proof.
  intros Hi. assert (i = 0 \/ i = 1 \/ i = 2 \/ i = 3) as [-> | [-> | [-> | ->]]] by lia; vm_compute; done.
Qed.
End FallbackDemo.

(** C13: Finding: without a filter from AddDevice, PREPARE never completes a volume. The
    handler locks and dismounts the volume through a raw handle, whatever the locks say,
    attaches a filter above its device and binds it to the provisional volume, and writes
    the request's metadata to the footer; the disk then holds the metadata of a volume
    whose data is as it was. But the volume's own handle now goes through the bound
    filter, which reports the size of the data region. So a request with a key, which
    opens the metadata again through that handle, ends with "no JVCK metadata present" -
    unless the data itself begins or ends with a metadata block - and takes the volume
    and its filter back; a request without a key leaves the provisional volume bound,
    answers "not fully attached", and there is no thread to serve it. *)
Theorem prepare_fallback_cannot_complete `{C : CryptoApi} `{A : AesApi} `{Wire} {W0} (K : Kernel W0)
    RNG ss total inv view input req s hl h target n lower w nt_path
    (d : Driver (list (JvckMetadataStore W0)) W0) :
  let data := g_data_sectors (js_geometry s) in
  let a := fresh (dom (dr_heap d)) in
  let v0 := provisional_volume (pq_volume_path req) ss 0 data (attach_source req) (Some n) in
  let ext := mkExt DEVICE_KIND_FILTER (Some lower) (Some a) None in
  let above := above_filter (<[a := v0]> (dr_heap d)) ext h in
  let io := KernelVolume_io (mkKernelVolumeIo above ss total) in
  decode_req (T := JvckVolumePrepareReq) input d = (d, Ok req) ->
  registry_get (pq_volume_path req) (dr_registry d) = None ->
  is_Some (rg_driver_object (dr_registry d)) ->
  nt_path = io_path (pq_nt_device_path req) (pq_volume_path req) ->
  find_filter K nt_path d = (with_world ((dr_world d).1, w) d, Ok None) ->
  inv w -> (forall i, 0 <= i < total -> view w i = view (dr_world d).2 i) ->
  raw_volume h ss total inv view -> locks K ss total inv view nt_path hl target n lower ->
  returns inv view total (k_create_file K nt_path) (eq (Some above)) ->
  store_for io inv view s -> use_header (js_options s) = 0 -> block_for inv req s -> driver_wf d ->
  is_err (verify_crc (block_of (view (dr_world d).2 0))) = true ->
  is_err (verify_crc (block_of (view (dr_world d).2 (data - 1)))) = true ->
  left_unfinished inv view io req s n a ext v0 d
    (handle_jvck_prepare K (Some (vck_provider RNG)) input d).
Proof.
  intros data a v0 ext above io Hd Hreg [o Hdrv] -> Hfind Hi Hv R L Hopen Hs Hh Hr Hwf H0 Hl.
  set (d1 := with_world ((dr_world d).1, w) d) in Hfind.
  pose proof (fl_data _ _ _ _ (raw_layout ss total inv view h io s R (sf_wf _ _ _ _ Hs) eq_refl eq_refl Hh)) as Hdata.
  fold data in Hdata.
  destruct (fallback_run K RNG ss total inv view req s hl h target n lower d1 R L Hopen Hs Hh Hr
              (driver_wf_world d _ Hwf) Hi) as (d' & Hi' & F & Hv' & Hrun).
  { cbn. rewrite Hv by lia. exact H0. }
  { cbn. rewrite Hv by lia. exact Hl. }
  exists d'. split; [done|]. split; [done|]. split.
  { intros i Hx. rewrite Hv' by done. apply Hv. lia. }
  assert (handle_jvck_prepare K (Some (vck_provider RNG)) input d =
    prepare_fallback K (Some (vck_provider RNG)) req
      (io_path (pq_nt_device_path req) (pq_volume_path req)) d1) as ->; [|exact Hrun].
  unfold handle_jvck_prepare. rewrite (mbind_step _ _ _ _ _ Hd).
  rewrite (mbind_step _ _ d d (dr_registry d)) by done. rewrite Hreg, Hdrv. cbv zeta.
  rewrite (mbind_step _ _ _ _ _ Hfind). done.
Qed.

Lemma prepare_fallback_cannot_complete_witness :
  exists block, length block = METADATA_BLOCK_SIZE /\ forall key, key = [] \/ key = ToyCrypto.vmk ->
    left_unfinished (C := ToyCrypto.api) (H := FallbackDemo.wire key) BindDemo.inv BindDemo.view
      FallbackDemo.io (FallbackDemo.request key block) FallbackDemo.store 100 FallbackDemo.addr
      FallbackDemo.ext FallbackDemo.provisional (FallbackDemo.driver BindDemo.blank)
      (handle_jvck_prepare (H := FallbackDemo.wire key) FallbackDemo.kernel
         (Some (vck_provider (C := ToyCrypto.api) (A := ToyAes.api) BindDemo.RNG)) block
         (FallbackDemo.driver BindDemo.blank)).
Proof.
  destruct (PrepareDemo.sealed_block _ _ _ _ FallbackDemo.fallback_store ltac:(unfold in_u; cbn; lia))
    as (block & Hl & Hs). exists block. split; [exact Hl|]. intros key _.
  pose proof BindDemo.blank_ok as Hi. pose proof (FallbackDemo.not_metadata 0 ltac:(lia)) as H0.
  pose proof (FallbackDemo.not_metadata 2 ltac:(lia)) as H2. revert Hi H0 H2. generalize BindDemo.blank.
  intros w Hi H0 H2.
  exact (prepare_fallback_cannot_complete (C := ToyCrypto.api) (A := ToyAes.api)
    (H := FallbackDemo.wire key) FallbackDemo.kernel BindDemo.RNG 512 4 BindDemo.inv BindDemo.view block
    (FallbackDemo.request key block) FallbackDemo.store FallbackDemo.raw AttachDemo.handle 50 100 60 w
    PrepareDemo.volume_name (FallbackDemo.driver w) eq_refl eq_refl (ex_intro _ 1%nat eq_refl) eq_refl
    (FallbackDemo.fallback_found w) Hi (fun _ _ => eq_refl) AttachDemo.is_raw FallbackDemo.fallback_locks
    (fun w Hw => ex_intro _ w (ex_intro _ _ (conj eq_refl (conj eq_refl (conj Hw (fun _ _ => eq_refl))))))
    FallbackDemo.fallback_fits eq_refl (FallbackDemo.fallback_asks key block Hl Hs)
    (FallbackDemo.fallback_driver_ok w) H0 H2).
Defined.

(** C37: Finding: this way misplaces header replicas. PREPARE writes the metadata
    through the volume's handle after it bound the filter, and relies on kernel-mode
    requests passing through; but the filter moves every READ and WRITE by the header
    region, whoever issued it. So each replica goes [off] sectors past its place: the
    one meant for sector 0 overwrites the first data sector, and none lands in the
    header region, where the loader looks. *)
Theorem fallback_misplaces_header_metadata {W} ss vs o g created addr d path src n lower ac l f :
  in_u 32 ss -> in_u 64 vs -> options_wf o -> compute_geometry ss vs o = Ok g ->
  2 * vs * ss < 2 ^ 63 -> 0 < use_header o ->
  let '(rs, off, data) :=
    prepare_geometry (use_header o) (use_footer o) (opt_metadata_size o) ss vs in
  let v := provisional_volume (W := W) path ss off data src (Some n) in
  let lbas := prepare_replica_lbas (use_header o) (use_footer o) rs vs in
  let ext := mkExt DEVICE_KIND_FILTER (Some lower) (Some addr)
               (bind created None addr (match cipher_supplier v with Some _ => true | None => false end)) in
  d !! addr = Some v -> l ∈ lbas ->
  fi_major f = IRP_MJ_WRITE -> fi_requestor_mode f = 0 -> irp_byte_offset (fi_irp f) = l * ss ->
  (exists f', handle_filter_irp d ac ext f = Some (ext, Forwarded f' NoCompletion) /\
     irp_mdl (fi_irp f') = irp_mdl (fi_irp f) /\
     irp_byte_offset (fi_irp f') = (l + g_offset_sector g) * ss /\
     g_offset_sector g * ss <= irp_byte_offset (fi_irp f')) /\
  head lbas = Some 0 /\ 0 < g_offset_sector g.
Proof.
  intros Hss Hvs Ho Hg Hbig Huh. rewrite (prepare_geometry_eq ss vs o g Hss Hvs Ho Hg).
  destruct (geometry_facts ss vs o g Hss Hvs Ho Hg) as (H1 & [] & H3 & H4 & _ & Hrs).
  intros v lbas ext Hd Hl Hm Hr Hb. unfold in_u in *.
  assert (0 <= g_offset_sector g <= vs /\ 0 < g_offset_sector g) as [Hoff Hpos] by nia.
  pose proof (layout_lba_bounds ss vs o g Hss Hvs Ho Hg l Hl) as Hlb.
  assert (filter_geometry ss (g_offset_sector g) (g_data_sectors g) v) as G.
  { constructor; (done || lia || nia). }
  assert (os_offset ss (g_offset_sector g) (irp_byte_offset (fi_irp f))) as Hos
    by (rewrite Hb; split; nia).
  split_and!; [|..|lia].
  - exists (shifted ss (g_offset_sector g) f).
    split_and!; [|done|cbn; rewrite Hb; nia|cbn; rewrite Hb; nia].
    unfold handle_filter_irp. cbn [ext de_volume mbind option_bind]. rewrite Hd, Hm. cbn.
    rewrite (filter_rw_run ss _ _ v G) by done. rewrite Hr, andb_false_r. done.
  - unfold lbas. rewrite prepare_lbas_eq.
    pose proof (layout_lbas_lookup ss vs o g Hss Hvs Ho Hg 0) as E.
    rewrite (proj2 (Z.ltb_lt _ _)) in E by (destruct Ho; lia). cbn in E.
    destruct (layout_lbas vs o g) as [|x xs]; [done|].
    unfold block_lba, region in E. rewrite (proj2 (Z.ltb_lt _ _)) in E by lia.
    rewrite <- (Z.mul_0_l (opt_metadata_size o `div` ss)). exact E.
Qed.

(** A header and a footer replica on a 600-sector volume: the header block written at
    sector 0 reaches sector 256, the first of the data region. *)
Definition header_write : FilterIrp :=
  mkFilterIrp (mkIRP 5 0 512 (Some (replicate 512 Byte.x4a)) false false 0 0 0) IRP_MJ_WRITE 0 0 0
    None.

Lemma fallback_misplaces_header_metadata_witness :
  let v := provisional_volume (W := unit) PrepareDemo.volume_name 512 256 88 Volume.Ioctl (Some 1%nat) in
  let ext := mkExt DEVICE_KIND_FILTER (Some 7%nat) (Some 0%nat) (bind true None 0%nat false) in
  prepare_replica_lbas 1 1 256 600 = [0; 599] /\
  exists f', handle_filter_irp {[0%nat := v]} true ext header_write =
      Some (ext, Forwarded f' NoCompletion) /\
    irp_mdl (fi_irp f') = irp_mdl (fi_irp header_write) /\ irp_byte_offset (fi_irp f') = 256 * 512.
Proof.
  split; [reflexivity|].
  assert (compute_geometry 512 600 StoreDemo.options = Ok StoreDemo.geometry) as Hg by reflexivity.
  destruct (fallback_misplaces_header_metadata (W := unit) 512 600 StoreDemo.options
    StoreDemo.geometry true 0%nat
    {[0%nat := provisional_volume PrepareDemo.volume_name 512 256 88 Volume.Ioctl (Some 1%nat)]}
    PrepareDemo.volume_name Volume.Ioctl 1%nat 7%nat true 0 header_write ltac:(unfold in_u; lia)
    ltac:(unfold in_u; lia) StoreDemo.options_ok Hg ltac:(lia) ltac:(cbn; lia)
    (lookup_singleton_eq _ _) (list_elem_of_here _ _) eq_refl eq_refl eq_refl)
    as [(f' & E1 & E2 & E3 & _) _].
  exists f'. split_and!; assumption.
Defined.

(** ** The partition's start *)

(** [PARTITION_INFORMATION_EX] as the kernel documents it, 144 bytes with the start at
    byte 8; the handlers take bytes 4 to 12 for it. *)
Definition PARTITION_INFORMATION_EX_SIZE : nat := 144.
Definition partition_information (style off : Z) (rest : bytes) : bytes :=
  le_encode 4 style ++ replicate 4 Byte.x00 ++ le_encode 8 off ++ rest.

Lemma misread_start style off rest :
  le_decode (slice 4 8 (partition_information style off rest)) = 2 ^ 32 * (off mod 2 ^ 32).
Proof.
  assert (slice 4 8 (partition_information style off rest) =
    replicate 4 Byte.x00 ++ le_encode 4 off) as ->.
  { unfold partition_information, slice. cbn [le_encode app replicate]. done. }
  rewrite le_decode_app, le_decode_encode. done.
Qed.

(** C38: Finding: PREPARE never learns where the partition starts. Both ways ask for the
    partition information with a buffer of 64 bytes; a kernel that, as documented, refuses
    one too small for the structure with STATUS_BUFFER_TOO_SMALL leaves it as it was. So
    both report a start of 0, wherever the partition is, and the fallback never sweeps
    the raw disk from there, as it means to, but the raw partition. *)
Theorem partition_start_is_never_read {P W0} (K : Kernel W0) (d : Driver P W0) nt_path io_path ss data
    h sdn disk part :
  (forall w, k_open_raw K nt_path w = (w, Some h)) ->
  (forall w, fh_ioctl h IOCTL_STORAGE_GET_DEVICE_NUMBER (replicate 12 Byte.x00) w = (w, (0, sdn))) ->
  le_decode (slice 4 4 sdn) = disk -> le_decode (slice 8 4 sdn) = part -> 0 < disk \/ 0 < part ->
  (forall buf w, (length buf < PARTITION_INFORMATION_EX_SIZE)%nat ->
     fh_ioctl h IOCTL_DISK_GET_PARTITION_INFO_EX buf w = (w, (STATUS_BUFFER_TOO_SMALL, buf))) ->
  let found := (partition_path disk part, disk_path disk, 0) in
  storage_paths K nt_path ss d = (d, Ok found) /\
  storage_paths_checked K nt_path ss d = (d, Ok found) /\
  (paths ← storage_paths_checked K nt_path ss; open_sweep_io K io_path paths ss data) d =
    (io ← kworld (kv_open (k_create_file K) (volume_id (partition_path disk part)) ss data);
     mret (KernelVolume_io io)) d.
Proof.
  intros Hopen Hnum Hd Hp Hknown Hinfo found.
  assert (forall s : Driver P W0, with_world ((dr_world s).1, (dr_world s).2) s = s) as Hw
    by (intros [? ? ? ? [? ?]]; done).
  assert (kcall (k_open_raw K nt_path) d = (d, Ok (Some h))) as E1
    by (unfold kcall; rewrite kworld_run, Hopen, Hw; done).
  assert (raw_ioctl h IOCTL_STORAGE_GET_DEVICE_NUMBER 12 d = (d, Ok (0, sdn))) as E2
    by (unfold raw_ioctl, kcall; rewrite kworld_run, Hnum, Hw; done).
  assert (raw_ioctl h IOCTL_DISK_GET_PARTITION_INFO_EX 64 d =
    (d, Ok (STATUS_BUFFER_TOO_SMALL, replicate 64 Byte.x00))) as E3.
  { unfold raw_ioctl, kcall. rewrite kworld_run, Hinfo, Hw; [done|].
    unfold PARTITION_INFORMATION_EX_SIZE. rewrite length_replicate. lia. }
  assert (storage_paths_checked K nt_path ss d = (d, Ok found)) as E.
  { unfold storage_paths_checked, open_volume_handle_raw. rewrite (mbind_step _ _ _ _ _ E1).
    rewrite mbind_run, (mbind_step _ _ _ _ _ E2). cbv beta iota. rewrite (mbind_step _ _ _ _ _ E3).
    unfold mret at 1, M_ret at 1.
    change (nt_success 0) with true. change (nt_success STATUS_BUFFER_TOO_SMALL) with false.
    cbv beta iota zeta. cbn [fst snd]. rewrite Hd, Hp.
    assert ((0 <? disk) || (0 <? part) = true) as ->; [|done].
    destruct Hknown; apply orb_true_iff; [left|right]; apply Z.ltb_lt; done. }
  split; [|split; [exact E|]].
  - unfold storage_paths, open_volume_handle_raw. rewrite (mbind_step _ _ _ _ _ E1).
    rewrite mbind_run, (mbind_step _ _ _ _ _ E2). cbv beta iota. rewrite (mbind_step _ _ _ _ _ E3).
    unfold mret at 1, M_ret at 1. cbv beta iota zeta. rewrite Hd, Hp. done.
  - rewrite (mbind_step _ _ _ _ _ E). unfold open_sweep_io, found. cbv zeta.
    rewrite !bool_decide_false by done. done.
Qed.

(** Partition 2 of disk 1, which starts at 1 MiB. *)
Definition started_raw : FileHandle MemVolume := {|
  fh_ioctl code out w :=
    (w, if code =? IOCTL_STORAGE_GET_DEVICE_NUMBER
        then (0, splice 4 (le_encode 4 1) (splice 8 (le_encode 4 2) out))
        else if (length out <? PARTITION_INFORMATION_EX_SIZE)%nat then (STATUS_BUFFER_TOO_SMALL, out)
        else (0, partition_information 1 (2 ^ 20) (replicate 128 Byte.x00)));
  fh_fsctl _ w := (w, 0);
  fh_read _ buf w := (w, (STATUS_UNSUCCESSFUL, buf));
  fh_write _ buf w := (w, (STATUS_UNSUCCESSFUL, buf));
|}.

Lemma partition_start_is_never_read_witness :
  storage_paths_checked (BindDemo.kernel_with AttachDemo.handle started_raw) "" 512
      (FallbackDemo.driver BindDemo.blank) =
    (FallbackDemo.driver BindDemo.blank,
     Ok ("\Device\Harddisk1\Partition2"%string, "\Device\Harddisk1\DR0"%string, 0)).
Proof.
  refine (proj1 (proj2 (partition_start_is_never_read (BindDemo.kernel_with AttachDemo.handle started_raw)
    (FallbackDemo.driver BindDemo.blank) "" "" 512 3 started_raw
    (splice 4 (le_encode 4 1) (splice 8 (le_encode 4 2) (replicate 12 Byte.x00))) 1 2
    (fun _ => eq_refl) (fun _ => eq_refl) eq_refl eq_refl (or_introl eq_refl) _))).
  intros buf w Hl. cbn [fh_ioctl started_raw].
  rewrite (proj2 (Nat.ltb_lt _ _) Hl). reflexivity.
Defined.
