(* ===== verification/OsVolume.v ===== *)
(** * The protection of an encrypted OS volume

    The filter of an OS volume with encrypted sectors stays bound, and its registry
    entry stays, through every control request but PREPARE and ATTACH. *)

From S2P Require Import Prelude Types Sectors Engine Nt Pipeline Volume Thread Xts Metadata Store Filter Io Handover Registry Manager Provider Dispatch Attach AttachLaws.

(** ** The OS volume

    [os_protected p a d v0 e0]: the volume at [a], filed under [p], is [v0] up to
    the state of its engine, an OS volume with encrypted sectors; its filter [d]
    has the extension [e0], bound to [a], up to the event of its thread; no other
    registered volume uses [d]. *)

Definition woken (e : DeviceExtension) : DeviceExtension :=
  mkExt (de_kind e) (de_lower_device e) (de_volume e) (vt_signal <$> de_vthread e).

Lemma woken_idem e : woken (woken e) = woken e.
Proof. destruct e as [k l v [vt|]]; done. Qed.

Section OsVolume.
Context `{A : AesApi} `{Wire} {P W0 : Type}.
Context (K : Kernel W0) (provider : option (VolumeProvider P W0)).
Context (p : string) (a d : nat) (v0 : AttachedVolume (P * W0)) (e0 : DeviceExtension).
Implicit Types s : Driver P W0.

Record os_protected s : Prop := {
  op_wf : driver_wf s;
  op_os : is_os_volume v0 = true;
  op_encrypted : has_encrypted_data v0 = true;
  op_filter : av_filter_device v0 = Some d;
  op_ext : de_volume e0 = Some a;
  op_entry : registry_get p (dr_registry s) = Some a;
  op_volume : exists en, dr_heap s !! a = Some (set_encryption en v0);
  op_device : dr_devices s !! d = Some e0 \/ dr_devices s !! d = Some (woken e0);
  op_alone k b u : (k, b) ∈ rg_entries (dr_registry s) -> dr_heap s !! b = Some u ->
    av_filter_device u = Some d -> b = a;
}.

#[export] Instance os_protected_inv : ObjectInv os_protected.
Proof.
  intros s s' [Hr Hh Hd] []. constructor; rewrite ?Hr, ?Hh, ?Hd; try done.
  apply (object_inv (I := driver_wf) s); done.
Qed.

Lemma entry_address k b s : os_protected s -> (k, b) ∈ rg_entries (dr_registry s) -> k = p <-> b = a.
Proof using Type.
  intros O Hin. destruct O as [[[Hs Hf] _] _ _ _ _ Hp (en & Hv) _ _].
  destruct (Hf _ _ Hin) as (u & Hu & Hk).
  apply (bt_get_elem _ _ _ Hs) in Hp as Hin'. split.
  - intros ->. pose proof (proj2 (bt_get_elem _ _ _ Hs) Hin) as E.
    unfold registry_get in Hp. congruence.
  - intros ->. destruct (Hf _ _ Hin') as (u' & Hu' & Hk'). congruence.
Qed.

(** Updates of the heap that keep every volume but for its engine. *)
Lemma os_set_encryption s b v en :
  dr_heap s !! b = Some v -> os_protected s ->
  os_protected (with_heap (<[b := set_encryption en v]> (dr_heap s)) s).
Proof using Type.
  intros Hb O. pose proof O as []. constructor; cbn; try done.
  - eapply keep_set_volume; done.
  - destruct op_volume0 as [en' Ha]. destruct (decide (a = b)) as [->|Hn].
    + exists en. rewrite lookup_insert_eq. rewrite Ha in Hb. simplify_eq. done.
    + exists en'. rewrite lookup_insert_ne by done. done.
  - intros k c u Hin Hu Hf. destruct (decide (b = c)) as [->|Hn].
    + rewrite lookup_insert_eq in Hu. simplify_eq. eapply op_alone0; done.
    + rewrite lookup_insert_ne in Hu by done. eapply op_alone0; done.
Qed.

Lemma os_pause b : preserves os_protected (pause_volume b).
Proof using Type.
  intros s O Hp. unfold pause_volume in *. rewrite mbind_run in *.
  destruct (volume_at_run b s) as [(v & Hv & E)|E]; rewrite E in *; [|done].
  apply os_set_encryption; done.
Qed.

Lemma os_with_engine {B} b
    (m : EncryptedOffsetStore (P * W0) -> M VckError (EncryptionEngine * (P * W0)) B) :
  preserves os_protected (with_engine b m).
Proof using Type.
  intros s O Hp. destruct (with_engine_run b m s) as [E|(v & e & w & Hv & -> & _)].
  - rewrite E in Hp. done.
  - eapply (object_inv (I := os_protected)); [|apply os_set_encryption; done]. done.
Qed.

Lemma os_set_ext s n e :
  (n = d -> e = e0 \/ e = woken e0) -> ext_wf (dr_heap s) e -> os_protected s ->
  os_protected (with_devices (<[n := e]> (dr_devices s)) s).
Proof using Type.
  intros He Hw O. pose proof O as []. constructor; cbn; try done.
  - apply driver_wf_ext; done.
  - destruct (decide (n = d)) as [->|Hn].
    + rewrite lookup_insert_eq. destruct He as [-> | ->]; auto.
    + rewrite lookup_insert_ne by done. done.
Qed.

Lemma os_wake b : preserves os_protected (wake_volume b).
Proof using Type.
  intros s O Hp. destruct (wake_volume_run b s) as [E|[->|(n & e & He & ->)]]; [done|done|].
  apply os_set_ext; [|apply ext_wf_wake; eapply dw_devices; [apply O|done]|done].
  intros ->. destruct O as []. right. fold (woken e).
  destruct op_device0 as [E|E]; rewrite E in He; simplify_eq; [done|apply woken_idem].
Qed.

Lemma os_unbind n : n <> Some d -> preserves os_protected (unbind_filter n).
Proof using Type.
  intros Hn s O Hp. destruct (unbind_filter_run n s) as [[_ ->]|[E|(m & e & -> & He & ->)]]; [done| |].
  - rewrite E in Hp. done.
  - eapply (object_inv (I := os_protected)); [|apply (os_set_ext s m); [| |done]]; [done|congruence|].
    constructor; done.
Qed.

Lemma os_detach_filter n : n <> Some d -> preserves os_protected (detach_filter K n).
Proof using Type.
  intros Hn s O Hp.
  destruct (detach_filter_run K n s) as [[_ ->]|[E|(m & e & w & -> & He & ->)]]; [done| |].
  - rewrite E in Hp. done.
  - eapply (object_inv (I := os_protected)) with (s := with_devices (delete m (dr_devices s)) s); [done|].
    pose proof O as []. constructor; cbn; try done; [apply driver_wf_delete; done|].
    rewrite lookup_delete_ne by congruence. done.
Qed.

(** Removing another entry, and clearing the filter of its volume. *)
Lemma os_take_swap path s :
  path <> p -> os_protected s ->
  let r := (removed ← take_volume path;
            b ← lift (ok_or removed (NotFound "volume is not attached"));
            swap_filter b) s in
  r.2 <> Panic -> os_protected r.1 /\ (forall n, r.2 = Ok n -> n <> Some d).
Proof using Type.
  intros Hne O. cbv zeta. pose proof O as [Hwf _ _ _ _ Hp (en & Ha) _ Hal].
  destruct Hwf as [Hr Hd]. pose proof Hr as [Hs Hf].
  set (s1 := with_registry (set_entries (bt_remove path (rg_entries (dr_registry s))) (dr_registry s)) s).
  assert (os_protected s1) as O1.
  { destruct O. constructor; cbn; try done.
    - apply (keep_take_volume path s op_wf0). done.
    - unfold registry_get, s1. cbn. rewrite bt_get_remove by done.
      rewrite decide_False by congruence. done.
    - intros k b u Hin. eapply op_alone0. eapply elem_of_bt_remove. done. }
  unfold take_volume. rewrite mbind_run. cbn [registry_remove]. fold s1.
  rewrite mbind_run. cbn [lift].
  destruct (bt_get path (rg_entries (dr_registry s))) as [b|] eqn:Hb; cbn [ok_or]; [|done].
  unfold swap_filter. rewrite mbind_run.
  destruct (volume_at_run b s1) as [(v & Hv & ->)| ->]; [|done].
  rewrite mbind_run. unfold set_volume, mmodify. cbn. intros _.
  apply bt_get_elem in Hb; [|done].
  assert (b <> a) as Hba.
  { intros ->. apply Hne. apply (entry_address path a s O Hb). done. }
  assert (av_filter_device v <> Some d) as Hvd by (intros E; apply Hba; eapply Hal; done).
  split; [|intros n [= <-]; done].
  destruct O1. constructor; cbn; try done.
  - apply (keep_set_volume s1 b v); done.
  - exists en. rewrite lookup_insert_ne by done. done.
  - intros k c u Hin Hu Hc. destruct (decide (b = c)) as [->|Hn].
    + rewrite lookup_insert_eq in Hu. simplify_eq.
    + rewrite lookup_insert_ne in Hu by done. eapply op_alone0; done.
Qed.

#[local] Hint Resolve os_pause os_with_engine os_wake : keep.

Lemma os_detach_dismount path ignore_open keep_filter :
  path <> p -> preserves os_protected (detach_volume_with_dismount K path ignore_open keep_filter).
Proof using Type.
  intros Hne s O Hp.
  set (tail := fun filter_do : PDEVICE_OBJECT =>
    vol_handle ← open_volume_handle_raw (P := P) K (win32_volume_path_to_nt path);
    _ ← (match vol_handle with
         | None => mret tt
         | Some h =>
             lock_st ← send_fsctl h FSCTL_LOCK_VOLUME;
             if negb (nt_success lock_st) && negb ignore_open
             then mfail (Io "FSCTL_LOCK_VOLUME failed (files open)")
             else
               _ ← dismount MAX_RETRIES h;
               if nt_success lock_st
               then _ ← send_fsctl h FSCTL_UNLOCK_VOLUME; mret tt
               else mret tt
         end);
    match filter_do with
    | None => mret tt
    | Some _ => if keep_filter then unbind_filter filter_do else detach_filter K filter_do
    end).
  pose proof (os_take_swap path s Hne O) as Ht. cbv zeta in Ht.
  set (head := removed ← take_volume path;
               b ← lift (ok_or removed (NotFound "volume is not attached"));
               swap_filter b) in Ht.
  assert (detach_volume_with_dismount K path ignore_open keep_filter s = (head ≫= tail) s) as E.
  { unfold detach_volume_with_dismount, head, tail, mbind, M_bind.
    destruct (take_volume path s) as [s1 [[b|]| |]]; done. }
  rewrite E in *. rewrite mbind_run in Hp |- *.
  destruct (head s) as [s1 [n|e|]]; cbn in Ht; [|apply Ht; done|done].
  destruct (Ht ltac:(done)) as [O1 Hn]. specialize (Hn n eq_refl).
  assert (preserves os_protected (tail n)) as Hk.
  { unfold tail, open_volume_handle_raw. pose proof os_unbind. pose proof os_detach_filter. keep. }
  apply Hk; done.
Qed.

(** The list of every registered volume. *)
Lemma volumes_at_ok l s vs :
  (volumes_at l s).2 = Ok vs ->
  Forall (fun q => q.1 ∈ l /\ dr_heap s !! q.1 = Some q.2) vs.
Proof using Type.
  revert vs. induction l as [|b l IH]; intros vs; cbn [volumes_at].
  - intros [= <-]. constructor.
  - rewrite mbind_run. destruct (volume_at_run b s) as [(v & Hv & ->)| ->]; [|done].
    rewrite mbind_run. pose proof (frames_volumes_at l s) as Hfr.
    destruct (volumes_at l s) as [s1 [us| |]] eqn:E; [|done..]. intros [= <-].
    constructor; cbn; [split; [apply elem_of_cons; auto|done]|].
    eapply Forall_impl; [apply IH; done|]. intros q [? ?]. split; [apply elem_of_cons; auto|done].
Qed.

Lemma all_volumes_ok s vs :
  (all_volumes s).2 = Ok vs ->
  Forall (fun q => (exists k, (k, q.1) ∈ rg_entries (dr_registry s)) /\
                   dr_heap s !! q.1 = Some q.2) vs.
Proof using Type.
  intros E. eapply Forall_impl; [apply volumes_at_ok; exact E|].
  intros q [Hq ?]. split; [|done]. apply elem_of_all. done.
Qed.

Lemma os_handle_detach input : preserves os_protected (handle_detach K input).
Proof using Type.
  unfold handle_detach. apply preserves_bind; [keep|]. intros req.
  intros s O. rewrite mbind_run. cbn [registry].
  destruct (decide (vr_volume_path req = p)) as [->|Hne].
  - pose proof O as []. rewrite op_entry0. destruct op_volume0 as [en Ha].
    rewrite !mbind_run. unfold volume_at. rewrite Ha. cbn [unwrap].
    replace (is_os_volume (set_encryption en v0)) with true by (symmetry; exact op_os0).
    replace (has_encrypted_data (set_encryption en v0)) with true by (symmetry; exact op_encrypted0).
    done.
  - pose proof os_detach_dismount. match goal with |- context [?m s] =>
      assert (preserves os_protected m) as Hm by keep; apply Hm; done end.
Qed.

Lemma os_detach_all : preserves os_protected (handle_detach_all_volumes K).
Proof using Type.
  intros s O. unfold handle_detach_all_volumes. rewrite mbind_run.
  pose proof (frames_all_volumes s) as Hfr. pose proof (all_volumes_ok s) as Hall.
  destruct (all_volumes s) as [s1 [vs| |]]; cbn in *; [|intros _|done].
  - assert (os_protected s1) as O1 by (eapply object_inv; done).
    assert (preserves os_protected
      (_ ← miter (fun path => ignore (detach_volume_with_dismount (P := P) K path true false))
             ((fun q => av_volume_path q.2) <$> filter (fun q => is_os_volume q.2 = false) vs);
       mret ([] : bytes))) as Hm; [|apply Hm; done].
    apply preserves_bind; [|intros _; keep]. apply preserves_miter. intros path Hin.
    apply preserves_ignore. apply os_detach_dismount. intros ->.
    apply list_elem_of_fmap in Hin as ((b & v) & Hpv & Hin).
    apply list_elem_of_filter in Hin as [Hos Hin]. cbn in *.
    specialize (Hall vs eq_refl). rewrite Forall_forall in Hall.
    destruct (Hall _ Hin) as [(k & Hk) Hb]. cbn in *.
    pose proof O as []. destruct op_wf0 as [[_ Hf] _]. destruct (Hf _ _ Hk) as (u & Hu & Hku).
    assert (k = p) as -> by congruence. apply (entry_address _ _ _ O) in Hk as Hba.
    destruct op_volume0 as [en Ha]. assert (b = a) as -> by tauto.
    rewrite Ha in Hb. simplify_eq. unfold is_os_volume in *. cbn in *. congruence.
  - eapply object_inv; done.
Qed.

(** Every request but the two that bind volumes. *)
Lemma os_dispatch auth pc ctx input :
  ia_ioctl_code ctx <> IOCTL_JVCK_PREPARE -> ia_ioctl_code ctx <> IOCTL_JVCK_ATTACH ->
  preserves os_protected (dispatch_ioctl K provider auth pc ctx input).
Proof using Type.
  intros H1 H2. unfold dispatch_ioctl. apply preserves_bind; [keep|]. intros _. cbv zeta.
  rewrite (proj2 (Z.eqb_neq _ _) H1), (proj2 (Z.eqb_neq _ _) H2).
  pose proof os_handle_detach. pose proof os_detach_all.
  repeat case_match; auto; unfold handle_start_encrypt, handle_start_decrypt, handle_pause,
    handle_pause_os_volume; keep; apply preserves_miter; intros; keep.
Qed.
End OsVolume.

(** ** Detaching the data volumes

    With every filter live and used by one volume, DETACH_ALL runs to its end and
    leaves OS volumes only. *)

Section DetachAll.
Context `{A : AesApi} `{Wire} {P W0 : Type}.
Context (K : Kernel W0).
Abbreviation DM := (M VckError (Driver P W0)).
Implicit Types s : Driver P W0.

(** A computation that leaves the objects alone and does not panic. *)
Definition safe {B} (m : DM B) : Prop := forall s, same_objects s (m s).1 /\ (m s).2 <> Panic.

Lemma os_safe_ret {B} (b : B) : safe (mret b).
Proof. intros s. done. Qed.
Lemma os_safe_fail {B} e : safe (mfail e : DM B).
Proof. intros s. done. Qed.
Lemma safe_kcall {B} (f : W0 -> W0 * B) : safe (kcall f).
Proof.
  intros s. split; [apply frames_kcall|]. unfold kcall, kworld, world, on_snd, zoom.
  destruct (f _). done.
Qed.
Lemma os_safe_bind {B D} (m : DM B) (k : B -> DM D) :
  safe m -> (forall b, safe (k b)) -> safe (m ≫= k).
Proof.
  intros Hm Hk s. rewrite mbind_run. destruct (Hm s) as [Ho Hp].
  destruct (m s) as [s1 [b|e|]]; cbn in *; [|done..].
  destruct (Hk b s1) as [Ho' ?]. split; [etrans; done|done].
Qed.
Create HintDb safe.
#[local] Hint Resolve os_safe_ret os_safe_fail safe_kcall : safe.
Ltac safe := repeat (first [solve [eauto with safe] | apply os_safe_bind; [|intros ?] | case_match]).

Lemma safe_fsctl h code : safe (send_fsctl (W0 := W0) h code).
Proof. apply safe_kcall. Qed.
#[local] Hint Resolve safe_fsctl : safe.
Lemma safe_dismount n h : safe (dismount (W0 := W0) n h).
Proof. induction n as [|n IH]; cbn [dismount]; safe. Qed.
#[local] Hint Resolve safe_dismount : safe.

(** Lock, dismount and unlock. *)
Definition dismount_part (path : string) (ignore_open : bool) : DM unit :=
  vol_handle ← open_volume_handle_raw K (win32_volume_path_to_nt path);
  match vol_handle with
  | None => mret tt
  | Some h =>
      lock_st ← send_fsctl h FSCTL_LOCK_VOLUME;
      if negb (nt_success lock_st) && negb ignore_open
      then mfail (Io "FSCTL_LOCK_VOLUME failed (files open)")
      else
        _ ← dismount MAX_RETRIES h;
        if nt_success lock_st
        then _ ← send_fsctl h FSCTL_UNLOCK_VOLUME; mret tt
        else mret tt
  end.

Lemma safe_dismount_part path ignore_open : safe (dismount_part path ignore_open).
Proof. unfold dismount_part, open_volume_handle_raw. safe. Qed.

(** The registry without [path], and the volume at [b] without its filter. *)
Definition unregistered (path : string) s : Driver P W0 :=
  with_registry (set_entries (bt_remove path (rg_entries (dr_registry s))) (dr_registry s)) s.
Definition unfiltered (b : nat) (v : AttachedVolume (P * W0)) s : Driver P W0 :=
  with_heap (<[b := set_filter_device None v]> (dr_heap s)) s.

Lemma detach_run path ignore_open keep_filter s :
  driver_wf s ->
  registry_get path (dr_registry s) = None /\
  detach_volume_with_dismount K path ignore_open keep_filter s =
    (unregistered path s, Err (NotFound "volume is not attached")) \/
  exists b v, registry_get path (dr_registry s) = Some b /\ dr_heap s !! b = Some v /\
    detach_volume_with_dismount K path ignore_open keep_filter s =
      (_ ← dismount_part path ignore_open;
       match av_filter_device v with
       | None => mret tt
       | Some _ => if keep_filter then unbind_filter (av_filter_device v)
                   else detach_filter K (av_filter_device v)
       end) (unfiltered b v (unregistered path s)).
Proof.
  intros Hwf. unfold detach_volume_with_dismount, take_volume. rewrite mbind_run.
  cbn [registry_remove]. fold (unregistered path s). unfold registry_get.
  destruct (bt_get path (rg_entries (dr_registry s))) as [b|] eqn:Hb; [right|left; done].
  destruct (registry_get_filed (dr_heap s) (dr_registry s) path b) as (v & Hv & _);
    [apply Hwf|done|]. exists b, v. split_and!; [done..|].
  rewrite !mbind_run. cbn [lift ok_or]. rewrite mbind_run. unfold swap_filter. rewrite mbind_run.
  unfold volume_at. cbn [dr_heap unregistered with_registry]. rewrite Hv. cbn [unwrap].
  rewrite mbind_run. unfold set_volume, mmodify. cbn [mret M_ret].
  fold (unfiltered b v (unregistered path s)). unfold dismount_part.
  rewrite !mbind_run. destruct (open_volume_handle_raw K _ _) as [s1 [h| |]]; done.
Qed.

Record filters_owned s : Prop := {
  fo_live k b u n : (k, b) ∈ rg_entries (dr_registry s) -> dr_heap s !! b = Some u ->
    av_filter_device u = Some n -> is_Some (dr_devices s !! n);
  fo_inj k b u k' b' u' n :
    (k, b) ∈ rg_entries (dr_registry s) -> dr_heap s !! b = Some u -> av_filter_device u = Some n ->
    (k', b') ∈ rg_entries (dr_registry s) -> dr_heap s !! b' = Some u' ->
    av_filter_device u' = Some n -> b = b';
}.

(** Entries only disappear, and the volumes of the ones that stay are untouched. *)
Definition shrinks s s' : Prop := forall k c,
  (k, c) ∈ rg_entries (dr_registry s') ->
  (k, c) ∈ rg_entries (dr_registry s) /\ dr_heap s' !! c = dr_heap s !! c.

#[export] Instance shrinks_preorder : PreOrder shrinks.
Proof.
  split; [intros s k c ?; done|]. intros s1 s2 s3 H1 H2 k c Hin.
  destruct (H2 k c Hin) as [Hin2 ->]. apply H1. done.
Qed.

(** What a detach leaves, whichever way it ends. *)
Lemma removed_owned path b v s s' :
  driver_wf s -> filters_owned s -> registry_get path (dr_registry s) = Some b ->
  dr_heap s !! b = Some v ->
  dr_registry s' = dr_registry (unregistered path s) ->
  dr_heap s' = <[b := set_filter_device None v]> (dr_heap s) ->
  (forall n, av_filter_device v <> Some n -> is_Some (dr_devices s !! n) ->
     is_Some (dr_devices s' !! n)) ->
  filters_owned s' /\ shrinks s s' /\ registry_get path (dr_registry s') = None.
Proof.
  intros [[Hs Hf] _] [Hl Hi] Hb Hv Hr Hh Hd. apply bt_get_elem in Hb; [|done].
  assert (forall k c, (k, c) ∈ rg_entries (dr_registry s') ->
    (k, c) ∈ rg_entries (dr_registry s) /\ c <> b) as Hin.
  { intros k c H1. rewrite Hr in H1. cbn in H1. split; [eapply elem_of_bt_remove; done|].
    intros ->. destruct (Hf _ _ (elem_of_bt_remove _ _ _ H1)) as (u & Hu & <-).
    destruct (Hf _ _ Hb) as (u' & Hu' & <-). simplify_eq.
    apply bt_get_elem in H1; [|apply bt_remove_sorted; done].
    rewrite bt_get_remove, decide_True in H1 by done. done. }
  split_and!.
  - constructor.
    + intros k c u n H1 Hu Hn. destruct (Hin _ _ H1) as [H2 Hc].
      rewrite Hh, lookup_insert_ne in Hu by done.
      apply Hd; [|eapply Hl; done]. intros Hm. apply Hc. eapply Hi; done.
    + intros k c u k' c' u' n H1 Hu Hn H1' Hu' Hn'.
      destruct (Hin _ _ H1) as [? ?], (Hin _ _ H1') as [? ?].
      rewrite Hh, lookup_insert_ne in Hu, Hu' by done. eapply Hi; done.
  - intros k c H1. destruct (Hin _ _ H1). split; [done|]. rewrite Hh, lookup_insert_ne; done.
  - rewrite Hr. unfold registry_get. cbn. rewrite bt_get_remove, decide_True; done.
Qed.

Lemma unregistered_owned path s :
  driver_wf s -> filters_owned s ->
  filters_owned (unregistered path s) /\ shrinks s (unregistered path s) /\
  registry_get path (dr_registry (unregistered path s)) = None.
Proof.
  intros [[Hs Hf] _] [Hl Hi]. split_and!.
  - constructor; cbn; intros; [eapply Hl|eapply Hi]; eauto using elem_of_bt_remove.
  - intros k c Hin. split; [eapply elem_of_bt_remove; exact Hin|done].
  - unfold registry_get. cbn. rewrite bt_get_remove, decide_True; done.
Qed.

Lemma detach_one path s :
  driver_wf s -> filters_owned s ->
  let r := detach_volume_with_dismount K path true false s in
  r.2 <> Panic /\ driver_wf r.1 /\ filters_owned r.1 /\ shrinks s r.1 /\
  registry_get path (dr_registry r.1) = None.
Proof.
  intros Hwf Hown. cbv zeta. pose proof (keep_detach_dismount K path true false s Hwf) as Hkeep.
  destruct (detach_run path true false s Hwf) as [[Hn E]|(b & v & Hb & Hv & E)]; rewrite E in *.
  { split; [done|]. split; [apply Hkeep; done|]. apply unregistered_owned; done. }
  set (s2 := unfiltered b v (unregistered path s)) in *.
  destruct (safe_dismount_part path true s2) as [[Hr Hh Hd] Hnp]. rewrite mbind_run in *.
  pose proof (removed_owned path b v s) as Hrm.
  destruct (dismount_part path true s2) as [s3 [[]|e|]]; cbn [fst snd] in *; [| |done].
  2: { split; [done|]. split; [apply Hkeep; done|].
       apply Hrm; try done. rewrite Hd. done. }
  destruct (av_filter_device v) as [n|] eqn:Hm.
  2: { split; [done|]. split; [apply Hkeep; done|].
       apply Hrm; try done. cbn. rewrite Hd. done. }
  assert ((path, b) ∈ rg_entries (dr_registry s)) as Hin.
  { apply bt_get_elem; [apply Hwf|done]. }
  destruct (fo_live s Hown _ _ _ _ Hin Hv Hm) as [e He].
  destruct (detach_filter_ok K n e s3) as [w E2]; [rewrite Hd; done|]. rewrite E2 in *.
  split; [done|]. split; [apply Hkeep; done|]. apply Hrm; try done.
  intros k Hk. cbn. rewrite Hd. rewrite lookup_delete_ne by congruence. done.
Qed.

(** Detaching a list of paths. *)
Lemma detach_many paths s :
  driver_wf s -> filters_owned s ->
  let r := miter (fun path => ignore (detach_volume_with_dismount K path true false)) paths s in
  r.2 = Ok tt /\ driver_wf r.1 /\ filters_owned r.1 /\ shrinks s r.1 /\
  forall path, path ∈ paths -> registry_get path (dr_registry r.1) = None.
Proof.
  revert s. induction paths as [|path paths IH]; intros s Hwf Hown; cbv zeta; cbn [miter].
  { split_and!; try done. intros path Hin. apply elem_of_nil in Hin. done. }
  rewrite mbind_run. unfold ignore at 1 3 5 7 9.
  pose proof (detach_one path s Hwf Hown) as H1. cbv zeta in H1.
  destruct (detach_volume_with_dismount K path true false s) as [s1 r1]; cbn [fst snd] in H1.
  destruct H1 as (Hp & Hwf1 & Hown1 & Hsh1 & Hn1). specialize (IH s1 Hwf1 Hown1). cbv zeta in IH.
  destruct r1 as [[]|e|]; [| |done].
  all: destruct (miter _ paths s1) as [s2 r2]; cbn [fst snd] in *.
  all: destruct IH as (-> & Hwf2 & Hown2 & Hsh2 & Hn2); split_and!; try done; [etrans; done|].
  all: intros q Hq; apply elem_of_cons in Hq as [->|Hq]; [|auto].
  all: destruct (registry_get path (dr_registry s2)) as [c|] eqn:E; [|done].
  all: apply bt_get_elem in E; [|apply Hwf2]; apply Hsh2 in E as [E _].
  all: apply bt_get_elem in E; [|apply Hwf1]; unfold registry_get in Hn1; congruence.
Qed.

(** The list of every registered volume, on a well-formed state. *)
Lemma all_volumes_run s :
  driver_wf s ->
  exists vs, all_volumes s = (s, Ok vs) /\
    forall a v, (exists k, (k, a) ∈ rg_entries (dr_registry s)) /\ dr_heap s !! a = Some v <->
      (a, v) ∈ vs.
Proof.
  intros [[_ Hf] _]. unfold all_volumes. rewrite (mbind_step _ _ _ s (dr_registry s)) by done.
  assert (forall l, (forall a, a ∈ l -> is_Some (dr_heap s !! a)) ->
    exists vs, volumes_at l s = (s, Ok vs) /\
      forall a v, a ∈ l /\ dr_heap s !! a = Some v <-> (a, v) ∈ vs) as Hl.
  { induction l as [|b l IH]; intros Hl; cbn [volumes_at].
    - exists []. split; [done|]. intros a v. rewrite !elem_of_nil. tauto.
    - destruct (Hl b) as [u Hu]; [apply elem_of_cons; auto|].
      destruct IH as (vs & E & Hvs); [intros; apply Hl; apply elem_of_cons; auto|].
      exists ((b, u) :: vs). rewrite (mbind_step _ _ _ s u) by (unfold volume_at; rewrite Hu; done).
      rewrite (mbind_step _ _ _ _ _ E). split; [done|]. intros a v.
      rewrite !elem_of_cons, <- Hvs. split; [intros [[->|?] ?]|intros [[= -> ->]|[? ?]]];
        simplify_eq; auto. }
  destruct (Hl (registry_all (dr_registry s))) as (vs & E & Hvs).
  - intros a Ha. apply elem_of_all in Ha as [k Hk]. destruct (Hf _ _ Hk) as (v & Hv & _). eauto.
  - exists vs. split; [done|]. intros a v. rewrite <- Hvs, elem_of_all. done.
Qed.

(** DETACH_ALL leaves the OS volumes, untouched. *)
Lemma detach_all_run s :
  driver_wf s -> filters_owned s ->
  let r := handle_detach_all_volumes K s in
  r.2 = Ok [] /\ driver_wf r.1 /\ filters_owned r.1 /\ shrinks s r.1 /\
  forall k c, (k, c) ∈ rg_entries (dr_registry r.1) ->
    exists u, dr_heap r.1 !! c = Some u /\ is_os_volume u = true.
Proof.
  intros Hwf Hown. cbv zeta. unfold handle_detach_all_volumes.
  destruct (all_volumes_run s Hwf) as (vs & E & Hvs). rewrite (mbind_step _ _ _ _ _ E). cbv zeta.
  set (paths := (fun q => av_volume_path q.2) <$> filter (fun q => is_os_volume q.2 = false) vs).
  pose proof (detach_many paths s Hwf Hown) as Hm. cbv zeta in Hm. rewrite mbind_run.
  destruct (miter _ paths s) as [s1 r1]. cbn [fst snd] in Hm.
  destruct Hm as (-> & Hwf1 & Hown1 & Hsh & Hn). cbn. split_and!; try done.
  intros k c Hin. destruct (Hsh k c Hin) as [Hin0 Hc].
  pose proof Hwf as [[_ Hf] _]. destruct (Hf _ _ Hin0) as (u & Hu & Hk).
  exists u. rewrite Hc. split; [done|]. destruct (is_os_volume u) eqn:Hos; [done|exfalso].
  assert (k ∈ paths) as Hp.
  { apply list_elem_of_fmap. exists (c, u). split; [done|]. apply list_elem_of_filter.
    split; [done|]. apply Hvs. eauto. }
  specialize (Hn k Hp). apply bt_get_elem in Hin; [|apply Hwf1]. unfold registry_get in Hn. congruence.
Qed.
End DetachAll.
