(* ===== verification/SampleDriver.v ===== *)
(** * The sample driver ([sample/windrv/src/lib.rs]) and its control device

    [DriverEntry], AddDevice, the shared dispatcher of all device objects, the
    control requests at the level of their packets, shutdown and unload, and the
    control device ([lib/windrv/src/device.rs]). The driver as a whole is a state
    machine whose events are these entry points and the batches of the volumes'
    threads. *)

From S2P Require Import Prelude Types Sectors Engine Nt Pipeline Volume Thread Xts Metadata Codec Store Filter Io Handover Registry Manager Provider Dispatch Attach AttachLaws OsVolume.

(* src: sample/windrv/src/lib.rs:55-55 STATUS_INVALID_DEVICE_REQUEST *)
Definition STATUS_INVALID_DEVICE_REQUEST : Z := as_i32 0xC0000010.
Definition IRP_MJ_CREATE : Z := 0.
Definition IRP_MJ_CLOSE : Z := 2.
Definition IRP_MJ_SHUTDOWN : Z := 16.
Definition IRP_MJ_CLEANUP : Z := 18.

(** A request on a device of the driver: [rq_stack] is whether it has a current
    stack location, [rq_process] the requestor ([None] is null). *)
Record Request : Type := mkRequest {
  rq_irp : FilterIrp;
  rq_stack : bool;
  rq_input_len : nat;
  rq_output_len : nat;
  rq_process : option nat;
}.

Definition major_of (q : Request) : option Z :=
  if rq_stack q then Some (fi_major (rq_irp q)) else None.

(** [complete_irp], with the buffer the response was copied to. *)
(* src: sample/windrv/src/lib.rs:495-501 complete_irp *)
Definition complete (status information : Z) (f : FilterIrp) : disposition :=
  Completed (set_fi_irp (complete_irp status information (fi_irp f)) f) status.

(** What the sample uses of the kernel besides [Kernel]: the secure device and its
    symbolic link, an IRP for a control request of its own (the requestor process
    if it can be built), the expanded stack (its status and whether the callout ran,
    which it does not when the expansion fails), and the primary token of a
    process. *)
Record SysCalls (W0 : Type) : Type := mkSysCalls {
  y_create_secure : W0 -> W0 * (Z * PDEVICE_OBJECT);
  y_create_symlink : W0 -> W0 * Z;
  y_delete_symlink : W0 -> W0 * Z;
  y_register_shutdown : nat -> W0 -> W0;
  y_unregister_shutdown : nat -> W0 -> W0;
  y_build_irp : W0 -> option (option nat);
  y_expand_stack : W0 -> Z * bool;
  y_primary_token : nat -> option (nat * Z);
}.
Arguments mkSysCalls {W0}.
Arguments y_create_secure {W0}.
Arguments y_create_symlink {W0}.
Arguments y_delete_symlink {W0}.
Arguments y_register_shutdown {W0}.
Arguments y_unregister_shutdown {W0}.
Arguments y_build_irp {W0}.
Arguments y_expand_stack {W0}.
Arguments y_primary_token {W0}.

(** [sm_control] is the control device, [sm_provider] and [sm_published] whether
    the global provider and registry are set, [sm_loaded] whether the dispatch
    table is installed, [sm_bugcheck] the stop code of a bugcheck. *)
Record Sample (P W0 : Type) : Type := mkSample {
  sm_driver : Driver P W0;
  sm_control : PDEVICE_OBJECT;
  sm_provider : bool;
  sm_published : bool;
  sm_loaded : bool;
  sm_bugcheck : option (Z * Z);
}.
Arguments mkSample {P W0}.
Arguments sm_driver {P W0}.
Arguments sm_control {P W0}.
Arguments sm_provider {P W0}.
Arguments sm_published {P W0}.
Arguments sm_loaded {P W0}.
Arguments sm_bugcheck {P W0}.

Section SampleDriver.
Context `{C : CryptoApi} `{A : AesApi} `{Wire} {W0 : Type}.
Context (K : Kernel W0) (Y : SysCalls W0) (RNG : option (RandomSource W0)).
Context (pc : Counters W0) (from_bytes_le : bytes -> Guid) (fmt_ptr : nat -> string).
Abbreviation P := (list (JvckMetadataStore W0)).
Abbreviation DM := (M VckError (Driver P W0)).
Abbreviation SM := (M VckError (Sample P W0)).

Definition set_driver (d : Driver P W0) (s : Sample P W0) : Sample P W0 :=
  mkSample d (sm_control s) (sm_provider s) (sm_published s) (sm_loaded s) (sm_bugcheck s).
Definition set_control (c : PDEVICE_OBJECT) (s : Sample P W0) : Sample P W0 :=
  mkSample (sm_driver s) c (sm_provider s) (sm_published s) (sm_loaded s) (sm_bugcheck s).
Definition on_driver {B} (m : DM B) : SM B := zoom sm_driver set_driver m.

(** ** The control device ([device.rs]) *)

(* src: lib/windrv/src/device.rs:114-167 ControlDevice::create *)
Definition ControlDevice_create : DM nat :=
  '(status, device_object) ← kcall (y_create_secure Y);
  _ ← lift (ntstatus_to_result status "IoCreateDeviceSecure failed");
  d ← lift (unwrap device_object);
  _ ← set_ext d (mkExt DEVICE_KIND_CONTROL None None None);
  st ← kcall (y_create_symlink Y);
  match ntstatus_to_result st "IoCreateSymbolicLink failed" with
  | Ok _ => _ ← kcall (fun w => (y_register_shutdown Y d w, tt)); mret d
  | Err e => _ ← delete_device K d; mfail e
  | Panic => mpanic
  end.

(* src: lib/windrv/src/device.rs:176-189 ControlDevice::destroy *)
Definition ControlDevice_destroy (d : nat) : DM unit :=
  _ ← kcall (fun w => (y_unregister_shutdown Y d w, tt));
  st ← kcall (y_delete_symlink Y);
  _ ← lift (ntstatus_to_result st "IoDeleteSymbolicLink failed");
  delete_device K d.

(** ** Control requests *)

Definition provider_of (s : Sample P W0) : option (VolumeProvider P W0) :=
  if sm_provider s then Some (vck_provider RNG) else None.

(* src: sample/windrv/src/lib.rs:76-89 dispatch_callout *)
Definition dispatch_callout (code : Z) (mode : RequestorMode) (token : option AccessToken)
    (input : bytes) : SM bytes := fun s =>
  on_driver (dispatch_ioctl K (provider_of s) vck_authorization pc
               (mkAuthContext code mode token) input) s.

(** The input buffer; [None] if a length is given without one. *)
Definition request_input (q : Request) : option bytes :=
  if (rq_input_len q =? 0)%nat then Some []
  else take (rq_input_len q) <$> fi_sysbuf (rq_irp q).

(** Copy the response into the system buffer and complete the request. *)
Definition deliver (q : Request) (response : bytes) : disposition :=
  let f := rq_irp q in
  if (rq_output_len q <? length response)%nat then complete STATUS_BUFFER_TOO_SMALL 0 f
  else if bool_decide (response = []) then complete STATUS_SUCCESS 0 f
  else
    match fi_sysbuf f with
    | None => complete STATUS_INVALID_PARAMETER 0 f
    | Some sysbuf =>
        complete STATUS_SUCCESS (Z.of_nat (length response)) (set_sysbuf (splice 0 response sysbuf) f)
    end.

(* src: sample/windrv/src/lib.rs:378-482 dispatch_device_control *)
Definition dispatch_device_control (q : Request) : SM disposition :=
  let f := rq_irp q in
  if negb (rq_stack q) then mret (complete STATUS_INVALID_PARAMETER 0 f)
  else
    match request_input q with
    | None => mret (complete STATUS_INVALID_PARAMETER 0 f)
    | Some input =>
        let mode := if fi_requestor_mode f =? 0 then KernelMode else UserMode in
        let token := token_from_process (y_primary_token Y) (rq_process q) in
        '(callout_status, ran) ← on_driver (kread (y_expand_stack Y));
        dispatch_result ← (
          if (0 <=? callout_status) && negb ran
          then mret (inr (Io "dispatch callout did not run"))
          else attempt (dispatch_callout (fi_code f) mode token input));
        match dispatch_result with
        | inl response => mret (deliver q response)
        | inr _ => mret (complete STATUS_UNSUCCESSFUL 0 f)
        end
    end.

(** ** The shared dispatcher *)

(** A request on a filter device. *)
Definition dispatch_filter (alloc_ctx : bool) (d : nat) (ext : DeviceExtension) (f : FilterIrp) :
    DM disposition := fun s =>
  match handle_filter_irp (dr_heap s) alloc_ctx ext f with
  | None => (s, Panic)
  | Some (ext, r) =>
      let done := match r with Queued done _ => done | _ => [] end in
      ((with_completed (dr_completed s ++ done) (with_devices (<[d := ext]> (dr_devices s)) s)), Ok r)
  end.

(** A request on the control device; [shutdown] is what IRP_MJ_SHUTDOWN does before
    it completes. *)
(* src: sample/windrv/src/lib.rs:345-375 dispatch_any (control device) *)
Definition control_branch (shutdown : SM unit) (q : Request) : SM disposition :=
  match major_of q with
  | Some m =>
      if m =? IRP_MJ_DEVICE_CONTROL then dispatch_device_control q
      else if (m =? IRP_MJ_CREATE) || (m =? IRP_MJ_CLOSE) || (m =? IRP_MJ_CLEANUP)
      then mret (complete STATUS_SUCCESS 0 (rq_irp q))
      else if m =? IRP_MJ_SHUTDOWN
      then _ ← shutdown; mret (complete STATUS_SUCCESS 0 (rq_irp q))
      else mret (complete STATUS_INVALID_DEVICE_REQUEST 0 (rq_irp q))
  | None => mret (complete STATUS_INVALID_DEVICE_REQUEST 0 (rq_irp q))
  end.

(** The status the dispatch routine returns; a forwarded request returns the lower
    driver's. *)
Definition returned_status (r : disposition) : Z :=
  match r with
  | Completed _ st | Queued _ st => st
  | Forwarded _ _ => STATUS_PENDING
  end.

(* src: sample/windrv/src/lib.rs:329-376 dispatch_any *)
Definition dispatch_any_with (shutdown : SM unit) (alloc_ctx : bool) (device : PDEVICE_OBJECT)
    (irp : option Request) : SM (option disposition * Z) :=
  match device, irp with
  | None, Some q => mret (Some (complete STATUS_INVALID_PARAMETER 0 (rq_irp q)), STATUS_INVALID_PARAMETER)
  | _, None => mret (None, STATUS_INVALID_PARAMETER)
  | Some _, Some q =>
      '(d, ext) ← on_driver (ext_of device);
      r ← (if de_kind ext =? DEVICE_KIND_FILTER
           then on_driver (dispatch_filter alloc_ctx d ext (rq_irp q))
           else control_branch shutdown q);
      mret (Some r, returned_status r)
  end.

(** A control request of the driver to itself: kernel mode, no buffers. It never
    pends: the control device completes every request at once. *)
Definition self_request (code : Z) (process : option nat) : Request :=
  mkRequest (mkFilterIrp (mkIRP 0 0 0 None false false 0 0 0) IRP_MJ_DEVICE_CONTROL 0 code 0 None)
    true 0 0 process.

(* src: sample/windrv/src/lib.rs:256-286 send_self_ioctl *)
Definition send_self_ioctl (device : PDEVICE_OBJECT) (code : Z) : SM Z :=
  irp ← on_driver (kread (y_build_irp Y));
  match irp with
  | None => mret STATUS_UNSUCCESSFUL
  | Some process =>
      '(_, status) ← dispatch_any_with (mret tt) true device (Some (self_request code process));
      mret status
  end.

Definition control_device : SM PDEVICE_OBJECT := fun s => (s, Ok (sm_control s)).

(* src: sample/windrv/src/lib.rs:294-300 driver_shutdown *)
Definition driver_shutdown : SM unit :=
  device ← control_device;
  match device with
  | None => mret tt
  | Some _ => _ ← send_self_ioctl device IOCTL_VCK_DETACH_ALL_VOLUMES; mret tt
  end.

(** The branch of the dispatcher for IRP_MJ_SHUTDOWN. *)
(* src: sample/windrv/src/lib.rs:355-369 dispatch_any (IRP_MJ_SHUTDOWN) *)
Definition shutdown_actions : SM unit :=
  device ← control_device;
  _ ← (match device with
       | None => mret tt
       | Some _ => _ ← send_self_ioctl device IOCTL_VCK_PAUSE_OS_VOLUME; mret tt
       end);
  driver_shutdown.

Definition dispatch_any : bool -> PDEVICE_OBJECT -> option Request -> SM (option disposition * Z) :=
  dispatch_any_with shutdown_actions.

(** ** Load and unload *)

Definition VCK_BUGCHECK : Z := 0x56434B00.
Definition STATUS_INVALID_DEVICE_STATE : Z := 0xC0000184.

Definition bugcheck (code p1 : Z) : SM unit :=
  mmodify (fun s => mkSample (sm_driver s) (sm_control s) (sm_provider s) (sm_published s)
    (sm_loaded s) (Some (code, p1))).

(** [KeBugCheckEx] does not return. *)
(* src: sample/windrv/src/lib.rs:302-324 driver_unload *)
Definition driver_unload : SM unit :=
  _ ← driver_shutdown;
  encrypted ← on_driver (fun s => (s, Ok (has_encrypted_os_volume (dr_heap s) (dr_registry s))));
  if (encrypted : bool) then bugcheck VCK_BUGCHECK STATUS_INVALID_DEVICE_STATE
  else
    device ← control_device;
    _ ← mmodify (set_control None);
    match device with
    | None => mret tt
    | Some d => ignore (on_driver (ControlDevice_destroy d))
    end.

(* src: sample/windrv/src/lib.rs:189-242 add_device *)
Definition add_device (pdo : nat) : SM Z :=
  units ← on_driver (kread (k_query_name K pdo));
  let pdo_name := device_name units in
  r ← attempt (on_driver (attach_filter_to_raw_device K (Some pdo)));
  match r with
  | inl (filter_do, lower_do) =>
      _ ← on_driver (upd_registry (add_pdo_filter (Some pdo) filter_do lower_do pdo_name));
      mret STATUS_SUCCESS
  | inr _ => mret STATUS_SUCCESS
  end.

Section Entry.
Context `{!Platform W0} `{!MsgPack VckHandoverPayload} `{!MsgPack HandoverLocator}.

(** The handover essentials, when a loader published them. *)
Definition accept_handover : DM unit :=
  payload ← attempt (kworld (read_handover (P := VckHandoverPayload)));
  match payload with
  | inl p => upd_registry (set_handover (mkHandoverInfo (hp_partition_guid p) (hp_vmk p)))
  | inr _ => mret tt
  end.

(** [driver] is null if [None]. *)
(* src: sample/windrv/src/lib.rs:96-181 DriverEntry *)
Definition DriverEntry (driver : option nat) : SM Z :=
  _ ← mmodify (fun s => mkSample (sm_driver s) (sm_control s) true (sm_published s) (sm_loaded s)
                          (sm_bugcheck s));
  match driver with
  | None => mret STATUS_INVALID_PARAMETER
  | Some _ =>
      created ← attempt (on_driver ControlDevice_create);
      match created with
      | inr _ => mret STATUS_UNSUCCESSFUL
      | inl d =>
          _ ← mmodify (set_control (Some d));
          _ ← on_driver (upd_registry (set_driver_object driver));
          _ ← mmodify (fun s => mkSample (sm_driver s) (sm_control s) (sm_provider s) true
                                  (sm_loaded s) (sm_bugcheck s));
          _ ← on_driver accept_handover;
          _ ← mmodify (fun s => mkSample (sm_driver s) (sm_control s) (sm_provider s)
                                  (sm_published s) true (sm_bugcheck s));
          mret STATUS_SUCCESS
      end
  end.
End Entry.

(** ** The driver as a state machine *)

(** A sweep batch of the thread of filter [d]. *)
Definition thread_sweep (d : nat) : DM unit :=
  '(_, ext) ← ext_of (Some d);
  match de_vthread ext with
  | None => mret tt
  | Some vt =>
      _ ← attempt (upd_volume (vt_current vt) (sweep_step BATCH_SECTORS)); mret tt
  end.

(** The boot mount, when START_DEVICE completed on filter [d]. *)
Definition started (passive work_item_alloc ctx_alloc : bool) (d : nat) : SM unit := fun s =>
  if on_start_device_completed passive work_item_alloc ctx_alloc (fun _ => true) false
  then on_driver (try_mount_handover_volume K (provider_of s) from_bytes_le fmt_ptr
                    (sm_published s) (Some d)) s
  else (s, Ok tt).

Inductive entry : Type :=
| EnIrp (alloc_ctx : bool) (device : PDEVICE_OBJECT) (irp : option Request)
| EnAddDevice (pdo : nat)
| EnStarted (passive work_item_alloc ctx_alloc : bool) (d : nat)
| EnSweep (d : nat)
| EnUnload.

Definition run_entry (e : entry) : SM unit :=
  match e with
  | EnIrp alloc_ctx device irp => _ ← dispatch_any alloc_ctx device irp; mret tt
  | EnAddDevice pdo => _ ← add_device pdo; mret tt
  | EnStarted passive wa ca d => started passive wa ca d
  | EnSweep d => on_driver (thread_sweep d)
  | EnUnload => driver_unload
  end.

Definition run_entries (es : list entry) : SM unit := miter run_entry es.

(** The driver before [DriverEntry]. *)
Definition unloaded (w : P * W0) : Sample P W0 :=
  mkSample (mkDriver registry_new ∅ ∅ [] w) None false false false None.
End SampleDriver.

(** ** Invariants of the entry points *)

Section Logic.
Context {W0 : Type}.
Abbreviation P := (list (JvckMetadataStore W0)).
Abbreviation SM := (M VckError (Sample P W0)).
Implicit Types (I : Driver P W0 -> Prop).

(** [preserves], for computations of the sample. *)
Definition spreserves I {B} (m : SM B) : Prop := forall s,
  I (sm_driver s) -> (m s).2 <> Panic -> I (sm_driver (m s).1).

Lemma spreserves_bind I {B D} (m : SM B) (k : B -> SM D) :
  spreserves I m -> (forall b, spreserves I (k b)) -> spreserves I (m ≫= k).
Proof.
  intros Hm Hk s Hs. rewrite mbind_run. specialize (Hm s Hs).
  destruct (m s) as [s1 [b|e|]]; cbn in *; intros Hp; [|apply Hm; done|done].
  apply Hk; [apply Hm|]; done.
Qed.
Lemma spreserves_attempt I {B} (m : SM B) : spreserves I m -> spreserves I (attempt m).
Proof.
  intros Hm s Hs. specialize (Hm s Hs). unfold attempt.
  destruct (m s) as [s1 [b|e|]]; cbn in *; intros Hp; [apply Hm; done..|done].
Qed.
Lemma spreserves_ignore I {B} (m : SM B) : spreserves I m -> spreserves I (ignore m).
Proof.
  intros Hm s Hs. specialize (Hm s Hs). unfold ignore.
  destruct (m s) as [s1 [b|e|]]; cbn in *; intros Hp; [apply Hm; done..|done].
Qed.
Lemma spreserves_ret I {B} (b : B) : spreserves I (mret b).
Proof. intros s Hs _. done. Qed.
Lemma spreserves_modify I (f : Sample P W0 -> Sample P W0) :
  (forall s, sm_driver (f s) = sm_driver s) -> spreserves I (mmodify f).
Proof. intros Hf s Hs _. cbn. rewrite Hf. done. Qed.
Lemma spreserves_control I : spreserves I control_device.
Proof. intros s Hs _. done. Qed.
Lemma spreserves_on_driver I {B} (m : M VckError (Driver P W0) B) :
  preserves I m -> spreserves I (on_driver m).
Proof.
  intros Hm s Hs. specialize (Hm _ Hs). unfold on_driver, zoom.
  destruct (m (sm_driver s)) as [d r]. done.
Qed.
End Logic.

Create HintDb skeep.
#[export] Hint Resolve spreserves_ret spreserves_control : skeep.
Ltac skeep_step :=
  cbv zeta;
  first
    [ solve [eauto with skeep]
    | solve [apply spreserves_modify; intros ?; reflexivity]
    | solve [apply spreserves_on_driver; keep]
    | apply spreserves_bind; [|intros ?]
    | apply spreserves_attempt
    | apply spreserves_ignore
    | case_match ].
Ltac skeep := repeat skeep_step.

Section Entries.
Context `{C : CryptoApi} `{A : AesApi} `{Wire} {W0 : Type}.
Context (K : Kernel W0) (Y : SysCalls W0) (RNG : option (RandomSource W0)).
Context (pc : Counters W0) (from_bytes_le : bytes -> Guid) (fmt_ptr : nat -> string).
Abbreviation P := (list (JvckMetadataStore W0)).

Section Generic.
Context (I : Driver P W0 -> Prop) `{!ObjectInv I}.
(** The control codes that keep [I]. *)
Context (codes : Z -> Prop).
Hypothesis Hdispatch : forall provider ctx input,
  codes (ia_ioctl_code ctx) -> preserves I (dispatch_ioctl K provider vck_authorization pc ctx input).

Lemma spreserves_callout code mode token input :
  codes code -> spreserves I (dispatch_callout K RNG pc code mode token input).
Proof using ObjectInv0 Hdispatch.
  intros Hc s Hs Hp. unfold dispatch_callout in *. eapply spreserves_on_driver; [|done|done].
  apply Hdispatch. done.
Qed.

Lemma spreserves_device_control q :
  codes (fi_code (rq_irp q)) -> spreserves I (dispatch_device_control K Y RNG pc q).
Proof using ObjectInv0 Hdispatch.
  intros Hc. unfold dispatch_device_control. pose proof spreserves_callout. skeep.
Qed.
End Generic.

(** A request leaves the extension as it was, but for the queue of the thread. *)
Lemma handle_filter_ext (heap : gmap nat (AttachedVolume (P * W0))) al e f e' r :
  handle_filter_irp heap al e f = Some (e', r) ->
  de_kind e' = de_kind e /\ de_lower_device e' = de_lower_device e /\ de_volume e' = de_volume e /\
  (vt_current <$> de_vthread e') = (vt_current <$> de_vthread e).
Proof.
  unfold handle_filter_irp, filter_rw. intros Hh.
  repeat (case_match; simplify_option_eq; try done).
  all: unfold enqueue in *; repeat case_match; simplify_eq; cbn;
    repeat match goal with E : de_vthread _ = _ |- _ => rewrite E end; done.
Qed.

(** One request on a filter device. *)
Lemma keep_dispatch_filter device al f :
  preserves driver_wf ('(d, ext) ← ext_of (P := P) (W0 := W0) device; dispatch_filter al d ext f).
Proof.
  intros s Hs. rewrite mbind_run.
  destruct (ext_of_run device s) as [(d & e & -> & He & ->)| ->]; [|done]. unfold dispatch_filter.
  destruct (handle_filter_irp (dr_heap s) al e f) as [[e' r]|] eqn:Hh; [|done]. intros _. cbn.
  apply driver_wf_completed, driver_wf_ext; [|done].
  destruct (handle_filter_ext _ _ _ _ _ _ Hh) as (_ & _ & Hv & Ht).
  destruct (dw_devices s Hs _ _ He) as [Hb Hth]. constructor; rewrite Hv; [done|].
  intros vt' Hvt'. rewrite Hvt' in Ht. cbn in Ht.
  destruct (de_vthread e) as [vt|] eqn:Hvt; [|done]. cbn in Ht. simplify_eq.
  rewrite (Hth vt eq_refl). congruence.
Qed.

(** A sweep batch keeps the path of its volume. *)
Lemma sweep_step_path n (v : AttachedVolume (P * W0)) w :
  av_volume_path (sweep_step n (v, w)).1.1 = av_volume_path v.
Proof.
  unfold sweep_step. rewrite (mbind_step _ _ _ (v, w) v) by done.
  destruct (cipher_supplier v) as [sup|]; [|done]. destruct (get_cipher sup) as [c|]; [|done].
  rewrite mbind_run. unfold attempt, on_engine, zoom. cbn.
  destruct (progress_step _ _ _ _ _) as [[e w'] [b|err|]]; done.
Qed.

Lemma keep_thread_sweep d : preserves driver_wf (thread_sweep (W0 := W0) d).
Proof.
  intros s Hs. unfold thread_sweep. rewrite mbind_run.
  destruct (ext_of_run (Some d) s) as [(n & e & _ & He & ->)| ->]; [|done].
  destruct (de_vthread e) as [vt|]; [|done]. rewrite mbind_run. unfold attempt, upd_volume.
  destruct (dr_heap s !! vt_current vt) as [v|] eqn:Hv; [|done].
  pose proof (sweep_step_path BATCH_SECTORS v (dr_world s)) as Hp.
  destruct (sweep_step BATCH_SECTORS (v, dr_world s)) as [[v' w'] [b|err|]]; intros Hn; [| |done];
    apply driver_wf_world; eapply keep_set_volume; done.
Qed.

Lemma keep_control_create : preserves driver_wf (ControlDevice_create K Y).
Proof. unfold ControlDevice_create. keep. Qed.
Lemma keep_control_destroy d : preserves driver_wf (ControlDevice_destroy K Y d).
Proof. unfold ControlDevice_destroy. keep. Qed.

Lemma wf_device_control q : spreserves driver_wf (dispatch_device_control K Y RNG pc q).
Proof.
  apply (spreserves_device_control driver_wf (fun _ => True)); [|done].
  intros. apply keep_dispatch.
Qed.

Lemma on_driver_ext_of device (s : Sample P W0) :
  (exists n e, dr_devices (sm_driver s) !! n = Some e /\
     ext_of device (sm_driver s) = (sm_driver s, Ok (n, e)) /\
     on_driver (ext_of device) s = (s, Ok (n, e))) \/
  on_driver (ext_of device) s = (s, Panic).
Proof.
  unfold on_driver, zoom. destruct (ext_of_run device (sm_driver s)) as [(n & e & _ & He & ->)| ->].
  - left. exists n, e. destruct s. done.
  - right. destruct s. done.
Qed.

Lemma wf_control_branch shutdown q :
  spreserves driver_wf shutdown -> spreserves driver_wf (control_branch K Y RNG pc shutdown q).
Proof. intros Hsh. unfold control_branch. pose proof wf_device_control. skeep. Qed.

Lemma wf_dispatch_with shutdown al device irp :
  spreserves driver_wf shutdown ->
  spreserves driver_wf (dispatch_any_with K Y RNG pc shutdown al device irp).
Proof.
  intros Hsh. unfold dispatch_any_with. destruct device as [d|], irp as [q|]; [|skeep..].
  pose proof (wf_control_branch shutdown q Hsh) as Hc. intros s Hs.
  pose proof (keep_dispatch_filter (Some d) al (rq_irp q) _ Hs) as Hf. rewrite mbind_run in Hf.
  destruct (on_driver_ext_of (Some d) s) as [(n & e & He & E1 & E)|E]; [|rewrite mbind_run, E; done].
  rewrite E1 in Hf. rewrite (mbind_step _ _ _ _ _ E), mbind_run.
  destruct (de_kind e =? DEVICE_KIND_FILTER).
  - unfold on_driver, zoom.
    destruct (dispatch_filter al n e (rq_irp q) (sm_driver s)) as [s1 [r| |]]; cbn in Hf |- *;
      intros Hp; [apply Hf; done..|done].
  - specialize (Hc s Hs).
    destruct (control_branch K Y RNG pc shutdown q s) as [s1 [r| |]];
      cbn in Hc |- *; intros Hp; [apply Hc; done..|done].
Qed.

Lemma wf_send_self device code : spreserves driver_wf (send_self_ioctl K Y RNG pc device code).
Proof.
  unfold send_self_ioctl. pose proof (wf_dispatch_with (mret tt)). skeep.
Qed.

Lemma wf_shutdown : spreserves driver_wf (driver_shutdown K Y RNG pc).
Proof. unfold driver_shutdown. pose proof wf_send_self. skeep. Qed.

Lemma wf_shutdown_actions : spreserves driver_wf (shutdown_actions K Y RNG pc).
Proof. unfold shutdown_actions. pose proof wf_send_self. pose proof wf_shutdown. skeep. Qed.

Lemma wf_unload : spreserves driver_wf (driver_unload K Y RNG pc).
Proof.
  unfold driver_unload, bugcheck. pose proof wf_shutdown. pose proof keep_control_destroy. skeep.
Qed.

Lemma wf_add_device pdo : spreserves driver_wf (add_device (W0 := W0) K pdo).
Proof.
  unfold add_device. pose proof (keep_attach_raw (P := P) K). skeep.
  apply spreserves_on_driver. intros s [[] ?] _. constructor; [constructor|]; done.
Qed.

Lemma wf_entry e : spreserves driver_wf (run_entry K Y RNG pc from_bytes_le fmt_ptr e).
Proof.
  pose proof wf_shutdown_actions. pose proof wf_add_device. pose proof wf_unload.
  pose proof keep_thread_sweep.
  destruct e as [al device irp|pdo|passive wa ca d|d|]; cbn [run_entry]; [| | | |done].
  - unfold dispatch_any. pose proof wf_dispatch_with. skeep.
  - skeep.
  - intros s Hs. unfold started. case_match; [|done].
    apply spreserves_on_driver; [apply keep_mount|done].
  - skeep.
Qed.

Lemma wf_entries es : spreserves driver_wf (run_entries K Y RNG pc from_bytes_le fmt_ptr es).
Proof.
  unfold run_entries. induction es as [|e es IH]; cbn [miter]; [skeep|].
  apply spreserves_bind; [apply wf_entry|]. intros _. done.
Qed.

Lemma wf_driver_entry `{!Platform W0} `{!MsgPack VckHandoverPayload} `{!MsgPack HandoverLocator} drv :
  spreserves driver_wf (DriverEntry (W0 := W0) K Y drv).
Proof.
  unfold DriverEntry. pose proof keep_control_create. skeep.
  - apply spreserves_on_driver. intros s [[] ?] _. constructor; [constructor|]; done.
  - apply spreserves_on_driver. unfold accept_handover. keep.
    intros s [[] ?] _. constructor; [constructor|]; done.
Qed.
End Entries.
