(* ===== verification/DriverDemo.v ===== *)
(** * A concrete kernel

    A disk of six two-byte sectors behind one volume of a small device stack, and a
    wire format in which a request is its volume path. They instantiate the
    parameters of the driver where its properties are applied. *)

From Stdlib Require Import Strings.Byte.
From S2P Require Import Prelude Types Sectors Engine Nt Pipeline Volume Thread Xts Metadata Codec Store Filter Io Handover Registry Manager Provider Dispatch Attach SampleDriver.

Module DriverDemo.
(** The answers to the geometry, length and partition queries: two-byte sectors,
    12 bytes, a GPT partition with identifier [guid]. *)
Definition guid : Guid := replicate 16 Byte.x07.
Definition answer (code : Z) (out : bytes) : bytes :=
  if code =? Io.IOCTL_DISK_GET_DRIVE_GEOMETRY then splice 20 (le_encode 4 2) out
  else if code =? Io.IOCTL_DISK_GET_LENGTH_INFO then splice 0 (le_encode 8 12) out
  else if code =? Io.IOCTL_DISK_GET_PARTITION_INFO_EX
  then splice 0 (le_encode 4 1) (if (64 <? length out)%nat then splice 48 guid out else out)
  else out.

Definition device : Device MemVolume := {|
  dev_ioctl code out w := (w, Some (0, 0, answer code out));
  dev_read := dev_read IoDemo.device;
  dev_write := dev_write IoDemo.device;
|}.
Definition handle : FileHandle MemVolume := {|
  fh_ioctl code out w := (w, (0, answer code out));
  fh_fsctl _ w := (w, 0);
  fh_read := fh_read IoDemo.handle;
  fh_write := fh_write IoDemo.handle;
|}.

(** The volume's device is 50 and has the name [volume_name]; a new device object
    gets address 100 and is attached above device 60. *)
Definition volume_name : string := "\Device\HarddiskVolume3".
Definition units (s : string) : list Z := byte_val <$> bytes_of_string s.

Definition kernel : Kernel MemVolume := {|
  k_create_device w := (w, (0, Some 100%nat));
  k_delete_device _ w := w;
  k_get_device_pointer _ w := (w, (0, Some 50%nat));
  k_attach _ _ w := (w, (0, Some 60%nat));
  k_detach _ w := w;
  k_attachment_base _ _ := None;
  k_attached _ _ := None;
  k_lower _ _ := None;
  k_query_name _ _ := Some (units volume_name);
  k_foreign_ext _ _ := None;
  k_create_thread _ := true;
  k_device _ := device;
  k_create_file _ w := (w, Some handle);
  k_open_raw _ w := (w, Some handle);
  k_related_device _ _ := Some 50%nat;
|}.

Definition calls : SysCalls MemVolume := {|
  y_create_secure w := (w, (0, Some 9%nat));
  y_create_symlink w := (w, 0);
  y_delete_symlink w := (w, 0);
  y_register_shutdown _ w := w;
  y_unregister_shutdown _ w := w;
  y_build_irp _ := Some None;
  y_expand_stack _ := (0, true);
  y_primary_token _ := None;
|}.

Definition counters : Counters MemVolume := mkCounters (fun _ => true) 1 (0, 1) (0, 1).

(** A request is its path; the first byte of a PREPARE request is its key. *)
#[export] Instance wire : Wire := {|
  wire_prepare_req := {|
    to_vec _ := Err ""%string;
    from_slice b :=
      match b with
      | [] => Err "empty"%string
      | v :: b =>
          Ok (mkPrepareReq (String.string_of_list_byte b) "" 0 1 2
                (if bool_decide (v = Byte.x00) then [] else [v]) [] false)
      end |};
  wire_prepare_resp := {| to_vec _ := Ok [Byte.x01]; from_slice _ := Err ""%string |};
  wire_attach_req := {| to_vec _ := Err ""%string; from_slice _ := Err ""%string |};
  wire_attach_resp := {| to_vec _ := Ok [Byte.x01]; from_slice _ := Err ""%string |};
  wire_volume_req := {|
    to_vec _ := Err ""%string;
    from_slice b := Ok (mkVolumeRequest (String.string_of_list_byte b)) |};
  wire_status := {| to_vec _ := Ok [Byte.x02]; from_slice _ := Err ""%string |};
  wire_list := {| to_vec _ := Ok [Byte.x03]; from_slice _ := Err ""%string |};
  wire_progress := {| to_vec _ := Ok [Byte.x04]; from_slice _ := Err ""%string |};
  wire_bench_req := {| to_vec _ := Err ""%string; from_slice _ := Err ""%string |};
  wire_bench_resp := {| to_vec _ := Ok [Byte.x05]; from_slice _ := Err ""%string |};
  wire_empty := {| to_vec _ := Ok [Byte.x80]; from_slice _ := Err ""%string |};
|}.

(** A machine without a loader: no firmware variable, no memory to map. *)
#[export] Instance no_loader : Platform MemVolume := {|
  allocate _ s := (s, None);
  mem_write _ _ s := s;
  mem_read _ n _ := replicate n Byte.x00;
  map_ok _ _ _ := false;
  pool_ok _ _ := true;
  ucs2_ok _ := true;
  set_variable _ _ _ s := (s, false);
  get_variable _ _ _ _ := (STATUS_UNSUCCESSFUL, 0, []);
|}.

Definition disk : MemVolume := replicate 12 Byte.x00.

(** A control request of mode [mode] (0 is the kernel) with [input] and room for a
    response. *)
Definition control (code mode : Z) (input : bytes) : Request :=
  mkRequest
    (mkFilterIrp (mkIRP 7 0 0 None false false 0 0 0) IRP_MJ_DEVICE_CONTROL 0 code mode
       (Some (input ++ replicate 64 Byte.x00)))
    true (length input) 64 (Some 4%nat).
Definition path_request (code mode : Z) (path : string) : Request :=
  control code mode (bytes_of_string path).
Definition prepare_request (key : byte) (path : string) : Request :=
  control IOCTL_JVCK_PREPARE 0 (key :: bytes_of_string path).
End DriverDemo.
