(* ===== verification/SampleLaws.v ===== *)
(** * Properties of the driver as a whole

    The invariant of its objects over every sequence of entry points, the
    authorization of control requests, and the protection of an encrypted OS
    volume up to the refusal to unload. *)

From Stdlib Require Import Strings.Byte.
From S2P Require Import Prelude Types Sectors Engine Nt Pipeline Volume Thread Xts Metadata Codec Store Filter Io Handover Registry Manager Provider Dispatch Attach AttachLaws OsVolume SampleDriver DriverDemo.

Section Authorization.
Context `{C : CryptoApi} `{A : AesApi} `{Wire} {W0 : Type}.
Context (K : Kernel W0) (Y : SysCalls W0) (RNG : option (RandomSource W0)) (pc : Counters W0).
Abbreviation P := (list (JvckMetadataStore W0)).
Implicit Types s : Sample P W0.

Lemma on_driver_kread {B} (f : W0 -> B) s :
  on_driver (kread f) s = (s, Ok (f (dr_world (sm_driver s)).2)).
Proof. unfold on_driver, zoom. rewrite kread_run. destruct s. done. Qed.

(** A caller without administrator rights. *)
Definition unprivileged (q : Request) : Prop :=
  fi_requestor_mode (rq_irp q) <> 0 /\
  forall t, token_from_process (y_primary_token Y) (rq_process q) = Some t -> is_admin t = false.

Definition open_to_all (code : Z) : Prop :=
  code = IOCTL_VCK_GET_PROGRESS \/ code = IOCTL_VCK_GET_STATUS.

Lemma authorize_refuses q code :
  unprivileged q -> ~ open_to_all code ->
  authorize vck_authorization (mkAuthContext code UserMode
    (token_from_process (y_primary_token Y) (rq_process q))) =
  Err (PermissionDenied "administrator privilege required").
Proof.
  intros [_ Ht] Hc. cbn. unfold open_to_all in Hc.
  destruct (Z.eqb_spec code IOCTL_VCK_GET_PROGRESS); [tauto|].
  destruct (Z.eqb_spec code IOCTL_VCK_GET_STATUS); [tauto|]. cbn.
  unfold require_administrator. cbn.
  destruct (token_from_process _ _) as [t|]; [|done]. rewrite (Ht t eq_refl). done.
Qed.

Lemma device_control_refused q s :
  unprivileged q -> ~ open_to_all (fi_code (rq_irp q)) ->
  exists st, dispatch_device_control K Y RNG pc q s = (s, Ok (complete st 0 (rq_irp q))) /\
    nt_success st = false.
Proof.
  intros Hq Hc. unfold dispatch_device_control.
  destruct (rq_stack q); cbn [negb]; [|by eexists].
  destruct (request_input q) as [input|]; [|by eexists].
  rewrite (mbind_step _ _ _ _ _ (on_driver_kread _ s)).
  rewrite (proj2 (Z.eqb_neq _ _) (proj1 Hq)).
  destruct (y_expand_stack Y _) as [st ran]. rewrite mbind_run. exists STATUS_UNSUCCESSFUL.
  split; [|done]. destruct ((0 <=? st) && negb ran); [done|].
  unfold attempt, dispatch_callout, on_driver, zoom, dispatch_ioctl. rewrite mbind_run.
  cbn [ia_ioctl_code]. rewrite (authorize_refuses q) by done. cbn. destruct s. done.
Qed.

(** The status queries, whoever asks. *)
Lemma device_control_query q s :
  open_to_all (fi_code (rq_irp q)) ->
  same_objects (sm_driver s) (sm_driver (dispatch_device_control K Y RNG pc q s).1).
Proof.
  intros Hc. unfold dispatch_device_control.
  destruct (rq_stack q); cbn [negb]; [|done]. destruct (request_input q) as [input|]; [|done].
  rewrite (mbind_step _ _ _ _ _ (on_driver_kread _ s)).
  destruct (y_expand_stack Y _) as [st ran]. rewrite mbind_run.
  destruct ((0 <=? st) && negb ran); [done|]. unfold attempt, dispatch_callout, on_driver, zoom.
  match goal with |- context [dispatch_ioctl K ?pr ?au pc ?ctx input] =>
    assert (frames (P := P) (dispatch_ioctl K pr au pc ctx input)) as Hf end.
  { unfold dispatch_ioctl. cbn [ia_ioctl_code]. apply frames_bind; [frame|]. intros _.
    destruct Hc as [-> | ->]; cbn; frame. }
  specialize (Hf (sm_driver s)). destruct (dispatch_ioctl _ _ _ _ _ _ _) as [d [b|e|]]; done.
Qed.
End Authorization.

(** ** Unloading with an encrypted OS volume *)

Section Unload.
Context `{C : CryptoApi} `{A : AesApi} `{Wire} {W0 : Type}.
Context (K : Kernel W0) (Y : SysCalls W0) (RNG : option (RandomSource W0)) (pc : Counters W0).
Abbreviation P := (list (JvckMetadataStore W0)).
Context (p : string) (a d : nat) (v0 : AttachedVolume (P * W0)) (e0 : DeviceExtension).
Implicit Types s : Sample P W0.
Abbreviation protected := (os_protected p a d v0 e0).

Definition binds_volumes (code : Z) : Prop := code = IOCTL_JVCK_PREPARE \/ code = IOCTL_JVCK_ATTACH.

Lemma protected_device_control q :
  ~ binds_volumes (fi_code (rq_irp q)) ->
  spreserves protected (dispatch_device_control K Y RNG pc q).
Proof using Type.
  apply (spreserves_device_control K Y RNG pc protected (fun code => ~ binds_volumes code)).
  intros provider ctx input Hc. apply os_dispatch; intros E; apply Hc; [left|right]; done.
Qed.

(** The control device is not a filter. *)
Definition is_control (c : nat) s : Prop :=
  exists ce, dr_devices (sm_driver s) !! c = Some ce /\ de_kind ce = DEVICE_KIND_CONTROL.

Lemma control_dispatch shutdown al c q s :
  is_control c s ->
  dispatch_any_with K Y RNG pc shutdown al (Some c) (Some q) s =
    (r ← control_branch K Y RNG pc shutdown q; mret (Some r, returned_status r)) s.
Proof using Type.
  intros (ce & Hc & Hk). unfold dispatch_any_with.
  assert (on_driver (ext_of (Some c)) s = (s, Ok (c, ce))) as E.
  { unfold on_driver, zoom. rewrite (ext_of_some c ce) by done. destruct s. done. }
  rewrite (mbind_step _ _ _ _ _ E). rewrite Hk. done.
Qed.

Lemma self_branch shutdown code process :
  control_branch K Y RNG pc shutdown (self_request code process) =
  dispatch_device_control K Y RNG pc (self_request code process).
Proof using Type. done. Qed.

Lemma protected_send_self code c s :
  ~ binds_volumes code -> is_control c s -> protected (sm_driver s) ->
  (send_self_ioctl K Y RNG pc (Some c) code s).2 <> Panic ->
  protected (sm_driver (send_self_ioctl K Y RNG pc (Some c) code s).1).
Proof using Type.
  intros Hc Hctl Hs. unfold send_self_ioctl.
  rewrite (mbind_step _ _ _ _ _ (on_driver_kread _ s)).
  destruct (y_build_irp Y _) as [process|]; [|done].
  rewrite mbind_run, control_dispatch, mbind_run, self_branch by done.
  pose proof (protected_device_control (self_request code process) Hc s Hs) as Hk.
  destruct (dispatch_device_control K Y RNG pc (self_request code process) s) as [s1 [r| |]];
    cbn in Hk |- *; intros Hp; apply Hk; done.
Qed.

(** What the kernel provides in the normal case: a packet for the driver's own
    request, and an expanded stack that runs its callout. *)
Definition kernel_serves : Prop := forall w,
  (exists process, y_build_irp Y w = Some process) /\
  ((y_expand_stack Y w).1 < 0 \/ (y_expand_stack Y w).2 = true).

Lemma dispatch_detach_all provider token input (dr : Driver P W0) :
  dispatch_ioctl K provider vck_authorization pc
    (mkAuthContext IOCTL_VCK_DETACH_ALL_VOLUMES KernelMode token) input dr =
  handle_detach_all_volumes K dr.
Proof using Type. done. Qed.

Lemma detach_all_request c s :
  kernel_serves -> sm_control s = Some c -> is_control c s ->
  driver_wf (sm_driver s) -> filters_owned (sm_driver s) ->
  exists dr, driver_shutdown K Y RNG pc s = (set_driver dr s, Ok tt) /\
    dr = (handle_detach_all_volumes K (sm_driver s)).1.
Proof using Type.
  intros HY Hc Hctl Hwf Hown. unfold driver_shutdown.
  rewrite (mbind_step _ _ _ s (sm_control s)) by done. rewrite Hc. cbv beta iota.
  unfold send_self_ioctl. rewrite mbind_run.
  rewrite (mbind_step _ _ _ _ _ (on_driver_kread _ s)).
  destruct (HY (dr_world (sm_driver s)).2) as [(process & ->) Hex].
  rewrite mbind_run, control_dispatch, mbind_run, self_branch by done.
  set (q := self_request IOCTL_VCK_DETACH_ALL_VOLUMES process).
  assert (dispatch_device_control K Y RNG pc q s =
    (set_driver (handle_detach_all_volumes K (sm_driver s)).1 s,
     Ok (complete STATUS_SUCCESS 0 (rq_irp q)))) as E; [|rewrite E; cbn; eauto].
  unfold dispatch_device_control. replace (request_input q) with (Some ([] : bytes)) by done.
  change (rq_stack q) with true. cbn [negb].
  rewrite (mbind_step _ _ _ _ _ (on_driver_kread _ s)).
  destruct (y_expand_stack Y _) as [st ran]. cbn in Hex. rewrite mbind_run.
  replace ((0 <=? st) && negb ran) with false.
  2: { destruct Hex as [Hst| ->]; [rewrite (proj2 (Z.leb_gt _ _)) by done; done|].
       rewrite andb_false_r. done. }
  unfold attempt, dispatch_callout, on_driver, zoom.
  change (fi_code (rq_irp q)) with IOCTL_VCK_DETACH_ALL_VOLUMES.
  change (fi_requestor_mode (rq_irp q) =? 0) with true. cbv iota. rewrite dispatch_detach_all.
  destruct (detach_all_run K (sm_driver s) Hwf Hown) as (Hr & _).
  destruct (handle_detach_all_volumes K (sm_driver s)) as [dr r]. cbn in *. subst r. done.
Qed.

Lemma protected_encrypted dr :
  protected dr -> has_encrypted_os_volume (dr_heap dr) (dr_registry dr) = true.
Proof using Type.
  intros []. unfold has_encrypted_os_volume. apply existsb_exists. exists a. split.
  - apply list_elem_of_In. apply elem_of_all. exists p.
    apply bt_get_elem; [apply op_wf|done].
  - destruct op_volume as [en Ha]. unfold on_heap. rewrite Ha.
    replace (is_os_volume (set_encryption en v0)) with true by (symmetry; exact op_os).
    replace (has_encrypted_data (set_encryption en v0)) with true by (symmetry; exact op_encrypted).
    done.
Qed.

Lemma unload_refused c s :
  kernel_serves -> sm_control s = Some c -> is_control c s ->
  protected (sm_driver s) -> filters_owned (sm_driver s) ->
  exists s', driver_unload K Y RNG pc s = (s', Ok tt) /\
    sm_bugcheck s' = Some (VCK_BUGCHECK, STATUS_INVALID_DEVICE_STATE) /\
    sm_control s' = Some c /\ protected (sm_driver s') /\
    forall k b, (k, b) ∈ rg_entries (dr_registry (sm_driver s')) ->
      exists u, dr_heap (sm_driver s') !! b = Some u /\ is_os_volume u = true.
Proof using Type.
  intros HY Hc Hctl Hs Hown. pose proof (op_wf _ _ _ _ _ _ Hs) as Hwf.
  destruct (detach_all_request c s HY Hc Hctl Hwf Hown) as (dr & E & ->).
  destruct (detach_all_run K (sm_driver s) Hwf Hown) as (Hr & _ & _ & _ & Hos).
  pose proof (os_detach_all K p a d v0 e0 (sm_driver s) Hs ltac:(rewrite Hr; done)) as Hs'.
  unfold driver_unload. rewrite (mbind_step _ _ _ _ _ E).
  set (dr := (handle_detach_all_volumes K (sm_driver s)).1) in *.
  rewrite mbind_run. unfold on_driver at 1, zoom at 1. cbn [sm_driver set_driver].
  rewrite (protected_encrypted dr Hs'). cbn. eexists. split; [reflexivity|]. cbn. auto.
Qed.
End Unload.

(** ** Properties *)

(** C21: a control request from a user-mode caller without administrator rights
    changes nothing at all, and is completed with a failure status and no data;
    the two status queries, which anyone may send, leave the registry, the volumes
    and the device extensions as they were. *)
Theorem unprivileged_requests_change_nothing `{C : CryptoApi} `{A : AesApi} `{Wire} {W0}
    (K : Kernel W0) Y RNG pc q (s : Sample (list (JvckMetadataStore W0)) W0) :
  unprivileged Y q ->
  (~ open_to_all (fi_code (rq_irp q)) ->
   exists st, dispatch_device_control K Y RNG pc q s = (s, Ok (complete st 0 (rq_irp q))) /\
     nt_success st = false) /\
  (open_to_all (fi_code (rq_irp q)) ->
   same_objects (sm_driver s) (sm_driver (dispatch_device_control K Y RNG pc q s).1)).
Proof.
  intros Hq. split; [apply device_control_refused; done|]. apply device_control_query.
Qed.

Import (hints) DriverDemo.

Lemma unprivileged_requests_change_nothing_witness :
  let s := unloaded (W0 := MemVolume) ([], DriverDemo.disk) in
  let q := DriverDemo.path_request IOCTL_VCK_DETACH 1 DriverDemo.volume_name in
  exists st, dispatch_device_control (C := ToyCrypto.api) (A := ToyAes.api) DriverDemo.kernel
      DriverDemo.calls None DriverDemo.counters q s = (s, Ok (complete st 0 (rq_irp q))) /\
    nt_success st = false.
Proof.
  refine (proj1 (unprivileged_requests_change_nothing (C := ToyCrypto.api) (A := ToyAes.api)
    DriverDemo.kernel DriverDemo.calls None DriverDemo.counters
    (DriverDemo.path_request IOCTL_VCK_DETACH 1 DriverDemo.volume_name)
    (unloaded ([], DriverDemo.disk)) _) _).
  - split; [discriminate|]. intros t H. discriminate H.
  - intros [H|H]; discriminate H.
Defined.

(** C15: an encrypted OS volume stays mounted. In a state where the volume filed
    under [p] is an OS volume with encrypted sectors and its filter is its own, no
    control request but PREPARE and ATTACH, from any caller, takes its registry
    entry, its filter's binding or its boundary away. Unloading the driver detaches
    every data volume, leaves the OS volume as it is, and stops the machine
    instead of removing the control device. *)
Theorem encrypted_os_volume_is_kept `{C : CryptoApi} `{A : AesApi} `{Wire} {W0}
    (K : Kernel W0) Y RNG pc p a d v0 e0 (s : Sample (list (JvckMetadataStore W0)) W0) :
  os_protected p a d v0 e0 (sm_driver s) ->
  (forall q s' r,
     ~ binds_volumes (fi_code (rq_irp q)) ->
     dispatch_device_control K Y RNG pc q s = (s', r) -> r <> Panic ->
     os_protected p a d v0 e0 (sm_driver s')) /\
  (forall c,
     kernel_serves Y -> sm_control s = Some c -> is_control c s -> filters_owned (sm_driver s) ->
     exists s', driver_unload K Y RNG pc s = (s', Ok tt) /\
       sm_bugcheck s' = Some (VCK_BUGCHECK, STATUS_INVALID_DEVICE_STATE) /\
       sm_control s' = Some c /\ os_protected p a d v0 e0 (sm_driver s') /\
       forall k b, (k, b) ∈ rg_entries (dr_registry (sm_driver s')) ->
         exists u, dr_heap (sm_driver s') !! b = Some u /\ is_os_volume u = true).
Proof.
  intros Hs. split.
  - intros q s' r Hc E Hp.
    pose proof (protected_device_control K Y RNG pc p a d v0 e0 q Hc s Hs) as Hk.
    rewrite E in Hk. apply Hk. done.
  - intros c HY Hc Hctl Hown. apply (unload_refused K Y RNG pc p a d v0 e0 c s); done.
Qed.

(** A loaded driver with an encrypted OS volume on filter 5 and a data volume on
    filter 6. *)
Module LoadedDemo.
Abbreviation W := (list (JvckMetadataStore MemVolume) * MemVolume)%type.
Definition volume (path : string) (src : AttachSource) (boundary : Z) (d : nat) : AttachedVolume W :=
  let o := mkEncryptedOffset boundary 4 in
  mkVolume path 2 (Encrypted None 1 o (DummyOffsetStore 4)) (engine_new 1 o) (DummyOffsetStore 4) src
    (Some d) (DummySectorIo 2 4) boundary.
Definition os : AttachedVolume W := volume "\Device\HarddiskVolume3" Volume.Handover 2 5.
Definition data : AttachedVolume W := volume "\Device\HarddiskVolume4" Volume.Ioctl 1 6.
Definition os_ext : DeviceExtension := mkExt DEVICE_KIND_FILTER (Some 60%nat) (Some 0%nat) None.
Definition data_ext : DeviceExtension := mkExt DEVICE_KIND_FILTER (Some 61%nat) (Some 1%nat) None.
Definition control_ext : DeviceExtension := mkExt DEVICE_KIND_CONTROL None None None.

Definition driver : Driver (list (JvckMetadataStore MemVolume)) MemVolume :=
  mkDriver
    (mkRegistry [("\Device\HarddiskVolume3"%string, 0%nat); ("\Device\HarddiskVolume4"%string, 1%nat)]
       (Some 1%nat) [] None)
    {[0%nat := os; 1%nat := data]} {[5%nat := os_ext; 6%nat := data_ext; 9%nat := control_ext]}
    [] ([], DriverDemo.disk).
Definition sample : Sample (list (JvckMetadataStore MemVolume)) MemVolume :=
  mkSample driver (Some 9%nat) true true true None.

Lemma entries_cases k b :
  (k, b) ∈ rg_entries (dr_registry driver) -> (k = av_volume_path os /\ b = 0%nat) \/
    (k = av_volume_path data /\ b = 1%nat).
Proof.
  cbn. rewrite !elem_of_cons, elem_of_nil. intros [[= -> ->]|[[= -> ->]|[]]]; auto.
Qed.

Lemma wf : driver_wf driver.
Proof.
  constructor; [constructor|].
  - repeat constructor.
  - intros k b Hin. destruct (entries_cases k b Hin) as [[-> ->]|[-> ->]]; eexists; split; reflexivity.
  - unfold driver. cbn. repeat apply map_Forall_insert_2; [..|apply map_Forall_empty].
    all: constructor; cbn; try done; intros b [= <-]; eexists; reflexivity.
Qed.

Lemma protected :
  os_protected "\Device\HarddiskVolume3" 0 5 os os_ext (sm_driver sample).
Proof.
  constructor; try reflexivity.
  - exact wf.
  - exists (av_encryption os). reflexivity.
  - left. reflexivity.
  - intros k b u Hin Hu Hf. destruct (entries_cases k b Hin) as [[-> ->]|[-> ->]]; [done|].
    assert (u = data) as -> by (apply (inj Some); rewrite <- Hu; reflexivity). discriminate Hf.
Qed.

Lemma owned : filters_owned (sm_driver sample).
Proof.
  assert (forall b u, (b = 0%nat \/ b = 1%nat) -> dr_heap driver !! b = Some u ->
    (b = 0%nat /\ u = os) \/ (b = 1%nat /\ u = data)) as Hu.
  { intros b u [-> | ->] H; [left|right]; (split; [done|]); apply (inj Some); rewrite <- H; reflexivity. }
  constructor.
  - intros k b u n Hin Hh Hf. apply entries_cases in Hin.
    destruct (Hu b u) as [[-> ->]|[-> ->]]; [tauto|done|..]; cbn in Hf; simplify_eq;
      eexists; reflexivity.
  - intros k b u k' b' u' n Hin Hh Hf Hin' Hh' Hf'. apply entries_cases in Hin, Hin'.
    destruct (Hu b u) as [[-> ->]|[-> ->]], (Hu b' u') as [[-> ->]|[-> ->]];
      try tauto; cbn in Hf, Hf'; simplify_eq.
Qed.

Lemma serves : kernel_serves DriverDemo.calls.
Proof. intros w. split; [exists None; reflexivity|right; reflexivity]. Qed.

Lemma control : is_control 9 sample.
Proof. exists control_ext. split; reflexivity. Qed.
End LoadedDemo.

Lemma encrypted_os_volume_is_kept_witness :
  exists s', driver_unload (C := ToyCrypto.api) (A := ToyAes.api) DriverDemo.kernel DriverDemo.calls None
      DriverDemo.counters LoadedDemo.sample = (s', Ok tt) /\
    sm_bugcheck s' = Some (VCK_BUGCHECK, STATUS_INVALID_DEVICE_STATE) /\ sm_control s' = Some 9%nat /\
    os_protected "\Device\HarddiskVolume3" 0 5 LoadedDemo.os LoadedDemo.os_ext (sm_driver s') /\
    forall k b, (k, b) ∈ rg_entries (dr_registry (sm_driver s')) ->
      exists u, dr_heap (sm_driver s') !! b = Some u /\ is_os_volume u = true.
Proof.
  exact (proj2 (encrypted_os_volume_is_kept (C := ToyCrypto.api) (A := ToyAes.api) DriverDemo.kernel
    DriverDemo.calls None DriverDemo.counters _ _ _ _ _ _ LoadedDemo.protected) 9%nat
    LoadedDemo.serves eq_refl LoadedDemo.control LoadedDemo.owned).
Defined.

(** C18: The driver's objects stay well formed. From the state before DriverEntry,
    through loading and any sequence of entry points - packets on any device,
    AddDevice, completed starts, sweep batches, unloading - with any input and any
    behaviour of the kernel, the registry stays a sorted map that files every volume
    under its own path, a bound filter's volume exists, and a filter's thread serves
    the volume the filter is bound to. *)
Theorem driver_objects_stay_well_formed `{C : CryptoApi} `{A : AesApi} `{Wire} {W0}
    `{!Platform W0} `{!MsgPack VckHandoverPayload} `{!MsgPack HandoverLocator}
    (K : Kernel W0) Y RNG pc from_bytes_le fmt_ptr w drv es :
  let r := (_ ← DriverEntry K Y drv;
            run_entries K Y RNG pc from_bytes_le fmt_ptr es) (unloaded w) in
  r.2 <> Panic -> driver_wf (sm_driver r.1).
Proof.
  cbv zeta. apply (spreserves_bind driver_wf).
  - apply wf_driver_entry.
  - intros _. apply wf_entries.
  - constructor; [apply registry_new_wf|apply map_Forall_empty].
Qed.

Lemma driver_objects_stay_well_formed_witness :
  let es := [EnAddDevice 50;
             EnIrp true (Some 9%nat) (Some (DriverDemo.prepare_request Byte.x00 DriverDemo.volume_name));
             EnIrp true (Some 9%nat)
               (Some (DriverDemo.path_request IOCTL_VCK_START_ENCRYPT 0 DriverDemo.volume_name));
             EnSweep 100] in
  let r := (_ ← DriverEntry (MsgPack0 := HandoverDemo.pack_payload)
                  (MsgPack1 := HandoverDemo.pack_locator) DriverDemo.kernel DriverDemo.calls (Some 1%nat);
            run_entries (C := ToyCrypto.api) (A := ToyAes.api) DriverDemo.kernel DriverDemo.calls None
              DriverDemo.counters (fun b => b) (fun _ => ""%string) es)
           (unloaded ([], DriverDemo.disk)) in
  r.2 = Ok tt /\ (rg_entries (dr_registry (sm_driver r.1))).*1 = [DriverDemo.volume_name] /\
  driver_wf (sm_driver r.1).
Proof.
  cbv zeta. split; [vm_compute; reflexivity|]. split; [vm_compute; reflexivity|].
  apply (driver_objects_stay_well_formed (C := ToyCrypto.api) (A := ToyAes.api)).
  vm_compute. discriminate.
Defined.
