(* ===== verification/BootChain.v ===== *)
(** * From the loader to the driver's bound volume

    The whole boot of the sample: the loader ([sample/loader/src/main.rs]) reads
    its configuration, hooks the partition's Block I/O instance and publishes the
    handover; the OS loader reads and writes through the hook; the driver
    ([sample/windrv/src/lib.rs]) starts, takes the handover, attaches its filter to
    the partition's device and mounts the volume. The specification is one plain
    disk, which all of them read and write. *)

From S2P Require Import Prelude Types Sectors Engine Nt Pipeline Volume Thread Xts Metadata Codec Store StoreLaws Filter DataPath Io Config Handover Loader Registry Manager Provider Dispatch Attach AttachLaws Durable BindLaws BootMount OsVolume SampleDriver DriverDemo.

(** ** The same metadata through another device *)

Definition with_io {W} (io : SectorIo W) (s : JvckMetadataStore W) : JvckMetadataStore W :=
  mkStore io (js_options s) (js_vmk s) (js_geometry s) (js_volume_sectors s) (js_header s)
    (js_secrets s) (js_offset s) (js_state s) (js_codec s).

Section Relocate.
Context `{C : CryptoApi} {W : Type} (io dev : SectorIo W) (inv : W -> Prop) (view : W -> Z -> bytes).
Context {IL : SectorIoLaws io inv view} {DL : SectorIoLaws dev inv view}.
Hypothesis Hss : sector_size dev = sector_size io.
Hypothesis Htotal : total_sectors dev = total_sectors io.

Lemma relocate_store s : store_wf io inv view s -> store_wf dev inv view (with_io dev s).
Proof using Hss Htotal. intros []. constructor; cbn; rewrite ?Hss, ?Htotal; done. Qed.

Lemma relocate s w :
  footer_only io inv view s w -> footer_only dev inv view (with_io dev s) w.
Proof using Hss Htotal.
  intros [[[S0 Hm Hc Hst Hs Hl] Hb] Hh]. constructor; [|done]. constructor; [|done].
  constructor; [|destruct Hm; done|done|done| |].
  - apply relocate_store. exact S0.
  - unfold synced, sealed_store, js_lbas in *. cbn. rewrite Hss. exact Hs.
  - unfold last_sector_clear in *. cbn. rewrite Htotal. exact Hl.
Qed.

(** Writes to the data region leave the metadata alone. *)
Lemma footer_only_outside s w w' :
  (forall i, g_data_sectors (js_geometry s) <= i < total_sectors io -> view w' i = view w i) ->
  footer_only io inv view s w -> footer_only io inv view s w'.
Proof using IL.
  intros Hv F. pose proof (footer_only_data io inv view s w F) as [H0 Hd].
  destruct F as [[[S Hm Hc Hst Hs Hl] Hb] Hh]. constructor; [|done]. constructor; [|done].
  pose proof (js_lbas_range io inv view s S) as Hr. rewrite Forall_forall in Hr.
  assert (forall l, l ∈ js_lbas s -> view w' l = view w l) as Hv'.
  { intros l Hin. apply Hv. specialize (Hr l Hin). split; [|lia].
    destruct (Z.le_gt_cases (g_data_sectors (js_geometry s)) l) as [|Hlt]; [done|]. exfalso.
    apply (js_lbas_data io inv view s S l); [rewrite H0; lia|done]. }
  constructor; try done.
  - destruct Hs as (block & Hlen & Hb' & Hall). exists block. split_and!; [done..|].
    intros l Hin. rewrite Hv' by done. apply Hall. done.
  - destruct Hl as [|Hl]; [by left|].
    destruct S as [_ _ Ho Hsome Hg _ _ _]. left. rewrite Hh in Hsome. lia.
Qed.
End Relocate.

(** A cipher decrypts whole sectors in one way. *)
Lemma cipher_dec_unique c ss enc dec enc' dec' r s :
  CipherLaws c ss enc dec -> CipherLaws c ss enc' dec' ->
  in_u 64 r -> length s = Z.to_nat ss -> dec r s = dec' r s.
Proof.
  intros H H' Hr Hl. pose proof (cl_decrypt_sector (CipherLaws:=H) r s Hr Hl) as E.
  rewrite (cl_decrypt_sector (CipherLaws:=H') r s Hr Hl) in E. congruence.
Qed.

(** ** The loader on a volume with metadata *)

Section LoaderHook.
Context {W : Type} `{A : AesApi} {HA : AesLaws A} `{C : CryptoApi}.
Context (fw : Firmware W) (io : SectorIo W) (inv : W -> Prop) (view : W -> Z -> bytes).
Context {IL : SectorIoLaws io inv view} {RL : SectorIoReads io inv}.
Context (rd : ReadBlocks W) (wr : WriteBlocks W).
Abbreviation ss := (sector_size io).
Abbreviation total := (total_sectors io).
Implicit Types (s : JvckMetadataStore W) (m : Machine W).

Lemma on_disk_run {B} (x : M VckError W B) m w r :
  x (disk m) = (w, r) -> on_disk x m = (set_disk w m, r).
Proof using Type. intros Hx. unfold on_disk, zoom. rewrite Hx. done. Qed.

(** What the firmware shows of the partition: the volume the metadata is read
    from, and the handle and instance the hook goes to. *)
Record partition_hookable (guid : Guid) (p : nat) m : Prop := {
  ph_volume : locate_block_io_volume (fw_from_bytes_le fw) (fw_volumes fw) guid = Ok io;
  ph_handle : exists handles i h, fw_handles fw = Ok handles /\
    list_find (fun h => handle_matches (fw_from_bytes_le fw) guid h = true) handles = Some (i, h) /\
    hh_opens h = true /\ hh_interface h = Some p;
  ph_instance : protocols m !! p = Some (mkProtocol (FirmwareRead rd) (FirmwareWrite wr) (Some ss));
  ph_table : table m = HOOK_TABLE;
}.

(** The engine for the metadata of [s]. *)
Definition engine_for (guid : Guid) s : BlockIoHookEngine :=
  mkHookEngine (mkHookGeometry guid (g_offset_sector (js_geometry s))
      (mkEncryptedOffset (js_offset s) (g_data_sectors (js_geometry s))))
    (static_supplier (static_supplier_new (fvek_keys s).1 (fvek_keys s).2)) None None.

Lemma install_hook_run guid p m s :
  partition_hookable guid p m -> footer_only io inv view s (disk m) -> inv (disk m) ->
  exists m1 a e,
    install_decrypt_hook fw guid (js_vmk s) m = (m1, Ok tt) /\
    hooked rd wr ss p a e m1 /\ eng_geometry e = eng_geometry (engine_for guid s) /\
    eng_cipher_supplier e = eng_cipher_supplier (engine_for guid s) /\
    inv (disk m1) /\ forall i, 0 <= i < total -> view (disk m1) i = view (disk m) i.
Proof using IL RL.
  intros [Hvol (handles & i & h & Hh & Hf & Ho & Hp) Hproto Htab] F Hi.
  destruct F as [[[S0 Hm Hc [st Hst] Hs Hl] _] _].
  destruct (open_synced io inv view s (disk m) st S0 Hm Hc Hst Hi Hs Hl) as (w1 & E1 & Hi1 & Hv1).
  pose proof (synced_ext io inv view s _ w1 S0 Hv1 Hs) as Hs1.
  destruct (synced_load io inv view s w1 S0 Hi1 Hs1) as (w2 & E2 & Hi2 & Hv2).
  unfold open in E1. rewrite mbind_run in E1.
  destruct (Reader_open io (disk m)) as [w0 [reader| |]] eqn:E0; [|done..].
  set (a := fresh (dom (engines m))). set (e := engine_for guid s).
  set (m2 := set_engine a e (set_disk w2 m)).
  assert (engines m2 !! a = Some e) as Ha by apply lookup_insert_eq.
  destruct (fill_slot (mkHookEntry p (FirmwareRead rd) (FirmwareWrite wr) (Some a)) (table m2))
    as [t|] eqn:Et; [|cbn in Et; rewrite Htab in Et; done].
  exists (patched p a (mkProtocol (FirmwareRead rd) (FirmwareWrite wr) (Some ss)) e t m2), a,
    (with_block_io (Some p) e).
  split; [|split; [constructor; cbn|split; [done|split; [done|split; [done|]]]]].
  - unfold install_decrypt_hook. rewrite mbind_run. unfold lift at 1. rewrite Hvol, mbind_run.
    rewrite (on_disk_run _ m w0 _ E0), mbind_run.
    rewrite (on_disk_run _ (set_disk w0 m) w1 (Ok s)) by exact E1. rewrite mbind_run.
    rewrite (on_disk_run _ (set_disk w1 (set_disk w0 m)) w2 (Ok (js_offset s))) by exact E2.
    unfold fvek_keys at 1. cbv beta iota zeta. rewrite mbind_run. unfold lift at 1.
    unfold BlockIoHookEngine_new. refine (eq_trans (mbind_step (leak e) _ _ m2 a eq_refl) _).
    rewrite Hh.
    rewrite (engine_install_run _ handles m2 a e Ha). unfold target_handle.
    cbn [eng_geometry e engine_for hg_partition_guid]. rewrite Hf. cbn [fmap option_fmap option_map snd].
    rewrite Ho, Hp. cbn [negb]. cbn [protocols m2 set_engine set_disk]. rewrite Hproto.
    cbn [read_blocks write_blocks]. rewrite Et. done.
  - apply lookup_insert_eq.
  - cbn in Et. rewrite Htab in Et. rewrite (fill_slot_find _ _ _ _ Et) by done.
    rewrite bool_decide_true by done. done.
  - apply lookup_insert_eq.
  - intros j Hj. cbn. rewrite Hv2, Hv1; done.
Qed.

(** What the OS loader sees and leaves through the hook. *)
Context (media_id : Z) {FW : FirmwareLaws rd wr media_id ss total inv view}.

Lemma spec_bops_outside n (P : Z -> bytes) ops i :
  Forall (bop_ok n i) ops -> (spec_bops n P ops).1 i = P i.
Proof using Type.
  intros Hops. revert P. induction Hops as [|op ops Hop _ IH]; intros P; [done|]. cbn [spec_bops].
  destruct (spec_bop n P op) as [P1 r] eqn:E. specialize (IH P1). destruct (spec_bops n P1 ops).
  cbn in *. rewrite IH. destruct op; cbn in *; simplify_eq; [done|].
  destruct Hop as (_ & _ & _ & Hl). unfold write_run.
  destruct (_ && _) eqn:Hb; [|done]. apply andb_prop in Hb as [_ Hb]. apply Z.ltb_lt in Hb. lia.
Qed.

Lemma bop_ok_mono n k k' op : k <= k' -> bop_ok n k op -> bop_ok n k' op.
Proof using Type.
  intros Hk. destruct op; cbn; [intros (j & ? & ? & ?); exists j|intros (? & ? & ? & ?)];
    split_and!; (done || lia).
Qed.

Lemma hooked_os_loader guid p a e m s c enc dec ops :
  hooked rd wr ss p a e m -> inv (disk m) -> footer_only io inv view s (disk m) ->
  eng_geometry e = eng_geometry (engine_for guid s) ->
  get_cipher (eng_cipher_supplier e) = Some c -> CipherLaws c ss enc dec ->
  let data := g_data_sectors (js_geometry s) in
  let P := plaintext dec (view (disk m)) 0 (js_offset s) in
  Forall (bop_ok (Z.to_nat ss) data) ops ->
  exists w', run_bops p media_id ops m = (set_disk w' m, Ok (spec_bops (Z.to_nat ss) P ops).2) /\
    inv w' /\ footer_only io inv view s w' /\
    same_disk data (plaintext dec (view w') 0 (js_offset s)) (spec_bops (Z.to_nat ss) P ops).1.
Proof using IL FW.
  intros Hh Hi F Hg Hsup Hc data P Hops. destruct (footer_only_data io inv view s _ F) as [H0 Hd].
  pose proof (io_total (io:=io) (view:=view)) as Ht.
  set (V := boot_view dec (eng_geometry e)).
  assert (forall v, same_view data (V v) (plaintext dec v 0 (js_offset s))) as Hdata.
  { intros v i Hx. unfold V. rewrite Hg.
    pose proof (boot_view_data dec (eng_geometry (engine_for guid s)) v i) as E. cbn in E.
    unfold engine_for. cbn. rewrite H0 in *. fold data in Hd. rewrite <- E by lia. done. }
  assert (forall v i, data <= i -> V v i = v i) as Hout.
  { intros v i Hx. unfold V. rewrite Hg. apply boot_view_outside. right. cbn. rewrite H0. lia. }
  destruct (hooked_bops rd wr media_id ss total inv view c enc dec p a e Hsup ops m Hh Hi)
    as (w' & E & Hi' & Hs').
  { eapply Forall_impl; [exact Hops|]. intros op. apply bop_ok_mono. unfold data. lia. }
  destruct (spec_bops_same ss data c enc dec (V (view (disk m))) P ops Hops (Hdata _)) as [E2 Hs2].
  exists w'. rewrite E. split; [unfold V in E2; rewrite E2; done|]. split; [done|]. split.
  - apply (footer_only_outside io inv view s (disk m)); [|done]. intros i Hx.
    specialize (Hs' i ltac:(lia)). fold V in Hs'. rewrite Hout in Hs' by lia. rewrite Hs'.
    rewrite spec_bops_outside; [apply Hout; lia|].
    eapply Forall_impl; [exact Hops|]. intros op. apply bop_ok_mono. unfold data. lia.
  - intros i Hx. rewrite <- Hdata by done. unfold V. rewrite Hs' by (unfold data in *; lia).
    apply Hs2. done.
Qed.
End LoaderHook.

(** ** The driver's start *)

Section Start.
Context {W : Type} {PF : Platform W} {MP : MsgPack VckHandoverPayload} {ML : MsgPack HandoverLocator}.
Context {LP : MsgPackLaws VckHandoverPayload} {LL : MsgPackLaws HandoverLocator}.
Context `{C : CryptoApi} `{A : AesApi} `{WR : Wire}.
Context (K : Kernel W) (Y : SysCalls W) (RNG : option (RandomSource W)).
Context (pc : Counters W) (from_bytes_le : bytes -> Guid) (fmt_ptr : nat -> string).
Context (lower : nat) (size : Z) (inv : W -> Prop) (view : W -> Z -> bytes).
Abbreviation P := (list (JvckMetadataStore W)).

(** [w'] has the disk, the firmware variables and the memory of [w]. *)
Record unmoved (w w' : W) : Prop := {
  um_inv : inv w';
  um_view : forall i, 0 <= i < size -> view w' i = view w i;
  um_variable n g cap : get_variable n g cap w' = get_variable n g cap w;
  um_memory a n : mem_read a n w' = mem_read a n w;
  um_map a n : map_ok a n w' = map_ok a n w;
  um_pool n : pool_ok n w' = pool_ok n w;
}.

(** A call of the kernel that returns [r] and does no more. *)
Definition silent {B} (f : W -> W * B) (r : B) : Prop :=
  forall w, inv w -> exists w', f w = (w', r) /\ unmoved w w'.

(** Creating the control device succeeds, with address [control]; so do creating a
    filter, with address [filter], and attaching it to [pdo], above [lower]. Writing
    to physical memory touches no disk. *)
Class StartCalls (drv control pdo filter : nat) : Prop := {
  sc_secure : silent (y_create_secure Y) (STATUS_SUCCESS, Some control);
  sc_symlink : silent (y_create_symlink Y) STATUS_SUCCESS;
  sc_shutdown : silent (fun w => (y_register_shutdown Y control w, tt)) tt;
  sc_device : silent (k_create_device K) (STATUS_SUCCESS, Some filter);
  sc_attach : silent (k_attach K filter (Some pdo)) (STATUS_SUCCESS, Some lower);
  sc_memory a b w : inv w ->
    inv (mem_write a b w) /\ forall i, 0 <= i < size -> view (mem_write a b w) i = view w i;
}.

Context (drv control pdo filter : nat) {SC : StartCalls drv control pdo filter}.

Lemma unmoved_trans w1 w2 w3 : unmoved w1 w2 -> unmoved w2 w3 -> unmoved w1 w3.
Proof using Type. intros [] [? V2 G2 M2 Q2 L2]. constructor; intros; rewrite ?V2, ?G2, ?M2, ?Q2, ?L2; auto. Qed.

Lemma silent_run {B} (f : W -> W * B) r (d : Driver P W) :
  silent f r -> inv (dr_world d).2 ->
  exists w', kcall f d = (with_world ((dr_world d).1, w') d, Ok r) /\ unmoved (dr_world d).2 w'.
Proof using Type.
  intros Hf Hi. destruct (Hf _ Hi) as (w' & E & Hu). exists w'. split; [|done].
  unfold kcall. rewrite kworld_run, E. done.
Qed.

Lemma unmoved_published payload data addr w w' :
  unmoved w w' -> published (P := VckHandoverPayload) payload data addr w ->
  published payload data addr w'.
Proof using Type.
  intros [] [Hd Ha Hm (lb & Hl & Hs & Hv)]. constructor; [done|done|congruence|].
  exists lb. rewrite !um_variable0. done.
Qed.

(** The loaded driver, before any device. *)
Definition loaded (h : HandoverInfo) (w : W) : Sample P W :=
  mkSample (mkDriver (set_handover h (set_driver_object (Some drv) registry_new)) ∅
      {[control := mkExt DEVICE_KIND_CONTROL None None None]} [] ([], w))
    (Some control) true true true None.

Lemma control_device_run w :
  inv w ->
  exists w', on_driver (ControlDevice_create K Y)
      (mkSample (mkDriver registry_new ∅ ∅ [] ([], w)) None true false false None) =
    (mkSample (mkDriver registry_new ∅ {[control := mkExt DEVICE_KIND_CONTROL None None None]} []
       ([], w')) None true false false None, Ok control) /\ unmoved w w'.
Proof using SC.
  intros Hi. set (d := mkDriver registry_new ∅ ∅ [] ([], w) : Driver P W).
  destruct (silent_run _ _ d sc_secure Hi) as (w1 & E1 & U1).
  set (d1 := mkDriver registry_new ∅ {[control := mkExt DEVICE_KIND_CONTROL None None None]} []
               ([], w1) : Driver P W).
  destruct (silent_run _ _ d1 sc_symlink (um_inv _ _ U1)) as (w2 & E2 & U2).
  set (d2 := with_world ([], w2) d1). fold d2 in E2.
  destruct (silent_run _ _ d2 sc_shutdown (um_inv _ _ U2)) as (w3 & E3 & U3).
  exists w3. split; [|eapply unmoved_trans; [|exact U3]; eapply unmoved_trans; [exact U1|exact U2]].
  assert (ControlDevice_create K Y d = (with_world ([], w3) d2, Ok control)) as E.
  { unfold ControlDevice_create. rewrite (mbind_step _ _ _ _ _ E1). cbv beta iota.
    set (d0 := with_world _ d). rewrite (mbind_step _ _ d0 d0 tt) by done.
    rewrite (mbind_step _ _ d0 d0 control) by done. rewrite (mbind_step _ _ d0 d1 tt) by done.
    rewrite (mbind_step _ _ _ _ _ E2).
    change (ntstatus_to_result STATUS_SUCCESS _) with (Ok (E := VckError) tt). cbv beta iota.
    change (with_world _ d1) with d2. rewrite (mbind_step _ _ _ _ _ E3). done. }
  unfold on_driver, zoom. cbn [sm_driver]. fold d. rewrite E. done.
Qed.

(** DriverEntry takes the handover and wipes it. *)
Lemma driver_entry_run w payload data addr :
  inv w -> published payload data addr w -> Z.of_nat (length data) <= MAX_PAYLOAD_LEN ->
  (forall a n, map_ok a n w = true) -> (forall n, pool_ok n w = true) ->
  exists w', DriverEntry K Y (Some drv) (unloaded ([], w)) =
      (loaded (mkHandoverInfo (hp_partition_guid payload) (hp_vmk payload)) w', Ok STATUS_SUCCESS) /\
    inv w' /\ forall i, 0 <= i < size -> view w' i = view w i.
Proof using SC LP LL.
  intros Hi Hp Hmax Hmap Hpool. destruct (control_device_run w Hi) as (w1 & E1 & U1).
  pose proof (unmoved_published _ _ _ _ _ U1 Hp) as Hp1. destruct U1 as [Hi1 Hv1 _ _ Hm1 Hq1].
  pose proof (published_read payload data addr w1 Hp1 Hmax) as E2.
  destruct (sc_memory addr (replicate (length data) Byte.x00) w1 Hi1) as [Hi2 Hv2].
  eexists. split; [|split; [exact Hi2|intros i Hx; rewrite Hv2, Hv1; done]].
  unfold DriverEntry. rewrite (mbind_step _ _ _ _ tt) by reflexivity. cbv beta iota.
  rewrite (mbind_step _ _ _ _ _ (attempt_ok _ _ _ _ E1)). cbv beta iota.
  do 3 rewrite (mbind_step _ _ _ _ tt) by reflexivity.
  set (d1 := mkDriver (set_driver_object (Some drv) registry_new) ∅
               {[control := mkExt DEVICE_KIND_CONTROL None None None]} [] ([], w1) : Driver P W).
  assert (kworld (read_handover (P := VckHandoverPayload)) d1 =
    (with_world ([], mem_write addr (replicate (length data) Byte.x00) w1) d1, Ok payload)) as E3.
  { apply (kworld_ok (read_handover (P := VckHandoverPayload)) d1). apply E2; intros; congruence. }
  assert (accept_handover d1 = (with_registry (set_handover
      (mkHandoverInfo (hp_partition_guid payload) (hp_vmk payload)) (dr_registry d1))
      (with_world ([], mem_write addr (replicate (length data) Byte.x00) w1) d1), Ok tt)) as E4.
  { unfold accept_handover. rewrite (mbind_step _ _ _ _ _ (attempt_ok _ _ _ _ E3)). done. }
  set (s1 := mkSample (accept_handover d1).1 (Some control) true true false None).
  refine (eq_trans (mbind_step (on_driver accept_handover) _
            (mkSample d1 (Some control) true true false None) s1 tt _) _).
  - unfold on_driver, zoom. cbn [sm_driver]. unfold s1. rewrite E4. done.
  - unfold s1. rewrite E4. done.
Qed.

(** AddDevice attaches an unbound filter. *)
Lemma add_device_run (s : Sample P W) :
  inv (dr_world (sm_driver s)).2 ->
  exists w', add_device K pdo s =
    (set_driver (mkDriver (add_pdo_filter (Some pdo) (Some filter) (Some lower)
          (device_name (k_query_name K pdo (dr_world (sm_driver s)).2)) (dr_registry (sm_driver s)))
        (dr_heap (sm_driver s)) (<[filter := unbound_ext lower]> (dr_devices (sm_driver s)))
        (dr_completed (sm_driver s)) ((dr_world (sm_driver s)).1, w')) s, Ok STATUS_SUCCESS) /\
    unmoved (dr_world (sm_driver s)).2 w'.
Proof using SC.
  destruct s as [d c b1 b2 b3 bc]. cbn [sm_driver]. intros Hi.
  destruct (silent_run _ _ d sc_device Hi) as (w1 & E1 & U1).
  set (d1 := with_devices (<[filter := mkExt 0 None None None]> (dr_devices d))
               (with_world ((dr_world d).1, w1) d)).
  destruct (silent_run _ _ d1 sc_attach (um_inv _ _ U1)) as (w2 & E2 & U2).
  exists w2. split; [|exact (unmoved_trans _ _ _ U1 U2)].
  set (d2 := with_devices (<[filter := unbound_ext lower]> (dr_devices d))
               (with_world ((dr_world d).1, w2) d)).
  pose proof (attach_raw_ok K (Some pdo) filter lower w1 w2 d E1 E2) as E. fold d2 in E.
  unfold add_device.
  rewrite (mbind_step _ _ _ (mkSample d c b1 b2 b3 bc) (k_query_name K pdo (dr_world d).2))
    by (unfold on_driver, zoom; cbn [sm_driver]; rewrite kread_run; done).
  assert (on_driver (attach_filter_to_raw_device K (Some pdo)) (mkSample d c b1 b2 b3 bc) =
    (mkSample d2 c b1 b2 b3 bc, Ok (Some filter, Some lower))) as Eo
    by (unfold on_driver, zoom; cbn [sm_driver]; rewrite E; done).
  rewrite (mbind_step _ _ _ _ _ (attempt_ok _ _ _ _ Eo)). done.
Qed.
End Start.

(** ** The chain *)

(** The machine the OS starts on: the disk as the boot left it, and the variables
    and memory the firmware holds, which can be mapped. *)
Class Handoff {W S} `{!Platform W, !Platform S} (inv : W -> Prop) (view : W -> Z -> bytes)
    (total : Z) (handoff : W -> S -> W) : Prop := {
  ho_disk w s : inv w ->
    inv (handoff w s) /\ forall i, 0 <= i < total -> view (handoff w s) i = view w i;
  ho_variable n g cap w s : get_variable n g cap (handoff w s) = get_variable n g cap s;
  ho_memory a n w s : mem_read a n (handoff w s) = mem_read a n s;
  ho_map a n w s : map_ok a n (handoff w s) = true;
  ho_pool n w s : pool_ok n (handoff w s) = true;
}.

Lemma handoff_published {W S} `{!Platform W, !Platform S, !MsgPack VckHandoverPayload,
    !MsgPack HandoverLocator} inv view total (handoff : W -> S -> W)
    {HO : Handoff inv view total handoff} payload data addr w s :
  published (P := VckHandoverPayload) payload data addr s ->
  published payload data addr (handoff w s).
Proof.
  intros [Hd Ha Hm (lb & Hl & Hs & Hv)]. constructor; [done|done|rewrite ho_memory; done|].
  exists lb. rewrite !ho_variable. done.
Qed.

Section Chain.
Context {W S : Type} {PW : Platform W} {PS : Platform S} {MP : MsgPack VckHandoverPayload}
  {ML : MsgPack HandoverLocator} {PL : PlatformLaws S}.
Context {LP : MsgPackLaws VckHandoverPayload} {LL : MsgPackLaws HandoverLocator}.
Context `{C : CryptoApi} `{A : AesApi} {HA : AesLaws A} `{WR : Wire}.
Context (K : Kernel W) (Y : SysCalls W) (RNG : option (RandomSource W)).
Context (pc : Counters W) (from_bytes_le : bytes -> Guid) (fmt_ptr : nat -> string).
Context (io : SectorIo W) (inv : W -> Prop) (view : W -> Z -> bytes).
Context {IL : SectorIoLaws io inv view} {RL : SectorIoReads io inv}.
Abbreviation ss := (sector_size io).
Abbreviation total := (total_sectors io).
Context (lower : nat) {WD : WorkingDisk K lower ss total inv view}.
Context {FL : FillLaws RNG inv view total} {FR : FillReliable RNG inv}.
Context (drv control pdo filter : nat).
Context {SC : StartCalls K Y lower total inv view drv control pdo filter}.
Context (guid : Guid) (R : reports K lower ss total inv view from_bytes_le guid).
Abbreviation device := (LowerDevice_io (below_filter K lower ss total)).
Implicit Types (s : JvckMetadataStore W) (w : W).

Abbreviation boot passive wa ca :=
  (_ ← DriverEntry K Y (Some drv);
   run_entries K Y RNG pc from_bytes_le fmt_ptr [EnAddDevice pdo; EnStarted passive wa ca filter]).

Lemma driver_mounts payload data addr passive wa ca s w :
  inv w -> published payload data addr w -> Z.of_nat (length data) <= MAX_PAYLOAD_LEN ->
  (forall a n, map_ok a n w = true) -> (forall n, pool_ok n w = true) ->
  on_start_device_completed passive wa ca (fun _ => true) false = true ->
  footer_only io inv view s w -> payload = mkPayload guid (js_vmk s) ->
  exists sm a v path,
    boot passive wa ca (unloaded ([], w)) = (sm, Ok tt) /\
    binds (sm_driver sm) filter a path v /\ is_os_volume v = true /\
    serves_metadata device inv view (sm_driver sm) (with_io device s) v (view w) /\
    ((forall w, k_create_thread K w = true) -> runs (sm_driver sm) filter a).
Proof using All.
  intros Hi Hp Hmax Hmap Hpool Hst F ->.
  destruct (driver_entry_run K Y lower total inv view drv control pdo filter w _ data addr
              Hi Hp Hmax Hmap Hpool) as (w1 & E1 & Hi1 & Hv1).
  set (s1 := loaded drv control _ w1) in E1.
  destruct (add_device_run K Y lower total inv view drv control pdo filter s1 Hi1) as (w2 & E2 & U2).
  destruct U2 as [Hi2 Hv2 _ _ _ _]. cbn in Hv2.
  match type of E2 with _ = (?x, _) => set (s2 := x) in E2 end.
  assert (driver_wf (sm_driver s2)) as Hwf.
  { pose proof (wf_driver_entry K Y (Some drv) (unloaded ([], w))) as Hw1.
    pose proof (wf_add_device K pdo s1) as Hw2. rewrite E1 in Hw1. rewrite E2 in Hw2.
    apply Hw2; [|done]. apply Hw1; [|done].
    constructor; [apply registry_new_wf|apply map_Forall_empty]. }
  destruct (below_size K lower ss total inv view) as [Hdt Hds].
  assert (footer_only device inv view (with_io device s) w2) as F2.
  { pose proof (below_laws K lower ss total inv view total total ltac:(pose proof (io_total (io:=io) (view:=view)); lia)) as DL.
    apply (footer_only_ext device inv view _ w); [|apply (relocate io device inv view); done].
    intros i Hx. rewrite Hv2, Hv1; done. }
  destruct (mount_run K RNG lower ss total inv view from_bytes_le fmt_ptr guid (sm_driver s2) filter
              (unbound_ext lower) (with_io device s) R F2 Hwf)
    as (d' & a & v & E3 & Hb & Hos & Hsm & Hrun); [done|apply lookup_insert_eq|done|done|done|].
  exists (set_driver d' s2), a, v, (mount_path lower fmt_ptr (sm_driver s2) filter).
  split; [|split; [done|split; [done|]]].
  - rewrite (mbind_step _ _ _ _ _ E1). unfold run_entries. cbn [miter run_entry].
    assert ((_ ← add_device K pdo; mret tt) s1 = (s2, Ok tt)) as E2'
      by (rewrite (mbind_step _ _ _ _ _ E2); done).
    rewrite (mbind_step _ _ _ _ _ E2'). unfold started. rewrite mbind_run, Hst.
    unfold on_driver, zoom. change (provider_of RNG s2) with (Some (vck_provider RNG)).
    change (sm_published s2) with true. rewrite E3. done.
  - split; [|intros Hc; exact (Hrun Hc eq_refl)]. eapply serves_metadata_ext; [|exact Hsm].
    destruct (footer_only_data io inv view s w F) as [H0 Hd].
    intros i Hx. cbn in Hx |- *. rewrite Hv2, Hv1 by lia. done.
Qed.

Context (fw : Firmware W) (rd : ReadBlocks W) (wr : WriteBlocks W) (media_id : Z).
Context {FW : FirmwareLaws rd wr media_id ss total inv view}.
Context (handoff : W -> S -> W) {HO : Handoff inv view total handoff}.

(** What the loader needs: a configuration for the partition and its key, a place
    for the handover, and a next image. *)
Record bootable config s data p (b : Boot W S) : Prop := {
  bt_config : load_from_esp fw = Ok config;
  bt_guid : vc_partition_guid config = guid;
  bt_vmk : vc_vmk config = js_vmk s;
  bt_path : fw_device_path fw (windows_path config) = Ok tt;
  bt_hookable : partition_hookable fw io rd wr guid p (b_machine b);
  bt_payload : encode_payload (mkPayload guid (js_vmk s)) = Ok data;
  bt_short : Z.of_nat (length data) <= MAX_PAYLOAD_LEN;
  bt_publishes : (install_handover (mkPayload guid (js_vmk s)) (b_platform b)).2 = Ok tt;
  bt_image : fw_load_image fw = true /\ fw_start_image fw = true;
}.

Lemma loader_run config s data p b :
  bootable config s data p b -> footer_only io inv view s (disk (b_machine b)) ->
  inv (disk (b_machine b)) ->
  exists b1 a e addr, run fw b = (b1, Ok tt) /\
    published (mkPayload guid (js_vmk s)) data addr (b_platform b1) /\
    hooked rd wr ss p a e (b_machine b1) /\
    eng_geometry e = eng_geometry (engine_for guid s) /\
    eng_cipher_supplier e = eng_cipher_supplier (engine_for guid s) /\
    inv (disk (b_machine b1)) /\
    forall i, 0 <= i < total -> view (disk (b_machine b1)) i = view (disk (b_machine b)) i.
Proof using IL RL PL LL.
  intros [Hc Hg Hk Hpath Hhook Hpay _ Hpub [Hli Hsi]] F Hi.
  destruct (install_hook_run fw io inv view rd wr guid p (b_machine b) s Hhook F Hi)
    as (m1 & a & e & E1 & Hh & He & Hs & Hi1 & Hv1).
  destruct (install_handover (mkPayload guid (js_vmk s)) (b_platform b)) as [s1 r] eqn:E2.
  cbn in Hpub. subst r. destruct (install_publishes _ data _ _ Hpay E2) as (addr & Hp).
  eexists (mkBoot m1 s1 _ true), a, e, addr.
  split; [apply (run_ok fw b config m1 (Ok tt) s1); rewrite ?Hg, ?Hk; done|done].
Qed.

(** The plaintext of a volume, whichever laws of its cipher name it. *)
Lemma plaintext_unique c enc dec enc' dec' w b data :
  CipherLaws c ss enc dec -> CipherLaws c ss enc' dec' -> inv w -> 0 <= data <= total ->
  same_disk data (plaintext dec (view w) 0 b) (plaintext dec' (view w) 0 b).
Proof using IL.
  intros Hc Hc' Hi Hd i Hx. pose proof (io_total (io:=io) (view:=view)) as Ht. unfold plaintext.
  destruct (i <? b); [|done]. apply (cipher_dec_unique c ss enc dec enc' dec'); [done|done| |].
  - unfold in_u in *. lia.
  - apply (io_len (io:=io)); [done|lia].
Qed.

(** What the driver leaves on its device is there for the loader's volume. *)
Lemma lasts_relocate c enc dec enc' dec' s Q v t :
  CipherLaws c ss enc dec -> CipherLaws c ss enc' dec' -> js_io s = io ->
  use_header (js_options s) = 0 -> g_offset_sector (js_geometry s) = 0 ->
  0 <= g_data_sectors (js_geometry s) <= total ->
  lasts device inv view (with_io device s) dec' Q v t -> lasts io inv view s dec Q v t.
Proof using All.
  intros Hc Hc' Hio Hh H0 Hd Hl Hf alloc a ext vt heap evs Hr. unfold lasts in Hl.
  cbn [with_io js_geometry js_options] in Hl. rewrite H0 in *.
  destruct (Hl Hf alloc a ext vt heap evs Hr) as (p' & t' & fs & gs & o & st & E & Hcut & Hi & Hb & Hs).
  destruct (below_size K lower ss total inv view) as [Hdt _].
  pose proof (below_laws K lower ss total inv view total total ltac:(lia)) as DL.
  pose proof (relocate device io inv view eq_refl eq_refl _ _ (Build_footer_only device inv view _ _ Hb Hh)) as [Hb' _].
  assert (with_io io (later o st (with_io device s)) = later o st s) as Hw.
  { unfold with_io, later, set_js_state, set_js_offset. cbn. rewrite <- Hio. done. }
  rewrite Hw in Hb'. exists p', t', fs, gs, o, st. do 4 (split; [done|]).
  etransitivity; [|exact Hs]. apply (plaintext_unique c enc dec enc' dec'); done.
Qed.

Lemma chain_run c enc dec config s data p b :
  get_cipher (static_supplier (static_supplier_new (fvek_keys s).1 (fvek_keys s).2)) = Some c ->
  CipherLaws c ss enc dec ->
  bootable config s data p b -> footer_only io inv view s (disk (b_machine b)) ->
  inv (disk (b_machine b)) ->
  exists b1, run fw b = (b1, Ok tt) /\
    forall passive wa ca ops,
      let n := g_data_sectors (js_geometry s) in
      let P := plaintext dec (view (disk (b_machine b))) 0 (js_offset s) in
      on_start_device_completed passive wa ca (fun _ => true) false = true ->
      Forall (bop_ok (Z.to_nat ss) n) ops ->
      exists w sm a v path,
        run_bops p media_id ops (b_machine b1) =
          (set_disk w (b_machine b1), Ok (spec_bops (Z.to_nat ss) P ops).2) /\
        boot passive wa ca (unloaded ([], handoff w (b_platform b1))) = (sm, Ok tt) /\
        binds (sm_driver sm) filter a path v /\ is_os_volume v = true /\ av_sector_size v = ss /\
        serves 0 n (spec_bops (Z.to_nat ss) P ops).1 v (dr_world (sm_driver sm)) /\
        lasts io inv view s dec (spec_bops (Z.to_nat ss) P ops).1 v (dr_world (sm_driver sm)) /\
        ((forall w, k_create_thread K w = true) -> runs (sm_driver sm) filter a).
Proof using All.
  intros Hc Hl B F Hi. destruct (loader_run config s data p b B F Hi)
    as (b1 & a & e & addr & E1 & Hp & Hh & Hg & Hsup & Hi1 & Hv1).
  pose proof (hm_wf _ _ _ _ _ (bl_metadata _ _ _ _ _ F)) as S0.
  exists b1. split; [done|].
  intros passive wa ca ops n P Hst Hops.
  destruct (footer_only_data io inv view s _ F) as [H0 Hd]. fold n in Hd.
  pose proof (footer_only_ext io inv view s _ _ Hv1 F) as F1.
  assert (get_cipher (eng_cipher_supplier e) = Some c) as Hgc by (rewrite Hsup; exact Hc).
  destruct (hooked_os_loader io inv view rd wr media_id guid p a e (b_machine b1) s c enc dec ops
              Hh Hi1 F1 Hg Hgc Hl Hops) as (w & E2 & Hi2 & F2 & Hs2).
  assert (same_disk n (plaintext dec (view (disk (b_machine b1))) 0 (js_offset s)) P) as HP.
  { intros i Hx. apply plaintext_ext. rewrite Hv1 by lia. done. }
  destruct (spec_bops_same ss n c enc dec _ P ops Hops HP) as [Er Hs3].
  destruct (ho_disk w (b_platform b1) Hi2) as [Hi3 Hv3].
  destruct (driver_mounts (mkPayload guid (js_vmk s)) data addr passive wa ca s
              (handoff w (b_platform b1)) Hi3) as (sm & a' & v & path & E3 & Hb & Hos & Hsm & Hrun).
  - apply (handoff_published inv view total handoff (HO := HO)). exact Hp.
  - apply (bt_short _ _ _ _ _ B).
  - intros. apply ho_map.
  - intros. apply ho_pool.
  - done.
  - apply (footer_only_ext io inv view s w); done.
  - done.
  - exists w, sm, a', v, path. rewrite E2, Er. split; [done|]. split; [exact E3|].
    split; [done|]. split; [done|]. destruct Hsm as [_ [Hz1 Hz2] (c' & enc' & dec' & Hc' & Hl' & Hsv & Hlast)].
    change (fvek_keys (with_io device s)) with (fvek_keys s) in Hc'. rewrite Hc in Hc'. simplify_eq.
    cbn [js_geometry with_io js_offset] in Hsv, Hlast. rewrite H0 in Hsv, Hlast.
    split; [exact Hz1|].
    assert (same_disk n (plaintext dec' (view (handoff w (b_platform b1))) 0 (js_offset s))
              (spec_bops (Z.to_nat ss) P ops).1) as HQ.
    { intros i Hx. rewrite (plaintext_unique c' enc' dec' enc dec _ _ n) by done.
      rewrite <- Hs3, <- Hs2 by done. apply plaintext_ext. rewrite Hv3 by lia. done. }
    split; [|split; [|exact Hrun]].
    + eapply serves_ext; [congruence|exact HQ|exact Hsv].
    + eapply lasts_ext; [rewrite Hz1; apply (io_ss (io:=io) (view:=view))|rewrite H0; done|exact HQ|].
      apply (lasts_relocate c' enc dec enc' dec'); [done|done|apply S0|apply F|done|done|exact Hlast].
Qed.
End Chain.

(** ** Properties *)

(** A device of one part of a machine. *)
Lemma beside_laws {T W} (io : SectorIo W) inv view :
  SectorIoLaws io inv view ->
  SectorIoLaws (raise_io (P := T) io) (fun t => inv t.2) (fun t => view t.2).
Proof.
  intros HI. constructor; cbn [sector_size total_sectors read_sectors write_sectors raise_io].
  - apply io_ss.
  - apply io_total.
  - intros w i. apply io_len.
  - intros [m w] lba k t r Hi Hl Hk H. unfold on_snd, zoom in H. cbn [fst snd] in *.
    destruct (read_sectors io lba _ w) as [w' r'] eqn:E. simplify_eq.
    exact (io_read (io:=io) w lba k w' r Hi Hl Hk E).
  - intros [m w] lba ls t r Hi Hl Hk Hs H. unfold on_snd, zoom in H. cbn [fst snd] in *.
    destruct (write_sectors io lba _ w) as [w' r'] eqn:E. simplify_eq.
    exact (io_write (io:=io) w lba ls w' r Hi Hl Hk Hs E).
Qed.

Lemma beside_reliable {T W} (io : SectorIo W) inv :
  SectorIoReliable io inv -> SectorIoReliable (raise_io (P := T) io) (fun t => inv t.2).
Proof.
  intros HR. constructor; cbn [sector_size total_sectors read_sectors write_sectors raise_io];
    unfold on_snd, zoom.
  - intros w lba k Hi Hl Hk Hsm. pose proof (io_read_ok (io:=io) w.2 lba k Hi Hl Hk Hsm) as H.
    destruct (read_sectors _ _ _ _). done.
  - intros w lba ls Hi Hl Hk Hsm Hs.
    pose proof (io_write_ok (io:=io) w.2 lba ls Hi Hl Hk Hsm Hs) as H.
    destruct (write_sectors _ _ _ _). done.
Qed.

(** Firmware that reads the blocks of a device. *)
Definition firmware_blocks {W} (dio : SectorIo W) (lba : Z) (n : nat) : M string W bytes := fun w =>
  match read_sectors dio lba n w with
  | (w, Ok b) => (w, Ok b)
  | (w, Err _) => (w, Err "device"%string)
  | (w, Panic) => (w, Panic)
  end.

Section Uefi.
Context {W : Type} (h : UefiHandle W) (dio : SectorIo W) (inv : W -> Prop) (view : W -> Z -> bytes).
Hypothesis Hss : uh_block_size h = sector_size dio.
Hypothesis Htotal : saturating_add64 (uh_last_block h) 1 = total_sectors dio.
Hypothesis Hread : forall m lba n w, uh_read_blocks h m lba n w = firmware_blocks dio lba n w.

Lemma uefi_laws {DL : SectorIoLaws dio inv view} : SectorIoLaws (UefiBlockIoVolume h) inv view.
Proof using Hss Htotal Hread.
  constructor; cbn [sector_size total_sectors read_sectors write_sectors UefiBlockIoVolume];
    rewrite ?Hss, ?Htotal.
  - apply io_ss.
  - apply io_total.
  - apply io_len.
  - intros w lba k w' r Hi Hl Hk H. rewrite Hread in H. unfold firmware_blocks in H.
    destruct (read_sectors dio lba _ w) as [w1 r1] eqn:E.
    pose proof (io_read (io:=dio) w lba k w1 r1 Hi Hl Hk E) as Hr.
    destruct r1; simplify_eq; exact Hr.
  - intros w lba ls w' r Hi Hl Hk Hs H. unfold mfail in H. simplify_eq. done.
Qed.

Lemma uefi_reads {DR : SectorIoReliable dio inv} : SectorIoReads (UefiBlockIoVolume h) inv.
Proof using Hss Htotal Hread.
  intros w lba k. cbn [sector_size total_sectors read_sectors UefiBlockIoVolume].
  rewrite Hss, Htotal, Hread. intros Hi Hl Hk Hsm. unfold firmware_blocks.
  pose proof (io_read_ok (io:=dio) w lba k Hi Hl Hk Hsm) as H.
  destruct (read_sectors dio lba _ w) as [w1 [b| |]]; done.
Qed.
End Uefi.

#[local] Existing Instances HandoverDemo.platform HandoverDemo.pack_locator HandoverDemo.pack_payload.

(** A machine with firmware variables, memory and the four-sector disk of
    [BindDemo]. *)
Module BootChainDemo.
Import ToyCrypto.
Definition World : Type := HandoverDemo.Machine * MemVolume.

#[export] Instance platform : Platform World := {|
  allocate n w := let '(s, a) := allocate n w.1 in ((s, w.2), a);
  mem_write a b w := (mem_write a b w.1, w.2);
  mem_read a n w := mem_read a n w.1;
  map_ok a n w := map_ok a n w.1;
  pool_ok n w := pool_ok n w.1;
  ucs2_ok := HandoverDemo.platform.(ucs2_ok);
  set_variable n g d w := let '(s, ok) := set_variable n g d w.1 in ((s, w.2), ok);
  get_variable n g cap w := get_variable n g cap w.1;
|}.

Definition inv (w : World) : Prop := BindDemo.inv w.2.
Definition view (w : World) : Z -> bytes := BindDemo.view w.2.
Definition dio : SectorIo World := raise_io BindDemo.io.

#[export] Instance dio_laws : SectorIoLaws dio inv view.
Proof. exact (beside_laws BindDemo.io BindDemo.inv BindDemo.view BindDemo.io_laws). Qed.
#[export] Instance dio_reliable : SectorIoReliable dio inv.
Proof. exact (beside_reliable BindDemo.io BindDemo.inv BindDemo.io_reliable). Qed.

(** The firmware's view of the partition. *)
Definition guid : Guid := guid_from_windows_bytes id BindDemo.guid.
Definition uefi : UefiHandle World :=
  mkUefiHandle (Some BindDemo.guid) true true 512 1 3 (fun _ => firmware_blocks dio).
Definition io : SectorIo World := UefiBlockIoVolume uefi.

#[export] Instance io_laws : SectorIoLaws io inv view.
Proof. exact (uefi_laws uefi dio inv view eq_refl eq_refl (fun _ _ _ _ => eq_refl)). Qed.
#[export] Instance io_reads : SectorIoReads io inv.
Proof. exact (uefi_reads uefi dio inv eq_refl eq_refl (fun _ _ _ _ => eq_refl)). Qed.

Definition device : Device World := {|
  dev_ioctl code out w := (w, Some (0, 0, BindDemo.answer code out));
  dev_read := dev_read (disk_device dio (fun off => Z.odd (off / 512)));
  dev_write := dev_write (disk_device dio (fun off => Z.odd (off / 512)));
|}.
Definition handle : FileHandle World := {|
  fh_ioctl code out w := (w, (0, BindDemo.answer code out));
  fh_fsctl _ w := (w, 0);
  fh_read _ buf w := (w, (STATUS_UNSUCCESSFUL, buf));
  fh_write _ buf w := (w, (STATUS_UNSUCCESSFUL, buf));
|}.
Definition kernel : Kernel World := {|
  k_create_device w := (w, (0, Some 100%nat));
  k_delete_device _ w := w;
  k_get_device_pointer _ w := (w, (0, Some 50%nat));
  k_attach _ _ w := (w, (0, Some 60%nat));
  k_detach _ w := w;
  k_attachment_base _ _ := None;
  k_attached _ _ := None;
  k_lower _ _ := None;
  k_query_name _ _ := Some (DriverDemo.units "\Device\V3");
  k_foreign_ext _ _ := None;
  k_create_thread _ := true;
  k_device _ := device;
  k_create_file _ w := (w, Some handle);
  k_open_raw _ w := (w, Some handle);
  k_related_device _ _ := Some 50%nat;
|}.
Definition calls : SysCalls World := {|
  y_create_secure w := (w, (0, Some 9%nat));
  y_create_symlink w := (w, 0);
  y_delete_symlink w := (w, 0);
  y_register_shutdown _ w := w;
  y_unregister_shutdown _ w := w;
  y_build_irp _ := Some None;
  y_expand_stack _ := (0, true);
  y_primary_token _ := None;
|}.
Definition counters : Counters World := mkCounters (fun _ => true) 1 (0, 1) (0, 1).

#[export] Instance works : WorkingDisk kernel 60 512 4 inv view.
Proof.
  split.
  - exact (disk_device_laws dio _ inv view _ _ _ _ dio_laws ltac:(discriminate)).
  - exact (disk_device_reliable dio _ inv view _ _ _ _ dio_laws dio_reliable).
Qed.
Lemma chain_reported : reports kernel 60 512 4 inv view id guid.
Proof.
  split; [done|..]; intros w Hi; eexists w, _; (split; [reflexivity|]);
    (split; [vm_compute; reflexivity|done]).
Qed.
Lemma unmoved_refl w : inv w -> unmoved 4 inv view w w.
Proof. intros. constructor; done. Qed.
#[export] Instance start_calls : StartCalls kernel calls 60 4 inv view 1 9 50 100.
Proof.
  constructor; [intros w Hi; exists w; (split; [done|apply unmoved_refl; done])..|done].
Qed.

Definition RNG : option (RandomSource World) :=
  Some (fun n w => (w, Ok (replicate n Byte.x5a))).
#[export] Instance fill_laws total : FillLaws RNG inv view total.
Proof.
  constructor.
  - intros n w w' r Hi H. cbn in H. simplify_eq. done.
  - intros n w w' b _ H. cbn in H. simplify_eq. apply length_replicate.
Qed.
#[export] Instance fill_reliable : FillReliable RNG inv.
Proof. intros n w _. done. Qed.

Definition handoff (w : World) (s : HandoverDemo.Machine) : World := (s, w.2).
#[export] Instance handoff_ok : Handoff inv view 4 handoff.
Proof. constructor; done. Qed.

(** Two of the three data sectors are encrypted. *)
Definition store : JvckMetadataStore World := BindDemo.store_on io 2.
Definition written : World := BindDemo.written_from RNG 0 dio (HandoverDemo.start, BindDemo.blank) 2.
Lemma written_ok : inv written /\ footer_only io inv view store written.
Proof.
  destruct (BindDemo.written_from_footer RNG dio inv view (HandoverDemo.start, BindDemo.blank) 2
              dio_laws dio_reliable (fill_laws 4) fill_reliable eq_refl eq_refl BindDemo.blank_ok
              ltac:(lia)) as [Hi F].
  split; [exact Hi|]. exact (relocate dio io inv view eq_refl eq_refl _ _ F).
Qed.

(** The loader's configuration and handles. *)
Definition config : VckConfig := mkConfig guid vmk (lit "/EFI/x").
Definition fw : Firmware World := {|
  fw_aes := true;
  fw_vck_json := Ok (render (config_object (lit "0f77") vmk (lit "/EFI/x")));
  fw_volumes := Ok [uefi];
  fw_handles := Ok [mkHookHandle (Some BindDemo.guid) true (Some 5%nat)];
  fw_device_path _ := Ok tt;
  fw_load_image := true;
  fw_start_image := true;
  fw_from_bytes_le := id;
  fw_parse_str _ := Some guid;
|}.
Definition rd : ReadBlocks World := firmware_read dio 1.
Definition wr : WriteBlocks World := firmware_write dio 1.
Definition machine (w : World) : Boot World HandoverDemo.Machine :=
  mkBoot (mkMachine {[5%nat := mkProtocol (FirmwareRead rd) (FirmwareWrite wr) (Some 512)]} ∅
            HOOK_TABLE w) HandoverDemo.start (4, 0) false.
Definition payload : VckHandoverPayload := mkPayload guid vmk.
Definition data : bytes := byte_of (Z.of_nat (length guid)) :: guid ++ vmk.

#[export] Instance firmware_ok : FirmwareLaws rd wr 1 512 4 inv view.
Proof. exact (firmware_laws dio 1 inv view dio_laws dio_reliable eq_refl). Qed.

Lemma chain_config_read : load_from_esp fw = Ok config.
Proof. vm_compute. reflexivity. Qed.
Lemma publishes : (install_handover payload HandoverDemo.start).2 = Ok tt.
Proof. vm_compute. reflexivity. Qed.
Lemma hookable w : partition_hookable fw io rd wr guid 5 (b_machine (machine w)).
Proof.
  constructor; [reflexivity| |reflexivity|reflexivity].
  do 3 eexists. split; [reflexivity|]. split; [reflexivity|done].
Qed.
Lemma boots w : bootable io guid fw rd wr config store data 5 (machine w).
Proof.
  constructor; [exact chain_config_read|reflexivity..|exact (hookable w)|reflexivity| |exact publishes|done].
  vm_compute. discriminate.
Qed.

(** A write of a data sector, and a read across the boundary. *)
Definition ops : list bop :=
  [BWrite 1 [replicate 512 Byte.x11]; BRead 0 (replicate 1536 Byte.x00)].
Lemma chain_ops_ok : Forall (bop_ok 512 3) ops.
Proof.
  repeat constructor; try (vm_compute; done). exists 2%nat. split_and!; vm_compute; done.
Qed.
End BootChainDemo.

(** C3: the whole boot serves one plaintext disk. The disk of a partition holds
    the footer metadata of [s] and the loader is configured with its identifier and
    key. Then the loader's run hooks the partition, publishes the handover and
    starts the next image; what the OS loader reads through the hook, and leaves
    there, are a plain disk's with the plaintext of the partition at the boundary [s]
    recorded; and the driver, started on the machine the OS loader leaves, takes the
    handover, attaches its filter above the partition's device and, once the device
    starts, binds it to an OS volume that serves exactly that disk: under any
    sequence of operations of the volume, and through the filter and its thread
    under any interleaving. Whenever the machine then goes down, between two sections of
    the thread, the disk holds the footer metadata of the same volume, at the boundary
    its sweep had reached, and presents what the answered requests wrote. *)
Theorem boot_chain_serves_plaintext {W S} `{PW : Platform W, PS : Platform S}
    `{MP : MsgPack VckHandoverPayload, ML : MsgPack HandoverLocator}
    `{C : CryptoApi, A : AesApi, WR : Wire}
    (K : Kernel W) Y RNG pc from_bytes_le fmt_ptr (fw : Firmware W) io inv view rd wr media_id
    lower drv control pdo filter guid handoff config s data p (b : Boot W S) :
  PlatformLaws S -> MsgPackLaws VckHandoverPayload -> MsgPackLaws HandoverLocator -> AesLaws A ->
  SectorIoLaws io inv view -> SectorIoReads io inv ->
  FirmwareLaws rd wr media_id (sector_size io) (total_sectors io) inv view ->
  WorkingDisk K lower (sector_size io) (total_sectors io) inv view ->
  FillLaws RNG inv view (total_sectors io) -> FillReliable RNG inv ->
  StartCalls K Y lower (total_sectors io) inv view drv control pdo filter ->
  reports K lower (sector_size io) (total_sectors io) inv view from_bytes_le guid ->
  Handoff inv view (total_sectors io) handoff ->
  bootable io guid fw rd wr config s data p b ->
  footer_only io inv view s (disk (b_machine b)) -> inv (disk (b_machine b)) ->
  exists b1 c enc dec, run fw b = (b1, Ok tt) /\
    get_cipher (static_supplier (static_supplier_new (fvek_keys s).1 (fvek_keys s).2)) = Some c /\
    CipherLaws c (sector_size io) enc dec /\
    forall passive wa ca ops,
      let n := g_data_sectors (js_geometry s) in
      let P := plaintext dec (view (disk (b_machine b))) 0 (js_offset s) in
      let after := spec_bops (Z.to_nat (sector_size io)) P ops in
      on_start_device_completed passive wa ca (fun _ => true) false = true ->
      Forall (bop_ok (Z.to_nat (sector_size io)) n) ops ->
      exists w sm a v path,
        run_bops p media_id ops (b_machine b1) = (set_disk w (b_machine b1), Ok after.2) /\
        (_ ← DriverEntry K Y (Some drv);
         run_entries K Y RNG pc from_bytes_le fmt_ptr
           [EnAddDevice pdo; EnStarted passive wa ca filter])
          (unloaded ([], handoff w (b_platform b1))) = (sm, Ok tt) /\
        binds (sm_driver sm) filter a path v /\ is_os_volume v = true /\
        av_sector_size v = sector_size io /\ serves 0 n after.1 v (dr_world (sm_driver sm)) /\
        lasts io inv view s dec after.1 v (dr_world (sm_driver sm)) /\
        ((forall w, k_create_thread K w = true) -> runs (sm_driver sm) filter a).
Proof.
  intros ? ? ? ? ? ? ? ? ? ? ? R ? B F Hi.
  pose proof (hm_wf _ _ _ _ _ (bl_metadata _ _ _ _ _ F)) as S0.
  destruct (store_keys io inv view s S0) as (c & enc & dec & Hc & Hl).
  destruct (chain_run K Y RNG pc from_bytes_le fmt_ptr io inv view lower drv control pdo filter
    guid R fw rd wr media_id handoff c enc dec config s data p b Hc Hl B F Hi) as (b1 & E & H').
  exists b1, c, enc, dec. split; [exact E|]. split; [exact Hc|]. split; [exact Hl|exact H'].
Qed.

#[local] Existing Instance BootChainDemo.platform.
Lemma boot_chain_serves_plaintext_witness :
  exists b1 dec w sm a v path,
    run (A := ToyAes.api) (C := ToyCrypto.api) BootChainDemo.fw
      (BootChainDemo.machine BootChainDemo.written) = (b1, Ok tt) /\
    let after := spec_bops 512 (plaintext dec (BootChainDemo.view BootChainDemo.written) 0 2)
                   BootChainDemo.ops in
    run_bops 5 1 BootChainDemo.ops (b_machine b1) = (set_disk w (b_machine b1), Ok after.2) /\
    (_ ← DriverEntry BootChainDemo.kernel BootChainDemo.calls (Some 1%nat);
     run_entries (C := ToyCrypto.api) (A := ToyAes.api) (H := DriverDemo.wire)
       BootChainDemo.kernel BootChainDemo.calls BootChainDemo.RNG BootChainDemo.counters id
       (fun _ => EmptyString) [EnAddDevice 50; EnStarted true false false 100])
      (unloaded ([], BootChainDemo.handoff w (b_platform b1))) = (sm, Ok tt) /\
    binds (sm_driver sm) 100 a path v /\ is_os_volume v = true /\ av_sector_size v = 512 /\
    serves 0 3 after.1 v (dr_world (sm_driver sm)) /\
    lasts (C := ToyCrypto.api) BootChainDemo.io BootChainDemo.inv BootChainDemo.view
      BootChainDemo.store dec after.1 v (dr_world (sm_driver sm)) /\
    runs (sm_driver sm) 100 a.
Proof.
  destruct BootChainDemo.written_ok as [Hi F]. revert Hi F. generalize BootChainDemo.written.
  intros w0 Hi F.
  destruct (boot_chain_serves_plaintext (C := ToyCrypto.api) (A := ToyAes.api) (WR := DriverDemo.wire)
    BootChainDemo.kernel BootChainDemo.calls BootChainDemo.RNG BootChainDemo.counters id
    (fun _ => EmptyString) BootChainDemo.fw BootChainDemo.io BootChainDemo.inv BootChainDemo.view
    BootChainDemo.rd BootChainDemo.wr 1 60 1 9 50 100 BootChainDemo.guid BootChainDemo.handoff
    BootChainDemo.config BootChainDemo.store BootChainDemo.data 5 (BootChainDemo.machine w0)
    HandoverDemo.laws HandoverDemo.pack_payload_laws HandoverDemo.pack_locator_laws ToyAes.laws
    BootChainDemo.io_laws BootChainDemo.io_reads BootChainDemo.firmware_ok BootChainDemo.works
    (BootChainDemo.fill_laws 4) BootChainDemo.fill_reliable BootChainDemo.start_calls
    BootChainDemo.chain_reported BootChainDemo.handoff_ok (BootChainDemo.boots w0) F Hi)
    as (b1 & c & enc & dec & E & _ & _ & H).
  destruct (H true false false BootChainDemo.ops eq_refl BootChainDemo.chain_ops_ok)
    as (w & sm & a & v & path & H').
  destruct H' as (E2 & E3 & Hb & Hos & Hz & Hs & Hl & Hr).
  exists b1, dec, w, sm, a, v, path. split; [exact E|]. split; [exact E2|]. split; [exact E3|].
  split; [exact Hb|]. split; [exact Hos|]. split; [exact Hz|]. split; [exact Hs|].
  split; [exact Hl|exact (Hr (fun _ => eq_refl))].
Defined.
