(* ===== verification/Lifetime.v ===== *)
(** * The life of an encrypted volume

    Sessions of the machine, one after the other: the loader boots a partition that
    holds footer metadata, the OS loader reads and writes through the hook, the driver
    starts and binds its filter to the volume, file system requests, sections of the
    volume's thread, control operations and cancellations interleave, and the machine
    goes down. The specification is one plain disk that lives through all of them. *)

From S2P Require Import Prelude Types Sectors Engine Nt Pipeline Volume Thread Xts Metadata Codec Store StoreLaws Filter DataPath Io Config Handover Loader Registry Manager Provider Dispatch Attach AttachLaws Durable BindLaws BootMount OsVolume SampleDriver DriverDemo Prepare BootChain.

(** ** Sessions *)

(** What happens between two power cycles: the machine the firmware sets up over the
    disk, the accesses of the OS loader, how the filter's device starts, and the events
    at the bound filter up to the moment the machine goes down. *)
Record Session (W S : Type) : Type := mkSession {
  se_power_on : W -> Boot W S;
  se_loader : list bop;
  se_passive : bool;
  se_add : bool * bool;
  se_events : list path_event;
}.
Arguments mkSession {W S}.
Arguments se_power_on {W S}.
Arguments se_loader {W S}.
Arguments se_passive {W S}.
Arguments se_add {W S}.
Arguments se_events {W S}.

(** What is seen of it: the answers to the OS loader, what the filter did with each
    request, and the requests completed. *)
Record Seen : Type := mkSeen {
  sn_loader : list (Status * option bytes);
  sn_log : list disposition;
  sn_done : list (nat * Z * Z * option bytes);
}.

(** A plain disk of [n] sectors of [ss] bytes, first [P], sees that session and is [P']
    after it. *)
Definition session_as_disk {W S} (ss n : Z) (P : Z -> bytes) (se : Session W S) (seen : Seen)
    (P' : Z -> bytes) : Prop :=
  let '(P1, answers) := spec_bops (Z.to_nat ss) P (se_loader se) in
  sn_loader seen = answers /\
  exists fs gs,
    Forall2 (disposed ss 0 n) (requests (se_events se)) (sn_log seen) /\
    Forall2 (request_of (cancels (se_events se))) (accepted_requests ss n (se_events se)) (fs ++ gs) /\
    disk_answers ss P1 fs = (P', sn_done seen).

Inductive life_as_disk {W S} (ss n : Z) :
    (Z -> bytes) -> list (Session W S) -> list Seen -> (Z -> bytes) -> Prop :=
| life_end P : life_as_disk ss n P [] [] P
| life_session P se seen P1 ses seens P2 :
    session_as_disk ss n P se seen P1 -> life_as_disk ss n P1 ses seens P2 ->
    life_as_disk ss n P (se :: ses) (seen :: seens) P2.

(** Requests of the loader and events the theorems speak of. *)
Definition session_ok {W S} (ss n : Z) (se : Session W S) : Prop :=
  on_start_device_completed (se_passive se) (se_add se).1 (se_add se).2 (fun _ => true) false = true /\
  Forall (bop_ok (Z.to_nat ss) n) (se_loader se) /\
  Forall (path_event_ok ss 0 n) (se_events se).

(** Only the data region of the plain disk matters. *)
Lemma session_same {W S} ss n c enc dec (P Q : Z -> bytes) (se : Session W S) seen P' :
  CipherLaws c ss enc dec -> 0 < ss -> session_ok ss n se -> same_disk n P Q ->
  session_as_disk ss n P se seen P' ->
  exists Q', session_as_disk ss n Q se seen Q' /\ same_disk n P' Q'.
Proof.
  intros Hc Hss (_ & Hops & Hev) HPQ. unfold session_as_disk.
  destruct (spec_bops_same ss n c enc dec P Q (se_loader se) Hops HPQ) as [Er Hs].
  destruct (spec_bops _ P _) as [P1 rs], (spec_bops _ Q _) as [Q1 rs']. cbn in Er, Hs. subst rs'.
  intros [Hl (fs & gs & Hlog & Hreq & Hd)].
  pose proof (accepted_ok ss 0 n _ _ _ Hev Hreq) as [Hfs _]%Forall_app.
  destruct (disk_answers_same ss 0 n P1 Q1 fs Hss ltac:(lia) Hfs Hs) as [E1 E2].
  rewrite Hd in E1, E2. cbn in E1, E2. exists (disk_answers ss Q1 fs).1.
  split; [|exact E2]. split; [done|]. exists fs, gs. split; [done|]. split; [done|].
  rewrite E1. apply surjective_pairing.
Qed.

Lemma life_same {W S} ss n c enc dec (P Q : Z -> bytes) (ses : list (Session W S)) seens P' :
  CipherLaws c ss enc dec -> 0 < ss -> Forall (session_ok ss n) ses -> same_disk n P Q ->
  life_as_disk ss n P ses seens P' ->
  exists Q', life_as_disk ss n Q ses seens Q' /\ same_disk n P' Q'.
Proof.
  intros Hc Hss Hok HPQ Hl. revert Q Hok HPQ.
  induction Hl as [P|P se seen P1 ses seens P2 Hse _ IH]; intros Q Hok HPQ.
  - exists Q. split; [constructor|done].
  - apply Forall_cons in Hok as [Ho Hok].
    destruct (session_same ss n c enc dec P Q se seen P1 Hc Hss Ho HPQ Hse) as (Q1 & Hq & Hs).
    destruct (IH Q1 Hok Hs) as (Q2 & Hq2 & Hs2).
    exists Q2. split; [|done]. econstructor; done.
Qed.

(** ** The machine *)

Section Life.
Context {W S : Type} {PW : Platform W} {PS : Platform S} {MP : MsgPack VckHandoverPayload}
  {ML : MsgPack HandoverLocator} {PL : PlatformLaws S}.
Context {LP : MsgPackLaws VckHandoverPayload} {LL : MsgPackLaws HandoverLocator}.
Context `{C : CryptoApi} `{A : AesApi} {HA : AesLaws A} `{WR : Wire}.
Context (K : Kernel W) (Y : SysCalls W) (RNG : option (RandomSource W)).
Context (pc : Counters W) (from_bytes_le : bytes -> Guid) (fmt_ptr : nat -> string).
Context (fw : Firmware W) (p : nat) (media_id : Z) (drv pdo filter : nat) (handoff : W -> S -> W).

(** One session from the disk [w]: the disk after it, and what was seen, unless a part
    of it fails. The filter's requests go to the extension and the thread the driver
    left. *)
Definition run_session (se : Session W S) (w : W) : option (W * Seen) :=
  match run fw (se_power_on se w) with
  | (b, Ok _) =>
      match run_bops p media_id (se_loader se) (b_machine b) with
      | (m, Ok answers) =>
          match (_ ← DriverEntry K Y (Some drv);
                 run_entries K Y RNG pc from_bytes_le fmt_ptr
                   [EnAddDevice pdo; EnStarted (se_passive se) (se_add se).1 (se_add se).2 filter])
                  (unloaded ([], handoff (disk m) (b_platform b))) with
          | (sm, Ok _) =>
              e ← dr_devices (sm_driver sm) !! filter;
              vt ← de_vthread e;
              match run_path (fun _ => true) (se_events se)
                      (path_start e vt (dr_heap (sm_driver sm)), dr_world (sm_driver sm)) with
              | ((pa, t), Ok _) =>
                  Some (t.2, mkSeen answers (pa_log pa) (answer <$> ts_done (pa_thread pa)))
              | _ => None
              end
          | _ => None
          end
      | _ => None
      end
  | _ => None
  end.

Fixpoint run_life (ses : list (Session W S)) (w : W) : option (W * list Seen) :=
  match ses with
  | [] => Some (w, [])
  | se :: ses =>
      '(w, seen) ← run_session se w;
      '(w, seens) ← run_life ses w;
      Some (w, seen :: seens)
  end.

Context (io : SectorIo W) (inv : W -> Prop) (view : W -> Z -> bytes).
Context {IL : SectorIoLaws io inv view} {RL : SectorIoReads io inv}.
Abbreviation ss := (sector_size io).
Abbreviation total := (total_sectors io).
Context (rd : ReadBlocks W) (wr : WriteBlocks W).
Context {FW : FirmwareLaws rd wr media_id ss total inv view}.
Context (lower : nat) {WD : WorkingDisk K lower ss total inv view}.
Context {FL : FillLaws RNG inv view total} {FR : FillReliable RNG inv}.
Context (control : nat) {SC : StartCalls K Y lower total inv view drv control pdo filter}.
Context (guid : Guid) (R : reports K lower ss total inv view from_bytes_le guid).
Context {HO : Handoff inv view total handoff}.
Context (config : VckConfig) (data : bytes).
Hypothesis Hthreads : forall w, k_create_thread K w = true.
Hypothesis Hbatch : BATCH_SECTORS * ss < 2 ^ 32.
Implicit Types (s : JvckMetadataStore W) (w : W) (d : Driver (list (JvckMetadataStore W)) W).

(** The firmware sets up a machine over the disk as it is, ready to boot [s]. *)
Definition powers_on s (se : Session W S) : Prop :=
  forall w, inv w ->
    bootable io guid fw rd wr config s data p (se_power_on se w) /\
    inv (disk (b_machine (se_power_on se w))) /\
    forall i, 0 <= i < total -> view (disk (b_machine (se_power_on se w))) i = view w i.

(** A disk that holds [s] at some boundary and presents [P]. *)
Definition alive s (dec : Z -> bytes -> bytes) (P : Z -> bytes) w : Prop :=
  inv w /\ exists o st, footer_only io inv view (later o st s) w /\
    same_disk (g_data_sectors (js_geometry s)) (plaintext dec (view w) 0 o) P.

(** The footer is past the data. *)
Lemma footer_fits s :
  store_wf io inv view s -> use_header (js_options s) = 0 ->
  g_offset_sector (js_geometry s) = 0 /\ 0 <= g_data_sectors (js_geometry s) <= total /\
  0 < use_footer (js_options s) /\ g_data_sectors (js_geometry s) * ss < 2 ^ 63.
Proof using IL WD.
  intros S0 Hh. destruct (store_region io inv view s S0) as (_ & Hd & Hend).
  pose proof S0 as [_ _ Ho Hsome Hg _ _ _].
  destruct (geometry_facts _ _ _ _ (ss_32 io inv view) (total_64 io inv view) Ho Hg) as (_ & _ & H3 & _).
  rewrite H3, Hh in *. split; [done|]. split; [lia|]. split; [lia|].
  pose proof (proj2 (below_size K lower ss total inv view)) as Hmax. pose proof (io_ss (io:=io) (view:=view)).
  destruct (js_lbas s) as [|l ls] eqn:El; [destruct (js_lbas_nonempty io inv view s S0 El)|].
  pose proof (js_lbas_range io inv view s S0) as Hr. rewrite El in Hr. apply Forall_cons in Hr as [Hr _].
  destruct (Z.le_gt_cases (g_data_sectors (js_geometry s)) l) as [|Hlt]; [nia|].
  destruct (js_lbas_data io inv view s S0 l) as [_ Hn]; [rewrite H3; lia|].
  destruct Hn. rewrite El. by left.
Qed.

Lemma alive_now s dec w :
  inv w -> footer_only io inv view s w -> alive s dec (plaintext dec (view w) 0 (js_offset s)) w.
Proof using Type.
  intros Hi F. split; [done|]. destruct (hm_state _ _ _ _ _ (bl_metadata _ _ _ _ _ F)) as [st Hst].
  exists (js_offset s), st. split; [|done]. assert (later (js_offset s) st s = s) as ->; [|done].
  unfold later, set_js_state, set_js_offset. cbn. rewrite <- Hst. destruct s. done.
Qed.

(** The events at the filter the driver left bound. *)
Lemma filter_session s d f a v path dec Q evs :
  store_wf io inv view s -> use_header (js_options s) = 0 -> binds d f a path v -> runs d f a ->
  av_sector_size v = ss -> lasts io inv view s dec Q v (dr_world d) ->
  Forall (path_event_ok ss 0 (g_data_sectors (js_geometry s))) evs ->
  exists e vt pa t fs gs,
    dr_devices d !! f = Some e /\ de_vthread e = Some vt /\
    run_path (fun _ => true) evs (path_start e vt (dr_heap d), dr_world d) = ((pa, t), Ok tt) /\
    cut_as_disk ss 0 (g_data_sectors (js_geometry s)) Q evs fs gs pa /\
    alive s dec (disk_answers ss Q fs).1 t.2.
Proof using IL WD Hbatch.
  intros S0 Hh Hb (e & vt & He & Hea & Hvt & Hidle) Hss Hl Hev.
  destruct (footer_fits s S0 Hh) as (H0 & Hd & Hfoot & Hfits).
  unfold lasts in Hl. rewrite H0, Hss in Hl.
  assert (path_ready 0 (g_data_sectors (js_geometry s)) v (fun _ => true) a e vt (dr_heap d) evs) as Hr.
  { constructor; rewrite ?Hss; try done. apply (bd_heap _ _ _ _ _ Hb). }
  destruct (Hl Hfoot _ _ _ _ _ _ Hr) as (pa & t & fs & gs & o & st & E & Hcut & Hi & Hbind & Hs).
  exists e, vt, pa, t, fs, gs. do 4 (split; [done|]). split; [done|]. exists o, st. split; [|exact Hs].
  constructor; [exact Hbind|exact Hh].
Qed.

(** One session. *)
Lemma session_run s w c enc dec P se :
  get_cipher (static_supplier (static_supplier_new (fvek_keys s).1 (fvek_keys s).2)) = Some c ->
  CipherLaws c ss enc dec -> alive s dec P w -> powers_on s se ->
  session_ok ss (g_data_sectors (js_geometry s)) se ->
  exists w' seen P', run_session se w = Some (w', seen) /\
    session_as_disk ss (g_data_sectors (js_geometry s)) P se seen P' /\ alive s dec P' w'.
Proof using All.
  intros Hg Hc [Hi (o & st & F & HP)] Hon Hok. pose proof Hok as (Hst & Hops & Hev).
  destruct (Hon w Hi) as (B & Hi1 & Hv1). set (n := g_data_sectors (js_geometry s)) in *.
  pose proof (footer_only_ext io inv view _ w _ Hv1 F) as F1.
  destruct (footer_only_data io inv view _ w F) as [_ Hd].
  assert (bootable io guid fw rd wr config (later o st s) data p (se_power_on se w)) as B'
    by (destruct B; constructor; done).
  destruct (chain_run K Y RNG pc from_bytes_le fmt_ptr io inv view lower drv control pdo filter guid R
              fw rd wr media_id handoff c enc dec config (later o st s) data p _ Hg Hc B' F1 Hi1)
    as (b1 & E1 & Hchain).
  destruct (Hchain (se_passive se) (se_add se).1 (se_add se).2 (se_loader se) Hst Hops)
    as (w1 & sm & a & v & path & E2 & E3 & Hb & _ & Hss & _ & Hl & Hrun).
  destruct (filter_session (later o st s) (sm_driver sm) filter a v path dec _ (se_events se)
              (hm_wf _ _ _ _ _ (bl_metadata _ _ _ _ _ F)) (fo_header _ _ _ _ _ F) Hb (Hrun Hthreads) Hss Hl Hev)
    as (e & vt & pa & t & fs & gs & He & Hvt & E4 & [Hlog Hreq _ Hans] & [Hi2 (o' & st' & F2 & Hs2)]).
  set (P0 := plaintext dec (view (disk (b_machine (se_power_on se w)))) 0 o) in *.
  assert (same_disk n P0 P) as HP0.
  { intros i Hx. rewrite <- HP by done. apply plaintext_ext. apply Hv1. cbn in Hd. fold n in Hd. lia. }
  destruct (session_same ss n c enc dec P0 P se
              (mkSeen (spec_bops (Z.to_nat ss) P0 (se_loader se)).2 (pa_log pa) (answer <$> ts_done (pa_thread pa)))
              (disk_answers ss (spec_bops (Z.to_nat ss) P0 (se_loader se)).1 fs).1 Hc
              (proj1 (io_ss (io:=io) (view:=view))) Hok HP0) as (P' & Hspec & HP').
  { unfold session_as_disk. subst P0 n. cbn [later js_offset set_js_state set_js_offset] in *.
    destruct (spec_bops _ (plaintext _ _ _ _) _) as [P1 rs]. cbn in *. split; [done|].
    exists fs, gs. split; [done|]. split; [done|]. rewrite Hans. apply surjective_pairing. }
  eexists t.2, _, P'. split; [|split; [exact Hspec|]].
  - unfold run_session. rewrite E1, E2. cbn [disk set_disk]. rewrite E3, He. cbn [mbind option_bind].
    rewrite Hvt. cbn [mbind option_bind]. rewrite E4. done.
  - split; [done|]. exists o', st'. split; [exact F2|]. etransitivity; [exact Hs2|exact HP'].
Qed.

(** Any number of them. *)
Lemma life_run s c enc dec ses : forall P w,
  get_cipher (static_supplier (static_supplier_new (fvek_keys s).1 (fvek_keys s).2)) = Some c ->
  CipherLaws c ss enc dec -> alive s dec P w -> Forall (powers_on s) ses ->
  Forall (session_ok ss (g_data_sectors (js_geometry s))) ses ->
  exists w' seens P', run_life ses w = Some (w', seens) /\
    life_as_disk ss (g_data_sectors (js_geometry s)) P ses seens P' /\ alive s dec P' w'.
Proof using All.
  induction ses as [|se ses IH]; intros P w Hg Hc Ha Hon Hok.
  { exists w, [], P. split; [done|]. split; [constructor|done]. }
  apply Forall_cons in Hon as [Ho1 Ho2]. apply Forall_cons in Hok as [Hk1 Hk2].
  destruct (session_run s w c enc dec P se Hg Hc Ha Ho1 Hk1) as (w1 & seen & P1 & E1 & Hs1 & Ha1).
  destruct (IH P1 w1 Hg Hc Ha1 Ho2 Hk2) as (w2 & seens & P2 & E2 & Hs2 & Ha2).
  exists w2, (seen :: seens), P2. split; [|split; [|done]].
  - cbn [run_life]. rewrite E1. cbn [mbind option_bind]. rewrite E2. done.
  - econstructor; done.
Qed.

(** From the driver that has just prepared the volume of [s]. *)
Abbreviation device := (LowerDevice_io (below_filter K lower ss total)).
Lemma prepared_life s req f d run evs ses :
  prepared K device inv view req s f d run -> store_wf device inv view s ->
  use_header (js_options s) = 0 -> js_offset s = 0 ->
  (forall e, dr_devices d !! f = Some e -> de_vthread e = None) ->
  Forall (path_event_ok ss 0 (g_data_sectors (js_geometry s))) evs ->
  Forall (powers_on (with_io io s)) ses ->
  Forall (session_ok ss (g_data_sectors (js_geometry s))) ses ->
  let disk0 := view (dr_world d).2 in
  exists d' resp e vt pa t fs gs w' seens dec P',
    run = (d', map_err MsgpackEncode (to_vec resp)) /\ pr_fully_attached resp = true /\
    dr_devices d' !! f = Some e /\ de_vthread e = Some vt /\
    run_path (fun _ => true) evs (path_start e vt (dr_heap d'), dr_world d') = ((pa, t), Ok tt) /\
    cut_as_disk ss 0 (g_data_sectors (js_geometry s)) disk0 evs fs gs pa /\
    run_life ses t.2 = Some (w', seens) /\
    life_as_disk ss (g_data_sectors (js_geometry s)) (disk_answers ss disk0 fs).1 ses seens P' /\
    alive (with_io io s) dec P' w'.
Proof using All.
  intros (d' & a & v & resp & E & Hfull & _ & Hb & _ & [_ [Hz _] (c & enc & dec & Hg & Hc & _ & Hl)] & Hrun)
    S0 Hh H0 Hvt Hev Hon Hok disk0.
  cbn [sector_size LowerDevice_io] in Hz, Hc.
  destruct (below_size K lower ss total inv view) as [Hdt _].
  pose proof (below_laws K lower ss total inv view total total ltac:(lia)) as DL.
  set (s2 := with_io io s).
  assert (store_wf io inv view s2) as S2 by (apply (relocate_store device io inv view); done).
  assert (with_io device s2 = s) as Hw by (rewrite <- (sw_io _ _ _ _ S0); destruct s; done).
  destruct (footer_fits s2 S2 Hh) as (Ho & Hd & _ & _).
  assert (lasts io inv view s2 dec disk0 v (dr_world d')) as Hl2.
  { rewrite <- Hw in Hl.
    pose proof (lasts_relocate K Y RNG pc from_bytes_le fmt_ptr io inv view lower drv control pdo filter guid R
      fw rd wr media_id handoff c enc dec enc dec s2 _ v _ Hc Hc eq_refl Hh Ho Hd Hl) as Hl1.
    eapply lasts_ext; [rewrite Hz; apply (io_ss (io:=io) (view:=view))|rewrite Ho; done| |exact Hl1].
    intros i Hx. cbn [with_io js_geometry js_offset s2] in *. rewrite H0, Ho. unfold plaintext, disk0.
    rewrite (proj2 (Z.ltb_ge i 0)) by lia. done. }
  destruct (filter_session s2 d' f a v (pq_volume_path req) dec disk0 evs S2 Hh Hb (Hrun Hthreads Hvt) Hz Hl2 Hev)
    as (e & vt & pa & t & fs & gs & He & Hvt' & E4 & Hcut & Ha).
  destruct (life_run s2 c enc dec ses _ t.2 Hg Hc Ha Hon Hok) as (w' & seens & P' & E5 & Hlife & Ha').
  exists d', resp, e, vt, pa, t, fs, gs, w', seens, dec, P'. done.
Qed.
End Life.

(** ** Two boots of the four-sector disk *)

#[local] Existing Instances HandoverDemo.platform HandoverDemo.pack_locator HandoverDemo.pack_payload.
#[local] Existing Instance BootChainDemo.platform.

Module LifeDemo.
Import ToyCrypto.
Definition sectors (id : nat) (major b : Z) (buf : bytes) : FilterIrp :=
  mkFilterIrp (mkIRP id b (Z.of_nat (length buf)) (Some buf) false false 0 0 0) major 0 0 1 None.

(** A write and a read of the file system with the sweep between them. *)
Definition first : Session BootChainDemo.World HandoverDemo.Machine :=
  mkSession BootChainDemo.machine BootChainDemo.ops true (false, false)
    [PeRequest true (sectors 1 IRP_MJ_WRITE 512 (replicate 512 Byte.x77)); PeThread; PeThread;
     PeRequest true (sectors 2 IRP_MJ_READ 0 (replicate 1024 Byte.x00)); PeThread; PeThread; PeThread;
     PeThread; PeThread].
(** The next boot decrypts the volume. *)
Definition second : Session BootChainDemo.World HandoverDemo.Machine :=
  mkSession BootChainDemo.machine [BRead 0 (replicate 1536 Byte.x00)] true (false, false)
    [PeControl VStartDecrypt; PeThread; PeThread; PeThread; PeThread].

Lemma life_read id major b buf :
  is_rw (sectors id major b buf) = true -> os_offset 512 0 b ->
  512 <= Z.of_nat (length buf) < 2 ^ 32 -> b / 512 + Z.of_nat (length buf) / 512 <= 3 ->
  path_event_ok 512 0 3 (PeRequest true (sectors id major b buf)).
Proof.
  intros Hrw Ho Hl He. right. left. constructor; [done..| |done|done].
  exists buf. done.
Qed.

Lemma first_ok : session_ok 512 3 first.
Proof.
  split; [done|]. split; [exact BootChainDemo.chain_ops_ok|].
  repeat apply Forall_cons_2; try exact I; try apply Forall_nil_2;
    apply life_read; done || (split; vm_compute; done).
Qed.
Lemma second_ok : session_ok 512 3 second.
Proof.
  split; [done|]. split.
  - apply Forall_cons_2; [|apply Forall_nil_2]. exists 2%nat. split_and!; vm_compute; done.
  - repeat apply Forall_cons_2; try apply Forall_nil_2; done.
Qed.

Lemma machine_on se :
  se_power_on se = BootChainDemo.machine ->
  powers_on BootChainDemo.fw 5 BootChainDemo.io BootChainDemo.inv BootChainDemo.view BootChainDemo.rd
    BootChainDemo.wr BootChainDemo.guid BootChainDemo.config BootChainDemo.data BootChainDemo.store se.
Proof.
  intros E w Hi. rewrite E. split; [exact (BootChainDemo.boots w)|done].
Qed.
(** ** A volume prepared at run time *)

(** A request with the block of a new footer-only volume, and the driver it reaches:
    filter 7 above the disk, unbound. *)
Definition request : bytes -> JvckVolumePrepareReq := PrepareDemo.request_of 0.
Abbreviation device := (LowerDevice_io (below_filter BootChainDemo.kernel 60 512 4)).
Definition new_store : JvckMetadataStore BootChainDemo.World := BindDemo.store_on device 0.
Definition driver (w : BootChainDemo.World) :
    Driver (list (JvckMetadataStore BootChainDemo.World)) BootChainDemo.World :=
  mkDriver (mkRegistry [] (Some 1%nat)
      [mkPdoFilter (Some 50%nat) (Some 7%nat) (Some 60%nat) "\Device\V3"] None)
    ∅ {[7%nat := BindDemo.ext]} [] ([], w).

Lemma new_store_wf : store_wf device BootChainDemo.inv BootChainDemo.view new_store.
Proof.
  exact (BindDemo.store_of_wf 0 device BootChainDemo.inv BootChainDemo.view
    (DL := disk_laws _ _ _ _ _ _ (WD := BootChainDemo.works)) (or_introl eq_refl) eq_refl eq_refl 0).
Qed.
Lemma new_store_for : store_for device BootChainDemo.inv BootChainDemo.view new_store.
Proof. constructor; [apply new_store_wf|done|done|by exists Encrypt|done|cbn; lia]. Qed.
Lemma asked : exists block, request_for BootChainDemo.inv (request block) new_store.
Proof.
  destruct (PrepareDemo.sealed_block _ _ _ _ new_store_wf ltac:(unfold in_u; cbn; lia)) as (block & Hl & Hs).
  exists block. constructor; cbn [request PrepareDemo.request_of pq_metadata_block]; [done|done|done|lia|].
  rewrite take_ge by lia. exact Hs.
Qed.
Lemma volume_opens :
  quiet BootChainDemo.kernel 512 4 BootChainDemo.inv BootChainDemo.view PrepareDemo.volume_name.
Proof.
  split.
  - intros w Hi. exists w, (mkKernelVolumeIo BootChainDemo.handle 512 4).
    split; [vm_compute; reflexivity|]. done.
  - intros w Hi. eexists w, _. split; [reflexivity|]. split; [|done].
    intros h code n [= <-] w' Hi'. eexists w', _. split; [reflexivity|]. done.
Qed.
Lemma new_driver_ok w : driver_wf (driver w).
Proof.
  constructor; cbn.
  - constructor; cbn; [constructor|]. intros k a H. apply elem_of_nil in H. done.
  - apply map_Forall_singleton. constructor; done.
Qed.
Lemma machine_on_new se :
  se_power_on se = BootChainDemo.machine ->
  powers_on BootChainDemo.fw 5 BootChainDemo.io BootChainDemo.inv BootChainDemo.view BootChainDemo.rd
    BootChainDemo.wr BootChainDemo.guid BootChainDemo.config BootChainDemo.data
    (with_io BootChainDemo.io new_store) se.
Proof.
  intros E w Hi. rewrite E. split; [|done]. destruct (BootChainDemo.boots w). constructor; done.
Qed.
End LifeDemo.

(** ** Properties *)

(** C1: an encrypted OS volume keeps its data for life. The disk of a partition holds
    the footer metadata of [s], and a machine goes through any number of sessions over
    it: each time the loader boots it, the OS loader reads and writes through the hook,
    the driver starts, takes the handover and binds its filter to the volume, and file
    system requests, sections of the volume's thread with their sweep batches, control
    operations and cancellations follow in any order, until the machine goes down
    between two sections. Every part of every session succeeds; over all of them the OS
    loader and the file system are answered by one plain disk, first the plaintext of
    the partition at the boundary [s] recorded; and the disk ends with the metadata of
    the same volume, at the boundary its last sweep reached, presenting that plain
    disk. *)
Theorem volume_keeps_its_data {W S} `{PW : Platform W, PS : Platform S}
    `{MP : MsgPack VckHandoverPayload, ML : MsgPack HandoverLocator}
    `{C : CryptoApi, A : AesApi, WR : Wire}
    (K : Kernel W) Y RNG pc from_bytes_le fmt_ptr (fw : Firmware W) io inv view rd wr media_id
    lower drv control pdo filter guid handoff config s data p (ses : list (Session W S)) w :
  PlatformLaws S -> MsgPackLaws VckHandoverPayload -> MsgPackLaws HandoverLocator -> AesLaws A ->
  SectorIoLaws io inv view -> SectorIoReads io inv ->
  FirmwareLaws rd wr media_id (sector_size io) (total_sectors io) inv view ->
  WorkingDisk K lower (sector_size io) (total_sectors io) inv view ->
  FillLaws RNG inv view (total_sectors io) -> FillReliable RNG inv ->
  StartCalls K Y lower (total_sectors io) inv view drv control pdo filter ->
  reports K lower (sector_size io) (total_sectors io) inv view from_bytes_le guid ->
  Handoff inv view (total_sectors io) handoff ->
  (forall w, k_create_thread K w = true) -> BATCH_SECTORS * sector_size io < 2 ^ 32 ->
  Forall (powers_on fw p io inv view rd wr guid config data s) ses ->
  Forall (session_ok (sector_size io) (g_data_sectors (js_geometry s))) ses ->
  footer_only io inv view s w -> inv w ->
  exists w' seens c enc dec P',
    run_life K Y RNG pc from_bytes_le fmt_ptr fw p media_id drv pdo filter handoff ses w =
      Some (w', seens) /\
    get_cipher (static_supplier (static_supplier_new (fvek_keys s).1 (fvek_keys s).2)) = Some c /\
    CipherLaws c (sector_size io) enc dec /\
    life_as_disk (sector_size io) (g_data_sectors (js_geometry s))
      (plaintext dec (view w) 0 (js_offset s)) ses seens P' /\
    alive io inv view s dec P' w'.
Proof.
  intros ? ? ? ? ? ? ? ? ? ? ? R ? Ht Hb Hon Hok F Hi.
  pose proof (hm_wf _ _ _ _ _ (bl_metadata _ _ _ _ _ F)) as S0.
  destruct (store_keys io inv view s S0) as (c & enc & dec & Hc & Hl).
  destruct (life_run K Y RNG pc from_bytes_le fmt_ptr fw p media_id drv pdo filter handoff io inv view
              rd wr lower control guid R config data Ht Hb s c enc dec ses _ w Hc Hl
              (alive_now io inv view s dec w Hi F) Hon Hok) as (w' & seens & P' & E & Hlife & Ha).
  exists w', seens, c, enc, dec, P'. done.
Qed.

Lemma volume_keeps_its_data_witness :
  exists w' seens dec P',
    run_life (C := ToyCrypto.api) (A := ToyAes.api) (WR := DriverDemo.wire) BootChainDemo.kernel
      BootChainDemo.calls BootChainDemo.RNG BootChainDemo.counters id (fun _ => EmptyString)
      BootChainDemo.fw 5 1 1 50 100 BootChainDemo.handoff [LifeDemo.first; LifeDemo.second]
      BootChainDemo.written = Some (w', seens) /\
    life_as_disk 512 3 (plaintext dec (BootChainDemo.view BootChainDemo.written) 0 2)
      [LifeDemo.first; LifeDemo.second] seens P' /\
    alive (C := ToyCrypto.api) BootChainDemo.io BootChainDemo.inv BootChainDemo.view BootChainDemo.store dec P' w'.
Proof.
  destruct BootChainDemo.written_ok as [Hi F]. revert Hi F. generalize BootChainDemo.written.
  intros w0 Hi F.
  destruct (volume_keeps_its_data (C := ToyCrypto.api) (A := ToyAes.api) (WR := DriverDemo.wire)
    BootChainDemo.kernel BootChainDemo.calls BootChainDemo.RNG BootChainDemo.counters id
    (fun _ => EmptyString) BootChainDemo.fw BootChainDemo.io BootChainDemo.inv BootChainDemo.view
    BootChainDemo.rd BootChainDemo.wr 1 60 1 9 50 100 BootChainDemo.guid BootChainDemo.handoff
    BootChainDemo.config BootChainDemo.store BootChainDemo.data 5 [LifeDemo.first; LifeDemo.second] w0
    HandoverDemo.laws HandoverDemo.pack_payload_laws HandoverDemo.pack_locator_laws ToyAes.laws
    BootChainDemo.io_laws BootChainDemo.io_reads BootChainDemo.firmware_ok BootChainDemo.works
    (BootChainDemo.fill_laws 4) BootChainDemo.fill_reliable BootChainDemo.start_calls
    BootChainDemo.chain_reported BootChainDemo.handoff_ok (fun _ => eq_refl) eq_refl
    (Forall_cons_2 _ _ _ (LifeDemo.machine_on LifeDemo.first eq_refl)
      (Forall_cons_2 _ _ _ (LifeDemo.machine_on LifeDemo.second eq_refl) (Forall_nil_2 _)))
    (Forall_cons_2 _ _ _ LifeDemo.first_ok (Forall_cons_2 _ _ _ LifeDemo.second_ok (Forall_nil_2 _))) F Hi)
    as (w' & seens & c & enc & dec & P' & E & _ & _ & Hl & Ha).
  exists w', seens, dec, P'. split; [exact E|]. split; [exact Hl|exact Ha].
Defined.

(** C2: a volume prepared at run time loses nothing, now or in any later boot. When
    AddDevice left an unbound filter above the volume and the request carries a block
    sealed for a new volume with its replicas in the footer, PREPARE answers "fully
    attached" and binds the filter and its thread; from then on - under any interleaving
    of file system requests with the thread's sweep, until the machine goes down between
    two sections, and through any number of boots after that - the file system and the OS
    loader are answered by one plain disk, which is first the volume as it was before
    the request. *)
Theorem prepared_volume_keeps_its_data {W S} `{PW : Platform W, PS : Platform S}
    `{MP : MsgPack VckHandoverPayload, ML : MsgPack HandoverLocator}
    `{C : CryptoApi, A : AesApi, WR : Wire}
    (K : Kernel W) Y RNG pc from_bytes_le fmt_ptr (fw : Firmware W) io inv view rd wr media_id
    lower drv control pdo filter guid handoff config s data p (ses : list (Session W S))
    input req n e w nt_path evs (d : Driver (list (JvckMetadataStore W)) W) :
  PlatformLaws S -> MsgPackLaws VckHandoverPayload -> MsgPackLaws HandoverLocator -> AesLaws A ->
  SectorIoLaws io inv view -> SectorIoReads io inv ->
  FirmwareLaws rd wr media_id (sector_size io) (total_sectors io) inv view ->
  WorkingDisk K lower (sector_size io) (total_sectors io) inv view ->
  FillLaws RNG inv view (total_sectors io) -> FillReliable RNG inv ->
  StartCalls K Y lower (total_sectors io) inv view drv control pdo filter ->
  reports K lower (sector_size io) (total_sectors io) inv view from_bytes_le guid ->
  Handoff inv view (total_sectors io) handoff ->
  (forall w, k_create_thread K w = true) -> BATCH_SECTORS * sector_size io < 2 ^ 32 ->
  let device := LowerDevice_io (below_filter K lower (sector_size io) (total_sectors io)) in
  decode_req (T := JvckVolumePrepareReq) input d = (d, Ok req) ->
  registry_get (pq_volume_path req) (dr_registry d) = None ->
  is_Some (rg_driver_object (dr_registry d)) ->
  nt_path = io_path (pq_nt_device_path req) (pq_volume_path req) ->
  find_filter K nt_path d = (with_world ((dr_world d).1, w) d, Ok (Some (Some n, Some lower))) ->
  inv w -> (forall i, 0 <= i < total_sectors io -> view w i = view (dr_world d).2 i) ->
  store_for device inv view s -> request_for inv req s ->
  quiet K (sector_size io) (total_sectors io) inv view nt_path ->
  driver_wf d -> dr_devices d !! n = Some e -> de_vthread e = None ->
  use_header (js_options s) = 0 -> js_offset s = 0 ->
  Forall (path_event_ok (sector_size io) 0 (g_data_sectors (js_geometry s))) evs ->
  Forall (powers_on fw p io inv view rd wr guid config data (with_io io s)) ses ->
  Forall (session_ok (sector_size io) (g_data_sectors (js_geometry s))) ses ->
  let disk0 := view (dr_world d).2 in
  exists d' resp e vt pa t fs gs w' seens dec P',
    handle_jvck_prepare K (Some (vck_provider RNG)) input d = (d', map_err MsgpackEncode (to_vec resp)) /\
    pr_fully_attached resp = true /\
    dr_devices d' !! n = Some e /\ de_vthread e = Some vt /\
    run_path (fun _ => true) evs (path_start e vt (dr_heap d'), dr_world d') = ((pa, t), Ok tt) /\
    cut_as_disk (sector_size io) 0 (g_data_sectors (js_geometry s)) disk0 evs fs gs pa /\
    run_life K Y RNG pc from_bytes_le fmt_ptr fw p media_id drv pdo filter handoff ses t.2 =
      Some (w', seens) /\
    life_as_disk (sector_size io) (g_data_sectors (js_geometry s))
      (disk_answers (sector_size io) disk0 fs).1 ses seens P' /\
    alive io inv view (with_io io s) dec P' w'.
Proof.
  intros ? ? ? HA IL ? ? WD ? ? ? R ? Ht Hb device Hd Hreg Hdrv Hnt Hfind Hi Hv Hs Hr Hq Hwf He Hvt Hh H0
    Hev Hon Hok.
  pose proof (prepare_run K RNG lower (sector_size io) (total_sectors io) inv view input req s n e w nt_path d
                Hd Hreg Hdrv Hnt Hfind Hi Hv Hs Hr Hq Hwf He) as Hp.
  apply (prepared_life K Y RNG pc from_bytes_le fmt_ptr fw p media_id drv pdo filter handoff io inv view
           rd wr lower control guid R config data Ht Hb s req n d _ evs ses Hp (sf_wf _ _ _ _ Hs) Hh H0); [|done..].
  intros e' He'. congruence.
Qed.

Lemma prepared_volume_keeps_its_data_witness :
  exists block d' resp w' seens dec P',
    handle_jvck_prepare (H := PrepareDemo.wire_of 0)
      BootChainDemo.kernel
      (Some (vck_provider (C := ToyCrypto.api) (A := ToyAes.api) BootChainDemo.RNG)) block
      (LifeDemo.driver (HandoverDemo.start, BindDemo.blank)) = (d', Ok [Byte.x01]) /\
    pr_fully_attached resp = true /\
    alive (C := ToyCrypto.api) BootChainDemo.io BootChainDemo.inv BootChainDemo.view
      (with_io BootChainDemo.io LifeDemo.new_store) dec P' w' /\ length (seens : list Seen) = 1%nat.
Proof.
  destruct LifeDemo.asked as [block Hr]. exists block.
  assert (BootChainDemo.inv (HandoverDemo.start, BindDemo.blank)) as Hi by apply BindDemo.blank_ok.
  revert Hi. generalize (HandoverDemo.start, BindDemo.blank). intros w0 Hi.
  destruct (prepared_volume_keeps_its_data (C := ToyCrypto.api) (A := ToyAes.api) (WR := PrepareDemo.wire_of 0)
    BootChainDemo.kernel BootChainDemo.calls BootChainDemo.RNG BootChainDemo.counters id
    (fun _ => EmptyString) BootChainDemo.fw BootChainDemo.io BootChainDemo.inv BootChainDemo.view
    BootChainDemo.rd BootChainDemo.wr 1 60 1 9 50 100 BootChainDemo.guid BootChainDemo.handoff
    BootChainDemo.config LifeDemo.new_store BootChainDemo.data 5 [LifeDemo.second]
    block (LifeDemo.request block) 7 BindDemo.ext w0 PrepareDemo.volume_name (se_events LifeDemo.first)
    (LifeDemo.driver w0)
    HandoverDemo.laws HandoverDemo.pack_payload_laws HandoverDemo.pack_locator_laws ToyAes.laws
    BootChainDemo.io_laws BootChainDemo.io_reads BootChainDemo.firmware_ok BootChainDemo.works
    (BootChainDemo.fill_laws 4) BootChainDemo.fill_reliable BootChainDemo.start_calls
    BootChainDemo.chain_reported BootChainDemo.handoff_ok (fun _ => eq_refl) eq_refl
    eq_refl eq_refl (ex_intro _ 1%nat eq_refl) eq_refl eq_refl Hi (fun _ _ => eq_refl)
    LifeDemo.new_store_for Hr LifeDemo.volume_opens (LifeDemo.new_driver_ok w0) eq_refl eq_refl eq_refl eq_refl
    (proj2 (proj2 LifeDemo.first_ok))
    (Forall_cons_2 _ _ _ (LifeDemo.machine_on_new LifeDemo.second eq_refl) (Forall_nil_2 _))
    (Forall_cons_2 _ _ _ LifeDemo.second_ok (Forall_nil_2 _)))
    as (d' & resp & e & vt & pa & t & fs & gs & w' & seens & dec & P' & E & Hf & _ & _ & _ & _ & _ & Hl & Ha).
  exists d', resp, w', seens, dec, P'. split; [exact E|]. split; [exact Hf|]. split; [exact Ha|].
  inversion Hl as [|? ? ? ? ? ? ? _ Hl']. inversion Hl'. done.
Defined.
